(** * HopperKV: the HARE allocation engine and the cache request pipeline

    A shallow embedding of the parts of HopperKV that its specification
    makes claims about, and of the code around them, followed by the
    theorems that settle those claims and by further properties that the
    code shows.

    Modelling conventions.
    - A C++ [double] is an exact rational ([Q]): arithmetic is not rounded
      and neither an infinity nor a NaN exists.  Equalities between
      computed doubles are stated with [==].  A quotient by zero, an
      infinity or a NaN in C++, is 0 in [Q]: the model follows the source
      where no divisor is 0, and the theorems on [collect_idle], on the
      redistribution and on the conservation of the resources assume
      tenants for which none is.  A [uint64_t] that the source converts to
      [double] is taken to be below 2^53, where the conversion is exact.
    - A [uint64_t] is a [Z] in [0, 2^64); additions and subtractions that
      the source performs on it are reduced with [u64].  Likewise a
      [uint32_t] with [u32], and an [int32_t] is the [i32] of a 32-bit
      number.
    - A C++ exception, and undefined behaviour such as [back()] on an empty
      vector or an index outside a vector, are outcomes of the result type
      [res].  An [assert] is not part of the result (a release build).
    - A [std::vector<Tenant *>] holds indices into the tenant vector.
    - The loop of [do_memshare] has no bound in the source; the model
      bounds its passes by [fuel] and answers [Unfinished] at the bound.
    - What a command gets from outside the module, the parsers of the
      hosting runtime and [std::stoul], a file, the hash function of the
      platform and the time that the clock shows, is an argument of its
      model.
    - A string of the runtime and a [std::string] are a [string], which
      may hold a zero byte; a file is the list of its bytes.
    - Logging ([SPDLOG_*]) and the measurement of the run time have no
      model. *)

From Stdlib Require Import ZArith QArith Qabs Qround Qminmax Lia Lqa List String Sorted.
From stdpp Require Import base option list gmap strings.

Open Scope Z_scope.

(** ** Numbers *)

Definition u64 (x : Z) : Z := x mod 2 ^ 64.
Definition u32 (x : Z) : Z := x mod 2 ^ 32.

Definition Qltb (x y : Q) : bool := negb (Qle_bool y x).
Definition Qleb (x y : Q) : bool := Qle_bool x y.
Definition Qeqb (x y : Q) : bool := Qeq_bool x y.

(** ** Outcomes of a call *)

Inductive error : Type :=
| RuntimeError (msg : string)
| LogicError (msg : string)
| Undefined
| Unfinished.

Inductive res (A : Type) : Type :=
| Ok (a : A)
| Err (e : error).
Arguments Ok {A} a.
Arguments Err {A} e.

#[global] Instance res_ret : MRet res := fun A a => Ok a.
#[global] Instance res_bind : MBind res := fun A B f m =>
  match m with
  | Ok a => f a
  | Err e => Err e
  end.

Definition throws {A} (r : res A) : Prop :=
  exists msg, r = Err (RuntimeError msg) \/ r = Err (LogicError msg).

(** Element access of a [std::vector]. *)
Definition front {A} (v : list A) : res A :=
  match v with
  | x :: _ => Ok x
  | [] => Err Undefined
  end.

Definition back {A} (v : list A) : res A :=
  match last v with
  | Some x => Ok x
  | None => Err Undefined
  end.

Definition at_index {A} (v : list A) (i : nat) : res A :=
  match v !! i with
  | Some x => Ok x
  | None => Err Undefined
  end.

(** ** params.h, params.cpp *)

Module params.

  (** The globals that [set_*] can change at run time. *)
Record t : Type := mk {
    alloc_total_net_bw : bool;
    cache_delta : Z;
    min_cache_size : Z;
  }.

  (** The values of params.cpp. *)
Definition default : t :=
    {| alloc_total_net_bw := true;
       cache_delta := 4 * 1024 * 1024;
       min_cache_size := 4 * 1024 * 1024 |}.

Definition max_trade_round : nat := 10000.
Definition min_improve_ratio_delta : Q := 1 # 10000.
Definition max_miss_ratio : Q := 1.
Definition min_miss_ratio : Q := 0.
Definition reserved_ratio : Q := 1 # 2.

Definition db_rcu_epsilon : Q := 1 # 10000.
Definition db_wcu_epsilon : Q := 1 # 10000.
Definition net_bw_epsilon : Q := 1 # 10000.
  (** [std::numeric_limits<double>::epsilon()], 2^-52. *)
Definition epilson : Q := 1 # 4503599627370496.
Definition relinq_abort_offer : Q := 0.
  (** [std::numeric_limits<float>::max()]. *)
Definition compen_abort_offer : Q :=
    inject_Z 340282346638528859811704183484516925440.

Definition disable_interpolation_near_inf : bool := false.
Definition conservative_estimation_if_out_of_range : bool := true.

End params.

(** ** mrc.h *)

Module MissRatioCurve.

Record t : Type := mk {
    ticks : list Z;
    miss_ratios : list Q;
    miss_ratio_map : gmap Z Q;
  }.

  (** The constructors take the two vectors; the memo starts empty. *)
Definition make (ticks : list Z) (miss_ratios : list Q) : t :=
    {| ticks := ticks; miss_ratios := miss_ratios; miss_ratio_map := ∅ |}.

Definition interpolate (l_val r_val : Q) (l_dist r_dist : Z) : Q :=
    if params.disable_interpolation_near_inf
       && Qltb (1 - l_val) params.epilson
    then 1%Q
    else
      let total_dist := inject_Z (u64 (l_dist + r_dist)) in
      let l_ratio := (inject_Z r_dist / total_dist)%Q in
      let r_ratio := (inject_Z l_dist / total_dist)%Q in
      (l_val * l_ratio + r_val * r_ratio)%Q.

  (** [std::lower_bound]: the position of the first element that is not
      less than [x], the length of the vector when there is none. *)
Fixpoint lower_bound (v : list Z) (x : Z) : nat :=
    match v with
    | [] => O
    | e :: v' => if e <? x then S (lower_bound v' x) else O
    end.

  (** The flag [conservative] is
      [params::mrc::conservative_estimation_if_out_of_range]. *)
Definition get_miss_ratio_const (conservative : bool) (c : t)
      (cache_size : Z) : res Q :=
    ticks_back ← back (ticks c);
    if ticks_back <? cache_size then
      if conservative then back (miss_ratios c)
      else Err (RuntimeError "cache_size out of range")
    else
      ticks_front ← front (ticks c);
      if cache_size <? ticks_front then
        mr_front ← front (miss_ratios c);
        Ok (interpolate 1 mr_front cache_size (u64 (ticks_front - cache_size)))
      else
        let tick_idx := lower_bound (ticks c) cache_size in
        tick ← at_index (ticks c) tick_idx;
        if cache_size =? tick then at_index (miss_ratios c) tick_idx
        else
          l_val ← at_index (miss_ratios c) (tick_idx - 1);
          r_val ← at_index (miss_ratios c) tick_idx;
          l_tick ← at_index (ticks c) (tick_idx - 1);
          Ok (interpolate l_val r_val (u64 (cache_size - l_tick))
                (u64 (tick - cache_size))).

Definition get_miss_ratio (conservative : bool) (c : t) (cache_size : Z)
      : res (Q * t) :=
    match miss_ratio_map c !! cache_size with
    | Some mr => Ok (mr, c)
    | None =>
        miss_ratio ← get_miss_ratio_const conservative c cache_size;
        Ok (miss_ratio,
            {| ticks := ticks c;
               miss_ratios := miss_ratios c;
               miss_ratio_map := <[cache_size := miss_ratio]> (miss_ratio_map c) |})
    end.

Fixpoint check_sanity_loop (ts : list Z) (mrs : list Q)
      (min_tick max_tick : Z) (min_mr max_mr : Q) : res unit :=
    match ts with
    | [] => Ok tt
    | tk :: ts' =>
        mr ← front mrs;
        if (tk <? min_tick) || (max_tick <? tk) then
          Err (LogicError "tick is out of range")
        else if Qltb mr min_mr || Qltb max_mr mr then
          Err (LogicError "miss_ratio is out of range")
        else check_sanity_loop ts' (tail mrs) tk max_tick min_mr mr
    end.

Definition check_sanity (c : t) : res unit :=
    match ticks c with
    | [] => Err (LogicError "ticks is empty")
    | _ =>
        if negb (length (ticks c) =? length (miss_ratios c))%nat then
          Err (LogicError "ticks.size() and miss_ratios.size() mismatches")
        else
          min_tick ← front (ticks c);
          max_tick ← back (ticks c);
          check_sanity_loop (ticks c) (miss_ratios c) min_tick max_tick 0%Q 1%Q
    end.

End MissRatioCurve.

(** ** resrc.h *)

Module StatelessResrcVec.

Record t : Type := mk {
    db_rcu : Q;
    db_wcu : Q;
    net_bw : Q;
  }.

Definition zero : t := mk 0 0 0.

Definition is_almost_empty (a : t) : bool :=
    Qltb (Qabs (db_rcu a)) params.db_rcu_epsilon
    && Qltb (Qabs (db_wcu a)) params.db_wcu_epsilon
    && Qltb (Qabs (net_bw a)) params.net_bw_epsilon.

Definition add (a b : t) : t :=
    mk (db_rcu a + db_rcu b) (db_wcu a + db_wcu b) (net_bw a + net_bw b).

Definition sub (a b : t) : t :=
    mk (db_rcu a - db_rcu b) (db_wcu a - db_wcu b) (net_bw a - net_bw b).

Definition is_almost_equal (a b : t) : bool := is_almost_empty (sub a b).

  (** [std::min] of an initializer list: the leftmost smallest value. *)
Definition min3 (x y z : Q) : Q :=
    let m := if Qltb y x then y else x in
    if Qltb z m then z else m.

  (** [operator/(const StatelessResrcVec &)], the min-ratio quotient.
      Where a divisor is 0 the source gets an infinity, which [std::min]
      passes over unless it comes first, or a NaN; the quotient of the
      rationals is 0 there, so that the model follows the source for
      divisors other than 0 only. *)
Definition ratio (a b : t) : Q :=
    min3 (db_rcu a / db_rcu b) (db_wcu a / db_wcu b) (net_bw a / net_bw b).

  (** [operator*(double)]. *)
Definition scale (a : t) (scale_factor : Q) : t :=
    mk (db_rcu a * scale_factor) (db_wcu a * scale_factor)
       (net_bw a * scale_factor).

End StatelessResrcVec.

Module ResrcVec.

Record t : Type := mk {
    cache_size : Z;
    stateless : StatelessResrcVec.t;
  }.

Definition zero : t := mk 0 StatelessResrcVec.zero.

  (** [operator+=(const ResrcVec &)]. *)
Definition add (a b : t) : t :=
    mk (u64 (cache_size a + cache_size b))
       (StatelessResrcVec.add (stateless a) (stateless b)).

End ResrcVec.

(** ** tenant.h *)

Module Tenant.

Record t : Type := mk {
    t_idx : nat;
    demand_cacheless : StatelessResrcVec.t;
    resrc : ResrcVec.t;
    mrc : MissRatioCurve.t;
    net_bw_alpha : Q;
    rcu_delta_relinq : Q;
    rcu_delta_compen : Q;
    net_delta_relinq : Q;
    net_delta_compen : Q;
    mr_inc_if_more_cache : Q;
    mr_dec_if_less_cache : Q;
    reserved_cache_size : Z;
  }.

  (** The constructors.  [reserved_cache_size] is the product of the
      cache size and [reserved_ratio], computed in [double] and truncated:
      the half of the cache size, rounded down, as long as the cache size
      is below 2^53. *)
Definition make (t_idx : nat) (demand_cacheless : StatelessResrcVec.t)
      (base_resrc : ResrcVec.t) (mrc : MissRatioCurve.t) (net_bw_alpha : Q)
      : t :=
    {| t_idx := t_idx;
       demand_cacheless := demand_cacheless;
       resrc := base_resrc;
       mrc := mrc;
       net_bw_alpha := net_bw_alpha;
       rcu_delta_relinq := 0;
       rcu_delta_compen := 0;
       net_delta_relinq := 0;
       net_delta_compen := 0;
       mr_inc_if_more_cache := 0;
       mr_dec_if_less_cache := 0;
       reserved_cache_size :=
         Qfloor (inject_Z (ResrcVec.cache_size base_resrc)
                 * params.reserved_ratio) |}.

  (** Assignments to one member. *)
Definition set_resrc (a : t) (r : ResrcVec.t) : t :=
    mk (t_idx a) (demand_cacheless a) r (mrc a) (net_bw_alpha a)
       (rcu_delta_relinq a) (rcu_delta_compen a) (net_delta_relinq a)
       (net_delta_compen a) (mr_inc_if_more_cache a) (mr_dec_if_less_cache a)
       (reserved_cache_size a).

Definition set_mrc (a : t) (m : MissRatioCurve.t) : t :=
    mk (t_idx a) (demand_cacheless a) (resrc a) m (net_bw_alpha a)
       (rcu_delta_relinq a) (rcu_delta_compen a) (net_delta_relinq a)
       (net_delta_compen a) (mr_inc_if_more_cache a) (mr_dec_if_less_cache a)
       (reserved_cache_size a).

Definition set_rcu_delta_relinq (a : t) (x : Q) : t :=
    mk (t_idx a) (demand_cacheless a) (resrc a) (mrc a) (net_bw_alpha a)
       x (rcu_delta_compen a) (net_delta_relinq a)
       (net_delta_compen a) (mr_inc_if_more_cache a) (mr_dec_if_less_cache a)
       (reserved_cache_size a).

Definition set_rcu_delta_compen (a : t) (x : Q) : t :=
    mk (t_idx a) (demand_cacheless a) (resrc a) (mrc a) (net_bw_alpha a)
       (rcu_delta_relinq a) x (net_delta_relinq a)
       (net_delta_compen a) (mr_inc_if_more_cache a) (mr_dec_if_less_cache a)
       (reserved_cache_size a).

Definition set_net_delta_relinq (a : t) (x : Q) : t :=
    mk (t_idx a) (demand_cacheless a) (resrc a) (mrc a) (net_bw_alpha a)
       (rcu_delta_relinq a) (rcu_delta_compen a) x
       (net_delta_compen a) (mr_inc_if_more_cache a) (mr_dec_if_less_cache a)
       (reserved_cache_size a).

Definition set_net_delta_compen (a : t) (x : Q) : t :=
    mk (t_idx a) (demand_cacheless a) (resrc a) (mrc a) (net_bw_alpha a)
       (rcu_delta_relinq a) (rcu_delta_compen a) (net_delta_relinq a)
       x (mr_inc_if_more_cache a) (mr_dec_if_less_cache a)
       (reserved_cache_size a).

Definition set_mr_delta (a : t) (mr_inc mr_dec : Q) : t :=
    mk (t_idx a) (demand_cacheless a) (resrc a) (mrc a) (net_bw_alpha a)
       (rcu_delta_relinq a) (rcu_delta_compen a) (net_delta_relinq a)
       (net_delta_compen a) mr_inc mr_dec (reserved_cache_size a).

Definition set_cache_size (a : t) (c : Z) : t :=
    set_resrc a (ResrcVec.mk c (ResrcVec.stateless (resrc a))).

Definition set_stateless (a : t) (s : StatelessResrcVec.t) : t :=
    set_resrc a (ResrcVec.mk (ResrcVec.cache_size (resrc a)) s).

Definition cache_size (a : t) : Z := ResrcVec.cache_size (resrc a).
Definition stateless (a : t) : StatelessResrcVec.t :=
    ResrcVec.stateless (resrc a).

Definition get_resrc (a : t) : ResrcVec.t := resrc a.

  (** [mrc.get_miss_ratio(size)], which also fills the memo of the curve. *)
Definition miss_ratio (a : t) (size : Z) : res (Q * t) :=
    '(mr, m) ← MissRatioCurve.get_miss_ratio
                 params.conservative_estimation_if_out_of_range (mrc a) size;
    Ok (mr, set_mrc a m).

  (** The demand vector that [collect_idle] projects under the miss ratio
      [mr]. *)
Definition projected_demand (p : params.t) (a : t) (mr : Q)
      : StatelessResrcVec.t :=
    let demand := demand_cacheless a in
    let db_rcu := (StatelessResrcVec.db_rcu demand * mr)%Q in
    let net_bw :=
      if params.alloc_total_net_bw p
      then (StatelessResrcVec.net_bw demand
            * (mr + ((1 - net_bw_alpha a) * (1 - mr))))%Q
      else StatelessResrcVec.net_bw demand in
    StatelessResrcVec.mk db_rcu (StatelessResrcVec.db_wcu demand) net_bw.

Definition collect_idle (p : params.t) (a : t)
      : res (StatelessResrcVec.t * t) :=
    '(mr, a) ← miss_ratio a (cache_size a);
    let demand := projected_demand p a mr in
    let tp := StatelessResrcVec.ratio (stateless a) demand in
    let used := StatelessResrcVec.scale demand tp in
    let idle := StatelessResrcVec.sub (stateless a) used in
    Ok (idle, set_stateless a used).

Definition abort_relinq_offer (p : params.t) (a : t) : t :=
    let a := set_rcu_delta_relinq a params.relinq_abort_offer in
    if params.alloc_total_net_bw p
    then set_net_delta_relinq a params.relinq_abort_offer
    else a.

  (** A test of a miss ratio against [infinity()] is never true of a
      rational and is left out. *)
Definition pred_rcu_net_delta_if_more_cache (p : params.t) (a : t)
      (cache_delta : Z) : res t :=
    '(curr_mr, a) ← miss_ratio a (cache_size a);
    if Qleb curr_mr params.epilson then Ok (abort_relinq_offer p a)
    else
      '(pred_mr, a) ← miss_ratio a (u64 (cache_size a + cache_delta));
      if Qltb pred_mr params.min_miss_ratio then Ok (abort_relinq_offer p a)
      else
        let delta_mr := (curr_mr - pred_mr)%Q in
        if Qleb delta_mr params.epilson then Ok (abort_relinq_offer p a)
        else
          let a :=
            set_rcu_delta_relinq a
              (StatelessResrcVec.db_rcu (stateless a) * delta_mr / curr_mr) in
          Ok (if params.alloc_total_net_bw p
              then set_net_delta_relinq a
                     (StatelessResrcVec.net_bw (stateless a) * delta_mr
                      * net_bw_alpha a
                      / (curr_mr * net_bw_alpha a + 1 - net_bw_alpha a))
              else a).

Definition abort_compen_offer (p : params.t) (a : t) : t :=
    let a := set_rcu_delta_compen a params.compen_abort_offer in
    if params.alloc_total_net_bw p
    then set_net_delta_compen a params.compen_abort_offer
    else a.

Definition immediate_compen_offer (p : params.t) (a : t) : t :=
    let a := set_rcu_delta_compen a 0 in
    if params.alloc_total_net_bw p then set_net_delta_compen a 0 else a.

Definition pred_rcu_net_delta_if_less_cache (p : params.t) (a : t)
      (cache_delta : Z) : res t :=
    if cache_size a <? u64 (params.min_cache_size p + cache_delta)
    then Ok (abort_compen_offer p a)
    else
      '(curr_mr, a) ← miss_ratio a (cache_size a);
      '(pred_mr, a) ← miss_ratio a (u64 (cache_size a - cache_delta));
      if Qltb params.max_miss_ratio pred_mr then Ok (abort_compen_offer p a)
      else
        let delta_mr := (pred_mr - curr_mr)%Q in
        if Qleb delta_mr params.epilson then Ok (immediate_compen_offer p a)
        else if Qleb pred_mr params.epilson
        then Ok (immediate_compen_offer p a)
        else if Qleb curr_mr params.epilson then Ok (abort_compen_offer p a)
        else
          let a :=
            set_rcu_delta_compen a
              (StatelessResrcVec.db_rcu (stateless a) * delta_mr / curr_mr) in
          let a := set_net_delta_compen a 0 in
          Ok (if params.alloc_total_net_bw p
              then set_net_delta_compen a
                     (StatelessResrcVec.net_bw (stateless a) * delta_mr
                      * net_bw_alpha a
                      / (curr_mr * net_bw_alpha a + 1 - net_bw_alpha a))
              else a).

Definition update_rcu_net_delta (p : params.t) (a : t) : res t :=
    a ← pred_rcu_net_delta_if_more_cache p a (params.cache_delta p);
    pred_rcu_net_delta_if_less_cache p a (params.cache_delta p).

Definition update_mr_delta (p : params.t) (a : t) : res t :=
    '(curr_mr, a) ← miss_ratio a (cache_size a);
    '(more_mr, a) ← miss_ratio a (u64 (cache_size a + params.cache_delta p));
    '(less_mr, a) ← miss_ratio a (u64 (cache_size a - params.cache_delta p));
    Ok (set_mr_delta a (curr_mr - more_mr) (less_mr - curr_mr)).

Definition can_donate (a : t) (delta : Z) : bool :=
    u64 (reserved_cache_size a + delta) <=? cache_size a.

Definition scale_stateless_resrc (a : t) (scale_factor : Q) : t :=
    set_stateless a (StatelessResrcVec.scale (stateless a) scale_factor).

Definition scale_stateless_resrc_by_owned (a : t)
      (avail sum : StatelessResrcVec.t) (even_denom : nat) : t :=
    let own := stateless a in
    let even := (1 / inject_Z (Z.of_nat even_denom))%Q in
    let db_rcu_factor :=
      if negb (Qeqb (StatelessResrcVec.db_rcu sum) 0)
      then (StatelessResrcVec.db_rcu own / StatelessResrcVec.db_rcu sum)%Q
      else even in
    let db_wcu_factor :=
      if negb (Qeqb (StatelessResrcVec.db_wcu sum) 0)
      then (StatelessResrcVec.db_wcu own / StatelessResrcVec.db_wcu sum)%Q
      else even in
    let net_bw_factor :=
      if negb (Qeqb (StatelessResrcVec.net_bw sum) 0)
      then (StatelessResrcVec.net_bw own / StatelessResrcVec.net_bw sum)%Q
      else even in
    set_stateless a
      (StatelessResrcVec.mk
         (StatelessResrcVec.db_rcu own
          + StatelessResrcVec.db_rcu avail * db_rcu_factor)
         (StatelessResrcVec.db_wcu own
          + StatelessResrcVec.db_wcu avail * db_wcu_factor)
         (StatelessResrcVec.net_bw own
          + StatelessResrcVec.net_bw avail * net_bw_factor)).

  (** The tenant behind a [Tenant *], and an update through it. *)
Definition modify (ts : list t) (i : nat) (f : t -> res t) : res (list t) :=
    a ← at_index ts i;
    a' ← f a;
    Ok (<[i := a']> ts).

Definition relocate_cache (p : params.t) (ts : list t)
      (t_receiver t_donator : nat) : res (list t) :=
    ts ← modify ts t_receiver (fun a =>
           Ok (set_cache_size a (u64 (cache_size a + params.cache_delta p))));
    modify ts t_donator (fun a =>
      Ok (set_cache_size a (u64 (cache_size a - params.cache_delta p)))).

Definition relocate_resrc (p : params.t) (ts : list t)
      (t_relinq t_compen : nat)
      (rcu_relinq rcu_compen net_relinq net_compen : Q) : res (list t) :=
    ts ← modify ts t_compen (fun a =>
           Ok (set_cache_size a (u64 (cache_size a - params.cache_delta p))));
    ts ← modify ts t_relinq (fun a =>
           Ok (set_cache_size a (u64 (cache_size a + params.cache_delta p))));
    ts ← modify ts t_compen (fun a =>
           let s := stateless a in
           Ok (set_stateless a
                 (StatelessResrcVec.mk
                    (StatelessResrcVec.db_rcu s + rcu_compen)
                    (StatelessResrcVec.db_wcu s)
                    (StatelessResrcVec.net_bw s))));
    ts ← modify ts t_relinq (fun a =>
           let s := stateless a in
           Ok (set_stateless a
                 (StatelessResrcVec.mk
                    (StatelessResrcVec.db_rcu s - rcu_relinq)
                    (StatelessResrcVec.db_wcu s)
                    (StatelessResrcVec.net_bw s))));
    if params.alloc_total_net_bw p then
      ts ← modify ts t_compen (fun a =>
             let s := stateless a in
             Ok (set_stateless a
                   (StatelessResrcVec.mk
                      (StatelessResrcVec.db_rcu s)
                      (StatelessResrcVec.db_wcu s)
                      (StatelessResrcVec.net_bw s + net_compen))));
      modify ts t_relinq (fun a =>
        let s := stateless a in
        Ok (set_stateless a
              (StatelessResrcVec.mk
                 (StatelessResrcVec.db_rcu s)
                 (StatelessResrcVec.db_wcu s)
                 (StatelessResrcVec.net_bw s - net_relinq))))
    else Ok ts.

Definition aggregate_resrc (ts : list t) : StatelessResrcVec.t :=
    fold_left (fun sum a => StatelessResrcVec.add sum (stateless a)) ts
      StatelessResrcVec.zero.

End Tenant.

(** ** alloc.h *)

(** [std::max_element] and [std::min_element] with a comparison: the
    position of the first largest (smallest) element, the end of the range
    when the range is empty. *)
Fixpoint max_element_from {A} (comp : A -> A -> bool) (largest : A)
    (largest_pos pos : nat) (l : list A) : nat :=
  match l with
  | [] => largest_pos
  | x :: l' =>
      if comp largest x then max_element_from comp x pos (S pos) l'
      else max_element_from comp largest largest_pos (S pos) l'
  end.

Definition max_element {A} (comp : A -> A -> bool) (l : list A) : nat :=
  match l with
  | [] => O
  | x :: l' => max_element_from comp x O 1%nat l'
  end.

Fixpoint min_element_from {A} (comp : A -> A -> bool) (smallest : A)
    (smallest_pos pos : nat) (l : list A) : nat :=
  match l with
  | [] => smallest_pos
  | x :: l' =>
      if comp x smallest then min_element_from comp x pos (S pos) l'
      else min_element_from comp smallest smallest_pos (S pos) l'
  end.

Definition min_element {A} (comp : A -> A -> bool) (l : list A) : nat :=
  match l with
  | [] => O
  | x :: l' => min_element_from comp x O 1%nat l'
  end.

(** [std::iter_swap] of two positions of one vector. *)
Definition iter_swap {A} (l : list A) (i j : nat) : res (list A) :=
  x ← at_index l i;
  y ← at_index l j;
  Ok (<[i := y]> (<[j := x]> l)).

(** [std::sort] with a comparison.  The standard leaves the order of
    equivalent elements open; this is the insertion sort that libstdc++
    runs on a vector of 16 elements or fewer, which keeps their order: an
    element passes the elements that are less than it and stops before the
    first that is not. *)
Fixpoint sort_insert {A} (comp : A -> A -> bool) (x : A) (l : list A)
    : list A :=
  match l with
  | [] => [x]
  | y :: l' => if comp y x then y :: sort_insert comp x l' else x :: l
  end.

Definition sort {A} (comp : A -> A -> bool) (l : list A) : list A :=
  fold_right (sort_insert comp) [] l.

Module Allocator.

Record t : Type := mk {
    policy_harvest : bool;
    policy_conserving : bool;
    policy_memshare : bool;
    tenants : list Tenant.t;
    total_resrc : ResrcVec.t;
  }.

Definition make (harvest conserving memshare : bool) : t :=
    mk harvest conserving memshare [] ResrcVec.zero.

  (** The default arguments of the constructor. *)
Definition default : t := make true true false.

Definition set_tenants (a : t) (ts : list Tenant.t) : t :=
    mk (policy_harvest a) (policy_conserving a) (policy_memshare a) ts
       (total_resrc a).

Definition add_tenant (a : t) (demand_cacheless : StatelessResrcVec.t)
      (base_resrc : ResrcVec.t) (mrc : MissRatioCurve.t) (net_bw_alpha : Q)
      : nat * t :=
    let t_idx := length (tenants a) in
    (t_idx,
     mk (policy_harvest a) (policy_conserving a) (policy_memshare a)
        (tenants a
         ++ [Tenant.make t_idx demand_cacheless base_resrc mrc net_bw_alpha])
        (ResrcVec.add (total_resrc a) base_resrc)).

Definition get_alloc_result (a : t) : list ResrcVec.t :=
    map Tenant.get_resrc (tenants a).

  (** The tenants behind a vector of [Tenant *]. *)
Fixpoint deref (ts : list Tenant.t) (l : list nat) : res (list Tenant.t) :=
    match l with
    | [] => Ok []
    | i :: l' =>
        a ← at_index ts i;
        rest ← deref ts l';
        Ok (a :: rest)
    end.

Definition estimate_bottleneck (a : t) (resrc_avail : StatelessResrcVec.t)
      : Q * bool * bool :=
    let resrc_sum :=
      StatelessResrcVec.sub (ResrcVec.stateless (total_resrc a)) resrc_avail in
    let estimated_improve_ratio :=
      StatelessResrcVec.ratio resrc_avail resrc_sum in
    (estimated_improve_ratio,
     Qeqb estimated_improve_ratio
       (StatelessResrcVec.db_rcu resrc_avail
        / StatelessResrcVec.db_rcu resrc_sum),
     Qeqb estimated_improve_ratio
       (StatelessResrcVec.net_bw resrc_avail
        / StatelessResrcVec.net_bw resrc_sum)).

Definition less_rcu_relinq (lhs rhs : Tenant.t) : bool :=
    Qltb (Tenant.rcu_delta_relinq lhs) (Tenant.rcu_delta_relinq rhs).
Definition less_rcu_compen (lhs rhs : Tenant.t) : bool :=
    Qltb (Tenant.rcu_delta_compen lhs) (Tenant.rcu_delta_compen rhs).
Definition less_net_relinq (lhs rhs : Tenant.t) : bool :=
    Qltb (Tenant.net_delta_relinq lhs) (Tenant.net_delta_relinq rhs).
Definition less_net_compen (lhs rhs : Tenant.t) : bool :=
    Qltb (Tenant.net_delta_compen lhs) (Tenant.net_delta_compen rhs).

  (** The local variables of [do_harvest]. *)
Record harvest : Type := mk_harvest {
    resrc_avail : StatelessResrcVec.t;
    prev_estimated_improve_ratio : Q;
    is_rcu_bottleneck : bool;
    is_net_bottleneck : bool;
    rcu_relinq_list : list nat;
    rcu_compen_list : list nat;
    net_relinq_list : list nat;
    net_compen_list : list nat;
    trade_round : nat;
  }.

  (** The choice of the two parties of a deal from one pair of lists:
      the relinquishing tenant, the compensating tenant, and the list of
      compensators, which the choice may reorder. *)
Definition pick_deal (ts : list Tenant.t) (relinq_list compen_list : list nat)
      (less_relinq less_compen : Tenant.t -> Tenant.t -> bool)
      : res (nat * nat * list nat) :=
    relinq_ts ← deref ts relinq_list;
    compen_ts ← deref ts compen_list;
    let it_relinq := max_element less_relinq relinq_ts in
    let it_compen := min_element less_compen compen_ts in
    t_relinq ← at_index relinq_list it_relinq;
    t_compen ← at_index compen_list it_compen;
    if (t_relinq =? t_compen)%nat then
      compen_list ← iter_swap compen_list it_compen O;
      compen_ts ← deref ts compen_list;
      let it_compen := S (min_element less_compen (tail compen_ts)) in
      t_compen ← at_index compen_list it_compen;
      Ok (t_relinq, t_compen, compen_list)
    else Ok (t_relinq, t_compen, compen_list).

  (** One pass through the body of the trading loop: [None] is a [break]. *)
Definition harvest_round (p : params.t) (a : t) (h : harvest)
      : res (option (t * harvest)) :=
    deal ←
      (if is_rcu_bottleneck h then
         '(t_relinq, t_compen, l) ←
           pick_deal (tenants a) (rcu_relinq_list h) (rcu_compen_list h)
             less_rcu_relinq less_rcu_compen;
         Ok (Some (t_relinq, t_compen, l, net_compen_list h))
       else if params.alloc_total_net_bw p && is_net_bottleneck h then
         '(t_relinq, t_compen, l) ←
           pick_deal (tenants a) (net_relinq_list h) (net_compen_list h)
             less_net_relinq less_net_compen;
         Ok (Some (t_relinq, t_compen, rcu_compen_list h, l))
       else Ok None);
    match deal with
    | None => Ok None
    | Some (t_relinq, t_compen, rcu_compen_list', net_compen_list') =>
        relinq ← at_index (tenants a) t_relinq;
        compen ← at_index (tenants a) t_compen;
        let rcu_delta_relinq := Tenant.rcu_delta_relinq relinq in
        let net_delta_relinq := Tenant.net_delta_relinq relinq in
        let rcu_delta_compen := Tenant.rcu_delta_compen compen in
        let net_delta_compen := Tenant.net_delta_compen compen in
        let rcu_profit := (rcu_delta_relinq - rcu_delta_compen)%Q in
        let net_profit := (net_delta_relinq - net_delta_compen)%Q in
        let resrc_if_deal :=
          StatelessResrcVec.mk
            (StatelessResrcVec.db_rcu (resrc_avail h) + rcu_profit)
            (StatelessResrcVec.db_wcu (resrc_avail h))
            (StatelessResrcVec.net_bw (resrc_avail h) + net_profit) in
        let '(curr_estimated_improve_ratio, is_rcu, is_net) :=
          estimate_bottleneck a resrc_if_deal in
        if Qltb (curr_estimated_improve_ratio - prev_estimated_improve_ratio h)
                params.min_improve_ratio_delta
        then Ok None
        else
          ts ← Tenant.relocate_resrc p (tenants a) t_relinq t_compen
                 rcu_delta_relinq rcu_delta_compen
                 net_delta_relinq net_delta_compen;
          ts ← Tenant.modify ts t_relinq (Tenant.update_rcu_net_delta p);
          ts ← Tenant.modify ts t_compen (Tenant.update_rcu_net_delta p);
          Ok (Some (set_tenants a ts,
                    {| resrc_avail := resrc_if_deal;
                       prev_estimated_improve_ratio :=
                         curr_estimated_improve_ratio;
                       is_rcu_bottleneck := is_rcu;
                       is_net_bottleneck := is_net;
                       rcu_relinq_list := rcu_relinq_list h;
                       rcu_compen_list := rcu_compen_list';
                       net_relinq_list := net_relinq_list h;
                       net_compen_list := net_compen_list';
                       trade_round := S (trade_round h) |}))
    end.

  (** The trading loop; [rounds_left] is
      [max_trade_round - trade_round]. *)
Fixpoint harvest_loop (p : params.t) (rounds_left : nat) (a : t)
      (h : harvest) : res (t * harvest) :=
    match rounds_left with
    | O => Ok (a, h)
    | S k =>
        r ← harvest_round p a h;
        match r with
        | None => Ok (a, h)
        | Some (a', h') => harvest_loop p k a' h'
        end
    end.

Fixpoint update_all (f : Tenant.t -> res Tenant.t) (ts : list Tenant.t)
      : res (list Tenant.t) :=
    match ts with
    | [] => Ok []
    | a :: ts' =>
        a' ← f a;
        rest ← update_all f ts';
        Ok (a' :: rest)
    end.

  (** [do_harvest]: the allocator and the locals at the end of the loop,
      whose [resrc_avail] is the reference argument of the source. *)
Definition do_harvest (p : params.t) (a : t)
      (resrc_avail : StatelessResrcVec.t) : res (t * harvest) :=
    let '(prev, is_rcu, is_net) := estimate_bottleneck a resrc_avail in
    ts ← update_all (Tenant.update_rcu_net_delta p) (tenants a);
    let all := seq 0 (length ts) in
    let net_all := if params.alloc_total_net_bw p then all else [] in
    harvest_loop p params.max_trade_round (set_tenants a ts)
      {| resrc_avail := resrc_avail;
         prev_estimated_improve_ratio := prev;
         is_rcu_bottleneck := is_rcu;
         is_net_bottleneck := is_net;
         rcu_relinq_list := all;
         rcu_compen_list := all;
         net_relinq_list := net_all;
         net_compen_list := net_all;
         trade_round := O |}.

  (** [do_redistribute]: the improvement ratio, the allocator and the value
      left in the reference argument [resrc_avail]. *)
Definition do_redistribute (a : t) (resrc_avail : StatelessResrcVec.t)
      : Q * t * StatelessResrcVec.t :=
    let resrc_sum :=
      StatelessResrcVec.sub (ResrcVec.stateless (total_resrc a)) resrc_avail in
    let improve_ratio := StatelessResrcVec.ratio resrc_avail resrc_sum in
    if policy_conserving a then
      let ts :=
        map (fun x =>
               Tenant.scale_stateless_resrc_by_owned x resrc_avail resrc_sum
                 (length (tenants a)))
            (tenants a) in
      (improve_ratio, set_tenants a ts, StatelessResrcVec.zero)
    else
      let scale_factor := (1 + improve_ratio)%Q in
      let ts :=
        map (fun x => Tenant.scale_stateless_resrc x scale_factor)
            (tenants a) in
      let resrc_sum := Tenant.aggregate_resrc ts in
      (improve_ratio, set_tenants a ts,
       StatelessResrcVec.sub (ResrcVec.stateless (total_resrc a)) resrc_sum).

Definition less_mr_inc (lhs rhs : Tenant.t) : bool :=
    Qltb (Tenant.mr_inc_if_more_cache lhs) (Tenant.mr_dec_if_less_cache rhs).
Definition less_mr_dec (lhs rhs : Tenant.t) : bool :=
    Qltb (Tenant.mr_dec_if_less_cache lhs) (Tenant.mr_dec_if_less_cache rhs).

  (** The search of the inner [for] loop of [do_memshare]: the first
      pointer of the list that is not the receiver and can donate. *)
Fixpoint find_donator (p : params.t) (ts : list Tenant.t) (receiver : nat)
      (l : list nat) : res (option nat) :=
    match l with
    | [] => Ok None
    | i :: l' =>
        if (receiver =? i)%nat then find_donator p ts receiver l'
        else
          x ← at_index ts i;
          if Tenant.can_donate x (params.cache_delta p) then Ok (Some i)
          else find_donator p ts receiver l'
    end.

  (** One pass through the body of the loop of [do_memshare]: the
      allocator, the list [cache_less_list] and whether the loop goes on. *)
Definition memshare_round (p : params.t) (a : t)
      (cache_more_list cache_less_list : list nat)
      : res (t * list nat * bool) :=
    ts ← update_all (Tenant.update_mr_delta p) (tenants a);
    let a := set_tenants a ts in
    more_ts ← deref ts cache_more_list;
    let it_receiver := max_element less_mr_inc more_ts in
    receiver ← at_index cache_more_list it_receiver;
    less_ts ← deref ts cache_less_list;
    let cache_less_list :=
      (sort (fun x y => less_mr_dec (snd x) (snd y))
            (zip cache_less_list less_ts)).*1 in
    donator ← find_donator p ts receiver cache_less_list;
    match donator with
    | None => Ok (a, cache_less_list, false)
    | Some donator =>
        r ← at_index ts receiver;
        d ← at_index ts donator;
        let mr_inc := Tenant.mr_inc_if_more_cache r in
        let mr_dec := Tenant.mr_dec_if_less_cache d in
        if Qltb mr_dec mr_inc then
          ts ← Tenant.relocate_cache p ts receiver donator;
          Ok (set_tenants a ts, cache_less_list, true)
        else Ok (a, cache_less_list, false)
    end.

  (** The loop of [do_memshare] has no bound of its own: [fuel] bounds the
      passes of the model, and running out of it is [Unfinished]. *)
Fixpoint memshare_loop (p : params.t) (fuel : nat) (a : t)
      (cache_more_list cache_less_list : list nat) (trade_round : nat)
      : res (t * nat) :=
    match fuel with
    | O => Err Unfinished
    | S k =>
        '(a, cache_less_list, again) ←
          memshare_round p a cache_more_list cache_less_list;
        if (again : bool)
        then memshare_loop p k a cache_more_list cache_less_list
               (S trade_round)
        else Ok (a, trade_round)
    end.

Definition do_memshare (p : params.t) (fuel : nat) (a : t) : res (t * nat) :=
    let all := seq 0 (length (tenants a)) in
    memshare_loop p fuel a all all O.

  (** The loop of [do_alloc] over the tenants that pools the idle
      resources. *)
Fixpoint collect_idle_all (p : params.t) (ts : list Tenant.t)
      (resrc_avail : StatelessResrcVec.t)
      : res (list Tenant.t * StatelessResrcVec.t) :=
    match ts with
    | [] => Ok ([], resrc_avail)
    | a :: ts' =>
        '(resrc_idle, a') ← Tenant.collect_idle p a;
        '(rest, resrc_avail) ←
          collect_idle_all p ts' (StatelessResrcVec.add resrc_avail resrc_idle);
        Ok (a' :: rest, resrc_avail)
    end.

  (** [do_alloc] together with the two round counts that it logs: the
      improvement ratio, the allocator, the rounds of [do_memshare] and the
      rounds of [do_harvest]. *)
Definition do_alloc_traced (p : params.t) (fuel : nat) (a : t)
      : res (Q * t * nat * nat) :=
    let improve_ratio := 0%Q in
    if (length (tenants a) <=? 1)%nat then Ok (improve_ratio, a, O, O)
    else
      '(a, memshare_rounds) ←
        (if policy_memshare a then do_memshare p fuel a else Ok (a, O));
      '(ts, resrc_avail) ←
        collect_idle_all p (tenants a) StatelessResrcVec.zero;
      let a := set_tenants a ts in
      '(a, resrc_avail, harvest_rounds) ←
        (if policy_harvest a then
           '(a, h) ← do_harvest p a resrc_avail;
           Ok (a, Allocator.resrc_avail h, trade_round h)
         else Ok (a, resrc_avail, O));
      if StatelessResrcVec.is_almost_empty resrc_avail
      then Ok (improve_ratio, a, memshare_rounds, harvest_rounds)
      else
        let '(improve_ratio, a, resrc_avail) := do_redistribute a resrc_avail in
        Ok (improve_ratio, a, memshare_rounds, harvest_rounds).

Definition do_alloc (p : params.t) (fuel : nat) (a : t) : res (Q * t) :=
    '(improve_ratio, a, _, _) ← do_alloc_traced p fuel a;
    Ok (improve_ratio, a).

End Allocator.

(** ** redis_module *)

Module hopper.

  (** *** config.h *)
Module config.
Definition alloc_total_net_bw : bool := true.
Definition enable_inflight_dedup : bool := true.
Definition kv_size_decay_rate : Q := 99 # 100.
End config.

  (** *** utils.h *)
Module utils.

    (** [std::strncmp] on a string of the runtime, which has a length and
        may hold any byte, and a C string, which ends at its first zero
        byte: the bytes are compared as unsigned numbers, and the bytes
        after a zero byte are not compared.  The sign of the result is
        its [comparison]. *)
Module rstr.
Definition NUL : Ascii.ascii := Ascii.zero.

Definition char_at_0 (s : string) : Ascii.ascii :=
        match s with
        | String c _ => c
        | EmptyString => NUL
        end.

Definition advance (s : string) : string :=
        match s with
        | String _ s => s
        | EmptyString => EmptyString
        end.

Fixpoint strncmp (s1 s2 : string) (n : nat) : comparison :=
        match n with
        | O => Eq
        | S n =>
            let c1 := char_at_0 s1 in
            let c2 := char_at_0 s2 in
            match (Ascii.nat_of_ascii c1 ?= Ascii.nat_of_ascii c2)%nat with
            | Eq =>
                if Ascii.eqb c1 NUL then Eq
                else strncmp (advance s1) (advance s2) n
            | c => c
            end
        end.

Definition strcmp (rstr cstr : string) : comparison :=
        strncmp rstr cstr (String.length rstr).
End rstr.

Definition kv_to_rcu (key_size val_size : Z) : Z :=
      u64 (u64 (key_size + val_size) / 4096 + 1).
Definition kv_to_wcu (key_size val_size : Z) : Z :=
      u64 (u64 (key_size + val_size) / 1024 + 1).
Definition kv_to_net_get_client (key_size val_size : Z) : Z :=
      u64 (key_size + val_size).
Definition kv_to_net_set_client (key_size val_size : Z) : Z :=
      u64 (key_size + val_size).
Definition kv_to_net_get_storage (key_size val_size : Z) : Z :=
      u64 (key_size + val_size).
Definition kv_to_net_set_storage (key_size val_size : Z) : Z :=
      u64 (key_size + val_size).
End utils.

  (** [std::string::size]. *)
Definition size (s : string) : Z := Z.of_nat (String.length s).

  (** [std::to_string] of an unsigned number: its decimal digits, at most
      twenty for 64 bits. *)
Definition digit (x : Z) : Ascii.ascii :=
    Ascii.ascii_of_nat (48 + Z.to_nat (x mod 10)).

Fixpoint to_string_from (n : nat) (x : Z) (acc : string) : string :=
    let acc := String (digit x) acc in
    match n with
    | O => acc
    | S n => if x <? 10 then acc else to_string_from n (x / 10) acc
    end.

Definition to_string (x : Z) : string := to_string_from 19 x "".

  (** The conversion of a 32-bit unsigned number to [int32_t]. *)
Definition i32 (x : Z) : Z := (x + 2 ^ 31) mod 2 ^ 32 - 2 ^ 31.

  (** *** task.h *)
Inductive Status : Type := NONE | OK | ERR.

Module TaskGet.
Record t : Type := mk {
      status : Status;
      client : nat;
      key : string;
      value : string;
      dependents : list nat;
    }.
Definition make (client : nat) (key : string) : t :=
      mk NONE client key "" [].
Definition add_dependent (a : t) (bc : nat) : t :=
      mk (status a) (client a) (key a) (value a) (dependents a ++ [bc]).
Definition complete (a : t) (st : Status) (v : string) : t :=
      mk st (client a) (key a) v (dependents a).
End TaskGet.

Module TaskSet.
Record t : Type := mk {
      status : Status;
      client : nat;
      key : string;
      value : string;
    }.
Definition make (client : nat) (key value : string) : t :=
      mk NONE client key value.
Definition complete (a : t) (st : Status) (v : string) : t :=
      mk st (client a) (key a) v.
End TaskSet.

  (** *** stats.cpp *)
Module stats.
Record t : Type := mk {
      req_cnt : Z;
      hit_cnt : Z;
      miss_cnt : Z;
      db_rcu_consump_if_miss : Z;
      net_bw_consump_if_miss : Z;
      net_bw_consump_if_hit : Z;
      db_rcu_consump : Z;
      db_wcu_consump : Z;
      net_bw_consump : Z;
      avg_kv_size : Q;
    }.

Definition zero : t := mk 0 0 0 0 0 0 0 0 0 0.

Definition update_avg_kv_size (avg : Q) (curr_kv_size : Z) : Q :=
      if negb (Qeqb avg 0)
      then (avg * config.kv_size_decay_rate
            + inject_Z curr_kv_size * (1 - config.kv_size_decay_rate))%Q
      else inject_Z curr_kv_size.

Definition record_get_done (r : t) (key_size val_size : Z)
        (is_miss : bool) : t :=
      let db_rcu := utils.kv_to_rcu key_size val_size in
      let net_bw_client := utils.kv_to_net_get_client key_size val_size in
      let net_bw_storage := utils.kv_to_net_get_storage key_size val_size in
      let total := config.alloc_total_net_bw in
      mk (u64 (req_cnt r + 1))
         (if is_miss then hit_cnt r else u64 (hit_cnt r + 1))
         (if is_miss then u64 (miss_cnt r + 1) else miss_cnt r)
         (u64 (db_rcu_consump_if_miss r + db_rcu))
         (let x := u64 (net_bw_consump_if_miss r + net_bw_client) in
          if total then u64 (x + net_bw_storage) else x)
         (u64 (net_bw_consump_if_hit r + net_bw_client))
         (if is_miss then u64 (db_rcu_consump r + db_rcu)
          else db_rcu_consump r)
         (db_wcu_consump r)
         (let x := u64 (net_bw_consump r + net_bw_client) in
          if total && is_miss then u64 (x + net_bw_storage) else x)
         (update_avg_kv_size (avg_kv_size r) (u64 (key_size + val_size))).

Definition record_set_done (admit_write : bool) (r : t)
        (key_size val_size : Z) : t :=
      let net_bw_client := utils.kv_to_net_set_client key_size val_size in
      let net_bw_storage := utils.kv_to_net_set_storage key_size val_size in
      let total := config.alloc_total_net_bw in
      mk (u64 (req_cnt r + 1))
         (hit_cnt r)
         (miss_cnt r)
         (db_rcu_consump_if_miss r)
         (let x := u64 (net_bw_consump_if_miss r + net_bw_client) in
          if total then u64 (x + net_bw_storage) else x)
         (let x := u64 (net_bw_consump_if_hit r + net_bw_client) in
          if total then u64 (x + net_bw_storage) else x)
         (db_rcu_consump r)
         (u64 (db_wcu_consump r + utils.kv_to_wcu key_size val_size))
         (let x := u64 (net_bw_consump r + net_bw_client) in
          if total then u64 (x + net_bw_storage) else x)
         (if admit_write
          then update_avg_kv_size (avg_kv_size r) (u64 (key_size + val_size))
          else avg_kv_size r).
End stats.

  (** *** The hosting runtime and the process-wide state

      The value of a key of the cache is a string or of another type.  A
      blocked client remembers the client it blocks, its reply callback and
      the arguments of its command.  The ghost cache and the egress rate
      limiter are external to the request path: the calls made to them are
      recorded in order. *)
Inductive rvalue : Type :=
  | RString (s : string)
  | ROther.

Inductive reply : Type :=
  | ReplyWrongArity
  | ReplyError (msg : string)
  | ReplyStringBuffer (s : string)
  | ReplySimpleString (s : string).

Inductive privdata : Type :=
  | PrivNull
  | PrivTaskGet (t : nat)
  | PrivTaskSet (t : nat)
  | PrivString (s : string).

Inductive callback : Type :=
  | get_storage_callback
  | get_inflight_callback
  | set_reply_callback.

Record blocked_client : Type := mk_blocked {
    bc_client : nat;
    bc_callback : callback;
    bc_argv : list string;
  }.

Inductive ghost_call : Type :=
  | ghost_access_key (key : string) (val_size : Z) (update_miss_ratio : bool)
  | ghost_update_kv_size (key : string) (val_size : Z).

Inductive net_call : Type :=
  | net_wait_until_can_send
  | net_consume (consumption : Z).

Definition REDISMODULE_ERRORMSG_WRONGTYPE : string :=
    "WRONGTYPE Operation against a key holding the wrong kind of value".

Record state : Type := mk_state {
    admit_write : bool;
    keyspace : gmap string rvalue;
    inflight_map : gmap string nat;
    get_tasks : gmap nat TaskGet.t;
    set_tasks : gmap nat TaskSet.t;
    blocked : gmap nat blocked_client;
    next_handle : nat;
    task_get_queue : list nat;
    task_set_queue : list nat;
    ghost_calls : list ghost_call;
    resrc_stats : stats.t;
    net_calls : list net_call;
    unblocked : list (nat * privdata);
    replies : list (nat * reply);
  }.

Definition set_keyspace (s : state) (x : gmap string rvalue) : state :=
    mk_state (admit_write s) x (inflight_map s) (get_tasks s) (set_tasks s)
      (blocked s) (next_handle s) (task_get_queue s) (task_set_queue s)
      (ghost_calls s) (resrc_stats s) (net_calls s) (unblocked s) (replies s).

Definition set_inflight_map (s : state) (x : gmap string nat) : state :=
    mk_state (admit_write s) (keyspace s) x (get_tasks s) (set_tasks s)
      (blocked s) (next_handle s) (task_get_queue s) (task_set_queue s)
      (ghost_calls s) (resrc_stats s) (net_calls s) (unblocked s) (replies s).

Definition set_get_tasks (s : state) (x : gmap nat TaskGet.t) : state :=
    mk_state (admit_write s) (keyspace s) (inflight_map s) x (set_tasks s)
      (blocked s) (next_handle s) (task_get_queue s) (task_set_queue s)
      (ghost_calls s) (resrc_stats s) (net_calls s) (unblocked s) (replies s).

Definition set_set_tasks (s : state) (x : gmap nat TaskSet.t) : state :=
    mk_state (admit_write s) (keyspace s) (inflight_map s) (get_tasks s) x
      (blocked s) (next_handle s) (task_get_queue s) (task_set_queue s)
      (ghost_calls s) (resrc_stats s) (net_calls s) (unblocked s) (replies s).

Definition set_blocked (s : state) (x : gmap nat blocked_client) : state :=
    mk_state (admit_write s) (keyspace s) (inflight_map s) (get_tasks s)
      (set_tasks s) x (next_handle s) (task_get_queue s) (task_set_queue s)
      (ghost_calls s) (resrc_stats s) (net_calls s) (unblocked s) (replies s).

Definition set_next_handle (s : state) (x : nat) : state :=
    mk_state (admit_write s) (keyspace s) (inflight_map s) (get_tasks s)
      (set_tasks s) (blocked s) x (task_get_queue s) (task_set_queue s)
      (ghost_calls s) (resrc_stats s) (net_calls s) (unblocked s) (replies s).

Definition set_task_get_queue (s : state) (x : list nat) : state :=
    mk_state (admit_write s) (keyspace s) (inflight_map s) (get_tasks s)
      (set_tasks s) (blocked s) (next_handle s) x (task_set_queue s)
      (ghost_calls s) (resrc_stats s) (net_calls s) (unblocked s) (replies s).

Definition set_task_set_queue (s : state) (x : list nat) : state :=
    mk_state (admit_write s) (keyspace s) (inflight_map s) (get_tasks s)
      (set_tasks s) (blocked s) (next_handle s) (task_get_queue s) x
      (ghost_calls s) (resrc_stats s) (net_calls s) (unblocked s) (replies s).

Definition set_ghost_calls (s : state) (x : list ghost_call) : state :=
    mk_state (admit_write s) (keyspace s) (inflight_map s) (get_tasks s)
      (set_tasks s) (blocked s) (next_handle s) (task_get_queue s)
      (task_set_queue s) x (resrc_stats s) (net_calls s) (unblocked s)
      (replies s).

Definition set_resrc_stats (s : state) (x : stats.t) : state :=
    mk_state (admit_write s) (keyspace s) (inflight_map s) (get_tasks s)
      (set_tasks s) (blocked s) (next_handle s) (task_get_queue s)
      (task_set_queue s) (ghost_calls s) x (net_calls s) (unblocked s)
      (replies s).

Definition set_net_calls (s : state) (x : list net_call) : state :=
    mk_state (admit_write s) (keyspace s) (inflight_map s) (get_tasks s)
      (set_tasks s) (blocked s) (next_handle s) (task_get_queue s)
      (task_set_queue s) (ghost_calls s) (resrc_stats s) x (unblocked s)
      (replies s).

Definition set_unblocked (s : state) (x : list (nat * privdata)) : state :=
    mk_state (admit_write s) (keyspace s) (inflight_map s) (get_tasks s)
      (set_tasks s) (blocked s) (next_handle s) (task_get_queue s)
      (task_set_queue s) (ghost_calls s) (resrc_stats s) (net_calls s) x
      (replies s).

Definition set_replies (s : state) (x : list (nat * reply)) : state :=
    mk_state (admit_write s) (keyspace s) (inflight_map s) (get_tasks s)
      (set_tasks s) (blocked s) (next_handle s) (task_get_queue s)
      (task_set_queue s) (ghost_calls s) (resrc_stats s) (net_calls s)
      (unblocked s) x.

Definition reply_with (s : state) (client : nat) (r : reply) : state :=
    set_replies s (replies s ++ [(client, r)]).

  (** [RedisModule_BlockClient]: a new handle for the blocked client. *)
Definition block_client (s : state) (client : nat) (cb : callback)
      (argv : list string) : nat * state :=
    let bc := next_handle s in
    (bc,
     set_next_handle
       (set_blocked s (<[bc := mk_blocked client cb argv]> (blocked s)))
       (S bc)).

  (** [RedisModule_UnblockClient]. *)
Definition unblock_client (s : state) (bc : nat) (pd : privdata) : state :=
    set_unblocked s (unblocked s ++ [(bc, pd)]).

  (** *** ghost.cpp, network.cpp, storage.cpp: the calls of the request
      path *)
Module ghost.
Definition access_key (s : state) (key : string) (val_size : Z)
        (update_miss_ratio : bool) : state :=
      set_ghost_calls s
        (ghost_calls s ++ [ghost_access_key key val_size update_miss_ratio]).
Definition update_kv_size (s : state) (key : string) (val_size : Z)
        : state :=
      set_ghost_calls s (ghost_calls s ++ [ghost_update_kv_size key val_size]).

Definition ghost_sample_shift : Z := 5.

Definition round_tick (tick : Z) : Z :=
      u32 (Z.shiftl (Z.shiftr tick ghost_sample_shift) ghost_sample_shift).

    (** The memory cost of a key-value pair.  The loop of [round_size]
        counts [power] up; a shift of the 32-bit [1] by 32 or more has no
        defined result. *)
Module mem_estimate.

Fixpoint round_size_loop (n : nat) (power s : Z) : res Z :=
      match n with
      | O => Err Undefined
      | S n =>
          let divisor := u32 (Z.shiftl 1 power) in
          let upper_bound := u32 (divisor * 8 - 4) in
          if s <=? upper_bound then
            let offset := u32 (divisor - 4) in
            Ok (u32 (u32 (u32 (s + 3) / divisor * divisor) + offset))
          else round_size_loop n (u32 (power + 1)) s
      end.

Definition round_size (s : Z) : res Z :=
      if s <=? 4 then Ok 4
      else if s <=? 60 then Ok (u32 (u32 (u32 (s + 3) / 8 * 8) + 4))
      else if s <=? 124 then Ok (u32 (u32 (u32 (s + 3) / 16 * 16) + 12))
      else if s <=? 252 then Ok (u32 (u32 (u32 (s + 3) / 32 * 32) + 28))
      else if s <=? 508 then Ok (u32 (u32 (u32 (s + 3) / 64 * 64) + 60))
      else if s <=? 1020 then Ok (u32 (u32 (u32 (s + 3) / 128 * 128) + 124))
      else if s <=? 2044 then Ok (u32 (u32 (u32 (s + 3) / 256 * 256) + 252))
      else if s <=? 4092 then Ok (u32 (u32 (u32 (s + 3) / 512 * 512) + 508))
      else round_size_loop 29 3 s.

Definition fixed_cost : Z := 55.

Definition estimate (key_size val_size : Z) : res Z :=
      k ← round_size key_size;
      v ← round_size val_size;
      Ok (u32 (u32 (fixed_cost + k) + v)).

End mem_estimate.
End ghost.

Module network.
Definition wait_until_can_send (s : state) : state :=
      set_net_calls s (net_calls s ++ [net_wait_until_can_send]).
Definition consume (s : state) (consumption : Z) : state :=
      set_net_calls s (net_calls s ++ [net_consume consumption]).
End network.

Module storage.
Definition get_async (s : state) (t : nat) : state :=
      set_task_get_queue s (task_get_queue s ++ [t]).
Definition set_async (s : state) (t : nat) : state :=
      set_task_set_queue s (task_set_queue s ++ [t]).

    (** The two completions of [process_task_get]. *)
Definition get_succeeded (s : state) (t : nat) (val : string)
        : res state :=
      match get_tasks s !! t with
      | None => Err Undefined
      | Some a =>
          let s :=
            set_get_tasks s (<[t := TaskGet.complete a OK val]> (get_tasks s)) in
          Ok (unblock_client s (TaskGet.client a) (PrivTaskGet t))
      end.

Definition get_failed (s : state) (t : nat) (err_msg : string)
        : res state :=
      match get_tasks s !! t with
      | None => Err Undefined
      | Some a =>
          let s :=
            set_get_tasks s
              (<[t := TaskGet.complete a ERR
                        ("Fail to read from DynamoDB: " ++ err_msg)]>
                 (get_tasks s)) in
          Ok (unblock_client s (TaskGet.client a) (PrivTaskGet t))
      end.

    (** The two completions of [process_task_set]. *)
Definition set_succeeded (s : state) (t : nat) : res state :=
      match set_tasks s !! t with
      | None => Err Undefined
      | Some a =>
          let s :=
            set_set_tasks s
              (<[t := TaskSet.complete a OK (TaskSet.value a)]> (set_tasks s)) in
          Ok (unblock_client s (TaskSet.client a) (PrivTaskSet t))
      end.

Definition set_failed (s : state) (t : nat) (err_msg : string)
        : res state :=
      match set_tasks s !! t with
      | None => Err Undefined
      | Some a =>
          let s :=
            set_set_tasks s
              (<[t := TaskSet.complete a ERR
                        ("Fail to write to DynamoDB: " ++ err_msg)]>
                 (set_tasks s)) in
          Ok (unblock_client s (TaskSet.client a) (PrivTaskSet t))
      end.

    (** The format of the synthesized key-value pairs.  An
        [std::invalid_argument] is the [LogicError] of its message. *)
Record mock_format_t : Type := mk_mock_format {
      key_size : Z;
      val_size : Z;
      size_len : Z;
      offset_len : Z;
      k_pad_len : Z;
      v_pad_len : Z;
    }.

Definition update_mock_format (key_size val_size : Z)
        : res mock_format_t :=
      let size_len :=
        u32 (Z.max (size (to_string key_size)) (size (to_string val_size))) in
      let least_len_left :=
        i32 (u32 (u32 (Z.min key_size val_size - 3) - size_len)) in
      if least_len_left <=? 0 then
        Err (LogicError "Incorrect KV format: least_len_left <= 0")
      else
        let offset_len := u32 (Z.min least_len_left 10) in
        let k_pad_len :=
          i32 (u32 (u32 (u32 (key_size - 3) - size_len) - offset_len)) in
        let v_pad_len :=
          i32 (u32 (u32 (u32 (val_size - 3) - size_len) - offset_len)) in
        if k_pad_len <? 0 then
          Err (LogicError "Incorrect KV format: k_pad_len < 0")
        else if v_pad_len <? 0 then
          Err (LogicError "Incorrect KV format: v_pad_len < 0")
        else
          Ok (mk_mock_format key_size val_size size_len offset_len
                (u32 k_pad_len) (u32 v_pad_len)).
End storage.

  (** *** inflight.cpp *)
Module inflight.

Definition check_inflight (s : state) (key : string) : bool :=
      if negb config.enable_inflight_dedup then false
      else bool_decide (is_Some (inflight_map s !! key)).

Definition add_dependent (s : state) (key : string) (bc : nat)
        : res state :=
      match inflight_map s !! key with
      | None => Err Undefined
      | Some t =>
          match get_tasks s !! t with
          | None => Err Undefined
          | Some a =>
              Ok (set_get_tasks s
                    (<[t := TaskGet.add_dependent a bc]> (get_tasks s)))
          end
      end.

Definition begin_inflight (s : state) (key : string) (t : nat) : state :=
      if negb config.enable_inflight_dedup then s
      else set_inflight_map s (<[key := t]> (inflight_map s)).

Definition end_inflight (s : state) (key : string) (t : nat)
        : bool * state :=
      if negb config.enable_inflight_dedup then (true, s)
      else
        match inflight_map s !! key with
        | None => (false, s)
        | Some t' =>
            if negb (t' =? t)%nat then (false, s)
            else (true, set_inflight_map s (delete key (inflight_map s)))
        end.

Definition invalidate_inflight (s : state) (key : string) : state :=
      if negb config.enable_inflight_dedup then s
      else set_inflight_map s (delete key (inflight_map s)).

End inflight.

  (** *** get.cpp *)
Module get.

Definition storage_callback (s : state) (client : nat)
        (argv : list string) (pd : privdata) : res state :=
      match pd with
      | PrivTaskGet t =>
          a ← match get_tasks s !! t with
               | Some a => Ok a
               | None => Err Undefined
               end;
          let '(update_cache, s) :=
            inflight.end_inflight s (TaskGet.key a) t in
          match TaskGet.status a with
          | ERR =>
              let s :=
                fold_left (fun s bc => unblock_client s bc PrivNull)
                  (TaskGet.dependents a) s in
              Ok (reply_with s client
                    (ReplyError "ERR Fail to get from DynamoDB"))
          | _ =>
              s ← (if update_cache then
                     k ← at_index argv 1;
                     let s :=
                       set_keyspace s
                         (<[k := RString (TaskGet.value a)]> (keyspace s)) in
                     Ok (ghost.update_kv_size s (TaskGet.key a)
                           (size (TaskGet.value a)))
                   else Ok s);
              let s := reply_with s client (ReplyStringBuffer (TaskGet.value a)) in
              let s :=
                fold_left
                  (fun s bc => unblock_client s bc (PrivString (TaskGet.value a)))
                  (TaskGet.dependents a) s in
              let k_len := size (TaskGet.key a) in
              let v_len := size (TaskGet.value a) in
              let s :=
                set_resrc_stats s
                  (stats.record_get_done (resrc_stats s) k_len v_len true) in
              let s := network.wait_until_can_send s in
              let net_consumption := utils.kv_to_net_get_client k_len v_len in
              let net_consumption :=
                if config.alloc_total_net_bw
                then u64 (net_consumption
                          + utils.kv_to_net_get_storage k_len v_len)
                else net_consumption in
              Ok (network.consume s net_consumption)
          end
      | _ => Err Undefined
      end.

Definition inflight_callback (s : state) (client : nat)
        (argv : list string) (pd : privdata) : res state :=
      match pd with
      | PrivNull =>
          Ok (reply_with s client (ReplyError "ERR Fail to get from DynamoDB"))
      | PrivString v =>
          let s := reply_with s client (ReplyStringBuffer v) in
          k ← at_index argv 1;
          let k_len := size k in
          let s :=
            set_resrc_stats s
              (stats.record_get_done (resrc_stats s) k_len (size v) false) in
          let s := network.wait_until_can_send s in
          Ok (network.consume s (utils.kv_to_net_get_client k_len (size v)))
      | _ => Err Undefined
      end.

Definition RedisModule_HopperGet (s : state) (client : nat)
        (argv : list string) : res state :=
      if negb (length argv =? 2)%nat then Ok (reply_with s client ReplyWrongArity)
      else
        key_str ← at_index argv 1;
        match keyspace s !! key_str with
        | None =>
            let s := ghost.access_key s key_str 0 true in
            let has_inflight := inflight.check_inflight s key_str in
            if has_inflight then
              let '(bc, s) := block_client s client get_inflight_callback argv in
              inflight.add_dependent s key_str bc
            else
              let '(bc, s) := block_client s client get_storage_callback argv in
              let t := next_handle s in
              let s :=
                set_next_handle
                  (set_get_tasks s
                     (<[t := TaskGet.make bc key_str]> (get_tasks s)))
                  (S t) in
              let s := inflight.begin_inflight s key_str t in
              Ok (storage.get_async s t)
        | Some ROther =>
            Ok (reply_with s client (ReplyError REDISMODULE_ERRORMSG_WRONGTYPE))
        | Some (RString v) =>
            let s := reply_with s client (ReplyStringBuffer v) in
            let k_len := size key_str in
            let v_len := size v in
            let s := ghost.access_key s key_str v_len true in
            let s :=
              set_resrc_stats s
                (stats.record_get_done (resrc_stats s) k_len v_len false) in
            let s := network.wait_until_can_send s in
            Ok (network.consume s (utils.kv_to_net_get_client k_len v_len))
        end.

End get.

  (** *** set.cpp *)
Module set.

Definition reply_callback (s : state) (client : nat)
        (argv : list string) (pd : privdata) : res state :=
      match pd with
      | PrivTaskSet t =>
          a ← match set_tasks s !! t with
               | Some a => Ok a
               | None => Err Undefined
               end;
          match TaskSet.status a with
          | ERR =>
              k ← at_index argv 1;
              let s := set_keyspace s (delete k (keyspace s)) in
              Ok (reply_with s client
                    (ReplyError
                       ("ERR Fail to set to DynamoDB: " ++ TaskSet.value a)))
          | _ => Ok (reply_with s client (ReplySimpleString "OK"))
          end
      | _ => Err Undefined
      end.

Definition RedisModule_HopperSet (s : state) (client : nat)
        (argv : list string) : res state :=
      if negb (length argv =? 3)%nat then Ok (reply_with s client ReplyWrongArity)
      else
        key_str ← at_index argv 1;
        val ← at_index argv 2;
        updated ←
          match keyspace s !! key_str with
          | Some (RString _) =>
              let s := set_keyspace s (<[key_str := RString val]> (keyspace s)) in
              Ok (Some (inflight.invalidate_inflight s key_str))
          | None =>
              if admit_write s then
                let s :=
                  set_keyspace s (<[key_str := RString val]> (keyspace s)) in
                Ok (Some (inflight.invalidate_inflight s key_str))
              else Ok (Some s)
          | Some ROther => Ok None
          end;
        match updated with
        | None =>
            Ok (reply_with s client (ReplyError REDISMODULE_ERRORMSG_WRONGTYPE))
        | Some s =>
            let '(bc, s) := block_client s client set_reply_callback argv in
            let t := next_handle s in
            let a := TaskSet.make bc key_str val in
            let s :=
              set_next_handle (set_set_tasks s (<[t := a]> (set_tasks s)))
                (S t) in
            let k_len := size (TaskSet.key a) in
            let v_len := size (TaskSet.value a) in
            let s := ghost.access_key s (TaskSet.key a) v_len false in
            let s :=
              set_resrc_stats s
                (stats.record_set_done (admit_write s) (resrc_stats s)
                   k_len v_len) in
            let s := network.wait_until_can_send s in
            let net_consumption := utils.kv_to_net_set_client k_len v_len in
            let net_consumption :=
              if config.alloc_total_net_bw
              then u64 (net_consumption
                        + utils.kv_to_net_set_storage k_len v_len)
              else net_consumption in
            let s := network.consume s net_consumption in
            Ok (storage.set_async s t)
        end.

    (** The cache-only SET. *)
Definition RedisModule_HopperSetC (s : state) (client : nat)
        (argv : list string) : res state :=
      if negb (length argv =? 3)%nat then Ok (reply_with s client ReplyWrongArity)
      else
        key_str ← at_index argv 1;
        val ← at_index argv 2;
        match keyspace s !! key_str with
        | Some ROther =>
            Ok (reply_with s client (ReplyError REDISMODULE_ERRORMSG_WRONGTYPE))
        | _ =>
            let s := set_keyspace s (<[key_str := RString val]> (keyspace s)) in
            let s := reply_with s client (ReplySimpleString "OK") in
            Ok (ghost.access_key s key_str (size val) false)
        end.

End set.

  (** What the hosting runtime does with an unblocked client: it runs the
      reply callback that the client was blocked with. *)
Definition run_reply_callback (s : state) (bc : nat) (pd : privdata)
      : res state :=
    match blocked s !! bc with
    | None => Err Undefined
    | Some b =>
        match bc_callback b with
        | get_storage_callback =>
            get.storage_callback s (bc_client b) (bc_argv b) pd
        | get_inflight_callback =>
            get.inflight_callback s (bc_client b) (bc_argv b) pd
        | set_reply_callback =>
            set.reply_callback s (bc_client b) (bc_argv b) pd
        end
    end.

  (** *** rate.h

      The members of a limiter and what [consume] and [propose_new_rate]
      do with them.  A time point is a number of ticks of the clock; the
      time that the constructor reads from the clock is given to it.  The
      refresh of the time frame computes with rounded doubles
      ([duration_cast] to seconds, [std::fmod]) and has no model. *)
Module rate.

Record RateLimiter : Type := mk {
      rate : Q;
      time_frame_progress : Z;
      time_frame_begin : Z;
      proposed_rate : Q;
    }.

Definition make (rate : Q) (ts_now : Z) : RateLimiter :=
      mk rate 0 ts_now rate.

Definition consume (l : RateLimiter) (consumption : Z) : RateLimiter :=
      mk (rate l) (u64 (time_frame_progress l + consumption))
        (time_frame_begin l) (proposed_rate l).

Definition propose_new_rate (l : RateLimiter) (new_rate : Q)
        : RateLimiter :=
      mk (rate l) (time_frame_progress l) (time_frame_begin l) new_rate.

End rate.

  (** *** resrc.cpp

      The allocation of the instance, the memory limit of the hosting
      runtime and the three rate limiters, of storage.cpp and network.cpp.
      The parsers of the runtime and whether it accepts a memory limit are
      given to the command. *)
Module resrc.

Record allocated : Type := mk_allocated {
      cache_size : Z;
      db_rcu : Q;
      db_wcu : Q;
      net_bw : Q;
    }.

Record state : Type := mk_state {
      allocated_resrc : allocated;
      maxmemory : Z;
      rcu_rate_limiter : rate.RateLimiter;
      wcu_rate_limiter : rate.RateLimiter;
      net_rate_limiter : rate.RateLimiter;
    }.

Record env : Type := mk_env {
      StringToLongLong : string -> option Z;
      StringToDouble : string -> option Q;
      config_set_maxmemory : Z -> bool;
    }.

Definition RedisModule_HopperResrcGet (s : state) (argv : list string)
        : reply + Z * Q * Q * Q :=
      if negb (length argv =? 1)%nat then inl ReplyWrongArity
      else
        inr (cache_size (allocated_resrc s), db_rcu (allocated_resrc s),
             db_wcu (allocated_resrc s), net_bw (allocated_resrc s)).

Definition RedisModule_HopperResrcSet (e : env) (s : state)
        (argv : list string) : res (reply * state) :=
      if negb (length argv =? 5)%nat then Ok (ReplyWrongArity, s)
      else
        a1 ← at_index argv 1;
        a2 ← at_index argv 2;
        a3 ← at_index argv 3;
        a4 ← at_index argv 4;
        match StringToLongLong e a1 with
        | None => Ok (ReplyError "ERR Fail to parse <cache_size>", s)
        | Some new_cache_size =>
        match StringToDouble e a2 with
        | None => Ok (ReplyError "ERR Fail to parse <db_rcu>", s)
        | Some new_db_rcu =>
        match StringToDouble e a3 with
        | None => Ok (ReplyError "ERR Fail to parse <db_wcu>", s)
        | Some new_db_wcu =>
        match StringToDouble e a4 with
        | None => Ok (ReplyError "ERR Fail to parse <net_bw>", s)
        | Some new_net_bw =>
            let a := allocated_resrc s in
            stored ←
              (if 0 <=? new_cache_size then
                 if config_set_maxmemory e new_cache_size then
                   Ok (Some
                         (mk_allocated (u32 new_cache_size) (db_rcu a)
                            (db_wcu a) (net_bw a),
                          new_cache_size))
                 else Ok None
               else Ok (Some (a, maxmemory s)));
            match stored with
            | None => Ok (ReplyError "ERR Fail to set cache size", s)
            | Some (a, mem) =>
                let '(a, rcu) :=
                  if Qle_bool 0 new_db_rcu then
                    (mk_allocated (cache_size a) new_db_rcu (db_wcu a)
                       (net_bw a),
                     rate.propose_new_rate (rcu_rate_limiter s) new_db_rcu)
                  else (a, rcu_rate_limiter s) in
                let '(a, wcu) :=
                  if Qle_bool 0 new_db_wcu then
                    (mk_allocated (cache_size a) (db_rcu a) new_db_wcu
                       (net_bw a),
                     rate.propose_new_rate (wcu_rate_limiter s) new_db_wcu)
                  else (a, wcu_rate_limiter s) in
                let '(a, net) :=
                  if Qle_bool 0 new_net_bw then
                    (mk_allocated (cache_size a) (db_rcu a) (db_wcu a)
                       new_net_bw,
                     rate.propose_new_rate (net_rate_limiter s) new_net_bw)
                  else (a, net_rate_limiter s) in
                Ok (ReplySimpleString "OK", mk_state a mem rcu wcu net)
            end
        end end end end.

End resrc.

  (** *** barrier.cpp

      The clients that wait at the barrier, the clients that the runtime
      has blocked, with the client of each handle, and the handles that
      have been unblocked, in order. *)
Module barrier.

Inductive answer : Type :=
  | Reply (r : reply)
  | ReplyLongLong (n : Z).

Record state : Type := mk_state {
      waiting_clients : list nat;
      blocked : gmap nat nat;
      next_handle : nat;
      unblocked : list nat;
      replies : list (nat * answer);
    }.

Definition reply_with (s : state) (client : nat) (a : answer) : state :=
      mk_state (waiting_clients s) (blocked s) (next_handle s) (unblocked s)
        (replies s ++ [(client, a)]).

Definition wait_callback (s : state) (client : nat) : state :=
      reply_with s client (Reply (ReplySimpleString "OK")).

Definition RedisModule_HopperBarrierWait (s : state) (client : nat)
        (argv : list string) : state :=
      if negb (length argv =? 1)%nat
      then reply_with s client (Reply ReplyWrongArity)
      else
        let bc := next_handle s in
        mk_state (waiting_clients s ++ [bc]) (<[bc := client]> (blocked s))
          (S bc) (unblocked s) (replies s).

Definition RedisModule_HopperBarrierSignal (s : state) (client : nat)
        (argv : list string) : state :=
      if negb (length argv =? 1)%nat
      then reply_with s client (Reply ReplyWrongArity)
      else
        let s :=
          mk_state [] (blocked s) (next_handle s)
            (unblocked s ++ waiting_clients s) (replies s) in
        reply_with s client (Reply (ReplySimpleString "OK")).

Definition RedisModule_HopperBarrierCount (s : state) (client : nat)
        (argv : list string) : state :=
      if negb (length argv =? 1)%nat
      then reply_with s client (Reply ReplyWrongArity)
      else
        reply_with s client
          (ReplyLongLong (Z.of_nat (length (waiting_clients s)))).

    (** The runtime runs the callback of an unblocked client. *)
Definition run_reply_callback (s : state) (bc : nat) : res state :=
      match blocked s !! bc with
      | None => Err Undefined
      | Some client => Ok (wait_callback s client)
      end.

End barrier.

  (** *** ghost.cpp: the checkpoint of the ghost cache

      The file is a list of bytes, or cannot be opened; a 32-bit number
      is written and read as its four bytes, the low one first.  The ghost
      cache is its entries in the order of [for_each_lru], each the hash
      of a key and a size; [load] yields the entries that it accesses.
      The hash of the header is given to both. *)
Module ghost_ckpt.

Definition write_u32 (x : Z) : list Z :=
      [x mod 256; x / 256 mod 256; x / 65536 mod 256; x / 16777216 mod 256].

    (** The number that holds the bytes read, where fewer than four leave
        the high bytes zero. *)
Fixpoint read_u32 (bs : list Z) : Z :=
      match bs with
      | [] => 0
      | b :: bs => b + 256 * read_u32 bs
      end.

Definition header_str : list Z := [104; 97; 114; 101].

Definition save (writable : bool) (header_hash : Z)
        (entries : list (Z * Z)) : Z * option (list Z) :=
      if negb writable then (-1, None)
      else
        (0,
         Some (header_str ++ write_u32 header_hash
               ++ flat_map (fun h => write_u32 h.1 ++ write_u32 h.2) entries)).

Fixpoint load_entries (f : list Z) : list (Z * Z) :=
      match f with
      | b0 :: b1 :: b2 :: b3 :: b4 :: b5 :: b6 :: b7 :: f =>
          (read_u32 [b0; b1; b2; b3], read_u32 [b4; b5; b6; b7])
          :: load_entries f
      | _ => []
      end.

Definition load (file : option (list Z)) (gshash_hare : Z)
        : Z * list (Z * Z) :=
      match file with
      | None => (-1, [])
      | Some f =>
          if negb (bool_decide (take 4 f = header_str)) then (-2, [])
          else
            let header_hash := read_u32 (take 4 (drop 4 f)) in
            if negb (gshash_hare =? header_hash) then (-2, [])
            else (0, load_entries (drop 8 f))
      end.

End ghost_ckpt.

  (** *** storage.cpp: the synthesized value of a key

      The stream output of a number with [setw] and [setfill('0')] is its
      decimal digits after as many zeros as the width asks for.  The
      offset is an [int]: a digit that takes it beyond [2^31 - 1] has no
      defined result. *)
Module mock.

Fixpoint fill (n : nat) (c : Ascii.ascii) : string :=
      match n with
      | O => EmptyString
      | S n => String c (fill n c)
      end.

Definition setw_setfill_0 (w : Z) (digits : string) : string :=
      fill (Z.to_nat (w - size digits)) (digit 0) ++ digits.

Definition is_digit (c : Ascii.ascii) : bool :=
      (48 <=? Ascii.nat_of_ascii c)%nat && (Ascii.nat_of_ascii c <=? 57)%nat.

Fixpoint parse_offset (key s : string) (offset : Z) : res Z :=
      match s with
      | EmptyString => Ok offset
      | String c s =>
          if Ascii.eqb c (Ascii.ascii_of_nat 115) then Ok offset
          else if is_digit c then
            let offset' :=
              offset * 10 + (Z.of_nat (Ascii.nat_of_ascii c) - 48) in
            if 2 ^ 31 - 1 <? offset' then Err Undefined
            else parse_offset key s offset'
          else
            Err (LogicError
                   ("Invalid key format: non-digit char found in offset: "
                    ++ key))
      end.

Definition make_mock_val (f : storage.mock_format_t) (key : string)
        : res string :=
      if negb (size key =? storage.key_size f) then
        Err (LogicError ("Incorrect KV format: key length mismatch: " ++ key))
      else if negb (Ascii.eqb (utils.rstr.char_at_0 key)
                      (Ascii.ascii_of_nat 75)) then
        Err (LogicError
               ("Invalid key format: leading char must be 'K': " ++ key))
      else
        offset ← parse_offset key (utils.rstr.advance key) 0;
        Ok (String (Ascii.ascii_of_nat 86)
              (setw_setfill_0 (storage.offset_len f) (to_string offset)
               ++ String (Ascii.ascii_of_nat 115)
                    (setw_setfill_0 (storage.size_len f)
                       (to_string (storage.val_size f))
                     ++ fill (Z.to_nat (storage.v_pad_len f))
                          (Ascii.ascii_of_nat 65)
                     ++ String (Ascii.ascii_of_nat 76) EmptyString))).

End mock.

  (** *** storage.cpp: the mocked storage

      The queue of the mocked storage holds the tasks with the time at
      which each is ready; the image maps the 32-bit hash of a key to the
      size of its value.  The hash function of the platform and the time
      that the clock shows are given to [process_mock_dynamo]. *)
Module mock_dynamo.

Inductive task : Type :=
  | GET (t : nat)
  | SET (t : nat).

Record mstate : Type := mk_mstate {
      runtime : state;
      mock_dynamo_queue : list (Z * task);
      mock_image : option (gmap Z Z);
      mock_format : storage.mock_format_t;
      rcu_rate_limiter : rate.RateLimiter;
    }.

Definition rcu_cost (a : TaskGet.t) : Z :=
      u32 (utils.kv_to_rcu (size (TaskGet.key a)) (size (TaskGet.value a))).

    (** The completion of a GET task with a value: the read capacity
        beyond the prepaid unit is consumed. *)
Definition get_done (m : mstate) (q : list (Z * task)) (t : nat)
        (a : TaskGet.t) (value : string) : mstate :=
      let a := TaskGet.complete a OK value in
      let s := runtime m in
      let s := set_get_tasks s (<[t := a]> (get_tasks s)) in
      mk_mstate (unblock_client s (TaskGet.client a) (PrivTaskGet t)) q
        (mock_image m) (mock_format m)
        (rate.consume (rcu_rate_limiter m) (u32 (rcu_cost a - 1))).

Definition get_error (m : mstate) (q : list (Z * task)) (t : nat)
        (a : TaskGet.t) (what : string) : mstate :=
      let a := TaskGet.complete a ERR what in
      let s := runtime m in
      let s := set_get_tasks s (<[t := a]> (get_tasks s)) in
      mk_mstate (unblock_client s (TaskGet.client a) (PrivTaskGet t)) q
        (mock_image m) (mock_format m) (rcu_rate_limiter m).

Definition process_mock_dynamo (hash : string -> Z) (now : Z) (m : mstate)
        : res (bool * mstate) :=
      match mock_dynamo_queue m with
      | [] => Ok (false, m)
      | (ts, t) :: q =>
          if now <? ts then Ok (false, m)
          else
            match t with
            | GET t =>
                a ← match get_tasks (runtime m) !! t with
                     | Some a => Ok a
                     | None => Err Undefined
                     end;
                match mock_image m with
                | Some image =>
                    let key_hash := u32 (hash (TaskGet.key a)) in
                    match image !! key_hash with
                    | Some val_size =>
                        Ok (true,
                            get_done m q t a
                              (mock.fill (Z.to_nat val_size)
                                 (Ascii.ascii_of_nat 118)))
                    | None =>
                        Ok (true, get_error m q t a "key not found in image")
                    end
                | None =>
                    match mock.make_mock_val (mock_format m) (TaskGet.key a) with
                    | Ok value => Ok (true, get_done m q t a value)
                    | Err (LogicError what) => Ok (true, get_error m q t a what)
                    | Err x => Err x
                    end
                end
            | SET t =>
                a ← match set_tasks (runtime m) !! t with
                     | Some a => Ok a
                     | None => Err Undefined
                     end;
                let image :=
                  match mock_image m with
                  | Some image =>
                      let key_hash := u32 (hash (TaskSet.key a)) in
                      Some (<[key_hash := u32 (size (TaskSet.value a))]> image)
                  | None => None
                  end in
                let s := runtime m in
                let s :=
                  set_set_tasks s
                    (<[t := TaskSet.complete a OK (TaskSet.value a)]>
                       (set_tasks s)) in
                Ok (true,
                    mk_mstate
                      (unblock_client s (TaskSet.client a) (PrivTaskSet t)) q
                      image (mock_format m) (rcu_rate_limiter m))
            end
      end.

End mock_dynamo.

  (** *** config.cpp: the command that changes the settings, and
      storage.cpp: the mock image that it loads

      The settings are the variables of [hopper::config], the mock format
      and the mock image, which is a null pointer until
      [init_mock_image] creates the table.  What the command gets from
      outside is given to it: the two number parsers of the runtime, the
      content of an image file that can be opened, [std::stoul], which
      throws when it reads no number, the hash function of the platform,
      and the return code of [ghost::load], which [ghost::init] calls. *)
Module config_set.

Record settings : Type := mk_settings {
      table : string;
      mock : bool;
      admit_write : bool;
      tick : Z;
      min_tick : Z;
      max_tick : Z;
      mock_format : storage.mock_format_t;
      mock_image : option (gmap Z Z);
    }.

Record env : Type := mk_env {
      StringToLongLong : string -> option Z;
      StringToULongLong : string -> option Z;
      open_file : string -> option string;
      stoul : string -> res Z;
      hash : string -> Z;
      ghost_load : Z;
    }.

Definition set_table (c : settings) (x : string) : settings :=
      mk_settings x (mock c) (admit_write c) (tick c) (min_tick c)
        (max_tick c) (mock_format c) (mock_image c).

Definition set_mock (c : settings) (x : bool) : settings :=
      mk_settings (table c) x (admit_write c) (tick c) (min_tick c)
        (max_tick c) (mock_format c) (mock_image c).

Definition set_admit_write (c : settings) (x : bool) : settings :=
      mk_settings (table c) (mock c) x (tick c) (min_tick c) (max_tick c)
        (mock_format c) (mock_image c).

Definition set_range (c : settings) (t lo hi : Z) : settings :=
      mk_settings (table c) (mock c) (admit_write c) t lo hi (mock_format c)
        (mock_image c).

Definition set_mock_format (c : settings) (x : storage.mock_format_t)
        : settings :=
      mk_settings (table c) (mock c) (admit_write c) (tick c) (min_tick c)
        (max_tick c) x (mock_image c).

Definition set_mock_image (c : settings) (x : option (gmap Z Z))
        : settings :=
      mk_settings (table c) (mock c) (admit_write c) (tick c) (min_tick c)
        (max_tick c) (mock_format c) x.

    (** [init_mock_image]: the table is created once. *)
Definition init_mock_image (c : settings) : settings :=
      match mock_image c with
      | Some _ => c
      | None => set_mock_image c (Some ∅)
      end.

    (** [std::getline] with a delimiter on a stream that holds [s] and has
        not failed: the characters before the first delimiter, and what
        is left after it. *)
Fixpoint getline (delim : Ascii.ascii) (s : string) : string * string :=
      match s with
      | EmptyString => (EmptyString, EmptyString)
      | String c s' =>
          if Ascii.eqb c delim then (EmptyString, s')
          else let '(l, r) := getline delim s' in (String c l, r)
      end.

    (** The lines that [std::getline] reads from a stream one after the
        other until it fails: the stream fails at its end, so that a line
        feed at the end of the file begins no further line. *)
Fixpoint lines (s : string) : list string :=
      match s with
      | EmptyString => []
      | String c s' =>
          if Ascii.eqb c (Ascii.ascii_of_nat 10) then EmptyString :: lines s'
          else
            match lines s' with
            | [] => [String c EmptyString]
            | l :: ls => String c l :: ls
            end
      end.

    (** The two fields of a line: [std::getline] fails on a stream that is
        at its end, that is on an empty line and after a key that nothing
        or only the comma follows. *)
Definition fields (line : string) : option (string * string) :=
      match line with
      | EmptyString => None
      | _ =>
          let '(key, iss) := getline (Ascii.ascii_of_nat 44) line in
          match iss with
          | EmptyString => None
          | _ => Some (key, iss)
          end
      end.

    (** The loop of [load_mock_image] over the lines after the header:
        the return code and the image, which holds the entries of the
        lines before the first that has no two fields. *)
Fixpoint load_lines (e : env) (ls : list string) (image : gmap Z Z)
        : res (Z * gmap Z Z) :=
      match ls with
      | [] => Ok (0, image)
      | line :: ls =>
          match fields line with
          | None => Ok (-2, image)
          | Some (key, val_size_str) =>
              n ← stoul e val_size_str;
              let val_size := u32 n in
              let key_hash := u32 (hash e key) in
              load_lines e ls (<[key_hash := val_size]> image)
          end
      end.

Definition load_mock_image (e : env) (image : gmap Z Z)
        (image_filename : string) : res (Z * gmap Z Z) :=
      match open_file e image_filename with
      | None => Ok (-1, image)
      | Some f =>
          let line :=
            match lines f with
            | [] => EmptyString
            | line :: _ => line
            end in
          if negb (String.eqb line "key,val_size") then Ok (-2, image)
          else load_lines e (tail (lines f)) image
      end.

Definition is_0 (c : comparison) : bool :=
      match c with Eq => true | _ => false end.

    (** [ghost::init] after the range has changed. *)
Definition ghost_init (e : env) : res unit :=
      if ghost_load e =? -2 then
        Err (RuntimeError "Incompatible ghost cache checkpoint")
      else Ok tt.

    (** The loop over the image files: the reply of the first file that
        does not load, if any, and the image with what has been loaded
        until then. *)
Fixpoint load_images (e : env) (files : list string) (image : gmap Z Z)
        : res (option reply * gmap Z Z) :=
      match files with
      | [] => Ok (None, image)
      | f :: files =>
          '(rc, image) ← load_mock_image e image f;
          if rc =? -1 then
            Ok (Some (ReplyError "ERR Failed to open image file"), image)
          else if rc =? -2 then
            Ok (Some (ReplyError "ERR Invalid image file format"), image)
          else load_images e files image
      end.

Definition RedisModule_HopperConfigSet (e : env) (c : settings)
        (argv : list string) : res (reply * settings) :=
      let argc := length argv in
      if (argc <? 3)%nat then Ok (ReplyWrongArity, c)
      else
        name ← at_index argv 1;
        arg ← at_index argv 2;
        if is_0 (utils.rstr.strcmp name "dynamo.table") then
          if negb (argc =? 3)%nat then Ok (ReplyWrongArity, c)
          else Ok (ReplySimpleString "OK", set_table c arg)
        else if is_0 (utils.rstr.strcmp name "dynamo.mock") then
          if is_0 (utils.rstr.strcmp arg "disable") then
            if negb (argc =? 3)%nat then Ok (ReplyWrongArity, c)
            else Ok (ReplySimpleString "OK", set_mock c false)
          else if is_0 (utils.rstr.strcmp arg "image") then
            let c := init_mock_image c in
            '(r, image) ←
              load_images e (drop 3 argv) (default ∅ (mock_image c));
            let c := set_mock_image c (Some image) in
            match r with
            | Some r => Ok (r, c)
            | None => Ok (ReplySimpleString "OK", set_mock c true)
            end
          else if is_0 (utils.rstr.strcmp arg "format") then
            if negb (argc =? 5)%nat then Ok (ReplyWrongArity, c)
            else
              a3 ← at_index argv 3;
              a4 ← at_index argv 4;
              match StringToLongLong e a3 with
              | None =>
                  Ok (ReplyError "ERR Invalid `key_size` for <dynamo.mock>", c)
              | Some mock_key_size =>
                  match StringToULongLong e a4 with
                  | None =>
                      Ok (ReplyError
                            "ERR Invalid `val_size` for <dynamo.mock>", c)
                  | Some mock_val_size =>
                      match
                        storage.update_mock_format (u32 mock_key_size)
                          (u32 mock_val_size)
                      with
                      | Ok f =>
                          Ok (ReplySimpleString "OK",
                              set_mock (set_mock_format c f) true)
                      | Err (LogicError what) =>
                          Ok (ReplyError
                                ("ERR Ill-formed key-value format: " ++ what),
                              c)
                      | Err x => Err x
                      end
                  end
              end
          else Ok (ReplyError "ERR Invalid option for <dynamo.mock>", c)
        else if is_0 (utils.rstr.strcmp name "cache.admit_write") then
          if negb (argc =? 3)%nat then Ok (ReplyWrongArity, c)
          else if is_0 (utils.rstr.strcmp arg "true") then
            Ok (ReplySimpleString "OK", set_admit_write c true)
          else if is_0 (utils.rstr.strcmp arg "false") then
            Ok (ReplySimpleString "OK", set_admit_write c false)
          else Ok (ReplyError "ERR Invalid value for <cache.admit_write>", c)
        else if is_0 (utils.rstr.strcmp name "ghost.range") then
          if negb (argc =? 5)%nat then Ok (ReplyWrongArity, c)
          else
            a3 ← at_index argv 3;
            a4 ← at_index argv 4;
            match StringToULongLong e arg with
            | None =>
                Ok (ReplyError "ERR Invalid value for <ghost.range:tick>", c)
            | Some new_tick =>
                match StringToULongLong e a3 with
                | None =>
                    Ok (ReplyError
                          "ERR Invalid value for <ghost.range:min_tick>", c)
                | Some new_min_tick =>
                    match StringToULongLong e a4 with
                    | None =>
                        Ok (ReplyError
                              "ERR Invalid value for <ghost.range:max_tick>",
                            c)
                    | Some new_max_tick =>
                        let new_tick := ghost.round_tick (u32 new_tick) in
                        let new_min_tick :=
                          ghost.round_tick (u32 new_min_tick) in
                        let new_max_tick :=
                          ghost.round_tick (u32 new_max_tick) in
                        if new_tick =? 0 then Err Undefined
                        else
                          let new_max_tick :=
                            u64 (new_min_tick
                                 + u64 (u64 (new_max_tick - new_min_tick)
                                        / new_tick * new_tick)) in
                          let c :=
                            set_range c (u32 new_tick) (u32 new_min_tick)
                              (u32 new_max_tick) in
                          _ ← ghost_init e;
                          Ok (ReplySimpleString "OK", c)
                    end
                end
            end
        else if is_0 (utils.rstr.strcmp name "policy.alloc_total_net_bw") then
          Ok (ReplyError "ERR <policy.alloc_total_net_bw> is not configurable",
              c)
        else Ok (ReplyError "ERR unrecognized config", c).

End config_set.

End hopper.

(** ** Predicates of the statements *)

(** The order of the anchors of a curve. *)
Definition Qge_rel (x y : Q) : Prop := (y <= x)%Q.

Definition in_unit (mr : Q) : Prop := (0 <= mr /\ mr <= 1)%Q.

(** What [check_sanity] accepts: the ticks may repeat. *)
Definition sane (c : MissRatioCurve.t) : Prop :=
  MissRatioCurve.ticks c <> []
  /\ length (MissRatioCurve.ticks c) = length (MissRatioCurve.miss_ratios c)
  /\ Sorted Z.le (MissRatioCurve.ticks c)
  /\ Forall in_unit (MissRatioCurve.miss_ratios c)
  /\ Sorted Qge_rel (MissRatioCurve.miss_ratios c).

(** A well-formed curve in the words of the specification: as many miss
    ratios as ticks, at least one, the ticks strictly increasing, the miss
    ratios in [0,1] and non-increasing. *)
Definition well_formed (c : MissRatioCurve.t) : Prop :=
  MissRatioCurve.ticks c <> []
  /\ length (MissRatioCurve.ticks c) = length (MissRatioCurve.miss_ratios c)
  /\ Sorted Z.lt (MissRatioCurve.ticks c)
  /\ Forall in_unit (MissRatioCurve.miss_ratios c)
  /\ Sorted Qge_rel (MissRatioCurve.miss_ratios c).

(** The ticks and the queried sizes are values of [uint64_t]. *)
Definition is_u64 (x : Z) : Prop := 0 <= x < 2 ^ 64.

(** The sentence of the specification about [check_sanity]: it throws
    exactly on the curves that are not well-formed. *)
Definition check_sanity_claim (c : MissRatioCurve.t) : Prop :=
  (throws (MissRatioCurve.check_sanity c) <-> ~ well_formed c)
  /\ (well_formed c -> MissRatioCurve.check_sanity c = Ok tt).

(** The sentence of the specification about a size at or beyond the last
    tick: the miss ratio of the first anchor in conservative mode, an error
    otherwise. *)
Definition out_of_range_claim (c : MissRatioCurve.t) (cache_size : Z) : Prop :=
  well_formed c ->
  forall last_tick mr_0,
    back (MissRatioCurve.ticks c) = Ok last_tick ->
    front (MissRatioCurve.miss_ratios c) = Ok mr_0 ->
    last_tick <= cache_size ->
    (exists v, MissRatioCurve.get_miss_ratio_const true c cache_size = Ok v
               /\ (v == mr_0)%Q)
    /\ throws (MissRatioCurve.get_miss_ratio_const false c cache_size).

(** The three ways a size within the range of a curve is answered: below
    the first tick, at an anchor, strictly between two adjacent anchors. *)
Definition answered (c : MissRatioCurve.t) (x : Z) (v : Q) : Prop :=
  (exists t0 m0,
     MissRatioCurve.ticks c !! O = Some t0 /\ MissRatioCurve.miss_ratios c !! O = Some m0 /\ x < t0
     /\ v = MissRatioCurve.interpolate 1 m0 x (t0 - x))
  \/ (exists i, MissRatioCurve.ticks c !! i = Some x /\ MissRatioCurve.miss_ratios c !! i = Some v)
  \/ (exists i tl tr ml mr,
        MissRatioCurve.ticks c !! i = Some tl /\ MissRatioCurve.ticks c !! S i = Some tr
        /\ MissRatioCurve.miss_ratios c !! i = Some ml /\ MissRatioCurve.miss_ratios c !! S i = Some mr
        /\ tl < x < tr /\ v = MissRatioCurve.interpolate ml mr (x - tl) (tr - x)).

(** Every memoized miss ratio of a curve is the answer of the curve.  The
    memo of a curve from [MissRatioCurve.make] is empty, and
    [get_miss_ratio] only adds answers. *)
Definition memo_consistent (c : MissRatioCurve.t) : Prop :=
  forall size mr,
    MissRatioCurve.miss_ratio_map c !! size = Some mr ->
    MissRatioCurve.get_miss_ratio_const
      params.conservative_estimation_if_out_of_range c size = Ok mr.

(** The three stateless resources, the amount of one in a vector, its
    epsilon, and its total over tenants. *)
Inductive resource : Type := RCU | WCU | NET.

Definition amount (k : resource) (v : StatelessResrcVec.t) : Q :=
  match k with
  | RCU => StatelessResrcVec.db_rcu v
  | WCU => StatelessResrcVec.db_wcu v
  | NET => StatelessResrcVec.net_bw v
  end.

Definition epsilon (k : resource) : Q :=
  match k with
  | RCU => params.db_rcu_epsilon
  | WCU => params.db_wcu_epsilon
  | NET => params.net_bw_epsilon
  end.

Definition total_of (k : resource) (ts : list Tenant.t) : Q :=
  fold_right (fun a s => (amount k (Tenant.stateless a) + s)%Q) 0%Q ts.

Definition within_epsilon (pre post : StatelessResrcVec.t) : Prop :=
  forall k, (Qabs (amount k post - amount k pre) < epsilon k)%Q.

(** The arguments of one [add_tenant], and the allocator after a sequence
    of [add_tenant]. *)
Definition tenant_spec : Type :=
  StatelessResrcVec.t * ResrcVec.t * MissRatioCurve.t * Q.

Definition add_tenants (a : Allocator.t) (specs : list tenant_spec)
    : Allocator.t :=
  fold_left
    (fun a '(demand_cacheless, base_resrc, mrc, net_bw_alpha) =>
       (Allocator.add_tenant a demand_cacheless base_resrc mrc
          net_bw_alpha).2)
    specs a.

(** What the steps of the allocator that do not move resources leave of a
    tenant. *)
Definition same_core (a a' : Tenant.t) : Prop :=
  Tenant.t_idx a' = Tenant.t_idx a
  /\ Tenant.demand_cacheless a' = Tenant.demand_cacheless a
  /\ Tenant.resrc a' = Tenant.resrc a
  /\ Tenant.net_bw_alpha a' = Tenant.net_bw_alpha a
  /\ Tenant.reserved_cache_size a' = Tenant.reserved_cache_size a
  /\ MissRatioCurve.ticks (Tenant.mrc a') = MissRatioCurve.ticks (Tenant.mrc a)
  /\ MissRatioCurve.miss_ratios (Tenant.mrc a')
     = MissRatioCurve.miss_ratios (Tenant.mrc a).

(** Without the total network bandwidth no tenant offers or asks network
    bandwidth in a trade. *)
Definition no_net_offer (p : params.t) (a : Tenant.t) : Prop :=
  params.alloc_total_net_bw p = false ->
  Tenant.net_delta_relinq a = 0%Q /\ Tenant.net_delta_compen a = 0%Q.

(** The invariant of the allocation: the allocations of the tenants and
    the available resources add up to the total of the allocator. *)
Definition conserved (p : params.t) (a : Allocator.t)
    (avail : StatelessResrcVec.t) : Prop :=
  (forall k,
     (total_of k (Allocator.tenants a) + amount k avail
      == amount k (ResrcVec.stateless (Allocator.total_resrc a)))%Q)
  /\ Forall (no_net_offer p) (Allocator.tenants a).

(** What a step keeps of the allocator itself. *)
Definition same_allocator (a a' : Allocator.t) : Prop :=
  Allocator.policy_harvest a' = Allocator.policy_harvest a
  /\ Allocator.policy_conserving a' = Allocator.policy_conserving a
  /\ Allocator.policy_memshare a' = Allocator.policy_memshare a
  /\ Allocator.total_resrc a' = Allocator.total_resrc a
  /\ length (Allocator.tenants a') = length (Allocator.tenants a).

(** The change of the total of one resource by a deal. *)
Definition deal_change (p : params.t) (k : resource)
    (rcu_relinq rcu_compen net_relinq net_compen : Q) : Q :=
  match k with
  | RCU => rcu_compen - rcu_relinq
  | WCU => 0
  | NET => if params.alloc_total_net_bw p then net_compen - net_relinq else 0
  end.

(** The cache sizes of the tenants added together, the cache size that a
    tenant is added with, and the reserved floor of a tenant. *)
Definition total_cache (ts : list Tenant.t) : Z :=
  fold_right (fun a s => Tenant.cache_size a + s) 0 ts.

Definition spec_cache (s : tenant_spec) : Z := ResrcVec.cache_size s.1.1.2.

Definition floor_kept (a : Tenant.t) : Prop :=
  Tenant.reserved_cache_size a <= Tenant.cache_size a.

(** The sentence of the specification about the reserved floor: it holds
    for every tenant after [do_alloc]. *)
Definition reserved_floor_claim (p : params.t) (fuel : nat)
    (a : Allocator.t) : Prop :=
  forall r a',
    Allocator.do_alloc p fuel a = Ok (r, a') ->
    Forall floor_kept (Allocator.tenants a').

(** The state of the cache that [do_memshare] keeps: every tenant holds
    its reserved size or more, and the caches add up to [c]. *)
Definition floors (c : Z) (ts : list Tenant.t) : Prop :=
  Forall (fun x => 0 <= Tenant.reserved_cache_size x <= Tenant.cache_size x) ts
  /\ total_cache ts = c.

Definition same_cache (x x' : Tenant.t) : Prop :=
  Tenant.cache_size x' = Tenant.cache_size x
  /\ Tenant.reserved_cache_size x' = Tenant.reserved_cache_size x.

Definition same_reserve (x x' : Tenant.t) : Prop :=
  Tenant.reserved_cache_size x' = Tenant.reserved_cache_size x.

(** The allocation that a tenant was added with is still its allocation:
    the cache size, and each stateless resource up to its epsilon. *)
Definition allocation_kept (R : ResrcVec.t) (x : Tenant.t) : Prop :=
  Tenant.cache_size x = ResrcVec.cache_size R
  /\ within_epsilon (ResrcVec.stateless R) (Tenant.stateless x).

(** The sentence of the specification about symmetric tenants: [do_alloc]
    of [n] tenants added with the same arguments [s] changes no allocation
    and answers the ratio 0. *)
Definition fixed_point_claim (p : params.t) (fuel : nat) (a : Allocator.t)
    (n : nat) (s : tenant_spec) : Prop :=
  forall r a',
    Allocator.do_alloc p fuel (add_tenants a (replicate n s)) = Ok (r, a') ->
    (r == 0)%Q /\ Forall (allocation_kept s.1.1.2) (Allocator.tenants a').

(** What the tenants of a symmetric allocator share before the idle
    resources are collected: the demand, the share of the network
    bandwidth, the cache size, the anchors of the curve, and a memo that
    only holds answers of the curve. *)
Definition copy_of (D : StatelessResrcVec.t) (R : ResrcVec.t)
    (c : MissRatioCurve.t) (alpha : Q) (x : Tenant.t) : Prop :=
  Tenant.demand_cacheless x = D
  /\ Tenant.net_bw_alpha x = alpha
  /\ Tenant.cache_size x = ResrcVec.cache_size R
  /\ MissRatioCurve.ticks (Tenant.mrc x) = MissRatioCurve.ticks c
  /\ MissRatioCurve.miss_ratios (Tenant.mrc x) = MissRatioCurve.miss_ratios c
  /\ memo_consistent (Tenant.mrc x).

(** The resources that [collect_idle] leaves to a tenant whose curve
    answers [mr]. *)
Definition used_by (p : params.t) (x : Tenant.t) (mr : Q)
    : StatelessResrcVec.t :=
  let demand := Tenant.projected_demand p x mr in
  StatelessResrcVec.scale demand
    (StatelessResrcVec.ratio (Tenant.stateless x) demand).

(** A curve with anchors and a miss ratio for each tick, the index of a
    tenant of a list, and the state of the trading loop in which every
    pointer of its lists is a tenant of the allocator. *)
Definition sized (c : MissRatioCurve.t) : Prop :=
  MissRatioCurve.ticks c <> []
  /\ length (MissRatioCurve.ticks c) = length (MissRatioCurve.miss_ratios c).

Definition sized_tenant (x : Tenant.t) : Prop := sized (Tenant.mrc x).

Definition pointers (n : nat) (l : list nat) : Prop :=
  Forall (fun i => (i < n)%nat) l /\ (2 <= length l)%nat.

Definition harvest_ready (p : params.t) (a : Allocator.t)
    (h : Allocator.harvest) : Prop :=
  Forall sized_tenant (Allocator.tenants a)
  /\ pointers (length (Allocator.tenants a)) (Allocator.rcu_relinq_list h)
  /\ pointers (length (Allocator.tenants a)) (Allocator.rcu_compen_list h)
  /\ (params.alloc_total_net_bw p = true ->
      pointers (length (Allocator.tenants a)) (Allocator.net_relinq_list h)
      /\ pointers (length (Allocator.tenants a)) (Allocator.net_compen_list h)).

(** A step of a tenant that returns and keeps the curve sized. *)
Definition runs (f : Tenant.t -> res Tenant.t) : Prop :=
  forall x, sized_tenant x -> exists x', f x = Ok x' /\ sized_tenant x'.

(** A curve that passes the sanity check, with ticks of 64 bits and
    positive miss ratios only, whose memo holds answers of the curve. *)
Definition regular_curve (c : MissRatioCurve.t) : Prop :=
  sane c
  /\ Forall is_u64 (MissRatioCurve.ticks c)
  /\ Forall (fun mr => (0 < mr)%Q) (MissRatioCurve.miss_ratios c)
  /\ memo_consistent c.

(** A tenant that [do_alloc] serves without a quotient by zero: its
    demand and its allocation are positive in every resource, its share
    of the network bandwidth lies in [0,1], its cache size is a number of
    64 bits, its curve is regular, and its offers of network bandwidth are 0
    as long as the total network bandwidth is not allocated. *)
Definition regular (p : params.t) (x : Tenant.t) : Prop :=
  (forall k, (0 < amount k (Tenant.demand_cacheless x))%Q)
  /\ (forall k, (0 < amount k (Tenant.stateless x))%Q)
  /\ (0 <= Tenant.net_bw_alpha x)%Q /\ (Tenant.net_bw_alpha x <= 1)%Q
  /\ is_u64 (Tenant.cache_size x)
  /\ regular_curve (Tenant.mrc x)
  /\ no_net_offer p x.

(** The offers of a tenant after [update_rcu_net_delta]: it offers less
    than it holds, and asks nothing that is negative. *)
Definition offers_ok (x : Tenant.t) : Prop :=
  (0 <= Tenant.rcu_delta_relinq x)%Q
  /\ (Tenant.rcu_delta_relinq x < amount RCU (Tenant.stateless x))%Q
  /\ (0 <= Tenant.rcu_delta_compen x)%Q
  /\ (0 <= Tenant.net_delta_relinq x)%Q
  /\ (Tenant.net_delta_relinq x < amount NET (Tenant.stateless x))%Q
  /\ (0 <= Tenant.net_delta_compen x)%Q.

(** The state of the trading loop of regular tenants: the tenants and the
    available resources add up to the total, every tenant is regular with
    offers in order, nothing available is negative, the estimated ratio
    is not negative, and no list of compensators names a tenant twice. *)
Definition harvest_regular (p : params.t) (a : Allocator.t)
    (h : Allocator.harvest) : Prop :=
  conserved p a (Allocator.resrc_avail h)
  /\ Forall (fun x => regular p x /\ offers_ok x) (Allocator.tenants a)
  /\ (forall k, (0 <= amount k (Allocator.resrc_avail h))%Q)
  /\ (0 <= Allocator.prev_estimated_improve_ratio h)%Q
  /\ NoDup (Allocator.rcu_compen_list h)
  /\ NoDup (Allocator.net_compen_list h).


(** ** Inputs of the examples *)

Definition repeated_tick_curve : MissRatioCurve.t :=
  MissRatioCurve.make [10; 10] [1 # 2; 1 # 2]%Q.

Definition two_anchor_curve : MissRatioCurve.t :=
  MissRatioCurve.make [10; 20] [9 # 10; 8 # 10]%Q.

(** The curve of test_mrc.cpp. *)
Definition test_basic_curve : MissRatioCurve.t :=
  MissRatioCurve.make [10; 20; 40; 80] [9 # 10; 8 # 10; 7 # 10; 6 # 10]%Q.

(** The parameters that test_alloc.cpp sets, its curve and a tenant of its
    symmetric test. *)
Definition test_params : params.t :=
  {| params.alloc_total_net_bw := false;
     params.cache_delta := 10;
     params.min_cache_size := 10 |}.

Definition test_alloc_curve : MissRatioCurve.t :=
  MissRatioCurve.make [10; 20; 40; 80; 100]
    [9 # 10; 8 # 10; 7 # 10; 6 # 10; 4 # 10]%Q.

Definition symmetric_tenant : Tenant.t :=
  Tenant.make 0 (StatelessResrcVec.mk (1 # 2) (1 # 2) 4)
    (ResrcVec.mk 20 (StatelessResrcVec.mk 2 2 16)) test_alloc_curve 0.

(** A cache instance that has not served a request. *)
Definition fresh_state (admit_write : bool) : hopper.state :=
  hopper.mk_state admit_write ∅ ∅ ∅ ∅ ∅ O [] [] [] hopper.stats.zero [] [] [].

(** A cold key with an outstanding fetch, task 1 of blocked client 0, on
    which blocked client 2 depends. *)
Definition inflight_state : hopper.state :=
  hopper.mk_state false ∅ {["k"%string := 1%nat]}
    {[1%nat := hopper.TaskGet.mk hopper.ERR 0 "k" "Fail to read from DynamoDB: x"
                 [2%nat]]}
    ∅
    {[0%nat := hopper.mk_blocked 7 hopper.get_storage_callback
                 ["GET"; "k"]%string;
      2%nat := hopper.mk_blocked 8 hopper.get_inflight_callback
                 ["GET"; "k"]%string]}
    3 [] [] [] hopper.stats.zero [] [] [].

(** The two tenants of the read-write test of test_alloc.cpp, the
    allocator with them, and what [do_alloc] answers for it. *)
Definition rw_ratio_specs : list tenant_spec :=
  [(StatelessResrcVec.mk (8 # 10) (2 # 10) 4,
    ResrcVec.mk 20 (StatelessResrcVec.mk 2 2 16),
    MissRatioCurve.make [10; 20; 40; 80; 100] [1; 1; 1; 1; 1]%Q, 0%Q);
   (StatelessResrcVec.mk (2 # 10) (8 # 10) 4,
    ResrcVec.mk 20 (StatelessResrcVec.mk 2 2 16),
    MissRatioCurve.make [10; 20; 40; 80; 100] [1; 1; 1; 1; 1]%Q, 0%Q)].

Definition rw_ratio_allocator : Allocator.t :=
  add_tenants (Allocator.make true true false) rw_ratio_specs.


(** Two tenants for which the harvest trades cache twice in the same
    direction: the first gains much from more cache, the second loses
    nothing from less. *)
Definition harvest_specs : list tenant_spec :=
  [(StatelessResrcVec.mk 1 1 1,
    ResrcVec.mk 10 (StatelessResrcVec.mk 1 2 2),
    MissRatioCurve.make [10; 20; 30] [1; 1 # 2; 1 # 4]%Q, 0%Q);
   (StatelessResrcVec.mk 2 1 1,
    ResrcVec.mk 30 (StatelessResrcVec.mk 1 2 2),
    MissRatioCurve.make [10; 20; 30] [1 # 2; 1 # 2; 1 # 2]%Q, 0%Q)].

Definition harvest_allocator : Allocator.t :=
  add_tenants Allocator.default harvest_specs.

Definition harvest_result : Q * Allocator.t * nat * nat :=
  Eval vm_compute in
    match Allocator.do_alloc_traced test_params 0 harvest_allocator with
    | Ok x => x
    | Err _ => (0%Q, harvest_allocator, O, O)
    end.

(** The same two tenants under the memshare policy alone. *)
Definition memshare_allocator : Allocator.t :=
  add_tenants (Allocator.make false true true) harvest_specs.

Definition memshare_result : Q * Allocator.t :=
  Eval vm_compute in
    match Allocator.do_alloc test_params 8 memshare_allocator with
    | Ok x => x
    | Err _ => (0%Q, memshare_allocator)
    end.

(** The four tenants of the symmetric test of test_alloc.cpp. *)
Definition symmetric_spec : tenant_spec :=
  (StatelessResrcVec.mk (1 # 2) (1 # 2) 4,
   ResrcVec.mk 20 (StatelessResrcVec.mk 2 2 16), test_alloc_curve, 0%Q).

Definition symmetric_result : Q * Allocator.t * nat * nat :=
  Eval vm_compute in
    match Allocator.do_alloc_traced test_params 0
            (add_tenants Allocator.default (replicate 4 symmetric_spec)) with
    | Ok x => x
    | Err _ => (0%Q, Allocator.default, O, O)
    end.

(** Two tenants added with the same arguments, on a curve that rewards
    the third unit of cache and not the second. *)
Definition cliff_spec : tenant_spec :=
  (StatelessResrcVec.mk 1 1 1,
   ResrcVec.mk 20 (StatelessResrcVec.mk 1 2 2),
   MissRatioCurve.make [10; 20; 30] [1; 1; 1 # 2]%Q, 0%Q).

Definition cliff_result : Q * Allocator.t * nat * nat :=
  Eval vm_compute in
    match Allocator.do_alloc_traced test_params 0
            (add_tenants Allocator.default (replicate 2 cliff_spec)) with
    | Ok x => x
    | Err _ => (0%Q, Allocator.default, O, O)
    end.

(** The two tenants of the trading test of test_alloc.cpp. *)
Definition trade_basic_specs : list tenant_spec :=
  [(StatelessResrcVec.mk (8 # 10) (2 # 10) 4,
    ResrcVec.mk 40 (StatelessResrcVec.mk 2 2 16),
    MissRatioCurve.make [20; 40; 60; 80; 100]
      [9 # 10; 85 # 100; 8 # 10; 7 # 10; 5 # 10]%Q, 0%Q);
   (StatelessResrcVec.mk (8 # 10) (2 # 10) 4,
    ResrcVec.mk 40 (StatelessResrcVec.mk 2 2 16),
    MissRatioCurve.make [20; 40; 60; 80; 100]
      [8 # 10; 6 # 10; 3 # 10; 2 # 10; 15 # 100]%Q, 0%Q)].

(** [is_resrc_similar] of test_alloc.cpp with its default epsilon, and
    [check_tenant_resrc] for every tenant of an allocator. *)
Definition is_resrc_similar (expected actual : ResrcVec.t) : bool :=
  (ResrcVec.cache_size expected =? ResrcVec.cache_size actual)
  && Qltb (Qabs (StatelessResrcVec.db_rcu (ResrcVec.stateless expected)
                 - StatelessResrcVec.db_rcu (ResrcVec.stateless actual)))
          (1 # 100)
  && Qltb (Qabs (StatelessResrcVec.db_wcu (ResrcVec.stateless expected)
                 - StatelessResrcVec.db_wcu (ResrcVec.stateless actual)))
          (1 # 100)
  && Qltb (Qabs (StatelessResrcVec.net_bw (ResrcVec.stateless expected)
                 - StatelessResrcVec.net_bw (ResrcVec.stateless actual)))
          (1 # 100).

Definition check_tenants (expected : list ResrcVec.t)
    (r : res (Q * Allocator.t)) : bool :=
  match r with
  | Ok (_, a) =>
      (length expected =? length (Allocator.tenants a))%nat
      && forallb (fun '(e, x) => is_resrc_similar e x)
           (zip expected (Allocator.get_alloc_result a))
  | Err _ => false
  end.

(** The same two tenants under the memshare policy alone. *)
Definition cliff_memshare_result : Q * Allocator.t * nat * nat :=
  Eval vm_compute in
    match Allocator.do_alloc_traced test_params 8
            (add_tenants (Allocator.make false true true)
               (replicate 2 cliff_spec)) with
    | Ok x => x
    | Err _ => (0%Q, Allocator.default, O, O)
    end.

(** A sequence of [get_miss_ratio] calls on one curve, each on the curve
    that the call before left. *)
Fixpoint get_miss_ratios (c : MissRatioCurve.t) (sizes : list Z)
    : res (list Q * MissRatioCurve.t) :=
  match sizes with
  | [] => Ok ([], c)
  | x :: sizes' =>
      '(v, c) ← MissRatioCurve.get_miss_ratio
                  params.conservative_estimation_if_out_of_range c x;
      '(vs, c) ← get_miss_ratios c sizes';
      Ok (v :: vs, c)
  end.

(** Three queries of the curve of test_mrc.cpp, one of them repeated. *)
Definition test_basic_queries : list Q * MissRatioCurve.t :=
  Eval vm_compute in
    match get_miss_ratios test_basic_curve [15; 100; 15] with
    | Ok x => x
    | Err _ => ([], test_basic_curve)
    end.

(** What [do_alloc] leaves of a tenant whatever it moves: its index, its
    demand, its share of the network bandwidth, its reserved cache size
    and the anchors of its curve. *)
Definition same_identity (x x' : Tenant.t) : Prop :=
  Tenant.t_idx x' = Tenant.t_idx x
  /\ Tenant.demand_cacheless x' = Tenant.demand_cacheless x
  /\ Tenant.net_bw_alpha x' = Tenant.net_bw_alpha x
  /\ Tenant.reserved_cache_size x' = Tenant.reserved_cache_size x
  /\ MissRatioCurve.ticks (Tenant.mrc x') = MissRatioCurve.ticks (Tenant.mrc x)
  /\ MissRatioCurve.miss_ratios (Tenant.mrc x')
     = MissRatioCurve.miss_ratios (Tenant.mrc x).

(** The tenants after a step that only moves resources between them: the
    same tenants in the same order, with the same cache in total as far as
    64 bits tell. *)
Definition moved_only (ts ts' : list Tenant.t) : Prop :=
  Forall2 same_identity ts ts'
  /\ u64 (total_cache ts') = u64 (total_cache ts).

(** The tenants after a step that adds [k] to the cache in total. *)
Definition shifted (k : Z) (ts ts' : list Tenant.t) : Prop :=
  Forall2 same_identity ts ts'
  /\ u64 (total_cache ts') = u64 (total_cache ts + k).

(** Two tenants that hold unequal parts of the stateless resources, and
    what is left available of the total (4, 4, 32). *)
Definition uneven_allocator : Allocator.t :=
  Allocator.set_tenants
    (add_tenants (Allocator.make false false false) rw_ratio_specs)
    [Tenant.set_stateless
       (Tenant.make 0 (StatelessResrcVec.mk (8 # 10) (2 # 10) 4)
          (ResrcVec.mk 20 (StatelessResrcVec.mk 2 2 16))
          (MissRatioCurve.make [10; 20; 40; 80; 100] [1; 1; 1; 1; 1]%Q) 0)
       (StatelessResrcVec.mk 2 (1 # 2) 10);
     Tenant.set_stateless
       (Tenant.make 1 (StatelessResrcVec.mk (2 # 10) (8 # 10) 4)
          (ResrcVec.mk 20 (StatelessResrcVec.mk 2 2 16))
          (MissRatioCurve.make [10; 20; 40; 80; 100] [1; 1; 1; 1; 1]%Q) 0)
       (StatelessResrcVec.mk (1 # 2) 2 10)].

Definition uneven_avail : StatelessResrcVec.t :=
  StatelessResrcVec.mk (3 # 2) (3 # 2) 12.

(** A request that the statistics record, and the statistics after a
    sequence of requests since the start of the module. *)
Inductive recorded : Type :=
  | get_done (key_size val_size : Z) (is_miss : bool)
  | set_done (key_size val_size : Z).

Definition record (admit_write : bool) (r : hopper.stats.t) (e : recorded)
    : hopper.stats.t :=
  match e with
  | get_done k v is_miss => hopper.stats.record_get_done r k v is_miss
  | set_done k v => hopper.stats.record_set_done admit_write r k v
  end.

Definition record_all (admit_write : bool) (l : list recorded)
    : hopper.stats.t :=
  fold_left (record admit_write) l hopper.stats.zero.

Definition sizes_of (e : recorded) : Z * Z :=
  match e with
  | get_done k v _ => (k, v)
  | set_done k v => (k, v)
  end.

Definition is_get (e : recorded) : bool :=
  match e with get_done _ _ _ => true | set_done _ _ => false end.

(** A bound of every counter: one request and the bytes of the key and the
    value on both links, for every request. *)
Fixpoint volume (l : list recorded) : Z :=
  match l with
  | [] => 0
  | e :: l => 2 * ((sizes_of e).1 + (sizes_of e).2) + 1 + volume l
  end.

(** The counters after [n] requests of which [g] are GETs, none of them
    above the bound [b]. *)
Definition within (r : hopper.stats.t) (b n g : Z) : Prop :=
  hopper.stats.req_cnt r = n
  /\ hopper.stats.hit_cnt r + hopper.stats.miss_cnt r = g
  /\ 0 <= hopper.stats.hit_cnt r /\ 0 <= hopper.stats.miss_cnt r
  /\ g <= n /\ n <= b
  /\ 0 <= hopper.stats.db_rcu_consump r
  /\ hopper.stats.db_rcu_consump r <= hopper.stats.db_rcu_consump_if_miss r
  /\ hopper.stats.db_rcu_consump_if_miss r <= b
  /\ 0 <= hopper.stats.net_bw_consump_if_hit r
  /\ hopper.stats.net_bw_consump_if_hit r <= hopper.stats.net_bw_consump r
  /\ hopper.stats.net_bw_consump r <= hopper.stats.net_bw_consump_if_miss r
  /\ hopper.stats.net_bw_consump_if_miss r <= b.

(** A fetched GET, a GET answered from the cache and a SET. *)
Definition example_requests : list recorded :=
  [get_done 1 5000 true; get_done 1 5000 false; set_done 1 100].

(** The size class of [round_size] with the divisor [2 ^ q]: the sizes
    above [4 * 2 ^ q - 4], or all small ones when [q] is 3, up to
    [8 * 2 ^ q - 4]. *)
Definition size_class (q s : Z) : Prop :=
  3 <= q <= 29 /\ (q = 3 \/ 4 * 2 ^ q - 4 < s) /\ s <= 8 * 2 ^ q - 4.

Definition rounded (q s : Z) : Z := (s + 3) / 2 ^ q * 2 ^ q + 2 ^ q - 4.

(** No byte of the string is zero. *)
Fixpoint no_zero_byte (s : string) : Prop :=
  match s with
  | EmptyString => True
  | String c s => c <> hopper.utils.rstr.NUL /\ no_zero_byte s
  end.

(** What the module starts with. *)
Definition default_settings : hopper.config_set.settings :=
  hopper.config_set.mk_settings "hare_table" false true (2 ^ 15) (2 ^ 15)
    (2 ^ 20) (hopper.storage.mk_mock_format 16 500 3 10 0 484) None.

(** A runtime whose parsers read 96, 40, 1000 and 20 and nothing else,
    with no checkpoint of the ghost cache and with one image file, a.csv,
    of a header, the lines of the keys k1 and k22 and a line without a
    comma; [std::stoul] reads 5 and 7, and the hash of a key is its
    length. *)
Definition example_image_file : string :=
  "key,val_size" ++ String (Ascii.ascii_of_nat 10)
    ("k1,5" ++ String (Ascii.ascii_of_nat 10)
       ("k22,7" ++ String (Ascii.ascii_of_nat 10) "k333")).

Definition example_env : hopper.config_set.env :=
  hopper.config_set.mk_env
    (fun _ => None)
    (fun s =>
       if String.eqb s "96" then Some 96
       else if String.eqb s "40" then Some 40
       else if String.eqb s "1000" then Some 1000
       else if String.eqb s "20" then Some 20
       else None)
    (fun s => if String.eqb s "a.csv" then Some example_image_file else None)
    (fun s =>
       if String.eqb s "5" then Ok 5
       else if String.eqb s "7" then Ok 7
       else Err (LogicError "stoul"))
    (fun s => Z.of_nat (String.length s))
    (-1).

(** An instance with 1 GiB of cache and limiters that began at tick 0,
    and a runtime that reads the numbers of the example and accepts every
    memory limit. *)
Definition example_resrc : hopper.resrc.state :=
  hopper.resrc.mk_state (hopper.resrc.mk_allocated 1073741824 100 100 1000)
    1073741824 (hopper.rate.make 100 0) (hopper.rate.make 100 0)
    (hopper.rate.make 1000 0).

Definition example_resrc_env : hopper.resrc.env :=
  hopper.resrc.mk_env
    (fun s => if String.eqb s "4294967296" then Some 4294967296 else None)
    (fun s =>
       if String.eqb s "-1" then Some (-1)%Q
       else if String.eqb s "250" then Some 250%Q
       else None)
    (fun _ => true).

(** The clients of the list arrive at the barrier, one after the other. *)
Definition arrive (s : hopper.barrier.state) (clients : list nat)
    : hopper.barrier.state :=
  fold_left
    (fun s c =>
       hopper.barrier.RedisModule_HopperBarrierWait s c ["HOPPER.BARRIER.WAIT"])
    clients s.

(** The runtime runs the callbacks of the handles, in order. *)
Fixpoint run_callbacks (s : hopper.barrier.state) (handles : list nat)
    : res hopper.barrier.state :=
  match handles with
  | [] => Ok s
  | bc :: handles =>
      s ← hopper.barrier.run_reply_callback s bc;
      run_callbacks s handles
  end.

Definition empty_barrier : hopper.barrier.state :=
  hopper.barrier.mk_state [] ∅ 0 [] [].

(** The default format of the module, for keys of 16 and values of 500
    bytes. *)
Definition default_mock_format : hopper.storage.mock_format_t :=
  hopper.storage.mk_mock_format 16 500 3 10 0 484.

(** A mocked storage with an empty image, a SET of 3 bytes under the key
    k and then a GET of k in its queue, ready at the ticks 5 and 6. *)
Definition example_mock : hopper.mock_dynamo.mstate :=
  hopper.mock_dynamo.mk_mstate
    (hopper.mk_state true ∅ ∅
       {[3%nat := hopper.TaskGet.make 2 "k"]}
       {[1%nat := hopper.TaskSet.make 0 "k" "abc"]}
       ∅ 4 [] [] [] hopper.stats.zero [] [] [])
    [(5, hopper.mock_dynamo.SET 1); (6, hopper.mock_dynamo.GET 3)]
    (Some ∅) default_mock_format (hopper.rate.make 1000000 0).

(** A curve on which no cache is worth a trade, and two tenants with
    the demand (1, 1, 1) of which the first holds 0.00009 of network
    bandwidth that it does not use. *)
Definition flat_curve : MissRatioCurve.t :=
  MissRatioCurve.make [10; 20; 30] [1; 1; 1]%Q.

Definition drift_specs : list tenant_spec :=
  [(StatelessResrcVec.mk 1 1 1,
    ResrcVec.mk 20 (StatelessResrcVec.mk 1 1 (100009 # 100000)),
    flat_curve, 0%Q);
   (StatelessResrcVec.mk 1 1 1,
    ResrcVec.mk 20 (StatelessResrcVec.mk 1 1 1), flat_curve, 0%Q)].

(** The allocator after [add_tenant] of the two, [do_alloc], and
    [add_tenant] of a third tenant that holds 1000 of network bandwidth
    and uses 1. *)
Definition drifted_allocator : Allocator.t :=
  match
    Allocator.do_alloc test_params 0
      (add_tenants Allocator.default drift_specs)
  with
  | Ok (_, a) =>
      (Allocator.add_tenant a (StatelessResrcVec.mk 1 1 1)
         (ResrcVec.mk 20 (StatelessResrcVec.mk 1 1 1000)) flat_curve 0).2
  | Err _ => Allocator.default
  end.

(** * Theorems *)


(** ** Comparisons of rationals *)

Lemma Qltb_lt (x y : Q) : Qltb x y = true <-> (x < y)%Q.
Proof.
  unfold Qltb. rewrite negb_true_iff. split.
  - intros H. apply Qnot_le_lt. intros Hle.
    apply Qle_bool_iff in Hle. congruence.
  - intros H. destruct (Qle_bool y x) eqn:E; [|reflexivity].
    apply Qle_bool_iff in E. exfalso. apply (Qlt_not_le _ _ H E).
Qed.

Lemma Qltb_ge (x y : Q) : Qltb x y = false <-> (y <= x)%Q.
Proof.
  unfold Qltb. rewrite negb_false_iff. apply Qle_bool_iff.
Qed.

Lemma Qleb_le (x y : Q) : Qleb x y = true <-> (x <= y)%Q.
Proof. apply Qle_bool_iff. Qed.

Lemma Qleb_gt (x y : Q) : Qleb x y = false <-> (y < x)%Q.
Proof.
  unfold Qleb. split.
  - intros H. apply Qnot_le_lt. intros Hle.
    apply Qle_bool_iff in Hle. congruence.
  - intros H. destruct (Qle_bool x y) eqn:E; [|reflexivity].
    apply Qle_bool_iff in E. exfalso. apply (Qlt_not_le _ _ H E).
Qed.

Lemma Qeqb_eq (x y : Q) : Qeqb x y = true <-> (x == y)%Q.
Proof. apply Qeq_bool_iff. Qed.

Lemma Qeqb_neq (x y : Q) : Qeqb x y = false <-> ~ (x == y)%Q.
Proof.
  unfold Qeqb. split.
  - intros H E. apply Qeq_bool_iff in E. congruence.
  - intros H. destruct (Qeq_bool x y) eqn:E; [|reflexivity].
    apply Qeq_bool_iff in E. contradiction.
Qed.

(** ** The sanity check of a curve *)

Section CheckSanity.

Import MissRatioCurve.

  (** The loop accepts exactly the chains that start at the running bounds;
      it ends normally or with a [logic_error]. *)
Lemma check_sanity_loop_spec (ts : list Z) :
    forall (mrs : list Q) (lo hi : Z) (mx : Q),
      length ts = length mrs ->
      (check_sanity_loop ts mrs lo hi 0 mx = Ok tt
       <-> Sorted Z.le (lo :: ts) /\ Forall (fun x => x <= hi) ts
           /\ Sorted Qge_rel (mx :: mrs) /\ Forall (fun m => (0 <= m)%Q) mrs)
      /\ (check_sanity_loop ts mrs lo hi 0 mx = Ok tt
          \/ exists msg, check_sanity_loop ts mrs lo hi 0 mx
                         = Err (LogicError msg)).
Proof.
    induction ts as [|tk ts IH]; intros mrs lo hi mx Hlen.
    - destruct mrs; [|discriminate]. simpl. split; [|by left].
      split; [|done]. intros _. repeat split; repeat constructor.
    - destruct mrs as [|mr mrs]; [discriminate|].
      injection Hlen as Hlen. simpl.
      destruct (tk <? lo) eqn:E1; simpl.
      { apply Z.ltb_lt in E1. split; [|by right; eexists].
        split; [discriminate|]. intros (Hs & _).
        apply Sorted_inv in Hs as [_ Hh]. apply HdRel_inv in Hh. lia. }
      apply Z.ltb_ge in E1.
      destruct (hi <? tk) eqn:E2; simpl.
      { apply Z.ltb_lt in E2. split; [|by right; eexists].
        split; [discriminate|]. intros (_ & Hf & _).
        apply Forall_inv in Hf. lia. }
      apply Z.ltb_ge in E2.
      destruct (Qltb mr 0) eqn:E3; simpl.
      { apply Qltb_lt in E3. split; [|by right; eexists].
        split; [discriminate|]. intros (_ & _ & _ & Hf).
        apply Forall_inv in Hf. lra. }
      apply Qltb_ge in E3.
      destruct (Qltb mx mr) eqn:E4; simpl.
      { apply Qltb_lt in E4. split; [|by right; eexists].
        split; [discriminate|]. intros (_ & _ & Hs & _).
        apply Sorted_inv in Hs as [_ Hh]. apply HdRel_inv in Hh.
        unfold Qge_rel in Hh. lra. }
      apply Qltb_ge in E4.
      destruct (IH mrs tk hi mr Hlen) as [IH1 IH2]. split; [|exact IH2].
      rewrite IH1. split.
      + intros (Hs & Hf & Hq & Hp). repeat split.
        * constructor; [exact Hs | constructor; exact E1].
        * constructor; assumption.
        * constructor; [exact Hq | constructor; exact E4].
        * constructor; assumption.
      + intros (Hs & Hf & Hq & Hp).
        apply Sorted_inv in Hs as [Hs _]. apply Sorted_inv in Hq as [Hq _].
        apply Forall_cons in Hf as [_ Hf]. apply Forall_cons in Hp as [_ Hp].
        done.
Qed.

  (** Every element of a non-decreasing list is at most its last one. *)
Lemma sorted_le_last (ts : list Z) (x : Z) :
    Sorted Z.le ts -> last ts = Some x -> Forall (fun y => y <= x) ts.
Proof.
    induction ts as [|a ts IH]; intros Hs Hl; [constructor|].
    apply Sorted_inv in Hs as [Hs Hh].
    destruct ts as [|b ts].
    - simpl in Hl. injection Hl as <-. repeat constructor. lia.
    - assert (Hl' : last (b :: ts) = Some x) by exact Hl.
      specialize (IH Hs Hl'). constructor; [|exact IH].
      apply HdRel_inv in Hh. apply Forall_inv in IH. lia.
Qed.

Lemma sorted_ge_bounded (mrs : list Q) (mx : Q) :
    Sorted Qge_rel (mx :: mrs) -> Forall (fun m => (m <= mx)%Q) mrs.
Proof.
    revert mx. induction mrs as [|m mrs IH]; intros mx Hs; [constructor|].
    apply Sorted_inv in Hs as [Hs Hh]. apply HdRel_inv in Hh.
    unfold Qge_rel in Hh. constructor; [exact Hh|].
    eapply Forall_impl; [apply (IH m Hs)|]. simpl. intros; lra.
Qed.

Lemma last_cons_some {A} (x : A) (l : list A) : exists y, last (x :: l) = Some y.
Proof.
    revert x. induction l as [|a l IH]; intros x; [by exists x|].
    destruct (IH a) as [y Hy]. exists y. exact Hy.
Qed.
Lemma check_sanity_sane (c : t) : check_sanity c = Ok tt <-> sane c.
Proof.
    unfold check_sanity, sane.
    destruct (ticks c) as [|t0 ts] eqn:Et.
    { split; [discriminate|]. intros (H & _). by destruct H. }
    destruct (length (t0 :: ts) =? length (miss_ratios c))%nat eqn:El; simpl.
    2:{ apply Nat.eqb_neq in El. split; [discriminate|].
        intros (_ & H & _). by destruct El. }
    apply Nat.eqb_eq in El.
    unfold back. destruct (last_cons_some t0 ts) as [hi Eh]. rewrite Eh.
    simpl.
    destruct (check_sanity_loop_spec (t0 :: ts) (miss_ratios c) t0 hi 1 El)
      as [H _].
    rewrite H. split.
    - intros (Hs & Hf & Hq & Hp). apply Sorted_inv in Hs as [Hs _].
      repeat split; try done.
      + pose proof (sorted_ge_bounded _ _ Hq) as Hb.
        apply Forall_forall. intros m Hm.
        rewrite Forall_forall in Hb, Hp. split; [apply Hp | apply Hb]; done.
      + apply Sorted_inv in Hq as [Hq _]. exact Hq.
    - intros (_ & _ & Hs & Hu & Hq). repeat split.
      + constructor; [exact Hs | constructor; lia].
      + apply sorted_le_last; assumption.
      + constructor; [exact Hq|].
        destruct (miss_ratios c) as [|m ms]; constructor.
        apply Forall_inv in Hu. unfold Qge_rel. apply Hu.
      + eapply Forall_impl; [exact Hu|]. intros m Hm. apply Hm.
Qed.

Lemma check_sanity_outcome (c : t) :
    check_sanity c = Ok tt \/ exists msg, check_sanity c = Err (LogicError msg).
Proof.
    unfold check_sanity.
    destruct (ticks c) as [|t0 ts] eqn:Et; [by right; eexists|].
    destruct (length (t0 :: ts) =? length (miss_ratios c))%nat eqn:El; simpl;
      [|by right; eexists].
    apply Nat.eqb_eq in El.
    unfold back. destruct (last_cons_some t0 ts) as [hi Eh]. rewrite Eh.
    simpl.
    apply (check_sanity_loop_spec (t0 :: ts) (miss_ratios c) t0 hi 1 El).
Qed.

Lemma well_formed_sane (c : t) : well_formed c -> sane c.
Proof.
    intros (H1 & H2 & H3 & H4 & H5). repeat split; try done.
    clear -H3. induction H3 as [|a l Hs IH Hh]; constructor; [exact IH|].
    destruct Hh; constructor. lia.
Qed.

End CheckSanity.
Section CheckSanityClaim.

Import MissRatioCurve.



  (** C7, counterexample: a curve whose tick repeats is not well-formed, and
      [check_sanity] returns without throwing. *)
Lemma check_sanity_claim_fails : ~ check_sanity_claim repeated_tick_curve.
Proof.
    intros [H _].
    assert (Hn : ~ well_formed repeated_tick_curve).
    { intros (_ & _ & Hs & _). simpl in Hs.
      apply Sorted_inv in Hs as [_ Hh]. apply HdRel_inv in Hh. lia. }
    apply H in Hn. destruct Hn as [msg [Hm | Hm]]; vm_compute in Hm; discriminate.
Qed.

  (** C7, amended: [check_sanity] returns normally exactly on the curves
      that have as many miss ratios as ticks, at least one, non-decreasing
      ticks (a tick may repeat) and non-increasing miss ratios within [0,1];
      on every other curve it throws; in particular it accepts every
      well-formed curve. *)
Theorem check_sanity_accepts_sane (c : t) :
    (check_sanity c = Ok tt <-> sane c)
    /\ (throws (check_sanity c) <-> ~ sane c)
    /\ (well_formed c -> check_sanity c = Ok tt).
Proof.
    split; [apply check_sanity_sane|]. split.
    - rewrite <- check_sanity_sane. split.
      + intros [msg [H | H]] E; congruence.
      + intros H. destruct (check_sanity_outcome c) as [E | [msg E]];
          [contradiction|]. exists msg. by right.
    - intros H. apply check_sanity_sane, well_formed_sane, H.
Qed.

Lemma check_sanity_accepts_sane_witness :
    well_formed (make [10; 20; 40; 80] [9 # 10; 8 # 10; 7 # 10; 6 # 10]%Q)
    /\ check_sanity (make [10; 20; 40; 80] [9 # 10; 8 # 10; 7 # 10; 6 # 10]%Q)
       = Ok tt.
Proof.
    assert (H : well_formed
                  (make [10; 20; 40; 80] [9 # 10; 8 # 10; 7 # 10; 6 # 10]%Q)).
    { repeat split; simpl; try done.
      - repeat constructor.
      - repeat constructor; unfold Qle; simpl; lia.
      - repeat constructor; unfold Qge_rel, Qle; simpl; lia. }
    split; [exact H|].
    exact (proj2 (proj2 (check_sanity_accepts_sane _)) H).
Defined.

End CheckSanityClaim.
(** ** Queries of a curve *)

Section LowerBound.

Import MissRatioCurve.

Lemma lower_bound_le_length (v : list Z) (x : Z) :
  (lower_bound v x <= length v)%nat.
Proof.
  induction v as [|e v IH]; simpl; [lia|].
  destruct (e <? x); lia.
Qed.

(** Every element before the position is less than [x]. *)
Lemma lower_bound_before (v : list Z) (x : Z) (j : nat) (y : Z) :
  (j < lower_bound v x)%nat -> v !! j = Some y -> y < x.
Proof.
  revert j. induction v as [|e v IH]; intros j Hj Hy; simpl in *; [lia|].
  destruct (e <? x) eqn:E; [|lia].
  apply Z.ltb_lt in E. destruct j as [|j]; simpl in Hy.
  - injection Hy as <-. exact E.
  - apply (IH j); [lia | exact Hy].
Qed.

(** The element at the position is not less than [x]. *)
Lemma lower_bound_at (v : list Z) (x : Z) (y : Z) :
  v !! lower_bound v x = Some y -> x <= y.
Proof.
  induction v as [|e v IH]; simpl; [discriminate|].
  destruct (e <? x) eqn:E; simpl.
  - exact IH.
  - intros H. injection H as <-. apply Z.ltb_ge in E. exact E.
Qed.

Lemma lower_bound_first (v : list Z) (x : Z) (i : nat) (y : Z) :
  v !! i = Some y -> x <= y -> (lower_bound v x <= i)%nat.
Proof.
  intros Hy Hle. destruct (le_lt_dec (lower_bound v x) i) as [H | H]; [exact H|].
  pose proof (lower_bound_before v x i y H Hy). lia.
Qed.

Lemma sorted_lt_lookup (v : list Z) (i j : nat) (a b : Z) :
  Sorted Z.lt v -> (i < j)%nat -> v !! i = Some a -> v !! j = Some b -> a < b.
Proof.
  intros Hs. apply Sorted_StronglySorted in Hs; [|intros ? ? ?; lia].
  revert i j a b. induction Hs as [|e v Hs IH Hf]; intros i j a b Hij Ha Hb;
    [discriminate|].
  destruct j as [|j]; [lia|]. simpl in Hb.
  destruct i as [|i]; simpl in Ha.
  - injection Ha as <-. rewrite Forall_forall in Hf. apply Hf.
    apply list_elem_of_lookup. eauto.
  - apply (IH i j); [lia|done..].
Qed.

(** On strictly increasing ticks the position of an anchor is its index. *)
Lemma lower_bound_anchor (v : list Z) (i : nat) (x : Z) :
  Sorted Z.lt v -> v !! i = Some x -> lower_bound v x = i.
Proof.
  intros Hs Hx.
  pose proof (lower_bound_first v x i x Hx (Z.le_refl x)) as Hle.
  destruct (decide (lower_bound v x = i)) as [E | N]; [exact E|].
  assert (Hlt : (lower_bound v x < i)%nat) by lia.
  destruct (lookup_lt_is_Some_2 v (lower_bound v x)) as [y Hy].
  { apply lookup_lt_Some in Hx. lia. }
  pose proof (lower_bound_at v x y Hy).
  pose proof (sorted_lt_lookup v _ _ _ _ Hs Hlt Hy Hx). lia.
Qed.

Lemma back_lookup {A} (v : list A) (x : A) :
  back v = Ok x <-> v !! (length v - 1)%nat = Some x.
Proof.
  unfold back. rewrite last_lookup.
  replace (Init.Nat.pred (length v)) with (length v - 1)%nat by lia.
  destruct (v !! (length v - 1)%nat); split; intros H; congruence.
Qed.

Lemma back_nonempty {A} (v : list A) : v <> [] -> exists x, back v = Ok x.
Proof.
  destruct v as [|a v]; [done|]. intros _. unfold back.
  destruct (last_cons_some a v) as [y ->]. by exists y.
Qed.

End LowerBound.

Section OutOfRange.

Import MissRatioCurve.

Lemma at_index_lookup {A} (v : list A) (i : nat) (x : A) :
  at_index v i = Ok x <-> v !! i = Some x.
Proof.
  unfold at_index. destruct (v !! i); split; intros H; congruence.
Qed.

Lemma front_lookup {A} (v : list A) (x : A) :
  front v = Ok x <-> v !! O = Some x.
Proof.
  destruct v as [|a v]; simpl; split; intros H; congruence.
Qed.

(** The first tick of a well-formed curve is at most every tick. *)
Lemma sorted_lt_front_le (v : list Z) (i : nat) (a b : Z) :
  Sorted Z.lt v -> v !! O = Some a -> v !! i = Some b -> a <= b.
Proof.
  intros Hs Ha Hb. destruct i as [|i].
  - rewrite Ha in Hb. injection Hb as <-. lia.
  - pose proof (sorted_lt_lookup v O (S i) a b Hs ltac:(lia) Ha Hb). lia.
Qed.

(** C6, counterexample: beyond the last tick the conservative estimate is
    the miss ratio of the last anchor, 8/10 here, not that of the first. *)
Lemma out_of_range_claim_fails : ~ out_of_range_claim two_anchor_curve 30.
Proof.
  intros H.
  assert (Hw : well_formed two_anchor_curve).
  { repeat split; simpl; try done.
    - repeat constructor.
    - repeat constructor; unfold Qle; simpl; lia.
    - repeat constructor; unfold Qge_rel, Qle; simpl; lia. }
  destruct (H Hw 20 (9 # 10)%Q eq_refl eq_refl) as [[v [Hv Hq]] _]; [lia|].
  vm_compute in Hv. injection Hv as <-. vm_compute in Hq. discriminate.
Qed.

(** C6, amended: on a well-formed curve a size greater than the last tick
    yields the miss ratio of the last anchor when the conservative
    estimation is enabled and the error "cache_size out of range" when it
    is disabled; the last tick itself yields the miss ratio of the last
    anchor in both modes. *)
Theorem out_of_range_returns_last (c : t) (cache_size last_tick : Z)
    (mr_last : Q) :
  well_formed c ->
  back (ticks c) = Ok last_tick ->
  back (miss_ratios c) = Ok mr_last ->
  (last_tick < cache_size ->
   get_miss_ratio_const true c cache_size = Ok mr_last
   /\ get_miss_ratio_const false c cache_size
      = Err (RuntimeError "cache_size out of range"))
  /\ (cache_size = last_tick ->
      forall conservative,
        get_miss_ratio_const conservative c cache_size = Ok mr_last).
Proof.
  intros (Hne & Hlen & Hs & _ & _) Hb Hm. split.
  - intros Hlt. unfold get_miss_ratio_const. rewrite Hb. simpl.
    apply Z.ltb_lt in Hlt. rewrite Hlt. done.
  - intros -> conservative. unfold get_miss_ratio_const. rewrite Hb. simpl.
    rewrite Z.ltb_irrefl.
    destruct (front (ticks c)) as [t0|e] eqn:Ef.
    2:{ destruct (ticks c); done. }
    simpl. apply front_lookup in Ef.
    apply back_lookup in Hb. apply back_lookup in Hm.
    rewrite <- Hlen in Hm.
    pose proof (sorted_lt_front_le (ticks c) _ t0 last_tick Hs Ef Hb) as Hle.
    apply Z.ltb_ge in Hle. rewrite Hle.
    rewrite (lower_bound_anchor (ticks c) _ last_tick Hs Hb).
    apply at_index_lookup in Hb. rewrite Hb. simpl.
    rewrite Z.eqb_refl. apply at_index_lookup. exact Hm.
Qed.

Lemma out_of_range_returns_last_witness :
  (get_miss_ratio_const true two_anchor_curve 30 = Ok (8 # 10)%Q
   /\ get_miss_ratio_const false two_anchor_curve 30
      = Err (RuntimeError "cache_size out of range"))
  /\ get_miss_ratio_const false two_anchor_curve 20 = Ok (8 # 10)%Q.
Proof.
  assert (Hw : well_formed two_anchor_curve).
  { repeat split; simpl; try done.
    - repeat constructor.
    - repeat constructor; unfold Qle; simpl; lia.
    - repeat constructor; unfold Qge_rel, Qle; simpl; lia. }
  split.
  - apply (proj1 (out_of_range_returns_last two_anchor_curve 30 20 (8 # 10)%Q
                    Hw eq_refl eq_refl)). lia.
  - apply (proj2 (out_of_range_returns_last two_anchor_curve 20 20 (8 # 10)%Q
                    Hw eq_refl eq_refl)). reflexivity.
Defined.

End OutOfRange.

Section Interpolation.

Import MissRatioCurve.

Lemma u64_small (x : Z) : is_u64 x -> u64 x = x.
Proof. intros H. unfold u64. apply Z.mod_small. exact H. Qed.

(** The two weights of an interpolation add up to one. *)
Lemma weights (l r : Z) :
  0 <= l -> 0 <= r -> 0 < l + r ->
  let d := inject_Z (l + r) in
  (0 <= inject_Z r / d /\ 0 <= inject_Z l / d
   /\ inject_Z r / d + inject_Z l / d == 1)%Q.
Proof.
  intros Hl Hr Hd d.
  assert (Hd' : (0 < d)%Q).
  { unfold d. rewrite <- (Zlt_Qlt 0). exact Hd. }
  assert (Hl' : (0 <= inject_Z l)%Q) by (rewrite <- (Zle_Qle 0); exact Hl).
  assert (Hr' : (0 <= inject_Z r)%Q) by (rewrite <- (Zle_Qle 0); exact Hr).
  repeat split.
  - apply Qle_shift_div_l; [exact Hd' | lra].
  - apply Qle_shift_div_l; [exact Hd' | lra].
  - unfold d. rewrite inject_Z_plus. field.
    rewrite <- inject_Z_plus. fold d. lra.
Qed.

Lemma interpolate_eq (l_val r_val : Q) (l r : Z) :
  is_u64 (l + r) ->
  interpolate l_val r_val l r
  = (l_val * (inject_Z r / inject_Z (l + r))
     + r_val * (inject_Z l / inject_Z (l + r)))%Q.
Proof.
  intros H. unfold interpolate. simpl. rewrite (u64_small _ H). reflexivity.
Qed.

(** An interpolated value lies between the two values. *)
Lemma interpolate_between (l_val r_val : Q) (l r : Z) :
  0 <= l -> 0 <= r -> 0 < l + r -> is_u64 (l + r) ->
  (Qmin l_val r_val <= interpolate l_val r_val l r
   /\ interpolate l_val r_val l r <= Qmax l_val r_val)%Q.
Proof.
  intros Hl Hr Hd Hu. rewrite (interpolate_eq _ _ _ _ Hu).
  destruct (weights l r Hl Hr Hd) as (Hp & Hq & Hs). simpl in Hp, Hq, Hs.
  set (p := (inject_Z r / inject_Z (l + r))%Q) in *.
  set (q := (inject_Z l / inject_Z (l + r))%Q) in *.
  pose proof (Q.le_min_l l_val r_val). pose proof (Q.le_min_r l_val r_val).
  pose proof (Q.le_max_l l_val r_val). pose proof (Q.le_max_r l_val r_val).
  set (lo := Qmin l_val r_val) in *. set (hi := Qmax l_val r_val) in *.
  split; nra.
Qed.

Lemma interpolate_bounds (l_val r_val : Q) (l r : Z) :
  0 <= l -> 0 <= r -> 0 < l + r -> is_u64 (l + r) ->
  (r_val <= l_val)%Q ->
  (r_val <= interpolate l_val r_val l r
   /\ interpolate l_val r_val l r <= l_val)%Q.
Proof.
  intros Hl Hr Hd Hu Hle.
  destruct (interpolate_between l_val r_val l r Hl Hr Hd Hu) as [H1 H2].
  rewrite (Q.min_r _ _ Hle) in H1. rewrite (Q.max_l _ _ Hle) in H2. done.
Qed.

(** Along one segment the interpolated value does not increase. *)
Lemma interpolate_segment (l_val r_val : Q) (lo hi x y : Z) :
  lo <= x -> x <= y -> y <= hi -> lo < hi -> is_u64 (hi - lo) ->
  (r_val <= l_val)%Q ->
  (interpolate l_val r_val (y - lo) (hi - y)
   <= interpolate l_val r_val (x - lo) (hi - x))%Q.
Proof.
  intros H1 H2 H3 H4 Hu Hle.
  assert (Ex : x - lo + (hi - x) = hi - lo) by lia.
  assert (Ey : y - lo + (hi - y) = hi - lo) by lia.
  rewrite !interpolate_eq by (rewrite ?Ex, ?Ey; exact Hu).
  rewrite Ex, Ey.
  set (d := inject_Z (hi - lo)).
  assert (Hd : (0 < d)%Q) by (unfold d; rewrite <- (Zlt_Qlt 0); lia).
  assert (E1 : (inject_Z (hi - y) / d == 1 - inject_Z (y - lo) / d)%Q).
  { assert (HA : (inject_Z (hi - y) == d - inject_Z (y - lo))%Q).
    { unfold d. rewrite <- Ey at 1. rewrite inject_Z_plus. ring. }
    rewrite HA. field. lra. }
  assert (E2 : (inject_Z (hi - x) / d == 1 - inject_Z (x - lo) / d)%Q).
  { assert (HA : (inject_Z (hi - x) == d - inject_Z (x - lo))%Q).
    { unfold d. rewrite <- Ex at 1. rewrite inject_Z_plus. ring. }
    rewrite HA. field. lra. }
  assert (Hm : (inject_Z (x - lo) / d <= inject_Z (y - lo) / d)%Q).
  { apply Qmult_le_compat_r.
    - rewrite <- Zle_Qle. lia.
    - apply Qlt_le_weak, Qinv_lt_0_compat, Hd. }
  rewrite E1, E2.
  set (u := (inject_Z (x - lo) / d)%Q) in *.
  set (w := (inject_Z (y - lo) / d)%Q) in *.
  nra.
Qed.

End Interpolation.

Section Monotone.

Import MissRatioCurve.

Lemma sorted_ge_lookup (v : list Q) (i j : nat) (a b : Q) :
  Sorted Qge_rel v -> (i <= j)%nat -> v !! i = Some a -> v !! j = Some b ->
  (b <= a)%Q.
Proof.
  intros Hs. apply Sorted_StronglySorted in Hs.
  2:{ intros x y z. unfold Qge_rel. intros; lra. }
  revert i j a b. induction Hs as [|e v Hs IH Hf]; intros i j a b Hij Ha Hb;
    [discriminate|].
  destruct i as [|i]; simpl in Ha.
  - injection Ha as <-. destruct j as [|j]; simpl in Hb.
    + injection Hb as <-. lra.
    + rewrite Forall_forall in Hf. apply Hf.
      apply list_elem_of_lookup. eauto.
  - destruct j as [|j]; [lia|]. simpl in Hb.
    apply (IH i j); [lia|done..].
Qed.

(** On strictly increasing ticks the order of two ticks is the order of
    their indices. *)
Lemma sorted_lt_index (v : list Z) (i j : nat) (a b : Z) :
  Sorted Z.lt v -> v !! i = Some a -> v !! j = Some b -> a < b -> (i < j)%nat.
Proof.
  intros Hs Ha Hb Hlt.
  destruct (lt_eq_lt_dec i j) as [[H | H] | H]; [exact H | |].
  - subst j. rewrite Ha in Hb. injection Hb as <-. lia.
  - pose proof (sorted_lt_lookup v j i b a Hs H Hb Ha). lia.
Qed.

Lemma query_cases (conservative : bool) (c : t) (x last_tick : Z) :
  well_formed c -> Forall is_u64 (ticks c) ->
  back (ticks c) = Ok last_tick -> 0 <= x <= last_tick ->
  exists v, get_miss_ratio_const conservative c x = Ok v /\ answered c x v.
Proof.
  intros (Hne & Hlen & Hs & _ & _) Hu Hb [Hx0 Hx].
  unfold get_miss_ratio_const. rewrite Hb. simpl.
  apply Z.ltb_ge in Hx as Hx'. rewrite Hx'. clear Hx'.
  apply back_lookup in Hb.
  assert (Hlast : is_u64 last_tick).
  { rewrite Forall_forall in Hu. apply Hu. apply list_elem_of_lookup. eauto. }
  destruct (front (ticks c)) as [t0|e] eqn:Ef.
  2:{ destruct (ticks c); done. }
  simpl. apply front_lookup in Ef.
  assert (Ht0 : is_u64 t0).
  { rewrite Forall_forall in Hu. apply Hu. apply list_elem_of_lookup. eauto. }
  destruct (lookup_lt_is_Some_2 (miss_ratios c) O) as [m0 Hm0].
  { rewrite <- Hlen. apply lookup_lt_Some in Ef. exact Ef. }
  destruct (x <? t0) eqn:E0.
  - apply Z.ltb_lt in E0. apply front_lookup in Hm0 as Hm0'. rewrite Hm0'.
    simpl. eexists. split; [reflexivity|]. left. exists t0, m0.
    repeat split; try done. rewrite u64_small; [done|].
    unfold is_u64 in *. lia.
  - apply Z.ltb_ge in E0.
    pose proof (lower_bound_first (ticks c) x _ last_tick Hb Hx) as Hidx.
    destruct (lookup_lt_is_Some_2 (ticks c) (lower_bound (ticks c) x))
      as [tick Htick].
    { apply lookup_lt_Some in Hb. lia. }
    pose proof (lower_bound_at _ _ _ Htick) as Hge.
    apply at_index_lookup in Htick as Htick'. rewrite Htick'. simpl.
    destruct (lookup_lt_is_Some_2 (miss_ratios c) (lower_bound (ticks c) x))
      as [mr Hmr].
    { rewrite <- Hlen. apply lookup_lt_Some in Htick. exact Htick. }
    destruct (x =? tick) eqn:E1.
    + apply Z.eqb_eq in E1. subst tick.
      apply at_index_lookup in Hmr as Hmr'. rewrite Hmr'.
      eexists. split; [reflexivity|]. right. left. eauto.
    + apply Z.eqb_neq in E1.
      destruct (lower_bound (ticks c) x) as [|i] eqn:Ei.
      { rewrite Ef in Htick. injection Htick as <-. lia. }
      replace (S i - 1)%nat with i by lia.
      destruct (lookup_lt_is_Some_2 (ticks c) i) as [tl Htl].
      { apply lookup_lt_Some in Htick. lia. }
      destruct (lookup_lt_is_Some_2 (miss_ratios c) i) as [ml Hml].
      { apply lookup_lt_Some in Hmr. lia. }
      assert (Hlt : tl < x).
      { apply (lower_bound_before (ticks c) x i tl); [lia | exact Htl]. }
      assert (Htl0 : is_u64 tl).
      { rewrite Forall_forall in Hu. apply Hu.
        apply list_elem_of_lookup. eauto. }
      assert (Htk : is_u64 tick).
      { rewrite Forall_forall in Hu. apply Hu.
        apply list_elem_of_lookup. eauto. }
      apply at_index_lookup in Hml as Hml'. rewrite Hml'. simpl.
      apply at_index_lookup in Hmr as Hmr'. rewrite Hmr'. simpl.
      apply at_index_lookup in Htl as Htl'. rewrite Htl'. simpl.
      eexists. split; [reflexivity|]. right. right.
      exists i, tl, tick, ml, mr. repeat split; try done; try lia.
      rewrite !u64_small; [done|unfold is_u64 in *; lia..].
Qed.



Lemma tick_le_last (c : t) (j : nat) (tj last_tick : Z) :
  Sorted Z.lt (ticks c) -> back (ticks c) = Ok last_tick ->
  ticks c !! j = Some tj -> tj <= last_tick.
Proof.
  intros Hs Hb Hj. apply back_lookup in Hb.
  apply lookup_lt_Some in Hj as Hlt.
  destruct (decide (j = length (ticks c) - 1)%nat) as [-> | N].
  - rewrite Hb in Hj. injection Hj as <-. lia.
  - assert (Hjl : (j < length (ticks c) - 1)%nat) by lia.
    pose proof (sorted_lt_lookup (ticks c) j _ tj last_tick Hs Hjl Hj Hb).
    lia.
Qed.

(** An answer is at most the miss ratio of every anchor at or below the
    size, and at least that of every anchor at or above it. *)
Lemma anchor_bounds (c : t) (x : Z) (v : Q) :
  well_formed c -> Forall is_u64 (ticks c) -> 0 <= x -> answered c x v ->
  forall j tj mj,
    ticks c !! j = Some tj -> miss_ratios c !! j = Some mj ->
    (x <= tj -> (mj <= v)%Q) /\ (tj <= x -> (v <= mj)%Q).
Proof.
  intros (Hne & Hlen & Hs & Hunit & Hq) Hu Hx0 Ha j tj mj Hj Hmj.
  destruct Ha as [(t0 & m0 & Ht0 & Hm0 & Hlt & ->)
                 | [(i & Hi & Hmi)
                   | (i & tl & tr & ml & mr & Hl & Hr & Hml & Hmr & Hin & ->)]].
  - assert (Hu0 : is_u64 t0).
    { rewrite Forall_forall in Hu. apply Hu.
      apply list_elem_of_lookup. eauto. }
    assert (H1 : (m0 <= 1)%Q).
    { rewrite Forall_forall in Hunit. apply Hunit.
      apply list_elem_of_lookup. eauto. }
    destruct (interpolate_bounds 1 m0 x (t0 - x)) as [B1 B2]; try lia; try done.
    { replace (x + (t0 - x)) with t0 by lia. exact Hu0. }
    pose proof (sorted_lt_front_le (ticks c) j t0 tj Hs Ht0 Hj).
    split; intros Hc; [|lia].
    pose proof (sorted_ge_lookup (miss_ratios c) O j m0 mj Hq ltac:(lia) Hm0 Hmj).
    lra.
  - split; intros Hc.
    + apply (sorted_ge_lookup (miss_ratios c) i j v mj Hq); try done.
      destruct (le_lt_dec i j) as [H | H]; [exact H|].
      pose proof (sorted_lt_lookup (ticks c) j i tj x Hs H Hj Hi). lia.
    + apply (sorted_ge_lookup (miss_ratios c) j i mj v Hq); try done.
      destruct (le_lt_dec j i) as [H | H]; [exact H|].
      pose proof (sorted_lt_lookup (ticks c) i j x tj Hs H Hi Hj). lia.
  - assert (Hul : is_u64 tl).
    { rewrite Forall_forall in Hu. apply Hu.
      apply list_elem_of_lookup. eauto. }
    assert (Hur : is_u64 tr).
    { rewrite Forall_forall in Hu. apply Hu.
      apply list_elem_of_lookup. eauto. }
    pose proof (sorted_ge_lookup (miss_ratios c) i (S i) ml mr Hq ltac:(lia)
                  Hml Hmr) as Hlr.
    destruct (interpolate_bounds ml mr (x - tl) (tr - x)) as [B1 B2];
      try lia; try done.
    { replace (x - tl + (tr - x)) with (tr - tl) by lia.
      unfold is_u64 in *. lia. }
    split; intros Hc.
    + assert (Hij : (i < j)%nat).
      { apply (sorted_lt_index (ticks c) i j tl tj Hs Hl Hj). lia. }
      pose proof (sorted_ge_lookup (miss_ratios c) (S i) j mr mj Hq
                    ltac:(lia) Hmr Hmj).
      lra.
    + assert (Hij : (j < S i)%nat).
      { apply (sorted_lt_index (ticks c) j (S i) tj tr Hs Hj Hr). lia. }
      pose proof (sorted_ge_lookup (miss_ratios c) j i mj ml Hq
                    ltac:(lia) Hmj Hml).
      lra.
Qed.

(** The answers on one side of the first tick, or inside one segment, come
    from one interpolation. *)
Lemma same_segment (c : t) (x y : Z) (vx vy : Q) :
  well_formed c -> Forall is_u64 (ticks c) -> 0 <= x -> x < y ->
  answered c x vx -> answered c y vy ->
  (forall j tj, ticks c !! j = Some tj -> ~ (x <= tj <= y)) ->
  (vy <= vx)%Q.
Proof.
  intros (Hne & Hlen & Hs & Hunit & Hq) Hu Hx0 Hxy Hx Hy Hno.
  destruct Hy as [(t0 & m0 & Ht0 & Hm0 & Hlt & ->)
                 | [(i & Hi & Hmi)
                   | (i & tl & tr & ml & mr & Hl & Hr & Hml & Hmr & Hin & ->)]].
  - destruct Hx as [(t0' & m0' & Ht0' & Hm0' & Hlt' & ->)
                   | [(k & Hk & Hmk)
                     | (k & tl' & tr' & ml' & mr' & Hl' & Hr' & _ & _ & Hin' & _)]].
    + rewrite Ht0 in Ht0'. injection Ht0' as <-.
      rewrite Hm0 in Hm0'. injection Hm0' as <-.
      assert (Hu0 : is_u64 t0).
      { rewrite Forall_forall in Hu. apply Hu.
        apply list_elem_of_lookup. eauto. }
      assert (H1 : (m0 <= 1)%Q).
      { rewrite Forall_forall in Hunit. apply Hunit.
        apply list_elem_of_lookup. eauto. }
      pose proof (interpolate_segment 1 m0 0 t0 x y) as H.
      rewrite !Z.sub_0_r in H. apply H; try lia; try done.
    + exfalso. apply (Hno k x Hk). lia.
    + exfalso.
      pose proof (sorted_lt_front_le (ticks c) k t0 tl' Hs Ht0 Hl'). lia.
  - exfalso. apply (Hno i y Hi). lia.
  - destruct Hx as [(t0' & m0' & Ht0' & Hm0' & Hlt' & ->)
                   | [(k & Hk & Hmk)
                     | (k & tl' & tr' & ml' & mr' & Hl' & Hr' & Hml' & Hmr'
                        & Hin' & ->)]].
    + exfalso. apply (Hno O t0' Ht0').
      pose proof (sorted_lt_front_le (ticks c) (S i) t0' tr Hs Ht0' Hr).
      pose proof (sorted_lt_front_le (ticks c) i t0' tl Hs Ht0' Hl). lia.
    + exfalso. apply (Hno k x Hk). lia.
    + assert (Hnl : ~ (x <= tl <= y)) by (apply (Hno i tl Hl)).
      assert (Hnr : ~ (x <= tr' <= y)) by (apply (Hno (S k) tr' Hr')).
      assert (Hki : k = i).
      { assert ((k < S i)%nat).
        { apply (sorted_lt_index (ticks c) k (S i) tl' tr Hs Hl' Hr). lia. }
        assert ((i < S k)%nat).
        { apply (sorted_lt_index (ticks c) i (S k) tl tr' Hs Hl Hr'). lia. }
        lia. }
      subst k.
      rewrite Hl in Hl'. injection Hl' as <-.
      rewrite Hr in Hr'. injection Hr' as <-.
      rewrite Hml in Hml'. injection Hml' as <-.
      rewrite Hmr in Hmr'. injection Hmr' as <-.
      assert (Hul : is_u64 tl).
      { rewrite Forall_forall in Hu. apply Hu.
        apply list_elem_of_lookup. eauto. }
      assert (Hur : is_u64 tr).
      { rewrite Forall_forall in Hu. apply Hu.
        apply list_elem_of_lookup. eauto. }
      apply interpolate_segment; try lia.
      * unfold is_u64 in *. lia.
      * apply (sorted_ge_lookup (miss_ratios c) i (S i) ml mr Hq); try done.
        lia.
Qed.

End Monotone.

Section MonotoneClaim.

Import MissRatioCurve.

(** C4: on a well-formed curve, whose ticks are values of [uint64_t], the
    answers to two sizes [t_l < t_r] up to the last tick do not increase,
    [get_miss_ratio_const(t_l) >= get_miss_ratio_const(t_r)], and the answer
    to a size strictly between two adjacent anchors lies between the smaller
    and the larger of their miss ratios. *)
Theorem miss_ratio_monotone (conservative : bool) (c : t) (last_tick : Z) :
  well_formed c -> Forall is_u64 (ticks c) -> back (ticks c) = Ok last_tick ->
  (forall t_l t_r,
     0 <= t_l -> t_l < t_r -> t_r <= last_tick ->
     exists m_l m_r,
       get_miss_ratio_const conservative c t_l = Ok m_l
       /\ get_miss_ratio_const conservative c t_r = Ok m_r
       /\ (m_r <= m_l)%Q)
  /\ (forall i x tl tr ml mr,
        ticks c !! i = Some tl -> ticks c !! S i = Some tr ->
        miss_ratios c !! i = Some ml -> miss_ratios c !! S i = Some mr ->
        tl < x < tr ->
        exists v,
          get_miss_ratio_const conservative c x = Ok v
          /\ (Qmin ml mr <= v /\ v <= Qmax ml mr)%Q).
Proof.
  intros Hw Hu Hb. pose proof Hw as (Hne & Hlen & Hs & Hunit & Hq). split.
  - intros x y Hx0 Hxy Hy.
    destruct (query_cases conservative c x last_tick Hw Hu Hb ltac:(lia))
      as (vx & Ex & Ax).
    destruct (query_cases conservative c y last_tick Hw Hu Hb ltac:(lia))
      as (vy & Ey & Ay).
    exists vx, vy. split; [exact Ex|]. split; [exact Ey|].
    pose proof Ay as
      [(t0 & m0 & Ht0 & Hm0 & Hlt & _)
      | [(i & Hi & Hmi)
        | (i & tl & tr & ml & mr & Hl & Hr & Hml & Hmr & Hin & _)]].
    + apply (same_segment c x y vx vy Hw Hu Hx0 Hxy Ax Ay).
      intros j tj Hj.
      pose proof (sorted_lt_front_le (ticks c) j t0 tj Hs Ht0 Hj). lia.
    + apply (anchor_bounds c x vx Hw Hu Hx0 Ax i y vy Hi Hmi). lia.
    + destruct (Z_le_gt_dec x tl) as [Hc | Hc].
      * destruct (anchor_bounds c x vx Hw Hu Hx0 Ax i tl ml Hl Hml) as [B1 _].
        destruct (anchor_bounds c y vy Hw Hu ltac:(lia) Ay i tl ml Hl Hml)
          as [_ B2].
        specialize (B1 Hc). specialize (B2 ltac:(lia)). lra.
      * apply (same_segment c x y vx vy Hw Hu Hx0 Hxy Ax Ay).
        intros j tj Hj Hbt.
        assert ((i < j)%nat).
        { apply (sorted_lt_index (ticks c) i j tl tj Hs Hl Hj). lia. }
        assert ((j < S i)%nat).
        { apply (sorted_lt_index (ticks c) j (S i) tj tr Hs Hj Hr). lia. }
        lia.
  - intros i x tl tr ml mr Hl Hr Hml Hmr Hin.
    assert (Hul : is_u64 tl).
    { rewrite Forall_forall in Hu. apply Hu. apply list_elem_of_lookup. eauto. }
    assert (Hur : is_u64 tr).
    { rewrite Forall_forall in Hu. apply Hu. apply list_elem_of_lookup. eauto. }
    pose proof (tick_le_last c (S i) tr last_tick Hs Hb Hr) as Hle.
    destruct (query_cases conservative c x last_tick Hw Hu Hb)
      as (v & Ev & Av); [unfold is_u64 in *; lia|].
    exists v. split; [exact Ev|].
    destruct Av as
      [(t0 & m0 & Ht0 & Hm0 & Hlt & _)
      | [(k & Hk & Hmk)
        | (k & tl' & tr' & ml' & mr' & Hl' & Hr' & Hml' & Hmr' & Hin' & ->)]].
    + exfalso.
      pose proof (sorted_lt_front_le (ticks c) i t0 tl Hs Ht0 Hl). lia.
    + exfalso.
      assert ((i < k)%nat).
      { apply (sorted_lt_index (ticks c) i k tl x Hs Hl Hk). lia. }
      assert ((k < S i)%nat).
      { apply (sorted_lt_index (ticks c) k (S i) x tr Hs Hk Hr). lia. }
      lia.
    + assert (Hki : k = i).
      { assert ((k < S i)%nat).
        { apply (sorted_lt_index (ticks c) k (S i) tl' tr Hs Hl' Hr). lia. }
        assert ((i < S k)%nat).
        { apply (sorted_lt_index (ticks c) i (S k) tl tr' Hs Hl Hr'). lia. }
        lia. }
      subst k.
      rewrite Hl in Hl'. injection Hl' as <-.
      rewrite Hr in Hr'. injection Hr' as <-.
      rewrite Hml in Hml'. injection Hml' as <-.
      rewrite Hmr in Hmr'. injection Hmr' as <-.
      apply interpolate_between; try lia.
      replace (x - tl + (tr - x)) with (tr - tl) by lia.
      unfold is_u64 in *. lia.
Qed.

Lemma miss_ratio_monotone_witness :
  (exists m_l m_r,
     get_miss_ratio_const true test_basic_curve 25 = Ok m_l
     /\ get_miss_ratio_const true test_basic_curve 50 = Ok m_r
     /\ (m_r <= m_l)%Q)
  /\ (exists v,
        get_miss_ratio_const true test_basic_curve 25 = Ok v
        /\ (Qmin (8 # 10) (7 # 10) <= v /\ v <= Qmax (8 # 10) (7 # 10))%Q).
Proof.
  assert (Hw : well_formed test_basic_curve).
  { repeat split; simpl; try done.
    - repeat constructor.
    - repeat constructor; unfold Qle; simpl; lia.
    - repeat constructor; unfold Qge_rel, Qle; simpl; lia. }
  assert (Hu : Forall is_u64 (ticks test_basic_curve)).
  { repeat constructor; unfold is_u64; simpl; lia. }
  destruct (miss_ratio_monotone true test_basic_curve 80 Hw Hu eq_refl)
    as [H1 H2].
  split.
  - apply (H1 25 50); lia.
  - apply (H2 1%nat 25 20 40 (8 # 10)%Q (7 # 10)%Q); try reflexivity. lia.
Defined.

(** The values that test_mrc.cpp expects. *)
Example test_basic :
  Forall (fun '(cache_size, expected) =>
            exists v, get_miss_ratio_const true test_basic_curve cache_size
                      = Ok v /\ (v == expected)%Q)
    [(0, 1%Q); (5, (95 # 100)%Q); (7, (93 # 100)%Q); (10, (9 # 10)%Q);
     (20, (8 # 10)%Q); (25, (775 # 1000)%Q); (30, (75 # 100)%Q);
     (40, (7 # 10)%Q); (50, (675 # 1000)%Q); (60, (65 # 100)%Q);
     (80, (6 # 10)%Q)].
Proof.
  repeat constructor; eexists; (split; [vm_compute; reflexivity | reflexivity]).
Qed.

End MonotoneClaim.

(** ** The memo of a curve *)

Section Memo.

Import MissRatioCurve.

Lemma get_miss_ratio_const_ext (conservative : bool) (c c' : t) (x : Z) :
  ticks c' = ticks c -> miss_ratios c' = miss_ratios c ->
  get_miss_ratio_const conservative c' x = get_miss_ratio_const conservative c x.
Proof.
  intros H1 H2. unfold get_miss_ratio_const. rewrite H1, H2. reflexivity.
Qed.

Lemma memo_consistent_make (tks : list Z) (mrs : list Q) :
  memo_consistent (make tks mrs).
Proof. intros size mr H. simpl in H. rewrite lookup_empty in H. discriminate. Qed.

(** An answer of [get_miss_ratio] is either memoized or computed.  It
    leaves the anchors alone. *)
Lemma get_miss_ratio_inv (conservative : bool) (c c' : t) (x : Z) (mr : Q) :
  get_miss_ratio conservative c x = Ok (mr, c') ->
  ticks c' = ticks c /\ miss_ratios c' = miss_ratios c
  /\ ((miss_ratio_map c !! x = Some mr /\ c' = c)
      \/ (miss_ratio_map c !! x = None
          /\ get_miss_ratio_const conservative c x = Ok mr
          /\ miss_ratio_map c' = <[x := mr]> (miss_ratio_map c))).
Proof.
  unfold get_miss_ratio. destruct (miss_ratio_map c !! x) as [v|] eqn:E.
  - intros H. injection H as <- <-. repeat split. left. done.
  - destruct (get_miss_ratio_const conservative c x) as [v|e] eqn:Ec;
      [|discriminate].
    simpl. intros H. injection H as <- <-. simpl. repeat split. right. done.
Qed.

(** With a consistent memo [get_miss_ratio] is [get_miss_ratio_const]. *)
Lemma get_miss_ratio_consistent (c c' : t) (x : Z) (mr : Q) :
  memo_consistent c ->
  get_miss_ratio params.conservative_estimation_if_out_of_range c x
  = Ok (mr, c') ->
  get_miss_ratio_const params.conservative_estimation_if_out_of_range c x
  = Ok mr
  /\ memo_consistent c'.
Proof.
  intros Hc H. apply get_miss_ratio_inv in H as (H1 & H2 & [[Hm ->] | (Hn & Hv & Hm)]).
  - split; [apply Hc, Hm | exact Hc].
  - split; [exact Hv|]. intros size v Hs.
    rewrite (get_miss_ratio_const_ext _ c c' size H1 H2).
    rewrite Hm in Hs. destruct (decide (x = size)) as [-> | N].
    + rewrite lookup_insert_eq in Hs. injection Hs as <-. exact Hv.
    + rewrite lookup_insert_ne in Hs by done. apply Hc, Hs.
Qed.


End Memo.

(** ** Idle resources of a tenant *)

Section CollectIdle.




End CollectIdle.

(** ** The inflight registry *)

Section Inflight.

Import hopper.

Lemma at_most_one_entry {A} (l : list (string * A)) (k : string) :
  NoDup l.*1 -> (length (filter (fun e => e.1 = k) l) <= 1)%nat.
Proof.
  induction l as [|[k' v] l IH]; intros Hn; [simpl; lia|].
  simpl in Hn. apply NoDup_cons in Hn as [Hk Hn].
  rewrite filter_cons. simpl. destruct (decide (k' = k)) as [-> | N].
  - simpl. assert (E : filter (fun e => e.1 = k) l = []).
    { destruct (filter (fun e => e.1 = k) l) as [|e f] eqn:Ef; [done|].
      exfalso. apply Hk.
      assert (He : e ∈ filter (fun e => e.1 = k) l) by (rewrite Ef; left).
      apply list_elem_of_filter in He as [He1 He2]. simpl in He1. subst k.
      apply list_elem_of_fmap. exists e. done. }
    rewrite E. simpl. lia.
  - apply IH, Hn.
Qed.

(** C8: with the deduplication enabled, [end_inflight(key, t)] answers
    [true] and removes the entry of [key] exactly when the registry maps
    [key] to the task [t]; otherwise it answers [false] and leaves the
    registry as it is; [invalidate_inflight(key)] removes the entry of
    [key], if any; and the registry has at most one entry for a key. *)
Theorem inflight_registry (s : state) (key : string) (t : nat) :
  (inflight_map s !! key = Some t ->
   inflight.end_inflight s key t
   = (true, set_inflight_map s (delete key (inflight_map s))))
  /\ (inflight_map s !! key <> Some t ->
      inflight.end_inflight s key t = (false, s))
  /\ inflight_map (inflight.invalidate_inflight s key)
     = delete key (inflight_map s)
  /\ inflight_map (inflight.invalidate_inflight s key) !! key = None
  /\ forall s' : state,
       s' = s \/ s' = (inflight.end_inflight s key t).2
       \/ s' = inflight.invalidate_inflight s key
       \/ s' = inflight.begin_inflight s key t ->
       forall k,
         (length (filter (fun e => e.1 = k) (map_to_list (inflight_map s')))
          <= 1)%nat.
Proof.
  repeat split.
  - intros H. unfold inflight.end_inflight. simpl. rewrite H.
    rewrite Nat.eqb_refl. reflexivity.
  - intros H. unfold inflight.end_inflight. simpl.
    destruct (inflight_map s !! key) as [t'|] eqn:E; [|reflexivity].
    destruct (t' =? t)%nat eqn:Et; [|reflexivity].
    apply Nat.eqb_eq in Et. congruence.
  - unfold inflight.invalidate_inflight. simpl. apply lookup_delete_eq.
  - intros s' _ k. apply at_most_one_entry, NoDup_fst_map_to_list.
Qed.

Lemma inflight_registry_witness :
  inflight.end_inflight inflight_state "k" 1
  = (true, set_inflight_map inflight_state
             (delete "k"%string (inflight_map inflight_state)))
  /\ inflight.end_inflight inflight_state "k" 5 = (false, inflight_state).
Proof.
  split.
  - apply (proj1 (inflight_registry inflight_state "k" 1)). reflexivity.
  - apply (proj1 (proj2 (inflight_registry inflight_state "k" 5))).
    vm_compute. discriminate.
Defined.

End Inflight.

(** ** Completion of a failed fetch *)

Section FailedGet.

Import hopper.

Lemma fold_unblock (s : state) (pd : privdata) (l : list nat) :
  let s' := fold_left (fun s bc => unblock_client s bc pd) l s in
  unblocked s' = unblocked s ++ map (fun bc => (bc, pd)) l
  /\ keyspace s' = keyspace s /\ ghost_calls s' = ghost_calls s
  /\ replies s' = replies s /\ inflight_map s' = inflight_map s
  /\ resrc_stats s' = resrc_stats s /\ net_calls s' = net_calls s.
Proof.
  revert s. induction l as [|bc l IH]; intros s; simpl.
  - rewrite app_nil_r. done.
  - destruct (IH (unblock_client s bc pd)) as (H1 & H2 & H3 & H4 & H5 & H6 & H7).
    rewrite H1, H2, H3, H4, H5, H6, H7. simpl. rewrite <- app_assoc. done.
Qed.

Lemma end_inflight_frame (s : state) (key : string) (t : nat) :
  let s' := (inflight.end_inflight s key t).2 in
  keyspace s' = keyspace s /\ ghost_calls s' = ghost_calls s
  /\ replies s' = replies s /\ unblocked s' = unblocked s
  /\ resrc_stats s' = resrc_stats s /\ net_calls s' = net_calls s
  /\ blocked s' = blocked s.
Proof.
  unfold inflight.end_inflight. simpl.
  destruct (inflight_map s !! key) as [t'|]; [|done].
  destruct (t' =? t)%nat; done.
Qed.

(** C9: when the fetch of a GET task has ended with status [ERR], the
    completion callback leaves the cache as it is, whatever the inflight
    registry holds, wakes every dependent client with a null payload and
    answers 'ERR Fail to get from DynamoDB'; a dependent woken with a null
    payload answers the same error and leaves the cache as it is. *)
Theorem failed_get_replies_error (s : state) (client : nat)
    (argv : list string) (t : nat) (a : TaskGet.t) :
  get_tasks s !! t = Some a ->
  TaskGet.status a = ERR ->
  (exists s',
     get.storage_callback s client argv (PrivTaskGet t) = Ok s'
     /\ keyspace s' = keyspace s
     /\ ghost_calls s' = ghost_calls s
     /\ unblocked s'
        = unblocked s ++ map (fun bc => (bc, PrivNull)) (TaskGet.dependents a)
     /\ replies s'
        = replies s ++ [(client, ReplyError "ERR Fail to get from DynamoDB")])
  /\ (forall (d : state) bc b,
        blocked d !! bc = Some b ->
        bc_callback b = get_inflight_callback ->
        exists d',
          run_reply_callback d bc PrivNull = Ok d'
          /\ keyspace d' = keyspace d
          /\ replies d'
             = replies d
               ++ [(bc_client b, ReplyError "ERR Fail to get from DynamoDB")]).
Proof.
  intros Ht He. split.
  - unfold get.storage_callback. rewrite Ht. simpl.
    destruct (inflight.end_inflight s (TaskGet.key a) t) as [u s1] eqn:E.
    pose proof (end_inflight_frame s (TaskGet.key a) t) as F.
    rewrite E in F. simpl in F. destruct F as (F1 & F2 & F3 & F4 & _).
    rewrite He.
    pose proof (fold_unblock s1 PrivNull (TaskGet.dependents a)) as U.
    simpl in U. destruct U as (U1 & U2 & U3 & U4 & _).
    eexists. split; [reflexivity|]. simpl.
    rewrite U1, U2, U3, U4, F1, F2, F3, F4. done.
  - intros d bc b Hb Hc. unfold run_reply_callback. rewrite Hb, Hc. simpl.
    eexists. split; [reflexivity|]. done.
Qed.

Lemma failed_get_replies_error_witness :
  exists s',
    get.storage_callback inflight_state 7 ["GET"; "k"]%string (PrivTaskGet 1)
    = Ok s'
    /\ keyspace s' = keyspace inflight_state
    /\ ghost_calls s' = ghost_calls inflight_state
    /\ unblocked s' = [(2%nat, PrivNull)]
    /\ replies s' = [(7%nat, ReplyError "ERR Fail to get from DynamoDB")].
Proof.
  apply (proj1 (failed_get_replies_error inflight_state 7
                  ["GET"; "k"]%string 1 _ eq_refl eq_refl)).
Defined.

(** The failure path of the storage worker sets the status [ERR] and wakes
    the client of the task with the task as payload. *)
Lemma get_failed_status (s : state) (t : nat) (a : TaskGet.t)
    (err_msg : string) :
  get_tasks s !! t = Some a ->
  exists s' a',
    storage.get_failed s t err_msg = Ok s'
    /\ get_tasks s' !! t = Some a'
    /\ TaskGet.status a' = ERR
    /\ TaskGet.dependents a' = TaskGet.dependents a
    /\ keyspace s' = keyspace s
    /\ unblocked s' = unblocked s ++ [(TaskGet.client a, PrivTaskGet t)].
Proof.
  intros H. unfold storage.get_failed. rewrite H.
  eexists _, _. split; [reflexivity|]. simpl.
  rewrite lookup_insert_eq. done.
Qed.

End FailedGet.

(** ** A write that the cache does not admit *)

Section SetNotAdmitted.

Import hopper.

(** C10: a SET of a key that the cache does not hold, while
    [cache.admit_write] is false, leaves the cache and the inflight
    registry as they are, so that the callback of an outstanding GET of the
    key is still permitted to fill the cache; the Set task is enqueued for
    the storage worker, and the ghost cache is accessed, the statistics are
    recorded and the bandwidth is charged: with [n] the size of the key
    plus the size of the value, the request is counted, [n / 1024 + 1]
    write units and [n] bytes to the client plus [n] bytes to the storage
    are added to the consumption, the counters of the reads and the
    running average of the sizes stay, and [n + n] bytes are consumed from
    the network limiter. *)
Theorem set_not_admitted (s : state) (client : nat) (cmd key val : string) :
  keyspace s !! key = None ->
  admit_write s = false ->
  let bc := next_handle s in
  let t := S (next_handle s) in
  let n := u64 (size key + size val) in
  let r := resrc_stats s in
  exists s',
    set.RedisModule_HopperSet s client [cmd; key; val] = Ok s'
    /\ keyspace s' = keyspace s
    /\ inflight_map s' = inflight_map s
    /\ (forall g, inflight_map s !! key = Some g ->
                  (inflight.end_inflight s' key g).1 = true)
    /\ set_tasks s' = <[t := TaskSet.make bc key val]> (set_tasks s)
    /\ task_set_queue s' = task_set_queue s ++ [t]
    /\ ghost_calls s'
       = ghost_calls s ++ [ghost_access_key key (size val) false]
    /\ stats.req_cnt (resrc_stats s') = u64 (stats.req_cnt r + 1)
    /\ stats.db_wcu_consump (resrc_stats s')
       = u64 (stats.db_wcu_consump r + u64 (n / 1024 + 1))
    /\ stats.net_bw_consump (resrc_stats s')
       = u64 (u64 (stats.net_bw_consump r + n) + n)
    /\ stats.net_bw_consump_if_hit (resrc_stats s')
       = u64 (u64 (stats.net_bw_consump_if_hit r + n) + n)
    /\ stats.net_bw_consump_if_miss (resrc_stats s')
       = u64 (u64 (stats.net_bw_consump_if_miss r + n) + n)
    /\ stats.hit_cnt (resrc_stats s') = stats.hit_cnt r
    /\ stats.miss_cnt (resrc_stats s') = stats.miss_cnt r
    /\ stats.db_rcu_consump (resrc_stats s') = stats.db_rcu_consump r
    /\ stats.db_rcu_consump_if_miss (resrc_stats s')
       = stats.db_rcu_consump_if_miss r
    /\ stats.avg_kv_size (resrc_stats s') = stats.avg_kv_size r
    /\ net_calls s'
       = net_calls s ++ [net_wait_until_can_send; net_consume (u64 (n + n))]
    /\ replies s' = replies s.
Proof.
  intros Hk Ha bc t n r. unfold set.RedisModule_HopperSet. simpl.
  rewrite Hk, Ha. simpl.
  eexists. split; [reflexivity|]. simpl. rewrite Ha.
  repeat split; try done.
  - intros g Hg. unfold inflight.end_inflight. simpl. rewrite Hg.
    rewrite Nat.eqb_refl. reflexivity.
  - rewrite <- app_assoc. reflexivity.
Qed.

Lemma set_not_admitted_witness :
  exists s',
    set.RedisModule_HopperSet inflight_state 9 ["SET"; "k"; "v2"]%string
    = Ok s'
    /\ keyspace s' = ∅
    /\ inflight_map s' = {["k"%string := 1%nat]}
    /\ (inflight.end_inflight s' "k" 1).1 = true
    /\ set_tasks s' = {[4%nat := TaskSet.mk NONE 3 "k" "v2"]}
    /\ task_set_queue s' = [4%nat]
    /\ ghost_calls s' = [ghost_access_key "k" 2 false]
    /\ resrc_stats s' = stats.mk 1 0 0 0 6 6 0 1 6 0
    /\ net_calls s' = [net_wait_until_can_send; net_consume 6]
    /\ replies s' = [].
Proof.
  destruct (set_not_admitted inflight_state 9 "SET" "k" "v2" eq_refl eq_refl)
    as (s' & H1 & H2 & H3 & H4 & H5 & H6 & H7 & S1 & S2 & S3 & S4 & S5 & S6
        & S7 & S8 & S9 & S10 & H8 & H9).
  exists s'. split; [exact H1|]. split; [exact H2|]. split; [exact H3|].
  split; [apply H4; reflexivity|]. split; [exact H5|]. split; [exact H6|].
  split; [exact H7|]. split.
  - destruct (resrc_stats s'). simpl in *. subst. reflexivity.
  - split; [exact H8 | exact H9].
Defined.

End SetNotAdmitted.

(** ** Steps of a tenant *)

(** Inversion of a sequence of calls that ended normally. *)
Ltac res_inv H :=
  repeat
    (simpl in H;
     match type of H with
     | context [mbind _ ?e] =>
         let E := fresh "E" in
         destruct e eqn:E; simpl in H; [|discriminate H]
     | context [let '(_, _) := ?e in _] =>
         let E := fresh "E" in destruct e eqn:E; simpl in H
     end).

Section TenantSteps.

Lemma same_core_refl (a : Tenant.t) : same_core a a.
Proof. repeat split. Qed.

Lemma same_core_trans (a b c : Tenant.t) :
  same_core a b -> same_core b c -> same_core a c.
Proof.
  intros (A1 & A2 & A3 & A4 & A5 & A6 & A7) (B1 & B2 & B3 & B4 & B5 & B6 & B7).
  repeat split; congruence.
Qed.

Lemma miss_ratio_inv (a a' : Tenant.t) (x : Z) (mr : Q) :
  Tenant.miss_ratio a x = Ok (mr, a') ->
  exists m,
    MissRatioCurve.get_miss_ratio
      params.conservative_estimation_if_out_of_range (Tenant.mrc a) x
    = Ok (mr, m)
    /\ a' = Tenant.set_mrc a m.
Proof.
  unfold Tenant.miss_ratio. intros H.
  destruct (MissRatioCurve.get_miss_ratio _ _ _) as [[v m]|] eqn:E;
    [|discriminate].
  simpl in H. injection H as <- <-. eauto.
Qed.

Lemma miss_ratio_core (a a' : Tenant.t) (x : Z) (mr : Q) :
  Tenant.miss_ratio a x = Ok (mr, a') ->
  same_core a a'
  /\ Tenant.rcu_delta_relinq a' = Tenant.rcu_delta_relinq a
  /\ Tenant.rcu_delta_compen a' = Tenant.rcu_delta_compen a
  /\ Tenant.net_delta_relinq a' = Tenant.net_delta_relinq a
  /\ Tenant.net_delta_compen a' = Tenant.net_delta_compen a.
Proof.
  intros H. apply miss_ratio_inv in H as (m & Hm & ->).
  apply get_miss_ratio_inv in Hm as (H1 & H2 & _).
  repeat split; simpl; assumption.
Qed.



Lemma miss_ratio_set_mrc (a a' : Tenant.t) (x : Z) (mr : Q) :
  Tenant.miss_ratio a x = Ok (mr, a') ->
  exists m,
    a' = Tenant.set_mrc a m
    /\ MissRatioCurve.ticks m = MissRatioCurve.ticks (Tenant.mrc a)
    /\ MissRatioCurve.miss_ratios m = MissRatioCurve.miss_ratios (Tenant.mrc a).
Proof.
  intros H. apply miss_ratio_inv in H as (m & Hm & ->).
  apply get_miss_ratio_inv in Hm as (H1 & H2 & _). eauto.
Qed.

(** One [mrc.get_miss_ratio] at the head of a sequence that ended
    normally. *)
Ltac step_miss_ratio H :=
  match type of H with
  | (Tenant.miss_ratio ?a ?x ≫= _) = _ =>
      let E := fresh "E" in
      let mr := fresh "mr" in
      let b := fresh "b" in
      let m := fresh "m" in
      destruct (Tenant.miss_ratio a x) as [[mr b]|] eqn:E;
      simpl in H;
      [apply miss_ratio_set_mrc in E as (m & -> & ? & ?) | discriminate H]
  end.

(** The end of a step: the fields of the result, one by one. *)
Ltac close_core :=
  unfold same_core, no_net_offer, Tenant.abort_relinq_offer,
    Tenant.abort_compen_offer, Tenant.immediate_compen_offer,
    Tenant.cache_size, Tenant.stateless in *;
  repeat match goal with
         | |- context [if ?b then _ else _] => destruct b eqn:?
         end;
  simpl in *; repeat split; intros;
  repeat match goal with
         | H : ?x = false -> _ /\ _, H' : ?x = false |- _ =>
             destruct (H H'); clear H
         end;
  try congruence.

Lemma pred_more_core (p : params.t) (a a' : Tenant.t) (cache_delta : Z) :
  Tenant.pred_rcu_net_delta_if_more_cache p a cache_delta = Ok a' ->
  same_core a a'
  /\ (no_net_offer p a -> no_net_offer p a')
  /\ Tenant.mr_inc_if_more_cache a' = Tenant.mr_inc_if_more_cache a
  /\ Tenant.mr_dec_if_less_cache a' = Tenant.mr_dec_if_less_cache a.
Proof.
  unfold Tenant.pred_rcu_net_delta_if_more_cache. intros H.
  step_miss_ratio H.
  destruct (Qleb mr params.epilson); [injection H as <-; close_core|].
  step_miss_ratio H.
  destruct (Qltb mr0 params.min_miss_ratio); [injection H as <-; close_core|].
  destruct (Qleb (mr - mr0) params.epilson); injection H as <-; close_core.
Qed.

Lemma pred_less_core (p : params.t) (a a' : Tenant.t) (cache_delta : Z) :
  Tenant.pred_rcu_net_delta_if_less_cache p a cache_delta = Ok a' ->
  same_core a a'
  /\ (no_net_offer p a -> no_net_offer p a')
  /\ Tenant.mr_inc_if_more_cache a' = Tenant.mr_inc_if_more_cache a
  /\ Tenant.mr_dec_if_less_cache a' = Tenant.mr_dec_if_less_cache a.
Proof.
  unfold Tenant.pred_rcu_net_delta_if_less_cache. intros H.
  destruct (Tenant.cache_size a <? u64 (params.min_cache_size p + cache_delta));
    [injection H as <-; close_core|].
  step_miss_ratio H. step_miss_ratio H.
  destruct (Qltb params.max_miss_ratio mr0); [injection H as <-; close_core|].
  destruct (Qleb (mr0 - mr) params.epilson); [injection H as <-; close_core|].
  destruct (Qleb mr0 params.epilson); [injection H as <-; close_core|].
  destruct (Qleb mr params.epilson); injection H as <-; close_core.
Qed.

Lemma update_rcu_net_delta_core (p : params.t) (a a' : Tenant.t) :
  Tenant.update_rcu_net_delta p a = Ok a' ->
  same_core a a'
  /\ (no_net_offer p a -> no_net_offer p a')
  /\ Tenant.mr_inc_if_more_cache a' = Tenant.mr_inc_if_more_cache a
  /\ Tenant.mr_dec_if_less_cache a' = Tenant.mr_dec_if_less_cache a.
Proof.
  unfold Tenant.update_rcu_net_delta. intros H.
  destruct (Tenant.pred_rcu_net_delta_if_more_cache p a _) as [b|] eqn:E;
    [|discriminate].
  simpl in H. apply pred_more_core in E as (A1 & A2 & A3 & A4).
  apply pred_less_core in H as (B1 & B2 & B3 & B4).
  split; [eapply same_core_trans; eassumption|].
  split; [auto|]. split; congruence.
Qed.

Lemma update_mr_delta_core (p : params.t) (a a' : Tenant.t) :
  Tenant.update_mr_delta p a = Ok a' ->
  same_core a a' /\ (no_net_offer p a -> no_net_offer p a').
Proof.
  unfold Tenant.update_mr_delta. intros H.
  step_miss_ratio H. step_miss_ratio H. step_miss_ratio H.
  injection H as <-. close_core.
Qed.

Lemma collect_idle_core (p : params.t) (a a' : Tenant.t)
    (idle : StatelessResrcVec.t) :
  Tenant.collect_idle p a = Ok (idle, a') ->
  Tenant.t_idx a' = Tenant.t_idx a
  /\ Tenant.cache_size a' = Tenant.cache_size a
  /\ Tenant.reserved_cache_size a' = Tenant.reserved_cache_size a
  /\ (no_net_offer p a -> no_net_offer p a')
  /\ forall k,
       (amount k (Tenant.stateless a') + amount k idle
        == amount k (Tenant.stateless a))%Q.
Proof.
  unfold Tenant.collect_idle. intros H. step_miss_ratio H.
  injection H as <- <-. close_core.
  destruct k; simpl; ring.
Qed.

End TenantSteps.

(** ** Totals over the tenants *)

Section Totals.

Lemma total_of_app (k : resource) (l l' : list Tenant.t) :
  (total_of k (l ++ l') == total_of k l + total_of k l')%Q.
Proof.
  induction l as [|a l IH]; simpl.
  - ring.
  - fold (total_of k (l ++ l')). fold (total_of k l). rewrite IH. ring.
Qed.

Lemma total_of_insert (k : resource) (ts : list Tenant.t) (i : nat)
    (a a' : Tenant.t) :
  ts !! i = Some a ->
  (total_of k (<[i := a']> ts)
   == total_of k ts - amount k (Tenant.stateless a)
      + amount k (Tenant.stateless a'))%Q.
Proof.
  revert i. induction ts as [|b ts IH]; intros i Hi; [discriminate|].
  destruct i as [|i]; simpl in *.
  - injection Hi as ->. ring.
  - fold (total_of k (<[i := a']> ts)). fold (total_of k ts).
    rewrite (IH i Hi). ring.
Qed.

Lemma aggregate_from (k : resource) (ts : list Tenant.t)
    (acc : StatelessResrcVec.t) :
  (amount k
     (fold_left (fun sum a => StatelessResrcVec.add sum (Tenant.stateless a))
        ts acc)
   == amount k acc + total_of k ts)%Q.
Proof.
  revert acc. induction ts as [|a ts IH]; intros acc; simpl.
  - ring.
  - fold (total_of k ts). rewrite IH. destruct k; simpl; ring.
Qed.

Lemma aggregate_total (k : resource) (ts : list Tenant.t) :
  (amount k (Tenant.aggregate_resrc ts) == total_of k ts)%Q.
Proof.
  unfold Tenant.aggregate_resrc. rewrite aggregate_from.
  destruct k; simpl; ring.
Qed.

Lemma total_of_pointwise (k : resource) (ts ts' : list Tenant.t) :
  Forall2 (fun a a' => Tenant.stateless a' = Tenant.stateless a) ts ts' ->
  total_of k ts' = total_of k ts.
Proof.
  induction 1 as [|a a' ts ts' H _ IH]; simpl; [reflexivity|].
  fold (total_of k ts'). fold (total_of k ts). rewrite IH, H. reflexivity.
Qed.

Lemma same_core_stateless (ts ts' : list Tenant.t) :
  Forall2 same_core ts ts' ->
  Forall2 (fun a a' => Tenant.stateless a' = Tenant.stateless a) ts ts'.
Proof.
  intros H0. eapply Forall2_impl; [exact H0|]. intros a a' (_ & _ & H & _).
  unfold Tenant.stateless. rewrite H. reflexivity.
Qed.

Lemma modify_inv (ts ts' : list Tenant.t) (i : nat)
    (f : Tenant.t -> res Tenant.t) :
  Tenant.modify ts i f = Ok ts' ->
  exists a a', ts !! i = Some a /\ f a = Ok a' /\ ts' = <[i := a']> ts.
Proof.
  unfold Tenant.modify, at_index. intros H.
  destruct (ts !! i) as [a|]; [|discriminate]. simpl in H.
  destruct (f a) as [a'|] eqn:Ef; [|discriminate]. simpl in H.
  injection H as <-. exists a, a'. done.
Qed.

(** An update through a pointer that adds [d] to one resource of the
    tenant adds [d] to the total. *)
Lemma modify_total (k : resource) (d : Q) (ts ts' : list Tenant.t) (i : nat)
    (f : Tenant.t -> res Tenant.t) :
  Tenant.modify ts i f = Ok ts' ->
  (forall a a', f a = Ok a' ->
     (amount k (Tenant.stateless a') == amount k (Tenant.stateless a) + d)%Q) ->
  (total_of k ts' == total_of k ts + d)%Q.
Proof.
  intros H Hf. apply modify_inv in H as (a & a' & Hi & Ha & ->).
  rewrite (total_of_insert k ts i a a' Hi), (Hf a a' Ha). ring.
Qed.

Lemma modify_pointwise (R : Tenant.t -> Tenant.t -> Prop) (ts ts' : list Tenant.t)
    (i : nat) (f : Tenant.t -> res Tenant.t) :
  (forall a, R a a) ->
  Tenant.modify ts i f = Ok ts' ->
  (forall a a', f a = Ok a' -> R a a') ->
  Forall2 R ts ts'.
Proof.
  intros Hr H Hf. apply modify_inv in H as (a & a' & Hi & Ha & ->).
  rewrite <- (list_insert_id ts i a Hi) at 1.
  apply Forall2_insert; [|apply Hf, Ha].
  apply Forall_Forall2_diag, Forall_forall. auto.
Qed.

Lemma modify_forall (P : Tenant.t -> Prop) (ts ts' : list Tenant.t)
    (i : nat) (f : Tenant.t -> res Tenant.t) :
  Tenant.modify ts i f = Ok ts' ->
  Forall P ts ->
  (forall a a', f a = Ok a' -> P a -> P a') ->
  Forall P ts'.
Proof.
  intros H Hp Hf. apply modify_inv in H as (a & a' & Hi & Ha & ->).
  apply Forall_insert; [exact Hp|]. apply (Hf a a' Ha).
  rewrite Forall_forall in Hp. apply Hp. apply list_elem_of_lookup. eauto.
Qed.

Lemma update_all_pointwise (R : Tenant.t -> Tenant.t -> Prop)
    (f : Tenant.t -> res Tenant.t) (ts ts' : list Tenant.t) :
  Allocator.update_all f ts = Ok ts' ->
  (forall a a', f a = Ok a' -> R a a') ->
  Forall2 R ts ts'.
Proof.
  intros H Hf. revert ts' H. induction ts as [|a ts IH]; intros ts' H; simpl in H.
  - injection H as <-. constructor.
  - destruct (f a) as [a'|] eqn:Ea; [|discriminate]. simpl in H.
    destruct (Allocator.update_all f ts) as [rest|]; [|discriminate].
    simpl in H. injection H as <-. constructor; [apply Hf, Ea | apply IH; reflexivity].
Qed.

Lemma update_all_forall (P : Tenant.t -> Prop)
    (f : Tenant.t -> res Tenant.t) (ts ts' : list Tenant.t) :
  Allocator.update_all f ts = Ok ts' ->
  Forall P ts ->
  (forall a a', f a = Ok a' -> P a -> P a') ->
  Forall P ts'.
Proof.
  intros H Hp Hf. revert ts' H. induction Hp as [|a ts Ha Hp IH]; intros ts' H;
    simpl in H.
  - injection H as <-. constructor.
  - destruct (f a) as [a'|] eqn:Ea; [|discriminate]. simpl in H.
    destruct (Allocator.update_all f ts) as [rest|]; [|discriminate].
    simpl in H. injection H as <-.
    constructor; [apply (Hf a a' Ea Ha) | apply IH; reflexivity].
Qed.

End Totals.

(** ** Conservation of the stateless resources *)

Section Conservation.

Lemma modify_length (ts ts' : list Tenant.t) (i : nat)
    (f : Tenant.t -> res Tenant.t) :
  Tenant.modify ts i f = Ok ts' -> length ts' = length ts.
Proof.
  intros H. apply modify_inv in H as (a & a' & _ & _ & ->).
  apply length_insert.
Qed.

Lemma update_all_length (f : Tenant.t -> res Tenant.t)
    (ts ts' : list Tenant.t) :
  Allocator.update_all f ts = Ok ts' -> length ts' = length ts.
Proof.
  intros H. symmetry. eapply Forall2_length.
  apply (update_all_pointwise (fun _ _ => True) _ _ _ H). done.
Qed.

Lemma relocate_cache_length (p : params.t) (ts ts' : list Tenant.t)
    (r d : nat) :
  Tenant.relocate_cache p ts r d = Ok ts' -> length ts' = length ts.
Proof.
  unfold Tenant.relocate_cache. intros H.
  destruct (Tenant.modify ts r _) as [ts1|] eqn:E1; [|discriminate].
  simpl in H. apply modify_length in H, E1. congruence.
Qed.

Lemma relocate_resrc_total (p : params.t) (ts ts' : list Tenant.t)
    (t_relinq t_compen : nat) (rcu_relinq rcu_compen net_relinq net_compen : Q) :
  Tenant.relocate_resrc p ts t_relinq t_compen rcu_relinq rcu_compen
    net_relinq net_compen = Ok ts' ->
  Forall (no_net_offer p) ts ->
  (forall k,
     (total_of k ts'
      == total_of k ts
         + deal_change p k rcu_relinq rcu_compen net_relinq net_compen)%Q)
  /\ Forall (no_net_offer p) ts'
  /\ length ts' = length ts.
Proof.
  unfold Tenant.relocate_resrc. intros H Hn.
  destruct (Tenant.modify ts t_compen _) as [ts1|] eqn:E1; [|discriminate].
  simpl in H.
  destruct (Tenant.modify ts1 t_relinq _) as [ts2|] eqn:E2; [|discriminate].
  simpl in H.
  destruct (Tenant.modify ts2 t_compen _) as [ts3|] eqn:E3; [|discriminate].
  simpl in H.
  destruct (Tenant.modify ts3 t_relinq _) as [ts4|] eqn:E4; [|discriminate].
  simpl in H.
  assert (F1 : Forall (no_net_offer p) ts1).
  { apply (modify_forall _ _ _ _ _ E1 Hn). intros a a' Ha. by injection Ha as <-. }
  assert (F2 : Forall (no_net_offer p) ts2).
  { apply (modify_forall _ _ _ _ _ E2 F1). intros a a' Ha. by injection Ha as <-. }
  assert (F3 : Forall (no_net_offer p) ts3).
  { apply (modify_forall _ _ _ _ _ E3 F2). intros a a' Ha. by injection Ha as <-. }
  assert (F4 : Forall (no_net_offer p) ts4).
  { apply (modify_forall _ _ _ _ _ E4 F3). intros a a' Ha. by injection Ha as <-. }
  assert (T1 : forall k, (total_of k ts1 == total_of k ts + 0)%Q).
  { intros k. apply (modify_total k 0 _ _ _ _ E1). intros a a' Ha.
    injection Ha as <-. destruct k; unfold Tenant.stateless, Tenant.set_cache_size, Tenant.set_stateless;
    simpl; ring. }
  assert (T2 : forall k, (total_of k ts2 == total_of k ts1 + 0)%Q).
  { intros k. apply (modify_total k 0 _ _ _ _ E2). intros a a' Ha.
    injection Ha as <-. destruct k; unfold Tenant.stateless, Tenant.set_cache_size, Tenant.set_stateless;
    simpl; ring. }
  assert (T3 : forall k,
             (total_of k ts3
              == total_of k ts2 + match k with RCU => rcu_compen | _ => 0 end)%Q).
  { intros k. apply (modify_total k _ _ _ _ _ E3). intros a a' Ha.
    injection Ha as <-. destruct k; unfold Tenant.stateless, Tenant.set_cache_size, Tenant.set_stateless;
    simpl; ring. }
  assert (T4 : forall k,
             (total_of k ts4
              == total_of k ts3 + match k with RCU => - rcu_relinq | _ => 0 end)%Q).
  { intros k. apply (modify_total k _ _ _ _ _ E4). intros a a' Ha.
    injection Ha as <-. destruct k; unfold Tenant.stateless, Tenant.set_cache_size, Tenant.set_stateless;
    simpl; ring. }
  apply modify_length in E1 as L1. apply modify_length in E2 as L2.
  apply modify_length in E3 as L3. apply modify_length in E4 as L4.
  unfold deal_change.
  destruct (params.alloc_total_net_bw p) eqn:Ef.
  - destruct (Tenant.modify ts4 t_compen _) as [ts5|] eqn:E5; [|discriminate].
    simpl in H.
    assert (F5 : Forall (no_net_offer p) ts5).
    { apply (modify_forall _ _ _ _ _ E5 F4). intros a a' Ha.
      by injection Ha as <-. }
    assert (T5 : forall k,
               (total_of k ts5
                == total_of k ts4 + match k with NET => net_compen | _ => 0 end)%Q).
    { intros k. apply (modify_total k _ _ _ _ _ E5). intros a a' Ha.
      injection Ha as <-. destruct k; unfold Tenant.stateless, Tenant.set_cache_size, Tenant.set_stateless;
    simpl; ring. }
    apply modify_length in E5 as L5. apply modify_length in H as L6.
    split; [|split; [|congruence]].
    + intros k.
      rewrite (modify_total k (match k with NET => - net_relinq | _ => 0 end)
                 _ _ _ _ H).
      * rewrite T5, T4, T3, T2, T1. destruct k; ring.
      * intros a a' Ha. injection Ha as <-.
        destruct k; unfold Tenant.stateless, Tenant.set_stateless; simpl; ring.
    + apply (modify_forall _ _ _ _ _ H F5). intros a a' Ha.
      by injection Ha as <-.
  - injection H as <-. split; [|split; [exact F4 | congruence]].
    intros k. rewrite T4, T3, T2, T1. destruct k; ring.
Qed.


Lemma harvest_round_conserves (p : params.t) (a a' : Allocator.t)
    (h h' : Allocator.harvest) :
  Allocator.harvest_round p a h = Ok (Some (a', h')) ->
  conserved p a (Allocator.resrc_avail h) ->
  conserved p a' (Allocator.resrc_avail h')
  /\ same_allocator a a'
  /\ Allocator.trade_round h' = S (Allocator.trade_round h).
Proof.
  unfold Allocator.harvest_round. intros H [Hc Hn].
  match type of H with
  | (?e ≫= _) = _ => destruct e as [deal|] eqn:Ed; [|discriminate]
  end.
  simpl in H. clear Ed.
  destruct deal as [[[[t_relinq t_compen] l1] l2]|]; [|discriminate].
  destruct (at_index (Allocator.tenants a) t_relinq) as [relinq|] eqn:Er;
    [|discriminate].
  simpl in H.
  destruct (at_index (Allocator.tenants a) t_compen) as [compen|] eqn:Ec;
    [|discriminate].
  simpl in H.
  match type of H with
  | context [Qltb ?x ?y] => destruct (Qltb x y); [discriminate|]
  end.
  match type of H with
  | (?e ≫= _) = _ => destruct e as [ts1|] eqn:E1; [|discriminate]
  end.
  simpl in H.
  match type of H with
  | (?e ≫= _) = _ => destruct e as [ts2|] eqn:E2; [|discriminate]
  end.
  simpl in H.
  match type of H with
  | (?e ≫= _) = _ => destruct e as [ts3|] eqn:E3; [|discriminate]
  end.
  simpl in H. injection H as <- <-. simpl.
  pose proof (relocate_resrc_total _ _ _ _ _ _ _ _ _ E1 Hn) as (T1 & F1 & L1).
  apply modify_length in E2 as L2. apply modify_length in E3 as L3.
  assert (F2 : Forall (no_net_offer p) ts2).
  { apply (modify_forall _ _ _ _ _ E2 F1). intros x x' Hx.
    apply update_rcu_net_delta_core in Hx. tauto. }
  assert (F3 : Forall (no_net_offer p) ts3).
  { apply (modify_forall _ _ _ _ _ E3 F2). intros x x' Hx.
    apply update_rcu_net_delta_core in Hx. tauto. }
  assert (T2 : forall k, (total_of k ts2 == total_of k ts1 + 0)%Q).
  { intros k. apply (modify_total k 0 _ _ _ _ E2). intros x x' Hx.
    apply update_rcu_net_delta_core in Hx as ((_ & _ & Hx & _) & _).
    unfold Tenant.stateless. rewrite Hx. ring. }
  assert (T3 : forall k, (total_of k ts3 == total_of k ts2 + 0)%Q).
  { intros k. apply (modify_total k 0 _ _ _ _ E3). intros x x' Hx.
    apply update_rcu_net_delta_core in Hx as ((_ & _ & Hx & _) & _).
    unfold Tenant.stateless. rewrite Hx. ring. }
  split; [|split; [repeat split; simpl; congruence | done]].
  split; [|exact F3].
  intros k. rewrite T3, T2, T1. specialize (Hc k).
  unfold deal_change.
  apply at_index_lookup in Er, Ec.
  rewrite Forall_forall in Hn.
  assert (Nr : no_net_offer p relinq).
  { apply Hn. apply list_elem_of_lookup. eauto. }
  assert (Nc : no_net_offer p compen).
  { apply Hn. apply list_elem_of_lookup. eauto. }
  destruct k; simpl in *.
  - rewrite <- Hc. ring.
  - rewrite <- Hc. ring.
  - destruct (params.alloc_total_net_bw p) eqn:Ef.
    + rewrite <- Hc. ring.
    + destruct (Nr Ef) as [-> _]. destruct (Nc Ef) as [_ ->].
      rewrite <- Hc. ring.
Qed.

Lemma same_allocator_refl (a : Allocator.t) : same_allocator a a.
Proof. repeat split. Qed.

Lemma same_allocator_trans (a b c : Allocator.t) :
  same_allocator a b -> same_allocator b c -> same_allocator a c.
Proof.
  intros (A1 & A2 & A3 & A4 & A5) (B1 & B2 & B3 & B4 & B5).
  repeat split; congruence.
Qed.

Lemma harvest_loop_conserves (p : params.t) (n : nat) :
  forall (a a' : Allocator.t) (h h' : Allocator.harvest),
    Allocator.harvest_loop p n a h = Ok (a', h') ->
    conserved p a (Allocator.resrc_avail h) ->
    conserved p a' (Allocator.resrc_avail h')
    /\ same_allocator a a'
    /\ (Allocator.trade_round h <= Allocator.trade_round h')%nat
    /\ (Allocator.trade_round h' = Allocator.trade_round h -> a' = a /\ h' = h).
Proof.
  induction n as [|n IH]; intros a a' h h' H Hc; simpl in H.
  - injection H as <- <-. split; [exact Hc|].
    split; [apply same_allocator_refl|]. split; [lia | done].
  - destruct (Allocator.harvest_round p a h) as [[[a1 h1]|]|] eqn:E;
      simpl in H; [| |discriminate].
    + destruct (harvest_round_conserves _ _ _ _ _ E Hc) as (C1 & S1 & R1).
      destruct (IH _ _ _ _ H C1) as (C2 & S2 & R2 & _).
      split; [exact C2|]. split; [eapply same_allocator_trans; eassumption|].
      split; lia.
    + injection H as <- <-. split; [exact Hc|].
      split; [apply same_allocator_refl|]. split; [lia | done].
Qed.

Lemma set_tenants_same (a : Allocator.t) (ts : list Tenant.t) :
  length ts = length (Allocator.tenants a) ->
  same_allocator a (Allocator.set_tenants a ts).
Proof. intros H. repeat split. exact H. Qed.

Lemma do_harvest_conserves (p : params.t) (a a' : Allocator.t)
    (avail : StatelessResrcVec.t) (h' : Allocator.harvest) :
  Allocator.do_harvest p a avail = Ok (a', h') ->
  conserved p a avail ->
  conserved p a' (Allocator.resrc_avail h') /\ same_allocator a a'.
Proof.
  unfold Allocator.do_harvest. intros H [Hc Hn].
  destruct (Allocator.estimate_bottleneck a avail) as [[prev is_rcu] is_net].
  destruct (Allocator.update_all _ _) as [ts|] eqn:E; [|discriminate].
  cbv beta iota delta [mbind res_bind] in H.
  apply harvest_loop_conserves in H as (C & S & _).
  - split; [exact C|]. eapply same_allocator_trans; [|exact S].
    apply set_tenants_same. apply (update_all_length _ _ _ E).
  - simpl. split.
    + intros k. simpl.
      rewrite (total_of_pointwise k (Allocator.tenants a) ts); [apply Hc|].
      apply same_core_stateless.
      apply (update_all_pointwise _ _ _ _ E). intros x x' Hx.
      apply update_rcu_net_delta_core in Hx. tauto.
    + simpl. apply (update_all_forall _ _ _ _ E Hn). intros x x' Hx.
      apply update_rcu_net_delta_core in Hx. tauto.
Qed.

Lemma collect_idle_all_conserves (p : params.t) (ts : list Tenant.t) :
  forall (ts' : list Tenant.t) (avail0 avail : StatelessResrcVec.t),
    Allocator.collect_idle_all p ts avail0 = Ok (ts', avail) ->
    (forall k,
       (total_of k ts' + amount k avail == total_of k ts + amount k avail0)%Q)
    /\ (Forall (no_net_offer p) ts -> Forall (no_net_offer p) ts')
    /\ Forall2
         (fun x x' =>
            Tenant.cache_size x' = Tenant.cache_size x
            /\ Tenant.reserved_cache_size x' = Tenant.reserved_cache_size x)
         ts ts'.
Proof.
  induction ts as [|x ts IH]; intros ts' avail0 avail H; simpl in H.
  - injection H as <- <-. repeat split; done.
  - destruct (Tenant.collect_idle p x) as [[idle x']|] eqn:E; [|discriminate].
    simpl in H.
    destruct (Allocator.collect_idle_all p ts _) as [[rest av]|] eqn:Er;
      [|discriminate].
    simpl in H. injection H as <- <-.
    apply collect_idle_core in E as (_ & X1 & X2 & X3 & X4).
    destruct (IH _ _ _ Er) as (T & F & P).
    split; [|split].
    + intros k. simpl. fold (total_of k rest). fold (total_of k ts).
      specialize (T k). specialize (X4 k).
      assert (Ha : (amount k (StatelessResrcVec.add avail0 idle)
                    == amount k avail0 + amount k idle)%Q)
        by (destruct k; simpl; ring).
      rewrite Ha in T. rewrite <- X4.
      rewrite <- Qplus_assoc, T. ring.
    + intros Hf. apply Forall_cons in Hf as [Hx Hf].
      constructor; [apply X3, Hx | apply F, Hf].
    + constructor; [split; assumption | exact P].
Qed.

Lemma find_donator_inv (p : params.t) (ts : list Tenant.t) (receiver : nat)
    (l : list nat) (d : nat) :
  Allocator.find_donator p ts receiver l = Ok (Some d) ->
  receiver <> d
  /\ exists x, ts !! d = Some x
               /\ Tenant.can_donate x (params.cache_delta p) = true.
Proof.
  induction l as [|i l IH]; simpl; [discriminate|].
  destruct (receiver =? i)%nat eqn:Ei; [exact IH|].
  apply Nat.eqb_neq in Ei.
  destruct (at_index ts i) as [x|] eqn:Ex; [|discriminate]. simpl.
  destruct (Tenant.can_donate x (params.cache_delta p)) eqn:Ec; [|exact IH].
  intros H. injection H as <-. split; [exact Ei|].
  apply at_index_lookup in Ex. eauto.
Qed.

(** One pass of the loop of [do_memshare]: it updates the miss-ratio
    deltas of every tenant and then either stops or moves one unit of cache
    from a tenant that can donate to another tenant. *)
Lemma memshare_round_inv (p : params.t) (a a' : Allocator.t)
    (l1 l2 l2' : list nat) (again : bool) :
  Allocator.memshare_round p a l1 l2 = Ok (a', l2', again) ->
  exists ts1,
    Allocator.update_all (Tenant.update_mr_delta p) (Allocator.tenants a)
    = Ok ts1
    /\ same_allocator a a'
    /\ ((again = false /\ Allocator.tenants a' = ts1)
        \/ (again = true
            /\ exists r d x,
                 r <> d /\ ts1 !! d = Some x
                 /\ Tenant.can_donate x (params.cache_delta p) = true
                 /\ Tenant.relocate_cache p ts1 r d = Ok (Allocator.tenants a'))).
Proof.
  unfold Allocator.memshare_round. intros H.
  destruct (Allocator.update_all _ _) as [ts1|] eqn:E; [|discriminate].
  simpl in H. exists ts1. split; [reflexivity|].
  apply update_all_length in E as L1.
  destruct (Allocator.deref ts1 l1) as [more_ts|]; [|discriminate]. simpl in H.
  destruct (at_index l1 _) as [receiver|]; [|discriminate]. simpl in H.
  destruct (Allocator.deref ts1 l2) as [less_ts|]; [|discriminate]. simpl in H.
  destruct (Allocator.find_donator p ts1 receiver _) as [[d|]|] eqn:Ed;
    [| |discriminate]; simpl in H.
  - destruct (at_index ts1 receiver) as [r|]; [|discriminate]. simpl in H.
    destruct (at_index ts1 d) as [dn|]; [|discriminate]. simpl in H.
    destruct (Qltb _ _).
    + destruct (Tenant.relocate_cache p ts1 receiver d) as [ts2|] eqn:Er;
        [|discriminate].
      simpl in H. injection H as <- <- <-.
      apply relocate_cache_length in Er as L2.
      split; [repeat split; simpl; congruence|].
      right. split; [reflexivity|].
      apply find_donator_inv in Ed as (N & x & Hx & Hc).
      exists receiver, d, x. done.
    + injection H as <- <- <-.
      split; [repeat split; simpl; congruence|]. by left.
  - injection H as <- <- <-.
    split; [repeat split; simpl; congruence|]. by left.
Qed.

Lemma relocate_cache_stateless (p : params.t) (ts ts' : list Tenant.t)
    (r d : nat) :
  Tenant.relocate_cache p ts r d = Ok ts' ->
  Forall2
    (fun x x' =>
       Tenant.stateless x' = Tenant.stateless x
       /\ (no_net_offer p x -> no_net_offer p x'))
    ts ts'.
Proof.
  unfold Tenant.relocate_cache. intros H.
  destruct (Tenant.modify ts r _) as [ts1|] eqn:E1; [|discriminate].
  simpl in H.
  set (R := fun x x' : Tenant.t =>
              Tenant.stateless x' = Tenant.stateless x
              /\ (no_net_offer p x -> no_net_offer p x')).
  assert (Hr : forall x, R x x)
    by (intros x; split; [reflexivity | exact (fun n => n)]).
  apply (Forall2_trans R R R ts ts1 ts').
  - intros x y z [A1 A2] [B1 B2]. split; [congruence | auto].
  - apply (modify_pointwise _ _ _ _ _ Hr E1). intros x x' Hx.
    injection Hx as <-. split; [reflexivity | exact (fun n => n)].
  - apply (modify_pointwise _ _ _ _ _ Hr H). intros x x' Hx.
    injection Hx as <-. split; [reflexivity | exact (fun n => n)].
Qed.

Lemma memshare_loop_conserves (p : params.t) (fuel : nat) :
  forall (a a' : Allocator.t) (l1 l2 : list nat) (n n' : nat)
         (avail : StatelessResrcVec.t),
    Allocator.memshare_loop p fuel a l1 l2 n = Ok (a', n') ->
    conserved p a avail ->
    conserved p a' avail /\ same_allocator a a'.
Proof.
  induction fuel as [|fuel IH]; intros a a' l1 l2 n n' avail H Hc;
    simpl in H; [discriminate|].
  destruct (Allocator.memshare_round p a l1 l2) as [[[a1 l2'] again]|] eqn:E;
    [|discriminate].
  simpl in H.
  apply memshare_round_inv in E as (ts1 & Eu & S1 & Hr).
  assert (C1 : conserved p a1 avail).
  { destruct Hc as [Hc Hn]. pose proof S1 as (_ & _ & _ & St & _).
    assert (P1 : Forall2
                   (fun x x' =>
                      Tenant.stateless x' = Tenant.stateless x
                      /\ (no_net_offer p x -> no_net_offer p x'))
                   (Allocator.tenants a) ts1).
    { apply (update_all_pointwise _ _ _ _ Eu). intros x x' Hx.
      apply update_mr_delta_core in Hx as [(_ & _ & Hx & _) Hn'].
      unfold Tenant.stateless. rewrite Hx. done. }
    assert (P2 : Forall2
                   (fun x x' =>
                      Tenant.stateless x' = Tenant.stateless x
                      /\ (no_net_offer p x -> no_net_offer p x'))
                   (Allocator.tenants a) (Allocator.tenants a1)).
    { destruct Hr as [[_ ->] | [_ (r & d & x & _ & _ & _ & Hr)]]; [exact P1|].
      refine (Forall2_trans _ _ _ _ _ _ _ P1
                (relocate_cache_stateless _ _ _ _ _ Hr)).
      intros x0 y z [A1 A2] [B1 B2]. split; [congruence | auto]. }
    split.
    - intros k. rewrite St.
      rewrite (total_of_pointwise k (Allocator.tenants a) (Allocator.tenants a1));
        [apply Hc|].
      eapply Forall2_impl; [exact P2|]. intros ? ? [? _]. done.
    - clear -P2 Hn. induction P2 as [|x x' l l' [_ Hx] _ IH]; [constructor|].
      apply Forall_cons in Hn as [Hn1 Hn2]. constructor; auto. }
  destruct again.
  - destruct (IH _ _ _ _ _ _ _ H C1) as [C2 S2].
    split; [exact C2 | eapply same_allocator_trans; eassumption].
  - injection H as <- <-. done.
Qed.



Lemma scale_by_owned_amount (k : resource) (x : Tenant.t)
    (avail sum : StatelessResrcVec.t) (n : nat) :
  amount k
    (Tenant.stateless (Tenant.scale_stateless_resrc_by_owned x avail sum n))
  = (amount k (Tenant.stateless x)
     + amount k avail
       * (if negb (Qeqb (amount k sum) 0)
          then amount k (Tenant.stateless x) / amount k sum
          else 1 / inject_Z (Z.of_nat n)))%Q.
Proof. destruct k; reflexivity. Qed.



Lemma make_conserved (p : params.t) (harvest conserving memshare : bool) :
  conserved p (Allocator.make harvest conserving memshare)
    StatelessResrcVec.zero.
Proof. split; [intros k; destruct k; reflexivity | constructor]. Qed.

Lemma add_tenants_conserved (p : params.t) (specs : list tenant_spec) :
  forall a,
    conserved p a StatelessResrcVec.zero ->
    let a' := add_tenants a specs in
    conserved p a' StatelessResrcVec.zero
    /\ length (Allocator.tenants a')
       = (length (Allocator.tenants a) + length specs)%nat
    /\ Allocator.policy_harvest a' = Allocator.policy_harvest a
    /\ Allocator.policy_conserving a' = Allocator.policy_conserving a
    /\ Allocator.policy_memshare a' = Allocator.policy_memshare a.
Proof.
  induction specs as [|[[[d r] m] al] specs IH]; intros a Hc; simpl.
  - repeat split; try apply Hc. lia.
  - match goal with
    | |- context [add_tenants ?x specs] =>
        destruct (IH x) as (C & L & P1 & P2 & P3)
    end.
    + destruct Hc as [Hc Hn]. split.
      * intros k. simpl. rewrite total_of_app. specialize (Hc k).
        simpl. unfold Tenant.stateless, Tenant.make.
        destruct k; simpl in *; rewrite <- Hc; ring.
      * simpl. apply Forall_app. split; [exact Hn|].
        repeat constructor.
    + split; [exact C|]. simpl in L. rewrite length_app in L. simpl in L.
      split; [lia|]. done.
Qed.



Lemma almost_empty_amount (v : StatelessResrcVec.t) (k : resource) :
  StatelessResrcVec.is_almost_empty v = true ->
  (Qabs (amount k v) < epsilon k)%Q.
Proof.
  unfold StatelessResrcVec.is_almost_empty. rewrite !andb_true_iff.
  rewrite !Qltb_lt. intros [[H1 H2] H3]. destruct k; assumption.
Qed.

Lemma epsilon_pos (k : resource) : (0 < epsilon k)%Q.
Proof. destruct k; reflexivity. Qed.




End Conservation.

(** ** The reserved floor of the cache *)

Section ReservedFloor.

Lemma total_cache_insert (ts : list Tenant.t) (i : nat) (a a' : Tenant.t) :
  ts !! i = Some a ->
  total_cache (<[i := a']> ts)
  = total_cache ts - Tenant.cache_size a + Tenant.cache_size a'.
Proof.
  revert i. induction ts as [|b ts IH]; intros i Hi; [discriminate|].
  destruct i as [|i]; simpl in *.
  - injection Hi as ->. lia.
  - fold (total_cache (<[i := a']> ts)). fold (total_cache ts).
    rewrite (IH i Hi). lia.
Qed.

Lemma total_cache_pointwise (ts ts' : list Tenant.t) :
  Forall2 (fun a a' => Tenant.cache_size a' = Tenant.cache_size a) ts ts' ->
  total_cache ts' = total_cache ts.
Proof.
  induction 1 as [|a a' ts ts' H _ IH]; simpl; [reflexivity|].
  fold (total_cache ts'). fold (total_cache ts). lia.
Qed.

Lemma total_cache_nonneg (ts : list Tenant.t) :
  Forall (fun x => 0 <= Tenant.cache_size x) ts -> 0 <= total_cache ts.
Proof.
  induction 1 as [|c l Hc _ IH]; simpl; [lia|]. fold (total_cache l). lia.
Qed.

Lemma total_cache_bounds (ts : list Tenant.t) (i : nat) (a : Tenant.t) :
  Forall (fun x => 0 <= Tenant.cache_size x) ts ->
  ts !! i = Some a ->
  0 <= Tenant.cache_size a <= total_cache ts.
Proof.
  intros H. revert i. induction H as [|b ts Hb Hts IH]; intros i Hi;
    [discriminate|].
  apply total_cache_nonneg in Hts.
  destruct i as [|i]; simpl in *; fold (total_cache ts).
  - injection Hi as ->. lia.
  - specialize (IH i Hi). lia.
Qed.

Lemma floors_same_cache (c : Z) (ts ts' : list Tenant.t) :
  Forall2 same_cache ts ts' -> floors c ts -> floors c ts'.
Proof.
  intros H [F T]. split.
  - clear T. induction H as [|x x' l l' [H1 H2] _ IH]; [constructor|].
    apply Forall_cons in F as [Fx F]. constructor; [lia | auto].
  - rewrite <- T. apply total_cache_pointwise.
    eapply Forall2_impl; [exact H|]. intros ? ? [? _]. done.
Qed.

Lemma same_cache_reserve (ts ts' : list Tenant.t) :
  Forall2 same_cache ts ts' -> Forall2 same_reserve ts ts'.
Proof. intros H. eapply Forall2_impl; [exact H|]. intros ? ? [_ ?]. done. Qed.

Lemma same_reserve_trans (l k m : list Tenant.t) :
  Forall2 same_reserve l k -> Forall2 same_reserve k m ->
  Forall2 same_reserve l m.
Proof.
  apply (Forall2_trans same_reserve same_reserve same_reserve).
  unfold same_reserve. intros x y z A B. congruence.
Qed.

Lemma same_reserve_refl (l : list Tenant.t) : Forall2 same_reserve l l.
Proof. apply Forall_Forall2_diag, Forall_forall. reflexivity. Qed.

Lemma relocate_cache_floors (p : params.t) (c : Z) (ts ts' : list Tenant.t)
    (r d : nat) (x : Tenant.t) :
  0 <= params.cache_delta p ->
  c + params.cache_delta p < 2 ^ 64 ->
  floors c ts ->
  r <> d -> ts !! d = Some x ->
  Tenant.can_donate x (params.cache_delta p) = true ->
  Tenant.relocate_cache p ts r d = Ok ts' ->
  floors c ts' /\ Forall2 same_reserve ts ts'.
Proof.
  intros Hd Hc [F T] N Hx Hcan H. unfold Tenant.relocate_cache in H.
  destruct (Tenant.modify ts r _) as [ts1|] eqn:E1; [|discriminate].
  simpl in H.
  apply modify_inv in E1 as (y & y' & Hy & Ey & ->). injection Ey as <-.
  apply modify_inv in H as (x0 & x' & Hx0 & Ex & ->). injection Ex as <-.
  rewrite list_lookup_insert_ne in Hx0 by exact N.
  rewrite Hx in Hx0. injection Hx0 as <-.
  assert (Fn : Forall (fun x => 0 <= Tenant.cache_size x) ts)
    by (eapply Forall_impl; [exact F|]; simpl; intros; lia).
  pose proof (total_cache_bounds _ _ _ Fn Hy) as By.
  pose proof (total_cache_bounds _ _ _ Fn Hx) as Bx.
  pose proof (proj1 (Forall_lookup _ _) F _ _ Hy) as Ry.
  pose proof (proj1 (Forall_lookup _ _) F _ _ Hx) as Rx.
  simpl in Ry, Rx.
  unfold Tenant.can_donate in Hcan. apply Z.leb_le in Hcan.
  assert (U : forall z, 0 <= z < 2 ^ 64 -> u64 z = z)
    by (intros z Hz; unfold u64; apply Z.mod_small; exact Hz).
  rewrite U in Hcan by lia.
  assert (Cy : Tenant.cache_size
                 (Tenant.set_cache_size y
                    (u64 (Tenant.cache_size y + params.cache_delta p)))
               = Tenant.cache_size y + params.cache_delta p)
    by (unfold Tenant.cache_size, Tenant.set_cache_size; simpl;
        apply U; unfold Tenant.cache_size in *; lia).
  assert (Cx : Tenant.cache_size
                 (Tenant.set_cache_size x
                    (u64 (Tenant.cache_size x - params.cache_delta p)))
               = Tenant.cache_size x - params.cache_delta p)
    by (unfold Tenant.cache_size, Tenant.set_cache_size; simpl;
        apply U; unfold Tenant.cache_size in *; lia).
  split; [split|].
  - apply Forall_insert; [apply Forall_insert; [exact F|]|].
    + rewrite Cy. simpl. lia.
    + rewrite Cx. simpl. lia.
  - rewrite (total_cache_insert _ _ x) by
      (rewrite list_lookup_insert_ne by exact N; exact Hx).
    rewrite (total_cache_insert _ _ y) by exact Hy.
    rewrite Cx, Cy. lia.
  - rewrite <- (list_insert_id ts d x Hx) at 1.
    rewrite <- (list_insert_id ts r y Hy) at 1.
    apply Forall2_insert; [apply Forall2_insert|]; try reflexivity.
    apply same_reserve_refl.
Qed.

Lemma memshare_round_floors (p : params.t) (c : Z) (a a' : Allocator.t)
    (l1 l2 l2' : list nat) (again : bool) :
  0 <= params.cache_delta p ->
  c + params.cache_delta p < 2 ^ 64 ->
  floors c (Allocator.tenants a) ->
  Allocator.memshare_round p a l1 l2 = Ok (a', l2', again) ->
  floors c (Allocator.tenants a')
  /\ Forall2 same_reserve (Allocator.tenants a) (Allocator.tenants a')
  /\ same_allocator a a'.
Proof.
  intros Hd Hc F H.
  apply memshare_round_inv in H as (ts1 & Eu & S1 & Hr).
  assert (P1 : Forall2 same_cache (Allocator.tenants a) ts1).
  { apply (update_all_pointwise _ _ _ _ Eu). intros x x' Hx.
    apply update_mr_delta_core in Hx as [(_ & _ & Hx & _ & Hv & _) _].
    unfold same_cache, Tenant.cache_size. rewrite Hx. done. }
  pose proof (floors_same_cache _ _ _ P1 F) as F1.
  apply same_cache_reserve in P1.
  destruct Hr as [[_ ->] | [_ (r & d & x & N & Hx & Hcan & Hr)]]; [done|].
  destruct (relocate_cache_floors _ _ _ _ _ _ _ Hd Hc F1 N Hx Hcan Hr)
    as [F2 P2].
  split; [exact F2|]. split; [|exact S1].
  eapply same_reserve_trans; eassumption.
Qed.

Lemma memshare_loop_floors (p : params.t) (c : Z) (fuel : nat) :
  0 <= params.cache_delta p ->
  c + params.cache_delta p < 2 ^ 64 ->
  forall (a a' : Allocator.t) (l1 l2 : list nat) (n n' : nat),
    floors c (Allocator.tenants a) ->
    Allocator.memshare_loop p fuel a l1 l2 n = Ok (a', n') ->
    floors c (Allocator.tenants a')
    /\ Forall2 same_reserve (Allocator.tenants a) (Allocator.tenants a')
    /\ same_allocator a a'.
Proof.
  intros Hd Hc.
  induction fuel as [|fuel IH]; intros a a' l1 l2 n n' F H; simpl in H;
    [discriminate|].
  destruct (Allocator.memshare_round p a l1 l2) as [[[a1 l2'] again]|] eqn:E;
    [|discriminate].
  simpl in H.
  destruct (memshare_round_floors _ _ _ _ _ _ _ _ Hd Hc F E) as (F1 & P1 & S1).
  destruct again.
  - destruct (IH _ _ _ _ _ _ F1 H) as (F2 & P2 & S2).
    split; [exact F2|]. split.
    + eapply same_reserve_trans; eassumption.
    + eapply same_allocator_trans; eassumption.
  - injection H as <- <-. done.
Qed.

Lemma redistribute_same_cache (a a' : Allocator.t)
    (avail avail' : StatelessResrcVec.t) (r : Q) :
  Allocator.do_redistribute a avail = (r, a', avail') ->
  Forall2 same_cache (Allocator.tenants a) (Allocator.tenants a').
Proof.
  unfold Allocator.do_redistribute. intros H.
  destruct (Allocator.policy_conserving a); injection H as _ <- _; simpl;
    apply Forall2_fmap_r, Forall_Forall2_diag, Forall_forall; intros x _;
    split; reflexivity.
Qed.



Lemma do_alloc_traced_floors (p : params.t) (c : Z) (fuel : nat)
    (a a' : Allocator.t) (r : Q) (m h : nat) :
  0 <= params.cache_delta p ->
  c + params.cache_delta p < 2 ^ 64 ->
  Allocator.policy_harvest a = false ->
  floors c (Allocator.tenants a) ->
  Allocator.do_alloc_traced p fuel a = Ok (r, a', m, h) ->
  floors c (Allocator.tenants a')
  /\ Forall2 same_reserve (Allocator.tenants a) (Allocator.tenants a').
Proof.
  intros Hd Hc Hh F H. unfold Allocator.do_alloc_traced in H.
  destruct (length (Allocator.tenants a) <=? 1)%nat.
  { injection H as _ <- _ _. split; [exact F | apply same_reserve_refl]. }
  assert (M : forall a1 m1,
             (if Allocator.policy_memshare a
              then Allocator.do_memshare p fuel a else Ok (a, O)) = Ok (a1, m1) ->
             floors c (Allocator.tenants a1)
             /\ Forall2 same_reserve (Allocator.tenants a) (Allocator.tenants a1)
             /\ Allocator.policy_harvest a1 = false).
  { intros a1 m1 E. destruct (Allocator.policy_memshare a).
    - unfold Allocator.do_memshare in E.
      destruct (memshare_loop_floors _ _ _ Hd Hc _ _ _ _ _ _ F E)
        as (F1 & P1 & S1 & _).
      split; [exact F1|]. split; [exact P1 | congruence].
    - injection E as <- _. split; [exact F|].
      split; [apply same_reserve_refl | exact Hh]. }
  destruct (if Allocator.policy_memshare a then _ else _) as [[a1 m1]|];
    [|discriminate].
  destruct (M a1 m1 eq_refl) as (F1 & P1 & H1). clear M.
  cbv beta iota delta [mbind res_bind] in H.
  destruct (Allocator.collect_idle_all p _ _) as [[ts avail]|] eqn:Ec;
    [|discriminate].
  apply collect_idle_all_conserves in Ec as (_ & _ & P2).
  fold same_cache in P2.
  pose proof (floors_same_cache _ _ _ P2 F1) as F2.
  apply same_cache_reserve in P2.
  pose proof (same_reserve_trans _ _ _ P1 P2) as P3.
  simpl in H. rewrite H1 in H.
  destruct (StatelessResrcVec.is_almost_empty avail).
  { injection H as _ <- _ _. done. }
  destruct (Allocator.do_redistribute _ avail) as [[r1 a2] av2] eqn:Er.
  injection H as _ <- _ _.
  apply redistribute_same_cache in Er. simpl in Er.
  split; [exact (floors_same_cache _ _ _ Er F2)|].
  apply same_cache_reserve in Er. exact (same_reserve_trans _ _ _ P3 Er).
Qed.

Lemma add_tenants_tenants (specs : list tenant_spec) :
  forall a,
    exists l,
      Allocator.tenants (add_tenants a specs) = Allocator.tenants a ++ l
      /\ Forall2
           (fun s x =>
              Tenant.cache_size x = spec_cache s
              /\ Tenant.reserved_cache_size x = spec_cache s / 2)
           specs l
      /\ Allocator.policy_harvest (add_tenants a specs)
         = Allocator.policy_harvest a.
Proof.
  induction specs as [|[[[d r] m] al] specs IH]; intros a.
  - exists []. simpl. rewrite app_nil_r. repeat split. constructor.
  - destruct (IH (Allocator.add_tenant a d r m al).2) as (l & E & P & Hh).
    change (add_tenants a ((d, r, m, al) :: specs))
      with (add_tenants (Allocator.add_tenant a d r m al).2 specs).
    rewrite E, Hh. simpl. eexists (_ :: l). split; [|split].
    + rewrite <- app_assoc. reflexivity.
    + constructor; [|exact P]. split; [reflexivity|].
      unfold spec_cache. simpl. unfold Qfloor. simpl.
      rewrite Z.mul_1_r. reflexivity.
    + reflexivity.
Qed.

(** C2: without the harvest policy, for tenants added with cache sizes
    that do not overflow together with one unit of cache, every tenant
    holds after [do_alloc] the reserved floor of half its initial cache
    size, whether the memshare policy moves cache or not. *)
Theorem memshare_keeps_reserved_floor (p : params.t) (fuel : nat)
    (conserving memshare : bool) (specs : list tenant_spec) (r : Q)
    (a' : Allocator.t) :
  0 <= params.cache_delta p ->
  Forall (fun s => 0 <= spec_cache s) specs ->
  total_cache
    (Allocator.tenants
       (add_tenants (Allocator.make false conserving memshare) specs))
  + params.cache_delta p < 2 ^ 64 ->
  Allocator.do_alloc p fuel
    (add_tenants (Allocator.make false conserving memshare) specs)
  = Ok (r, a') ->
  Forall2
    (fun s x =>
       Tenant.reserved_cache_size x = spec_cache s / 2 /\ floor_kept x)
    specs (Allocator.tenants a').
Proof.
  intros Hd Hs Hc H.
  destruct (add_tenants_tenants specs (Allocator.make false conserving memshare))
    as (l & E & P & Hh).
  simpl in E, Hh.
  set (a := add_tenants (Allocator.make false conserving memshare) specs) in *.
  unfold Allocator.do_alloc in H.
  destruct (Allocator.do_alloc_traced p fuel a) as [[[[r0 a0] m0] h0]|] eqn:Et;
    [|discriminate].
  simpl in H. injection H as _ <-.
  assert (F : floors (total_cache (Allocator.tenants a)) (Allocator.tenants a)).
  { split; [|reflexivity]. rewrite E. clear -P Hs.
    induction P as [|s x specs l [H1 H2] _ IH]; [constructor|].
    apply Forall_cons in Hs as [Hx Hs]. constructor; [|auto].
    rewrite H1, H2. split; [apply Z.div_pos; lia|].
    apply Z.div_le_upper_bound; lia. }
  destruct (do_alloc_traced_floors _ _ _ _ _ _ _ _ Hd Hc Hh F Et) as [[F' _] P'].
  rewrite E in P'. clear -P P' F'.
  revert F'. generalize (Allocator.tenants a0) P'. clear P'.
  induction P as [|s x specs l [H1 H2] _ IH]; intros ts P' F'.
  - apply Forall2_nil_inv_l in P' as ->. constructor.
  - apply Forall2_cons_inv_l in P' as (y & ts' & Hy & P' & ->).
    apply Forall_cons in F' as [Fy F']. constructor; [|auto].
    unfold same_reserve in Hy. unfold floor_kept. split; [congruence | lia].
Qed.

Lemma memshare_keeps_reserved_floor_witness :
  Forall2
    (fun s x =>
       Tenant.reserved_cache_size x = spec_cache s / 2 /\ floor_kept x)
    harvest_specs (Allocator.tenants memshare_result.2).
Proof.
  apply (memshare_keeps_reserved_floor test_params 8 true true harvest_specs
           memshare_result.1 memshare_result.2).
  - simpl. lia.
  - repeat constructor; vm_compute; discriminate.
  - vm_compute. reflexivity.
  - vm_compute. reflexivity.
Defined.

(** With the harvest policy the claim of the specification about the
    reserved floor fails: two deals take the second tenant from 30 to 10
    units of cache, below its reserved 15. *)
Lemma reserved_floor_claim_fails :
  ~ reserved_floor_claim test_params 0 harvest_allocator.
Proof.
  intros H.
  assert (E : Allocator.do_alloc test_params 0 harvest_allocator
              = Ok (harvest_result.1.1.1, harvest_result.1.1.2))
    by (vm_compute; reflexivity).
  apply H in E.
  assert (X : exists x,
             Allocator.tenants harvest_result.1.1.2 !! 1%nat = Some x
             /\ Tenant.cache_size x = 10
             /\ Tenant.reserved_cache_size x = 15)
    by (eexists; split; [vm_compute; reflexivity | split; reflexivity]).
  destruct X as (x & Hx & C & R).
  pose proof (Forall_lookup_1 _ _ _ _ E Hx) as K.
  unfold floor_kept in K. lia.
Qed.

Example harvest_below_reserve :
  map (fun x => (Tenant.cache_size x, Tenant.reserved_cache_size x))
    (Allocator.tenants harvest_result.1.1.2) = [(30, 5); (10, 15)]
  /\ harvest_result.2 = 2%nat.
Proof. split; reflexivity. Qed.
End ReservedFloor.

(** ** Symmetric tenants *)

Section Symmetry.

Lemma miss_ratio_consistent (a a' : Tenant.t) (x : Z) (mr : Q) :
  memo_consistent (Tenant.mrc a) ->
  Tenant.miss_ratio a x = Ok (mr, a') ->
  MissRatioCurve.get_miss_ratio_const
    params.conservative_estimation_if_out_of_range (Tenant.mrc a) x = Ok mr
  /\ exists m,
       a' = Tenant.set_mrc a m
       /\ MissRatioCurve.ticks m = MissRatioCurve.ticks (Tenant.mrc a)
       /\ MissRatioCurve.miss_ratios m
          = MissRatioCurve.miss_ratios (Tenant.mrc a)
       /\ memo_consistent m.
Proof.
  intros Hc H. apply miss_ratio_inv in H as (m & Hm & ->).
  destruct (get_miss_ratio_consistent _ _ _ _ Hc Hm) as [Hv Hc'].
  apply get_miss_ratio_inv in Hm as (H1 & H2 & _).
  split; [exact Hv|]. exists m. done.
Qed.

Lemma copy_of_set_mrc (D : StatelessResrcVec.t) (R : ResrcVec.t)
    (c m : MissRatioCurve.t) (alpha : Q) (x : Tenant.t) :
  copy_of D R c alpha x ->
  MissRatioCurve.ticks m = MissRatioCurve.ticks (Tenant.mrc x) ->
  MissRatioCurve.miss_ratios m = MissRatioCurve.miss_ratios (Tenant.mrc x) ->
  memo_consistent m ->
  copy_of D R c alpha (Tenant.set_mrc x m).
Proof.
  intros (H1 & H2 & H3 & H4 & H5 & H6) T1 T2 Hm.
  repeat split; simpl; try assumption; congruence.
Qed.

(** One [mrc.get_miss_ratio] of a copy at the head of a sequence that
    ended normally; [C] is the hypothesis that the tenant is a copy. *)
Ltac step_copy H C :=
  match type of H with
  | (Tenant.miss_ratio ?a ?x ≫= _) = _ =>
      let E := fresh "E" in
      let V := fresh "V" in
      let mr := fresh "mr" in
      let b := fresh "b" in
      let m := fresh "m" in
      let T1 := fresh "T" in
      let T2 := fresh "T" in
      let M := fresh "M" in
      destruct (Tenant.miss_ratio a x) as [[mr b]|] eqn:E;
      simpl in H; [|discriminate H];
      apply (miss_ratio_consistent _ _ _ _ (proj2 (proj2 (proj2 (proj2 (proj2 C))))))
        in E as (V & m & -> & T1 & T2 & M);
      apply (fun C => copy_of_set_mrc _ _ _ m _ _ C T1 T2 M) in C
  end.

Lemma update_mr_delta_copy (p : params.t) (D : StatelessResrcVec.t)
    (R : ResrcVec.t) (c : MissRatioCurve.t) (alpha : Q) (x x' : Tenant.t) :
  Tenant.update_mr_delta p x = Ok x' ->
  copy_of D R c alpha x /\ Tenant.stateless x = ResrcVec.stateless R ->
  copy_of D R c alpha x' /\ Tenant.stateless x' = ResrcVec.stateless R.
Proof.
  unfold Tenant.update_mr_delta. intros H [C S].
  step_copy H C. step_copy H C. step_copy H C.
  injection H as <-. split; [exact C | exact S].
Qed.

Lemma collect_idle_copy (p : params.t) (D : StatelessResrcVec.t)
    (R : ResrcVec.t) (c : MissRatioCurve.t) (alpha : Q) (mr : Q)
    (x x' : Tenant.t) (idle : StatelessResrcVec.t) :
  MissRatioCurve.get_miss_ratio_const
    params.conservative_estimation_if_out_of_range c (ResrcVec.cache_size R)
  = Ok mr ->
  copy_of D R c alpha x -> Tenant.stateless x = ResrcVec.stateless R ->
  Tenant.collect_idle p x = Ok (idle, x') ->
  Tenant.cache_size x' = ResrcVec.cache_size R
  /\ Tenant.stateless x' = used_by p (Tenant.make O D R c alpha) mr
  /\ idle = StatelessResrcVec.sub (ResrcVec.stateless R)
              (used_by p (Tenant.make O D R c alpha) mr).
Proof.
  intros Hv C S H. unfold Tenant.collect_idle in H.
  pose proof C as (H1 & H2 & H3 & H4 & H5 & _).
  step_copy H C. injection H as <- <-.
  rewrite (get_miss_ratio_const_ext _ c _ _ H4 H5), H3, Hv in V.
  injection V as <-.
  assert (Hd : Tenant.projected_demand p (Tenant.set_mrc x m) mr
               = Tenant.projected_demand p (Tenant.make O D R c alpha) mr).
  { unfold Tenant.projected_demand. simpl. rewrite H1, H2. reflexivity. }
  rewrite Hd.
  change (Tenant.stateless (Tenant.set_mrc x m)) with (Tenant.stateless x).
  rewrite S. split; [exact H3|]. split; reflexivity.
Qed.

Lemma collect_idle_all_copies (p : params.t) (D : StatelessResrcVec.t)
    (R : ResrcVec.t) (c : MissRatioCurve.t) (alpha : Q) (mr : Q)
    (ts : list Tenant.t) :
  MissRatioCurve.get_miss_ratio_const
    params.conservative_estimation_if_out_of_range c (ResrcVec.cache_size R)
  = Ok mr ->
  forall (ts' : list Tenant.t) (avail0 avail : StatelessResrcVec.t),
    Forall (fun x => copy_of D R c alpha x
                     /\ Tenant.stateless x = ResrcVec.stateless R) ts ->
    Allocator.collect_idle_all p ts avail0 = Ok (ts', avail) ->
    Forall (fun x => Tenant.cache_size x = ResrcVec.cache_size R
                     /\ Tenant.stateless x
                        = used_by p (Tenant.make O D R c alpha) mr) ts'
    /\ length ts' = length ts
    /\ forall k,
         (amount k avail
          == amount k avail0
             + inject_Z (Z.of_nat (length ts))
               * (amount k (ResrcVec.stateless R)
                  - amount k (used_by p (Tenant.make O D R c alpha) mr)))%Q.
Proof.
  intros Hv. induction ts as [|x ts IH]; intros ts' avail0 avail F H;
    simpl in H.
  - injection H as <- <-. split; [constructor|]. split; [reflexivity|].
    intros k. simpl. ring.
  - apply Forall_cons in F as [[C St] F].
    destruct (Tenant.collect_idle p x) as [[idle x']|] eqn:E; [|discriminate].
    simpl in H.
    destruct (Allocator.collect_idle_all p ts _) as [[rest av]|] eqn:Er;
      [|discriminate].
    simpl in H. injection H as <- <-.
    destruct (collect_idle_copy _ _ _ _ _ _ _ _ _ Hv C St E) as (X1 & X2 & ->).
    destruct (IH _ _ _ F Er) as (F' & L & T).
    split; [constructor; [split; assumption | exact F']|].
    split; [simpl; congruence|].
    intros k. rewrite (T k).
    change (length (x :: ts)) with (S (length ts)).
    rewrite Nat2Z.inj_succ, <- Z.add_1_r, inject_Z_plus.
    assert (Ha : forall u v, (amount k (StatelessResrcVec.add u v)
                              == amount k u + amount k v)%Q)
      by (intros; destruct k; simpl; ring).
    assert (Hs : forall u v, (amount k (StatelessResrcVec.sub u v)
                              == amount k u - amount k v)%Q)
      by (intros; destruct k; simpl; ring).
    rewrite Ha, Hs. ring.
Qed.



Lemma memshare_loop_rounds (p : params.t) (fuel : nat) :
  forall (a a' : Allocator.t) (l1 l2 : list nat) (n n' : nat),
    Allocator.memshare_loop p fuel a l1 l2 n = Ok (a', n') ->
    (n <= n')%nat
    /\ (n' = n ->
        Allocator.update_all (Tenant.update_mr_delta p) (Allocator.tenants a)
        = Ok (Allocator.tenants a')).
Proof.
  induction fuel as [|fuel IH]; intros a a' l1 l2 n n' H; simpl in H;
    [discriminate|].
  destruct (Allocator.memshare_round p a l1 l2) as [[[a1 l2'] again]|] eqn:E;
    [|discriminate].
  simpl in H. apply memshare_round_inv in E as (ts1 & Eu & _ & Hr).
  destruct again.
  - apply IH in H as [H _]. split; [lia|]. intros ->. lia.
  - injection H as <- <-. split; [lia|]. intros _.
    destruct Hr as [[_ ->] | [Hf _]]; [exact Eu | discriminate].
Qed.

Lemma do_harvest_no_round (p : params.t) (a a' : Allocator.t)
    (avail : StatelessResrcVec.t) (h' : Allocator.harvest) :
  Allocator.do_harvest p a avail = Ok (a', h') ->
  conserved p a avail ->
  Allocator.trade_round h' = O ->
  Allocator.resrc_avail h' = avail
  /\ Forall2 same_core (Allocator.tenants a) (Allocator.tenants a').
Proof.
  unfold Allocator.do_harvest. intros H [Hc Hn] Hr.
  destruct (Allocator.estimate_bottleneck a avail) as [[prev is_rcu] is_net].
  destruct (Allocator.update_all _ _) as [ts|] eqn:E; [|discriminate].
  cbv beta iota delta [mbind res_bind] in H.
  assert (P : Forall2 same_core (Allocator.tenants a) ts).
  { apply (update_all_pointwise _ _ _ _ E). intros x x' Hx.
    apply update_rcu_net_delta_core in Hx. tauto. }
  apply harvest_loop_conserves in H as (_ & _ & _ & X).
  - destruct (X Hr) as [-> ->]. split; [reflexivity | exact P].
  - simpl. split.
    + intros k. simpl.
      rewrite (total_of_pointwise k (Allocator.tenants a) ts); [apply Hc|].
      apply same_core_stateless, P.
    + simpl. apply (update_all_forall _ _ _ _ E Hn). intros x x' Hx.
      apply update_rcu_net_delta_core in Hx. tauto.
Qed.

Lemma add_tenants_copies (D : StatelessResrcVec.t) (R : ResrcVec.t)
    (c : MissRatioCurve.t) (alpha : Q) (n : nat) :
  memo_consistent c ->
  forall a,
    exists l,
      Allocator.tenants (add_tenants a (replicate n (D, R, c, alpha)))
      = Allocator.tenants a ++ l
      /\ Forall (fun x => copy_of D R c alpha x
                          /\ Tenant.stateless x = ResrcVec.stateless R) l.
Proof.
  intros Hm. induction n as [|n IH]; intros a.
  - exists []. simpl. rewrite app_nil_r. split; [reflexivity | constructor].
  - destruct (IH (Allocator.add_tenant a D R c alpha).2) as (l & E & F).
    change (add_tenants a (replicate (S n) (D, R, c, alpha)))
      with (add_tenants (Allocator.add_tenant a D R c alpha).2
              (replicate n (D, R, c, alpha))).
    rewrite E. simpl. eexists (_ :: l). split.
    + rewrite <- app_assoc. reflexivity.
    + constructor; [|exact F]. repeat split. exact Hm.
Qed.

Lemma total_of_const (k : resource) (v : StatelessResrcVec.t)
    (ts : list Tenant.t) :
  Forall (fun x => Tenant.stateless x = v) ts ->
  (total_of k ts == inject_Z (Z.of_nat (length ts)) * amount k v)%Q.
Proof.
  induction 1 as [|x ts Hx _ IH].
  - simpl. ring.
  - change (length (x :: ts)) with (S (length ts)).
    rewrite Nat2Z.inj_succ, <- Z.add_1_r, inject_Z_plus.
    simpl. fold (total_of k ts). rewrite IH, Hx. ring.
Qed.

(** [std::min] of the three quotients: one of them, and the least. *)
Lemma min3_resource (f : resource -> Q) :
  (exists j, StatelessResrcVec.min3 (f RCU) (f WCU) (f NET) = f j)
  /\ forall k, (StatelessResrcVec.min3 (f RCU) (f WCU) (f NET) <= f k)%Q.
Proof.
  unfold StatelessResrcVec.min3.
  destruct (Qltb (f WCU) (f RCU)) eqn:E1;
    [apply Qltb_lt in E1 | apply Qltb_ge in E1];
    match goal with
    | |- context [Qltb (f NET) ?m] =>
        destruct (Qltb (f NET) m) eqn:E2;
        [apply Qltb_lt in E2 | apply Qltb_ge in E2]
    end;
    (split; [eexists; reflexivity | intros k; destruct k; lra]).
Qed.

Lemma ratio_amount (a b : StatelessResrcVec.t) :
  StatelessResrcVec.ratio a b
  = StatelessResrcVec.min3 (amount RCU a / amount RCU b)
      (amount WCU a / amount WCU b) (amount NET a / amount NET b).
Proof. reflexivity. Qed.

Lemma scale_amount (k : resource) (v : StatelessResrcVec.t) (s : Q) :
  amount k (StatelessResrcVec.scale v s) = (amount k v * s)%Q.
Proof. destruct k; reflexivity. Qed.

Lemma sub_amount (k : resource) (u v : StatelessResrcVec.t) :
  amount k (StatelessResrcVec.sub u v) = (amount k u - amount k v)%Q.
Proof. destruct k; reflexivity. Qed.

(** What [collect_idle] uses of positive resources under a positive
    demand: a positive part of every resource, and all of one. *)
Lemma used_bounds (demand R : StatelessResrcVec.t) :
  (forall k, (0 < amount k demand)%Q) ->
  (forall k, (0 < amount k R)%Q) ->
  let used :=
    StatelessResrcVec.scale demand (StatelessResrcVec.ratio R demand) in
  (forall k, (0 < amount k used <= amount k R)%Q)
  /\ exists j, (amount j used == amount j R)%Q.
Proof.
  intros Hd Hr used. unfold used. rewrite ratio_amount.
  destruct (min3_resource (fun k => (amount k R / amount k demand)%Q))
    as [[j Hj] Hle].
  set (tp := StatelessResrcVec.min3 _ _ _) in *.
  assert (Hq : forall k, (0 < amount k R / amount k demand)%Q).
  { intros k. apply Qlt_shift_div_l; [apply Hd|]. rewrite Qmult_0_l. apply Hr. }
  assert (Htp : (0 < tp)%Q) by (rewrite Hj; apply Hq).
  split.
  - intros k. rewrite scale_amount. split.
    + apply Qmult_lt_0_compat; [apply Hd | exact Htp].
    + specialize (Hle k). specialize (Hd k).
      apply (Qmult_le_l _ _ (amount k demand) Hd) in Hle.
      assert (Hz : (amount k demand * (amount k R / amount k demand)
                    == amount k R)%Q) by (field; lra).
      rewrite Hz in Hle. exact Hle.
  - exists j. rewrite scale_amount, Hj. specialize (Hd j). field. lra.
Qed.

(** The conserving redistribution among tenants that hold the same used
    resources [U] of the same allocation [R] gives every tenant back what
    it did not use. *)
Lemma redistribute_copies (a a' : Allocator.t) (U R : StatelessResrcVec.t)
    (avail avail' : StatelessResrcVec.t) (r : Q) :
  Allocator.policy_conserving a = true ->
  (1 <= length (Allocator.tenants a))%nat ->
  Forall (fun x => Tenant.stateless x = U) (Allocator.tenants a) ->
  (forall k,
     (amount k (ResrcVec.stateless (Allocator.total_resrc a)) - amount k avail
      == inject_Z (Z.of_nat (length (Allocator.tenants a))) * amount k U)%Q) ->
  (forall k,
     (amount k avail
      == inject_Z (Z.of_nat (length (Allocator.tenants a)))
         * (amount k R - amount k U))%Q) ->
  (forall k, (0 < amount k U <= amount k R)%Q) ->
  (exists j, (amount j U == amount j R)%Q) ->
  Allocator.do_redistribute a avail = (r, a', avail') ->
  (r == 0)%Q
  /\ Forall2
       (fun x x' =>
          Tenant.cache_size x' = Tenant.cache_size x
          /\ forall k, (amount k (Tenant.stateless x') == amount k R)%Q)
       (Allocator.tenants a) (Allocator.tenants a').
Proof.
  intros Hp Hl F Hs Ha Hu [j Hj] H.
  unfold Allocator.do_redistribute in H. rewrite Hp in H.
  injection H as <- <- _.
  set (n := inject_Z (Z.of_nat (length (Allocator.tenants a)))) in *.
  assert (Hn : (0 < n)%Q).
  { unfold n. change 0%Q with (inject_Z 0). rewrite <- Zlt_Qlt. lia. }
  set (sum := StatelessResrcVec.sub _ avail).
  assert (Hs' : forall k, (amount k sum == n * amount k U)%Q)
    by (intros k; unfold sum; rewrite sub_amount; apply Hs).
  assert (Hsp : forall k, (0 < amount k sum)%Q).
  { intros k. rewrite Hs'. apply Qmult_lt_0_compat; [exact Hn | apply Hu]. }
  split.
  - rewrite ratio_amount.
    destruct (min3_resource (fun k => (amount k avail / amount k sum)%Q))
      as [[i Hi] Hle].
    simpl in Hi, Hle.
    set (m := StatelessResrcVec.min3 _ _ _) in *.
    apply Qle_antisym.
    + specialize (Hle j). rewrite (Ha j), Hj in Hle.
      assert (Hz : (n * (amount j R - amount j R) / amount j sum == 0)%Q).
      { assert (Hz0 : (n * (amount j R - amount j R) == 0)%Q) by ring.
        rewrite Hz0. unfold Qdiv. ring. }
      rewrite Hz in Hle. exact Hle.
    + rewrite Hi. apply Qle_shift_div_l; [apply Hsp|].
      rewrite Qmult_0_l, (Ha i).
      apply Qmult_le_0_compat; [lra|]. specialize (Hu i). lra.
  - simpl. apply Forall2_fmap_r.
    apply Forall_Forall2_diag. eapply Forall_impl; [exact F|].
    intros x Hx. split; [reflexivity|]. intros k.
    rewrite scale_by_owned_amount.
    assert (Hne : ~ (amount k sum == 0)%Q)
      by (specialize (Hsp k); lra).
    apply Qeqb_neq in Hne. rewrite Hne. simpl negb. cbv iota.
    rewrite Hx. rewrite (Ha k).
    assert (Hd : (amount k U / amount k sum == 1 / n)%Q).
    { rewrite Hs'. specialize (Hu k). field. split; lra. }
    rewrite Hd. field. lra.
Qed.

Lemma within_epsilon_refl (v : StatelessResrcVec.t) : within_epsilon v v.
Proof.
  intros k.
  assert (Hz : (amount k v - amount k v == 0)%Q) by ring.
  rewrite Hz. apply epsilon_pos.
Qed.

(** [do_alloc] of an allocator in conserving mode whose tenants are copies
    of one tenant, in a run without a round of [do_memshare] or
    [do_harvest]. *)
Lemma do_alloc_traced_symmetric (p : params.t) (fuel : nat)
    (D : StatelessResrcVec.t) (R : ResrcVec.t) (c : MissRatioCurve.t)
    (alpha mr : Q) (a a' : Allocator.t) (r : Q) :
  MissRatioCurve.get_miss_ratio_const
    params.conservative_estimation_if_out_of_range c (ResrcVec.cache_size R)
  = Ok mr ->
  (forall k,
     (0 < amount k (Tenant.projected_demand p (Tenant.make O D R c alpha) mr))%Q) ->
  (forall k, (0 < amount k (ResrcVec.stateless R))%Q) ->
  conserved p a StatelessResrcVec.zero ->
  Allocator.policy_conserving a = true ->
  Forall (fun x => copy_of D R c alpha x
                   /\ Tenant.stateless x = ResrcVec.stateless R)
    (Allocator.tenants a) ->
  Allocator.do_alloc_traced p fuel a = Ok (r, a', O, O) ->
  (r == 0)%Q
  /\ Forall (allocation_kept R) (Allocator.tenants a')
  /\ length (Allocator.tenants a') = length (Allocator.tenants a).
Proof.
  intros Hv Hd Hr Hc Hp F H. unfold Allocator.do_alloc_traced in H.
  destruct (length (Allocator.tenants a) <=? 1)%nat eqn:El.
  { injection H as <- <-. split; [reflexivity|]. split; [|reflexivity].
    eapply Forall_impl; [exact F|]. intros x [C S]. split; [apply C|].
    rewrite S. apply within_epsilon_refl. }
  apply Nat.leb_gt in El.
  match type of H with
  | (?e ≫= _) = _ => destruct e as [[a1 m1]|] eqn:E1; [|discriminate]
  end.
  cbv beta iota delta [mbind res_bind] in H.
  destruct (Allocator.collect_idle_all p _ _) as [[ts2 avail2]|] eqn:E2;
    [|discriminate].
  match type of H with
  | match ?e with _ => _ end = _ =>
      destruct e as [[[a3 avail3] h3]|] eqn:E3; [|discriminate]
  end.
  assert (Hz : m1 = O /\ h3 = O).
  { destruct (StatelessResrcVec.is_almost_empty avail3).
    - injection H as _ _ -> ->. done.
    - destruct (Allocator.do_redistribute a3 avail3) as [[r4 a4] avail4].
      injection H as _ _ -> ->. done. }
  destruct Hz as [-> ->].
  (* memshare *)
  assert (C1 : conserved p a1 StatelessResrcVec.zero /\ same_allocator a a1
               /\ Forall (fun x => copy_of D R c alpha x
                                   /\ Tenant.stateless x = ResrcVec.stateless R)
                    (Allocator.tenants a1)).
  { destruct (Allocator.policy_memshare a).
    - unfold Allocator.do_memshare in E1.
      destruct (memshare_loop_conserves _ _ _ _ _ _ _ _ _ E1 Hc) as [C S].
      split; [exact C|]. split; [exact S|].
      apply memshare_loop_rounds in E1 as [_ E1]. specialize (E1 eq_refl).
      apply (update_all_forall _ _ _ _ E1 F). intros x x' Hx.
      apply (update_mr_delta_copy _ _ _ _ _ _ _ Hx).
    - injection E1 as <-. split; [exact Hc|].
      split; [apply same_allocator_refl | exact F]. }
  destruct C1 as (C1 & S1 & F1). clear E1.
  (* idle resources *)
  pose proof (collect_idle_all_copies _ _ _ _ _ _ _ Hv _ _ _ F1 E2)
    as (F2 & L2 & T2).
  apply collect_idle_all_conserves in E2 as (T2' & N2 & _).
  assert (C2 : conserved p (Allocator.set_tenants a1 ts2) avail2).
  { destruct C1 as [C1 N1]. split; [|apply N2, N1].
    intros k0. simpl. rewrite T2'. apply C1. }
  set (U := used_by p (Tenant.make O D R c alpha) mr) in *.
  (* harvest *)
  assert (C3 : conserved p a3 avail3
               /\ same_allocator (Allocator.set_tenants a1 ts2) a3
               /\ avail3 = avail2
               /\ Forall (fun x => Tenant.cache_size x = ResrcVec.cache_size R
                                   /\ Tenant.stateless x = U)
                    (Allocator.tenants a3)).
  { change (Allocator.policy_harvest (Allocator.set_tenants a1 ts2))
      with (Allocator.policy_harvest a1) in E3.
    destruct (Allocator.policy_harvest a1).
    - destruct (Allocator.do_harvest p _ avail2) as [[a4 h4]|] eqn:E4;
        [|discriminate].
      injection E3 as <- <- Hh.
      destruct (do_harvest_conserves _ _ _ _ _ E4 C2) as [C S].
      destruct (do_harvest_no_round _ _ _ _ _ E4 C2 Hh) as [Ea P].
      split; [exact C|]. split; [exact S|]. split; [exact Ea|].
      simpl in P. clear -P F2.
      induction P as [|x x' l l' (_ & _ & Hx & _) _ IH]; [constructor|].
      apply Forall_cons in F2 as [[X1 X2] F2]. constructor; [|auto].
      unfold Tenant.cache_size, Tenant.stateless in *. rewrite Hx. done.
    - injection E3 as <- <-. split; [exact C2|].
      split; [apply same_allocator_refl|]. split; [reflexivity | exact F2]. }
  destruct C3 as (C3 & S3 & -> & F3). clear E3.
  assert (L3 : length (Allocator.tenants a3) = length (Allocator.tenants a1)).
  { destruct S3 as (_ & _ & _ & _ & S3). rewrite S3. simpl. exact L2. }
  assert (L0 : length (Allocator.tenants a1) = length (Allocator.tenants a))
    by apply S1.
  assert (L1 : (2 <= length (Allocator.tenants a1))%nat) by lia.
  set (n := inject_Z (Z.of_nat (length (Allocator.tenants a1)))) in *.
  assert (Hn : (1 <= n)%Q).
  { unfold n. change 1%Q with (inject_Z 1). rewrite <- Zle_Qle. lia. }
  assert (Ta : forall k,
             (amount k avail2
              == n * (amount k (ResrcVec.stateless R) - amount k U))%Q).
  { intros k. rewrite (T2 k). destruct k; simpl; ring. }
  destruct (used_bounds _ _ Hd Hr) as [Ub Uj].
  change (StatelessResrcVec.scale _ _) with U in Ub, Uj.
  destruct (StatelessResrcVec.is_almost_empty avail2) eqn:Ea.
  - injection H as <- <-. split; [reflexivity|]. split; [|congruence].
    eapply Forall_impl; [exact F3|]. intros x [X1 X2]. split; [exact X1|].
    intros k. rewrite X2.
    pose proof (almost_empty_amount _ k Ea) as He. rewrite (Ta k) in He.
    specialize (Ub k).
    rewrite Qabs_neg by lra.
    rewrite Qabs_pos in He by (apply Qmult_le_0_compat; lra).
    set (d := (amount k (ResrcVec.stateless R) - amount k U)%Q) in *.
    assert (Hd0 : (0 <= d)%Q) by (unfold d; lra).
    assert (Hnd : (d <= n * d)%Q) by nra.
    unfold d in *. lra.
  - destruct (Allocator.do_redistribute a3 avail2) as [[r4 a4] avail4] eqn:E4.
    injection H as <- <-.
    assert (Hp3 : Allocator.policy_conserving a3 = true).
    { destruct S1 as (_ & S1 & _). destruct S3 as (_ & S3 & _).
      rewrite S3. simpl. rewrite S1. exact Hp. }
    assert (X : (r4 == 0)%Q
                /\ Forall2
                     (fun x x' =>
                        Tenant.cache_size x' = Tenant.cache_size x
                        /\ forall k,
                             (amount k (Tenant.stateless x')
                              == amount k (ResrcVec.stateless R))%Q)
                     (Allocator.tenants a3) (Allocator.tenants a4)).
    { apply (redistribute_copies a3 a4 U (ResrcVec.stateless R) avail2 avail4);
        try assumption.
      - lia.
      - eapply Forall_impl; [exact F3|]. intros x [_ X]. exact X.
      - intros k. destruct C3 as [C3 _]. specialize (C3 k).
        rewrite (total_of_const k U) in C3
          by (eapply Forall_impl; [exact F3|]; intros x [_ X]; exact X).
        rewrite <- C3. ring.
      - intros k. rewrite L3. apply Ta. }
    destruct X as [X1 X2]. split; [exact X1|].
    split; [|apply Forall2_length in X2; congruence].
    clear -X2 F3. induction X2 as [|x x' l l' [Y1 Y2] _ IH]; [constructor|].
    apply Forall_cons in F3 as [[Z1 Z2] F3]. constructor; [|auto].
    split; [congruence|]. intros k.
    assert (Hz : (amount k (Tenant.stateless x')
                  - amount k (ResrcVec.stateless R) == 0)%Q)
      by (rewrite Y2; ring).
    rewrite Hz. apply epsilon_pos.
Qed.

(** Equal tenants that do not trade: in conserving mode, [do_alloc] of
    tenants added with the same positive demand, the same positive
    allocation, the same curve and the same share of the network
    bandwidth, in a run in which neither [do_memshare] nor [do_harvest]
    makes a round (as in every run with both policies off), answers the
    improvement ratio 0 and leaves every tenant its cache size and, within
    the epsilons, its stateless resources. *)
Lemma symmetric_fixed_point (p : params.t) (fuel : nat)
    (harvest memshare : bool) (n : nat) (D : StatelessResrcVec.t)
    (R : ResrcVec.t) (tks : list Z) (mrs : list Q) (alpha mr r : Q)
    (a' : Allocator.t) :
  MissRatioCurve.get_miss_ratio_const
    params.conservative_estimation_if_out_of_range
    (MissRatioCurve.make tks mrs) (ResrcVec.cache_size R) = Ok mr ->
  (forall k,
     (0 < amount k
            (Tenant.projected_demand p
               (Tenant.make O D R (MissRatioCurve.make tks mrs) alpha) mr))%Q) ->
  (forall k, (0 < amount k (ResrcVec.stateless R))%Q) ->
  Allocator.do_alloc_traced p fuel
    (add_tenants (Allocator.make harvest true memshare)
       (replicate n (D, R, MissRatioCurve.make tks mrs, alpha)))
  = Ok (r, a', O, O) ->
  (r == 0)%Q
  /\ Forall (allocation_kept R) (Allocator.tenants a')
  /\ length (Allocator.tenants a') = n.
Proof.
  intros Hv Hd Hr H.
  set (s := (D, R, MissRatioCurve.make tks mrs, alpha)) in *.
  destruct (add_tenants_conserved p (replicate n s) _
              (make_conserved p harvest true memshare))
    as (C & L & _ & P & _).
  destruct (add_tenants_copies D R _ alpha n (memo_consistent_make tks mrs)
              (Allocator.make harvest true memshare)) as (l & E & F).
  fold s in E. simpl in E, L, P. rewrite <- E in F.
  rewrite length_replicate in L.
  destruct (do_alloc_traced_symmetric _ _ _ _ _ _ _ _ _ _ Hv Hd Hr C P F H)
    as (X1 & X2 & X3).
  split; [exact X1|]. split; [exact X2 | congruence].
Qed.

Lemma symmetric_fixed_point_witness :
  (symmetric_result.1.1.1 == 0)%Q
  /\ Forall (allocation_kept (ResrcVec.mk 20 (StatelessResrcVec.mk 2 2 16)))
       (Allocator.tenants symmetric_result.1.1.2)
  /\ length (Allocator.tenants symmetric_result.1.1.2) = 4%nat.
Proof.
  apply (symmetric_fixed_point test_params 0 true false 4
           (StatelessResrcVec.mk (1 # 2) (1 # 2) 4)
           (ResrcVec.mk 20 (StatelessResrcVec.mk 2 2 16))
           [10; 20; 40; 80; 100] [9 # 10; 8 # 10; 7 # 10; 6 # 10; 4 # 10]%Q
           0 (8 # 10)).
  - vm_compute. reflexivity.
  - intros k. destruct k; vm_compute; reflexivity.
  - intros k. destruct k; vm_compute; reflexivity.
  - vm_compute. reflexivity.
Defined.

(** C3: [do_alloc] keeps neither the claim of the specification nor the
    sentence of test_alloc.cpp that no allocation should happen if all
    tenants are symmetric.  Two tenants are added with the same demand
    (1, 1, 1), the same allocation (20; 1, 2, 2), the same curve, 1 at the
    sizes 10 and 20 and 1/2 at 30, and the same share 0 of the network
    bandwidth, under the parameters of test_alloc.cpp and the default
    policies.  In the one round of [do_harvest] the first buys ten units
    of cache from the second: the caches end at 30 and 10, the read units
    at 2/3 and 4/3, the ratio is 1/3, and the check that [test_symmetric]
    makes of every tenant fails. *)
Theorem symmetric_tenants_trade :
  exists r a',
    Allocator.do_alloc_traced test_params 0
      (add_tenants Allocator.default (replicate 2 cliff_spec))
    = Ok (r, a', O, 1%nat)
    /\ (r == 1 # 3)%Q
    /\ map Tenant.cache_size (Allocator.tenants a') = [30; 10]
    /\ Forall2
         (fun x v => forall k, (amount k (Tenant.stateless x) == amount k v)%Q)
         (Allocator.tenants a')
         [StatelessResrcVec.mk (2 # 3) 2 2; StatelessResrcVec.mk (4 # 3) 2 2]
    /\ check_tenants (replicate 2 cliff_spec.1.1.2)
         (Allocator.do_alloc test_params 0
            (add_tenants Allocator.default (replicate 2 cliff_spec)))
       = false
    /\ ~ fixed_point_claim test_params 0 Allocator.default 2 cliff_spec.
Proof.
  exists cliff_result.1.1.1, cliff_result.1.1.2.
  split; [vm_compute; reflexivity|]. split; [reflexivity|].
  split; [reflexivity|]. split.
  - repeat constructor; intros k; destruct k; reflexivity.
  - split; [vm_compute; reflexivity|]. intros H.
    assert (E : Allocator.do_alloc test_params 0
                  (add_tenants Allocator.default (replicate 2 cliff_spec))
                = Ok (cliff_result.1.1.1, cliff_result.1.1.2))
      by (vm_compute; reflexivity).
    apply H in E as [E _]. vm_compute in E. discriminate E.
Qed.

End Symmetry.

(** ** [do_alloc] returns *)

Section Total.

Lemma get_miss_ratio_const_total (c : MissRatioCurve.t) (x : Z) :
  sized c ->
  exists v, MissRatioCurve.get_miss_ratio_const true c x = Ok v.
Proof.
  intros [Hne Hlen]. unfold MissRatioCurve.get_miss_ratio_const.
  destruct (back_nonempty _ Hne) as [hi Hb]. rewrite Hb. simpl.
  assert (Hm : MissRatioCurve.miss_ratios c <> []).
  { intros E. rewrite E in Hlen. destruct (MissRatioCurve.ticks c); done. }
  destruct (hi <? x) eqn:Ex; [apply back_nonempty, Hm|].
  apply Z.ltb_ge in Ex.
  destruct (MissRatioCurve.ticks c) as [|t0 tks] eqn:Et; [done|].
  destruct (MissRatioCurve.miss_ratios c) as [|m0 mrs] eqn:Em; [done|].
  cbn [front mbind res_bind].
  destruct (x <? t0); [eexists; reflexivity|].
  rewrite <- Et, <- Em in *.
  set (i := MissRatioCurve.lower_bound (MissRatioCurve.ticks c) x).
  apply back_lookup in Hb.
  assert (Hi : (i < length (MissRatioCurve.ticks c))%nat).
  { pose proof (lower_bound_first _ x _ _ Hb Ex) as H. fold i in H.
    rewrite Et in *. simpl in *. lia. }
  destruct (lookup_lt_is_Some_2 _ _ Hi) as [tk Htk].
  assert (Hi' : (i < length (MissRatioCurve.miss_ratios c))%nat) by lia.
  destruct (lookup_lt_is_Some_2 _ _ Hi') as [mi Hmi].
  assert (Hj : (i - 1 < length (MissRatioCurve.ticks c))%nat) by lia.
  destruct (lookup_lt_is_Some_2 _ _ Hj) as [tj Htj].
  assert (Hj' : (i - 1 < length (MissRatioCurve.miss_ratios c))%nat) by lia.
  destruct (lookup_lt_is_Some_2 _ _ Hj') as [mj Hmj].
  unfold at_index. rewrite Htk, Hmi, Htj, Hmj. simpl.
  destruct (x =? tk); eexists; reflexivity.
Qed.

Lemma miss_ratio_total (a : Tenant.t) (x : Z) :
  sized_tenant a ->
  exists v m,
    Tenant.miss_ratio a x = Ok (v, Tenant.set_mrc a m)
    /\ sized_tenant (Tenant.set_mrc a m).
Proof.
  intros Hs. unfold Tenant.miss_ratio, MissRatioCurve.get_miss_ratio.
  destruct (MissRatioCurve.miss_ratio_map (Tenant.mrc a) !! x) as [v|].
  - exists v, (Tenant.mrc a). simpl. split; [reflexivity | exact Hs].
  - destruct (get_miss_ratio_const_total _ x Hs) as [v Hv].
    change params.conservative_estimation_if_out_of_range with true.
    rewrite Hv. simpl. eexists _, _. split; [reflexivity | exact Hs].
Qed.

(** One [mrc.get_miss_ratio] at the head of a sequence of a sized
    tenant. *)
Ltac run_miss_ratio Hs :=
  match goal with
  | |- context [Tenant.miss_ratio ?a ?x] =>
      let v := fresh "v" in
      let m := fresh "m" in
      let E := fresh "E" in
      let Hs' := fresh "Hs" in
      destruct (miss_ratio_total a x Hs) as (v & m & E & Hs');
      rewrite E; cbn [mbind res_bind]; cbv beta iota; clear E
  end.

Lemma sized_offers (p : params.t) (x : Tenant.t) :
  sized_tenant x ->
  sized_tenant (Tenant.abort_relinq_offer p x)
  /\ sized_tenant (Tenant.abort_compen_offer p x)
  /\ sized_tenant (Tenant.immediate_compen_offer p x).
Proof.
  unfold Tenant.abort_relinq_offer, Tenant.abort_compen_offer,
    Tenant.immediate_compen_offer.
  intros H. destruct (params.alloc_total_net_bw p); repeat split; apply H.
Qed.

Lemma pred_more_runs (p : params.t) (d : Z) :
  runs (fun x => Tenant.pred_rcu_net_delta_if_more_cache p x d).
Proof.
  intros x Hs. unfold Tenant.pred_rcu_net_delta_if_more_cache.
  run_miss_ratio Hs.
  destruct (Qleb v params.epilson);
    [eexists; split; [reflexivity | apply sized_offers, Hs0]|].
  run_miss_ratio Hs0.
  destruct (Qltb v0 params.min_miss_ratio);
    [eexists; split; [reflexivity | apply sized_offers, Hs1]|].
  destruct (Qleb (v - v0) params.epilson);
    [eexists; split; [reflexivity | apply sized_offers, Hs1]|].
  eexists; split; [reflexivity|].
  destruct (params.alloc_total_net_bw p); exact Hs1.
Qed.

Lemma pred_less_runs (p : params.t) (d : Z) :
  runs (fun x => Tenant.pred_rcu_net_delta_if_less_cache p x d).
Proof.
  intros x Hs. unfold Tenant.pred_rcu_net_delta_if_less_cache.
  destruct (Tenant.cache_size x <? u64 (params.min_cache_size p + d));
    [eexists; split; [reflexivity | apply sized_offers, Hs]|].
  run_miss_ratio Hs. run_miss_ratio Hs0.
  repeat match goal with
         | |- context [if ?b then Ok _ else _] =>
             destruct b;
             [eexists; split; [reflexivity | apply sized_offers, Hs1]|]
         end.
  eexists; split; [reflexivity|].
  destruct (params.alloc_total_net_bw p); exact Hs1.
Qed.

Lemma update_rcu_net_delta_runs (p : params.t) :
  runs (Tenant.update_rcu_net_delta p).
Proof.
  intros x Hs. unfold Tenant.update_rcu_net_delta.
  destruct (pred_more_runs p (params.cache_delta p) x Hs) as (x1 & E1 & H1).
  rewrite E1. simpl. apply pred_less_runs, H1.
Qed.

Lemma collect_idle_runs (p : params.t) (x : Tenant.t) :
  sized_tenant x ->
  exists idle x', Tenant.collect_idle p x = Ok (idle, x') /\ sized_tenant x'.
Proof.
  intros Hs. unfold Tenant.collect_idle. run_miss_ratio Hs.
  eexists _, _. split; [reflexivity | exact Hs0].
Qed.

Lemma update_all_runs (f : Tenant.t -> res Tenant.t) (ts : list Tenant.t) :
  runs f -> Forall sized_tenant ts ->
  exists ts',
    Allocator.update_all f ts = Ok ts' /\ Forall sized_tenant ts'
    /\ length ts' = length ts.
Proof.
  intros Hf. induction 1 as [|x ts Hx _ (ts' & E & F & L)]; simpl.
  - exists []. repeat split. constructor.
  - destruct (Hf x Hx) as (x' & Ex & Hx'). rewrite Ex, E. simpl.
    eexists. split; [reflexivity|]. split; [constructor; assumption|].
    simpl. congruence.
Qed.

Lemma collect_idle_all_runs (p : params.t) (ts : list Tenant.t) :
  Forall sized_tenant ts ->
  forall avail0,
    exists ts' avail,
      Allocator.collect_idle_all p ts avail0 = Ok (ts', avail)
      /\ Forall sized_tenant ts' /\ length ts' = length ts.
Proof.
  induction 1 as [|x ts Hx _ IH]; intros avail0; simpl.
  - eexists _, _. repeat split. constructor.
  - destruct (collect_idle_runs p x Hx) as (idle & x' & Ex & Hx').
    rewrite Ex. simpl.
    destruct (IH (StatelessResrcVec.add avail0 idle)) as (ts' & av & E & F & L).
    rewrite E. simpl. eexists _, _. split; [reflexivity|].
    split; [constructor; assumption|]. simpl. congruence.
Qed.

Lemma modify_runs (f : Tenant.t -> res Tenant.t) (ts : list Tenant.t)
    (i : nat) :
  runs f -> Forall sized_tenant ts -> (i < length ts)%nat ->
  exists ts',
    Tenant.modify ts i f = Ok ts' /\ Forall sized_tenant ts'
    /\ length ts' = length ts.
Proof.
  intros Hf F Hi. unfold Tenant.modify, at_index.
  destruct (lookup_lt_is_Some_2 _ _ Hi) as [x Hx]. rewrite Hx. simpl.
  destruct (Hf x (Forall_lookup_1 _ _ _ _ F Hx)) as (x' & E & Hx').
  rewrite E. simpl. eexists. split; [reflexivity|].
  split; [apply Forall_insert; assumption | apply length_insert].
Qed.



Lemma set_runs (g : Tenant.t -> Tenant.t) :
  (forall x, Tenant.mrc (g x) = Tenant.mrc x) -> runs (fun x => Ok (g x)).
Proof.
  intros Hg x Hx. exists (g x). split; [reflexivity|].
  unfold sized_tenant. rewrite Hg. exact Hx.
Qed.

Lemma relocate_resrc_runs (p : params.t) (ts : list Tenant.t)
    (t_relinq t_compen : nat) (q1 q2 q3 q4 : Q) :
  Forall sized_tenant ts ->
  (t_relinq < length ts)%nat -> (t_compen < length ts)%nat ->
  exists ts',
    Tenant.relocate_resrc p ts t_relinq t_compen q1 q2 q3 q4 = Ok ts'
    /\ Forall sized_tenant ts' /\ length ts' = length ts.
Proof.
  intros F Hr Hc. unfold Tenant.relocate_resrc.
  destruct (params.alloc_total_net_bw p);
    repeat match goal with
           | |- context [Tenant.modify ?l ?i ?f ≫= _] =>
               let ts' := fresh "ts" in
               let E := fresh "E" in
               let F' := fresh "F" in
               let L := fresh "L" in
               destruct (modify_runs f l i) as (ts' & E & F' & L);
               [apply set_runs; reflexivity | assumption | lia |];
               rewrite E; cbn [mbind res_bind]; clear E
           end.
  - match goal with
    | |- context [Tenant.modify ?l ?i ?f] =>
        destruct (modify_runs f l i) as (tsz & Ez & Fz & Lz);
        [apply set_runs; reflexivity | assumption | lia |]
    end.
    exists tsz. split; [exact Ez|]. split; [exact Fz | lia].
  - eexists. split; [reflexivity|]. split; [assumption | lia].
Qed.

Lemma max_element_from_lt {A} (comp : A -> A -> bool) (l : list A) :
  forall (x : A) (lp pos : nat),
    (lp < pos)%nat ->
    (max_element_from comp x lp pos l < pos + length l)%nat.
Proof.
  induction l as [|y l IH]; intros x lp pos H; simpl; [lia|].
  destruct (comp x y).
  - specialize (IH y pos (S pos)). lia.
  - specialize (IH x lp (S pos)). lia.
Qed.

Lemma min_element_from_lt {A} (comp : A -> A -> bool) (l : list A) :
  forall (x : A) (sp pos : nat),
    (sp < pos)%nat ->
    (min_element_from comp x sp pos l < pos + length l)%nat.
Proof.
  induction l as [|y l IH]; intros x sp pos H; simpl; [lia|].
  destruct (comp y x).
  - specialize (IH y pos (S pos)). lia.
  - specialize (IH x sp (S pos)). lia.
Qed.

Lemma max_element_lt {A} (comp : A -> A -> bool) (l : list A) :
  (1 <= length l)%nat -> (max_element comp l < length l)%nat.
Proof.
  destruct l as [|x l]; simpl; [lia|]. intros _.
  pose proof (max_element_from_lt comp l x 0%nat 1%nat). lia.
Qed.

Lemma min_element_lt {A} (comp : A -> A -> bool) (l : list A) :
  (1 <= length l)%nat -> (min_element comp l < length l)%nat.
Proof.
  destruct l as [|x l]; simpl; [lia|]. intros _.
  pose proof (min_element_from_lt comp l x 0%nat 1%nat). lia.
Qed.

Lemma deref_total (ts : list Tenant.t) (l : list nat) :
  Forall (fun i => (i < length ts)%nat) l ->
  exists xs, Allocator.deref ts l = Ok xs /\ length xs = length l.
Proof.
  induction 1 as [|i l Hi _ (xs & E & L)]; simpl.
  - exists []. done.
  - unfold at_index. destruct (lookup_lt_is_Some_2 _ _ Hi) as [x ->]. simpl.
    rewrite E. simpl. eexists. split; [reflexivity|]. simpl. congruence.
Qed.

Lemma at_index_total {A} (P : A -> Prop) (l : list A) (i : nat) :
  Forall P l -> (i < length l)%nat -> exists x, at_index l i = Ok x /\ P x.
Proof.
  intros F Hi. unfold at_index.
  destruct (lookup_lt_is_Some_2 _ _ Hi) as [x Hx]. rewrite Hx.
  exists x. split; [reflexivity|]. exact (Forall_lookup_1 _ _ _ _ F Hx).
Qed.

Lemma iter_swap_total (n : nat) (l : list nat) (i j : nat) :
  pointers n l -> (i < length l)%nat -> (j < length l)%nat ->
  exists l', iter_swap l i j = Ok l' /\ pointers n l'.
Proof.
  intros [F L] Hi Hj. unfold iter_swap.
  destruct (at_index_total _ l i F Hi) as (x & -> & Hx).
  destruct (at_index_total _ l j F Hj) as (y & -> & Hy).
  simpl. eexists. split; [reflexivity|]. split.
  - apply Forall_insert; [apply Forall_insert|]; assumption.
  - rewrite !length_insert. exact L.
Qed.

Lemma pick_deal_total (ts : list Tenant.t) (relinq_list compen_list : list nat)
    (less_relinq less_compen : Tenant.t -> Tenant.t -> bool) :
  pointers (length ts) relinq_list -> pointers (length ts) compen_list ->
  exists t_relinq t_compen l,
    Allocator.pick_deal ts relinq_list compen_list less_relinq less_compen
    = Ok (t_relinq, t_compen, l)
    /\ (t_relinq < length ts)%nat /\ (t_compen < length ts)%nat
    /\ pointers (length ts) l.
Proof.
  intros [Fr Lr] [Fc Lc]. unfold Allocator.pick_deal.
  destruct (deref_total ts relinq_list Fr) as (rs & -> & Hrs).
  destruct (deref_total ts compen_list Fc) as (cs & -> & Hcs).
  cbn [mbind res_bind].
  destruct (at_index_total _ relinq_list (max_element less_relinq rs) Fr)
    as (r & -> & Hr); [rewrite <- Hrs; apply max_element_lt; lia|].
  assert (Hm : (min_element less_compen cs < length compen_list)%nat)
    by (rewrite <- Hcs; apply min_element_lt; lia).
  destruct (at_index_total _ compen_list _ Fc Hm) as (c & -> & Hc).
  cbn [mbind res_bind].
  destruct (r =? c)%nat.
  - destruct (iter_swap_total (length ts) compen_list
                (min_element less_compen cs) 0) as (l' & -> & [Fl Ll]);
      [split; assumption | exact Hm | lia |].
    cbn [mbind res_bind].
    destruct (deref_total ts l' Fl) as (cs' & -> & Hcs').
    cbn [mbind res_bind].
    assert (Hm' : (S (min_element less_compen (tail cs')) < length l')%nat).
    { rewrite <- Hcs'. destruct cs' as [|c0 cs']; simpl in *; [lia|].
      pose proof (min_element_lt less_compen cs'). lia. }
    destruct (at_index_total _ l' _ Fl Hm') as (c' & -> & Hc').
    cbn [mbind res_bind]. eexists _, _, _. split; [reflexivity|].
    repeat split; assumption.
  - eexists _, _, _. split; [reflexivity|]. repeat split; assumption.
Qed.

Lemma harvest_round_total (p : params.t) (a : Allocator.t)
    (h : Allocator.harvest) :
  harvest_ready p a h ->
  Allocator.harvest_round p a h = Ok None
  \/ exists a' h',
       Allocator.harvest_round p a h = Ok (Some (a', h'))
       /\ harvest_ready p a' h'.
Proof.
  intros (F & Prr & Prc & Pn). unfold Allocator.harvest_round.
  assert (D : exists deal,
             (if Allocator.is_rcu_bottleneck h then
                '(t_relinq, t_compen, l) ←
                  Allocator.pick_deal (Allocator.tenants a)
                    (Allocator.rcu_relinq_list h) (Allocator.rcu_compen_list h)
                    Allocator.less_rcu_relinq Allocator.less_rcu_compen;
                Ok (Some (t_relinq, t_compen, l, Allocator.net_compen_list h))
              else if params.alloc_total_net_bw p && Allocator.is_net_bottleneck h
              then
                '(t_relinq, t_compen, l) ←
                  Allocator.pick_deal (Allocator.tenants a)
                    (Allocator.net_relinq_list h) (Allocator.net_compen_list h)
                    Allocator.less_net_relinq Allocator.less_net_compen;
                Ok (Some (t_relinq, t_compen, Allocator.rcu_compen_list h, l))
              else Ok None) = Ok deal
             /\ match deal with
                | None => True
                | Some (r, c, l1, l2) =>
                    (r < length (Allocator.tenants a))%nat
                    /\ (c < length (Allocator.tenants a))%nat
                    /\ pointers (length (Allocator.tenants a)) l1
                    /\ (params.alloc_total_net_bw p = true ->
                        pointers (length (Allocator.tenants a)) l2)
                end).
  { destruct (Allocator.is_rcu_bottleneck h).
    - destruct (pick_deal_total (Allocator.tenants a) _ _
                  Allocator.less_rcu_relinq Allocator.less_rcu_compen Prr Prc)
        as (r & c & l & -> & Hr & Hc & Hl).
      eexists. split; [reflexivity|]. simpl.
      split; [exact Hr|]. split; [exact Hc|]. split; [exact Hl|].
      intros En. apply Pn, En.
    - destruct (params.alloc_total_net_bw p) eqn:En; simpl;
        [|by exists None].
      destruct (Allocator.is_net_bottleneck h); [|by exists None].
      destruct (Pn eq_refl) as [Pnr Pnc].
      destruct (pick_deal_total (Allocator.tenants a) _ _
                  Allocator.less_net_relinq Allocator.less_net_compen Pnr Pnc)
        as (r & c & l & -> & Hr & Hc & Hl).
      eexists. split; [reflexivity|]. simpl.
      split; [exact Hr|]. split; [exact Hc|]. split; [exact Prc|].
      intros _. exact Hl. }
  destruct D as (deal & -> & Hdeal). cbn [mbind res_bind].
  destruct deal as [[[[r c] l1] l2]|]; [|by left].
  destruct Hdeal as (Hr & Hc & Hl1 & Hl2).
  destruct (at_index_total _ _ r F Hr) as (xr & -> & _).
  destruct (at_index_total _ _ c F Hc) as (xc & -> & _).
  cbn [mbind res_bind]. cbv zeta.
  destruct (Allocator.estimate_bottleneck a _) as [[cur is_rcu] is_net].
  destruct (Qltb _ _); [by left|]. right.
  destruct (relocate_resrc_runs p (Allocator.tenants a) r c
              (Tenant.rcu_delta_relinq xr) (Tenant.rcu_delta_compen xc)
              (Tenant.net_delta_relinq xr) (Tenant.net_delta_compen xc) F Hr Hc)
    as (ts1 & -> & F1 & L1).
  cbn [mbind res_bind].
  destruct (modify_runs _ ts1 r (update_rcu_net_delta_runs p) F1)
    as (ts2 & -> & F2 & L2); [lia|].
  cbn [mbind res_bind].
  destruct (modify_runs _ ts2 c (update_rcu_net_delta_runs p) F2)
    as (ts3 & -> & F3 & L3); [lia|].
  cbn [mbind res_bind].
  eexists _, _. split; [reflexivity|].
  assert (L : length ts3 = length (Allocator.tenants a)) by lia.
  unfold harvest_ready. simpl. rewrite L.
  split; [exact F3|]. split; [exact Prr|]. split; [exact Hl1|].
  intros En. split; [apply Pn, En | apply Hl2, En].
Qed.

Lemma harvest_loop_total (p : params.t) (n : nat) :
  forall (a : Allocator.t) (h : Allocator.harvest),
    harvest_ready p a h ->
    exists a' h',
      Allocator.harvest_loop p n a h = Ok (a', h')
      /\ Forall sized_tenant (Allocator.tenants a').
Proof.
  induction n as [|n IH]; intros a h Hr.
  - exists a, h. split; [reflexivity | apply Hr].
  - cbn [Allocator.harvest_loop].
    destruct (harvest_round_total p a h Hr) as [-> | (a1 & h1 & -> & Hr1)];
      cbn [mbind res_bind].
    + exists a, h. split; [reflexivity | apply Hr].
    + apply IH, Hr1.
Qed.

Lemma do_harvest_total (p : params.t) (a : Allocator.t)
    (avail : StatelessResrcVec.t) :
  Forall sized_tenant (Allocator.tenants a) ->
  (2 <= length (Allocator.tenants a))%nat ->
  exists a' h',
    Allocator.do_harvest p a avail = Ok (a', h')
    /\ Forall sized_tenant (Allocator.tenants a').
Proof.
  intros F L. unfold Allocator.do_harvest.
  destruct (Allocator.estimate_bottleneck a avail) as [[prev is_rcu] is_net].
  destruct (update_all_runs _ _ (update_rcu_net_delta_runs p) F)
    as (ts & -> & F1 & L1).
  cbn [mbind res_bind]. cbv zeta.
  apply harvest_loop_total.
  assert (P : pointers (length ts) (seq 0 (length ts))).
  { split; [|rewrite length_seq; lia].
    apply Forall_forall. intros i Hi. apply elem_of_seq in Hi. lia. }
  unfold harvest_ready. simpl. split; [exact F1|]. split; [exact P|].
  split; [exact P|]. intros ->. split; exact P.
Qed.

(** Without the memshare policy [do_alloc] returns for every allocator
    whose tenants have sized curves, and without the harvest policy too it
    makes no round. *)
Lemma do_alloc_traced_total (p : params.t) (fuel : nat) (a : Allocator.t) :
  Allocator.policy_memshare a = false ->
  Forall sized_tenant (Allocator.tenants a) ->
  exists r a' h,
    Allocator.do_alloc_traced p fuel a = Ok (r, a', O, h)
    /\ (Allocator.policy_harvest a = false -> h = O).
Proof.
  intros Hm F. unfold Allocator.do_alloc_traced.
  destruct (length (Allocator.tenants a) <=? 1)%nat eqn:El;
    [eexists _, _, _; split; [reflexivity | done]|].
  apply Nat.leb_gt in El. rewrite Hm. cbn [mbind res_bind].
  destruct (collect_idle_all_runs p _ F StatelessResrcVec.zero)
    as (ts & avail & -> & F1 & L1).
  cbn [mbind res_bind].
  change (Allocator.policy_harvest (Allocator.set_tenants a ts))
    with (Allocator.policy_harvest a).
  destruct (Allocator.policy_harvest a).
  - destruct (do_harvest_total p (Allocator.set_tenants a ts) avail)
      as (a1 & h1 & -> & F2); [exact F1 | simpl; lia |].
    cbn [mbind res_bind].
    destruct (StatelessResrcVec.is_almost_empty _);
      [eexists _, _, _; split; [reflexivity | done]|].
    destruct (Allocator.do_redistribute _ _) as [[r2 a2] av2].
    eexists _, _, _; split; [reflexivity | done].
  - cbn [mbind res_bind].
    destruct (StatelessResrcVec.is_almost_empty _);
      [eexists _, _, _; split; [reflexivity | done]|].
    destruct (Allocator.do_redistribute _ _) as [[r2 a2] av2].
    eexists _, _, _; split; [reflexivity | done].
Qed.

Lemma add_tenants_sized (specs : list tenant_spec) :
  Forall (fun s => sized s.1.2) specs ->
  forall a,
    Forall sized_tenant (Allocator.tenants a) ->
    Forall sized_tenant (Allocator.tenants (add_tenants a specs)).
Proof.
  induction 1 as [|[[[d r] m] al] specs Hs _ IH]; intros a F; [exact F|].
  change (add_tenants a ((d, r, m, al) :: specs))
    with (add_tenants (Allocator.add_tenant a d r m al).2 specs).
  apply IH. simpl. apply Forall_app. split; [exact F|].
  constructor; [exact Hs | constructor].
Qed.

(** [do_alloc] of the tenants of [add_tenant] returns when the memshare
    policy is off, and makes no round when the harvest policy is off
    too. *)
Lemma do_alloc_returns (p : params.t) (fuel : nat)
    (harvest conserving : bool) (specs : list tenant_spec) :
  Forall (fun s => sized s.1.2) specs ->
  exists r a' h,
    Allocator.do_alloc_traced p fuel
      (add_tenants (Allocator.make harvest conserving false) specs)
    = Ok (r, a', O, h)
    /\ Allocator.do_alloc p fuel
         (add_tenants (Allocator.make harvest conserving false) specs)
       = Ok (r, a')
    /\ (harvest = false -> h = O).
Proof.
  intros Hs.
  destruct (add_tenants_conserved p specs _
              (make_conserved p harvest conserving false))
    as (_ & _ & Hh & _ & Hm).
  simpl in Hh, Hm.
  destruct (do_alloc_traced_total p fuel _ Hm
              (add_tenants_sized specs Hs
                 (Allocator.make harvest conserving false)
                 (Forall_nil_2 _)))
    as (r & a' & h & E & Hz).
  exists r, a', h. split; [exact E|]. split.
  - unfold Allocator.do_alloc. rewrite E. reflexivity.
  - intros ->. apply Hz. exact Hh.
Qed.

End Total.

(** ** Regular tenants

    What keeps the quotients of [do_alloc] away from the divisor 0: the
    tenants stay regular through every phase, and hold a positive amount
    of every resource, so that the resources that are allocated, by which
    the available ones are divided, are positive. *)

Section Regular.

Lemma iter_swap_lookup {A} (l l' : list A) (i j : nat) :
  iter_swap l i j = Ok l' ->
  length l' = length l
  /\ forall k,
       l' !! k = l !! (if (k =? i)%nat then j
                       else if (k =? j)%nat then i else k).
Proof.
  unfold iter_swap. intros H.
  destruct (at_index l i) as [x|] eqn:Ex; [|discriminate]. simpl in H.
  destruct (at_index l j) as [y|] eqn:Ey; [|discriminate]. simpl in H.
  injection H as <-. apply at_index_lookup in Ex, Ey.
  split; [rewrite !length_insert; reflexivity|].
  intros k.
  assert (Li : (i < length l)%nat) by (apply lookup_lt_is_Some; eauto).
  assert (Lj : (j < length l)%nat) by (apply lookup_lt_is_Some; eauto).
  destruct (k =? i)%nat eqn:Ei.
  - apply Nat.eqb_eq in Ei. subst k.
    rewrite list_lookup_insert_eq by (rewrite length_insert; exact Li).
    symmetry. exact Ey.
  - apply Nat.eqb_neq in Ei. rewrite list_lookup_insert_ne by congruence.
    destruct (k =? j)%nat eqn:Ej.
    + apply Nat.eqb_eq in Ej. subst k.
      rewrite list_lookup_insert_eq by exact Lj. symmetry. exact Ex.
    + apply Nat.eqb_neq in Ej. rewrite list_lookup_insert_ne by congruence.
      reflexivity.
Qed.

Lemma iter_swap_NoDup {A} (l l' : list A) (i j : nat) :
  iter_swap l i j = Ok l' -> NoDup l -> NoDup l'.
Proof.
  intros H Hn. pose proof H as H0. apply iter_swap_lookup in H as [L K].
  unfold iter_swap in H0.
  destruct (at_index l i) as [x|] eqn:Ex; [|discriminate].
  destruct (at_index l j) as [y|] eqn:Ey; [|discriminate].
  apply at_index_lookup in Ex, Ey. clear H0.
  apply NoDup_alt. intros a b z Ha Hb. rewrite K in Ha, Hb.
  pose proof (proj1 (NoDup_alt l) Hn _ _ _ Ha Hb) as E. revert E.
  destruct (a =? i)%nat eqn:A1; destruct (b =? i)%nat eqn:B1;
    destruct (a =? j)%nat eqn:A2; destruct (b =? j)%nat eqn:B2;
    intros E; rewrite ?Nat.eqb_eq, ?Nat.eqb_neq in *; lia.
Qed.

Lemma back_elem_of {A} (v : list A) (x : A) : back v = Ok x -> x ∈ v.
Proof.
  intros H. apply back_lookup in H. apply list_elem_of_lookup. eauto.
Qed.

(** The answer of a curve with positive miss ratios is positive. *)
Lemma get_miss_ratio_const_positive (c : MissRatioCurve.t) (x : Z) (v : Q) :
  sized c -> Forall is_u64 (MissRatioCurve.ticks c) ->
  Forall (fun mr => (0 < mr)%Q) (MissRatioCurve.miss_ratios c) ->
  is_u64 x ->
  MissRatioCurve.get_miss_ratio_const true c x = Ok v ->
  (0 < v)%Q.
Proof.
  intros [Hne Hlen] Hu Hp Hx H.
  rewrite Forall_forall in Hp. rewrite Forall_forall in Hu.
  unfold MissRatioCurve.get_miss_ratio_const in H.
  destruct (back (MissRatioCurve.ticks c)) as [hi|] eqn:Hb; [|discriminate].
  simpl in H.
  destruct (hi <? x) eqn:Ex.
  { apply Hp, back_elem_of, H. }
  apply Z.ltb_ge in Ex.
  destruct (front (MissRatioCurve.ticks c)) as [t0|] eqn:Ef; [|discriminate].
  simpl in H. apply front_lookup in Ef.
  assert (Ht0 : is_u64 t0) by (apply Hu, list_elem_of_lookup; eauto).
  destruct (x <? t0) eqn:E0.
  - apply Z.ltb_lt in E0.
    destruct (front (MissRatioCurve.miss_ratios c)) as [m0|] eqn:Em;
      [|discriminate].
    simpl in H. injection H as <-. apply front_lookup in Em.
    assert (Hm0 : (0 < m0)%Q) by (apply Hp, list_elem_of_lookup; eauto).
    unfold is_u64 in *.
    rewrite u64_small by (unfold is_u64; lia).
    destruct (interpolate_between 1 m0 x (t0 - x)) as [L _];
      try lia; [unfold is_u64; lia|].
    destruct (Q.min_spec 1 m0) as [[_ M]|[_ M]]; rewrite M in L; lra.
  - apply Z.ltb_ge in E0.
    set (i := MissRatioCurve.lower_bound (MissRatioCurve.ticks c) x) in *.
    destruct (at_index (MissRatioCurve.ticks c) i) as [tk|] eqn:Etk;
      [|discriminate].
    simpl in H. apply at_index_lookup in Etk.
    assert (Htk : is_u64 tk) by (apply Hu, list_elem_of_lookup; eauto).
    pose proof (lower_bound_at _ _ _ Etk) as Hge.
    destruct (x =? tk) eqn:Eq.
    { apply at_index_lookup in H. apply Hp, list_elem_of_lookup. eauto. }
    apply Z.eqb_neq in Eq.
    destruct (at_index (MissRatioCurve.miss_ratios c) (i - 1)) as [lv|] eqn:El;
      [|discriminate].
    simpl in H.
    destruct (at_index (MissRatioCurve.miss_ratios c) i) as [rv|] eqn:Er;
      [|discriminate].
    simpl in H.
    destruct (at_index (MissRatioCurve.ticks c) (i - 1)) as [lt|] eqn:Elt;
      [|discriminate].
    simpl in H. injection H as <-.
    apply at_index_lookup in El, Er, Elt.
    assert (Hlv : (0 < lv)%Q) by (apply Hp, list_elem_of_lookup; eauto).
    assert (Hrv : (0 < rv)%Q) by (apply Hp, list_elem_of_lookup; eauto).
    assert (Hlt : is_u64 lt) by (apply Hu, list_elem_of_lookup; eauto).
    assert (Hi : (0 < i)%nat).
    { destruct i as [|i]; [|lia]. rewrite Ef in Etk. injection Etk as <-. lia. }
    assert (Hl : lt < x).
    { apply (lower_bound_before (MissRatioCurve.ticks c) x (i - 1) lt);
        [fold i; lia | exact Elt]. }
    unfold is_u64 in *.
    rewrite !u64_small by (unfold is_u64; lia).
    destruct (interpolate_between lv rv (x - lt) (tk - x)) as [L _];
      try lia; [unfold is_u64; lia|].
    destruct (Q.min_spec lv rv) as [[_ M]|[_ M]]; rewrite M in L; lra.
Qed.

(** One [mrc.get_miss_ratio] of a tenant with a regular curve: the answer
    is positive, and only the memo of the curve changes. *)
Lemma miss_ratio_regular (a a' : Tenant.t) (x : Z) (mr : Q) :
  regular_curve (Tenant.mrc a) -> is_u64 x ->
  Tenant.miss_ratio a x = Ok (mr, a') ->
  (0 < mr)%Q
  /\ exists m, a' = Tenant.set_mrc a m /\ regular_curve m.
Proof.
  intros (Hs & Hu & Hp & Hc) Hx H.
  destruct (miss_ratio_consistent _ _ _ _ Hc H) as (Hv & m & -> & T & M & Hc').
  split.
  - apply (get_miss_ratio_const_positive (Tenant.mrc a) x); try assumption.
    destruct Hs as (S1 & S2 & _). split; assumption.
  - exists m. split; [reflexivity|].
    destruct Hs as (S1 & S2 & S3 & S4 & S5).
    unfold regular_curve, sane. rewrite T, M. done.
Qed.

Lemma regular_set_mrc (p : params.t) (a : Tenant.t) (m : MissRatioCurve.t) :
  regular p a -> regular_curve m -> regular p (Tenant.set_mrc a m).
Proof.
  intros (H1 & H2 & H3 & H4 & H5 & _ & H7) Hm.
  exact (conj H1 (conj H2 (conj H3 (conj H4 (conj H5 (conj Hm H7)))))).
Qed.

Lemma projected_demand_positive (p : params.t) (a : Tenant.t) (mr : Q) :
  regular p a -> (0 < mr)%Q ->
  forall k, (0 < amount k (Tenant.projected_demand p a mr))%Q.
Proof.
  intros (Hd & _ & A0 & A1 & _) Hm k.
  pose proof (Hd RCU) as D1. pose proof (Hd WCU) as D2.
  pose proof (Hd NET) as D3. simpl in D1, D2, D3.
  unfold Tenant.projected_demand.
  destruct k; simpl.
  - nra.
  - exact D2.
  - destruct (params.alloc_total_net_bw p); [|exact D3].
    set (al := Tenant.net_bw_alpha a) in *.
    assert (0 < mr + (1 - al) * (1 - mr))%Q; [|nra].
    assert (E : (mr + (1 - al) * (1 - mr) == (1 - al) + al * mr)%Q) by ring.
    rewrite E.
    destruct (Qlt_le_dec al 1) as [L|L]; [nra|].
    assert (al == 1)%Q by lra. nra.
Qed.

(** [collect_idle] keeps a tenant regular and takes nothing that the
    tenant does not have. *)
Lemma collect_idle_regular (p : params.t) (a a' : Tenant.t)
    (idle : StatelessResrcVec.t) :
  regular p a ->
  Tenant.collect_idle p a = Ok (idle, a') ->
  regular p a' /\ forall k, (0 <= amount k idle)%Q.
Proof.
  intros Hr H. unfold Tenant.collect_idle in H.
  destruct (Tenant.miss_ratio a (Tenant.cache_size a)) as [[mr b]|] eqn:E;
    [|discriminate].
  simpl in H. injection H as <- <-.
  pose proof Hr as (Hd & Hs & A0 & A1 & Hu & Hc & Hn).
  destruct (miss_ratio_regular _ _ _ _ Hc Hu E) as (Hm & m & -> & Hc').
  pose proof (projected_demand_positive p a mr Hr Hm) as Hpd.
  change (Tenant.projected_demand p (Tenant.set_mrc a m) mr)
    with (Tenant.projected_demand p a mr).
  change (Tenant.stateless (Tenant.set_mrc a m)) with (Tenant.stateless a).
  destruct (used_bounds _ _ Hpd Hs) as [Ub _].
  set (used := StatelessResrcVec.scale _ _) in *.
  split.
  - refine (conj Hd (conj _ (conj A0 (conj A1 (conj Hu (conj Hc' Hn)))))).
    intros k. apply Ub.
  - intros k. rewrite sub_amount. specialize (Ub k). lra.
Qed.

Lemma u64_is_u64 (x : Z) : is_u64 (u64 x).
Proof. unfold is_u64, u64. apply Z.mod_pos_bound. lia. Qed.

Lemma epilson_pos : (0 < params.epilson)%Q.
Proof. reflexivity. Qed.

(** The divisor of the offers of network bandwidth is positive. *)
Lemma net_divisor_positive (al mr : Q) :
  (0 <= al)%Q -> (al <= 1)%Q -> (0 < mr)%Q -> (0 < mr * al + 1 - al)%Q.
Proof.
  intros A0 A1 Hm.
  destruct (Qlt_le_dec al 1) as [L|L]; [nra|].
  assert (al == 1)%Q by lra. nra.
Qed.

Lemma regular_offers (p : params.t) (a b : Tenant.t) :
  regular p a ->
  Tenant.demand_cacheless b = Tenant.demand_cacheless a ->
  Tenant.resrc b = Tenant.resrc a ->
  Tenant.net_bw_alpha b = Tenant.net_bw_alpha a ->
  Tenant.mrc b = Tenant.mrc a ->
  no_net_offer p b ->
  regular p b.
Proof.
  intros (H1 & H2 & H3 & H4 & H5 & H6 & _) E1 E2 E3 E4 Hn.
  unfold regular, Tenant.stateless, Tenant.cache_size in *.
  rewrite E1, E2, E3, E4.
  exact (conj H1 (conj H2 (conj H3 (conj H4 (conj H5 (conj H6 Hn)))))).
Qed.

(** [pred_rcu_net_delta_if_more_cache] of a regular tenant: the tenant
    offers less than it holds. *)
Lemma pred_more_regular (p : params.t) (a a' : Tenant.t) (d : Z) :
  regular p a ->
  Tenant.pred_rcu_net_delta_if_more_cache p a d = Ok a' ->
  regular p a'
  /\ Tenant.resrc a' = Tenant.resrc a
  /\ (0 <= Tenant.rcu_delta_relinq a')%Q
  /\ (Tenant.rcu_delta_relinq a' < amount RCU (Tenant.stateless a))%Q
  /\ (0 <= Tenant.net_delta_relinq a')%Q
  /\ (Tenant.net_delta_relinq a' < amount NET (Tenant.stateless a))%Q.
Proof.
  intros Hr H. unfold Tenant.pred_rcu_net_delta_if_more_cache in H.
  pose proof Hr as (Hd & Hs & A0 & A1 & Hu & Hc & Hn).
  pose proof (Hs RCU) as S1. pose proof (Hs NET) as S3. simpl in S1, S3.
  destruct (Tenant.miss_ratio a (Tenant.cache_size a)) as [[curr b]|] eqn:E1;
    [|discriminate].
  cbn [mbind res_bind] in H. cbv beta iota in H.
  destruct (miss_ratio_regular _ _ _ _ Hc Hu E1) as (Hm1 & m1 & -> & Hc1).
  pose proof (regular_set_mrc p a m1 Hr Hc1) as Hr1.
  assert (Ab : forall b : Tenant.t,
             regular p b -> Tenant.resrc b = Tenant.resrc a ->
             regular p (Tenant.abort_relinq_offer p b)
             /\ Tenant.resrc (Tenant.abort_relinq_offer p b) = Tenant.resrc a
             /\ (0 <= Tenant.rcu_delta_relinq (Tenant.abort_relinq_offer p b))%Q
             /\ (Tenant.rcu_delta_relinq (Tenant.abort_relinq_offer p b)
                 < amount RCU (Tenant.stateless a))%Q
             /\ (0 <= Tenant.net_delta_relinq (Tenant.abort_relinq_offer p b))%Q
             /\ (Tenant.net_delta_relinq (Tenant.abort_relinq_offer p b)
                 < amount NET (Tenant.stateless a))%Q).
  { intros b Hb Eb. pose proof Hb as (_ & _ & _ & _ & _ & _ & Nb).
    unfold Tenant.abort_relinq_offer, no_net_offer in *.
    destruct (params.alloc_total_net_bw p) eqn:Ep.
    - split; [apply (regular_offers p b); try reflexivity; try assumption;
              unfold no_net_offer; rewrite Ep; intros X; discriminate X|].
      simpl. unfold params.relinq_abort_offer.
      repeat split; try exact Eb; try lra; apply Qle_refl.
    - destruct (Nb eq_refl) as [N1 N2].
      split; [apply (regular_offers p b); try reflexivity; try assumption;
              intros _; exact (conj N1 N2)|].
      simpl. rewrite N1. unfold params.relinq_abort_offer.
      repeat split; try exact Eb; try lra; apply Qle_refl. }
  destruct (Qleb curr params.epilson) eqn:Q1.
  { injection H as <-. apply Ab; [exact Hr1 | reflexivity]. }
  apply Qleb_gt in Q1.
  match type of H with
  | context [Tenant.miss_ratio ?t ?x] =>
      destruct (Tenant.miss_ratio t x) as [[pred b]|] eqn:E2; [|discriminate]
  end.
  cbn [mbind res_bind] in H. cbv beta iota in H.
  destruct (miss_ratio_regular (Tenant.set_mrc a m1) _ _ _ Hc1
              (u64_is_u64 _) E2)
    as (Hm2 & m2 & -> & Hc2).
  pose proof (regular_set_mrc p _ m2 Hr1 Hc2) as Hr2.
  destruct (Qltb pred params.min_miss_ratio).
  { injection H as <-. apply Ab; [exact Hr2 | reflexivity]. }
  destruct (Qleb (curr - pred) params.epilson) eqn:Q2.
  { injection H as <-. apply Ab; [exact Hr2 | reflexivity]. }
  apply Qleb_gt in Q2. pose proof epilson_pos as He.
  injection H as <-.
  set (b := Tenant.set_mrc (Tenant.set_mrc a m1) m2) in *.
  change (Tenant.stateless b) with (Tenant.stateless a).
  change (Tenant.net_bw_alpha b) with (Tenant.net_bw_alpha a).
  set (r1 := StatelessResrcVec.db_rcu (Tenant.stateless a)) in *.
  set (r3 := StatelessResrcVec.net_bw (Tenant.stateless a)) in *.
  set (al := Tenant.net_bw_alpha a) in *.
  assert (Lt : (pred < curr)%Q) by lra.
  assert (R1 : (0 <= r1 * (curr - pred) / curr)%Q).
  { apply Qle_shift_div_l; [lra|].
    assert (0 <= r1 * (curr - pred))%Q by (apply Qmult_le_0_compat; lra).
    lra. }
  assert (R2 : (r1 * (curr - pred) / curr < r1)%Q).
  { apply Qlt_shift_div_r; [lra|].
    assert (0 < r1 * pred)%Q by (apply Qmult_lt_0_compat; assumption).
    lra. }
  pose proof (net_divisor_positive al curr A0 A1 Hm1) as Dp.
  pose proof (net_divisor_positive al pred A0 A1 Hm2) as Dq.
  assert (R3 : (0 <= r3 * (curr - pred) * al / (curr * al + 1 - al))%Q).
  { apply Qle_shift_div_l; [exact Dp|].
    assert (0 <= r3 * (curr - pred))%Q by (apply Qmult_le_0_compat; lra).
    assert (0 <= r3 * (curr - pred) * al)%Q
      by (apply Qmult_le_0_compat; lra).
    lra. }
  assert (R4 : (r3 * (curr - pred) * al / (curr * al + 1 - al) < r3)%Q).
  { apply Qlt_shift_div_r; [exact Dp|].
    assert (0 < r3 * (pred * al + 1 - al))%Q
      by (apply Qmult_lt_0_compat; assumption).
    lra. }
  pose proof Hr2 as (_ & _ & _ & _ & _ & _ & Nb). unfold no_net_offer in Nb.
  destruct (params.alloc_total_net_bw p) eqn:Ep.
  - split; [apply (regular_offers p b); try reflexivity; try assumption;
            unfold no_net_offer; rewrite Ep; intros X; discriminate X|].
    simpl. repeat split; assumption.
  - destruct (Nb eq_refl) as [N1 N2].
    split; [apply (regular_offers p b); try reflexivity; try assumption;
            intros _; exact (conj N1 N2)|].
    simpl. change (Tenant.net_delta_relinq a) with (Tenant.net_delta_relinq b).
    rewrite N1. repeat split; try assumption; try lra; apply Qle_refl.
Qed.

(** [pred_rcu_net_delta_if_less_cache] of a regular tenant: the tenant
    asks nothing that is negative, and its offers stay. *)
Lemma pred_less_regular (p : params.t) (a a' : Tenant.t) (d : Z) :
  regular p a ->
  Tenant.pred_rcu_net_delta_if_less_cache p a d = Ok a' ->
  regular p a'
  /\ Tenant.resrc a' = Tenant.resrc a
  /\ (0 <= Tenant.rcu_delta_compen a')%Q
  /\ (0 <= Tenant.net_delta_compen a')%Q
  /\ Tenant.rcu_delta_relinq a' = Tenant.rcu_delta_relinq a
  /\ Tenant.net_delta_relinq a' = Tenant.net_delta_relinq a.
Proof.
  intros Hr H. unfold Tenant.pred_rcu_net_delta_if_less_cache in H.
  pose proof Hr as (Hd & Hs & A0 & A1 & Hu & Hc & Hn).
  pose proof (Hs RCU) as S1. pose proof (Hs NET) as S3. simpl in S1, S3.
  assert (Ab : forall (b : Tenant.t) (q : Q),
             (0 <= q)%Q ->
             regular p b -> Tenant.resrc b = Tenant.resrc a ->
             Tenant.rcu_delta_relinq b = Tenant.rcu_delta_relinq a ->
             Tenant.net_delta_relinq b = Tenant.net_delta_relinq a ->
             let b' :=
               if params.alloc_total_net_bw p
               then Tenant.set_net_delta_compen
                      (Tenant.set_rcu_delta_compen b q) q
               else Tenant.set_rcu_delta_compen b q in
             regular p b'
             /\ Tenant.resrc b' = Tenant.resrc a
             /\ (0 <= Tenant.rcu_delta_compen b')%Q
             /\ (0 <= Tenant.net_delta_compen b')%Q
             /\ Tenant.rcu_delta_relinq b' = Tenant.rcu_delta_relinq a
             /\ Tenant.net_delta_relinq b' = Tenant.net_delta_relinq a).
  { intros b q Hq Hb Eb R1 R2 b'. subst b'.
    pose proof Hb as (_ & _ & _ & _ & _ & _ & Nb). unfold no_net_offer in Nb.
    destruct (params.alloc_total_net_bw p) eqn:Ep.
    - split; [apply (regular_offers p b); try reflexivity; try assumption;
              unfold no_net_offer; rewrite Ep; intros X; discriminate X|].
      simpl. repeat split; assumption.
    - destruct (Nb eq_refl) as [N1 N2].
      split; [apply (regular_offers p b); try reflexivity; try assumption;
              intros _; exact (conj N1 N2)|].
      simpl. rewrite N2. repeat split; try assumption. apply Qle_refl. }
  assert (Ha : (0 <= params.compen_abort_offer)%Q) by discriminate.
  destruct (Tenant.cache_size a <? u64 (params.min_cache_size p + d)).
  { injection H as <-. apply (Ab a _ Ha Hr); reflexivity. }
  destruct (Tenant.miss_ratio a (Tenant.cache_size a)) as [[curr b]|] eqn:E1;
    [|discriminate].
  cbn [mbind res_bind] in H. cbv beta iota in H.
  destruct (miss_ratio_regular _ _ _ _ Hc Hu E1) as (Hm1 & m1 & -> & Hc1).
  pose proof (regular_set_mrc p a m1 Hr Hc1) as Hr1.
  match type of H with
  | context [Tenant.miss_ratio ?t ?x] =>
      destruct (Tenant.miss_ratio t x) as [[pred b]|] eqn:E2; [|discriminate]
  end.
  cbn [mbind res_bind] in H. cbv beta iota in H.
  destruct (miss_ratio_regular (Tenant.set_mrc a m1) _ _ _ Hc1
              (u64_is_u64 _) E2)
    as (Hm2 & m2 & -> & Hc2).
  pose proof (regular_set_mrc p _ m2 Hr1 Hc2) as Hr2.
  set (b := Tenant.set_mrc (Tenant.set_mrc a m1) m2) in *.
  destruct (Qltb params.max_miss_ratio pred).
  { injection H as <-. apply (Ab b _ Ha Hr2); reflexivity. }
  destruct (Qleb (pred - curr) params.epilson) eqn:Q2.
  { injection H as <-. apply (Ab b 0%Q (Qle_refl 0) Hr2); reflexivity. }
  destruct (Qleb pred params.epilson).
  { injection H as <-. apply (Ab b 0%Q (Qle_refl 0) Hr2); reflexivity. }
  destruct (Qleb curr params.epilson).
  { injection H as <-. apply (Ab b _ Ha Hr2); reflexivity. }
  apply Qleb_gt in Q2. pose proof epilson_pos as He.
  injection H as <-.
  change (Tenant.stateless b) with (Tenant.stateless a).
  change (Tenant.net_bw_alpha b) with (Tenant.net_bw_alpha a).
  set (r1 := StatelessResrcVec.db_rcu (Tenant.stateless a)) in *.
  set (r3 := StatelessResrcVec.net_bw (Tenant.stateless a)) in *.
  set (al := Tenant.net_bw_alpha a) in *.
  assert (Lt : (curr < pred)%Q) by lra.
  assert (R1 : (0 <= r1 * (pred - curr) / curr)%Q).
  { apply Qle_shift_div_l; [lra|].
    assert (0 <= r1 * (pred - curr))%Q by (apply Qmult_le_0_compat; lra).
    lra. }
  pose proof (net_divisor_positive al curr A0 A1 Hm1) as Dp.
  assert (R3 : (0 <= r3 * (pred - curr) * al / (curr * al + 1 - al))%Q).
  { apply Qle_shift_div_l; [exact Dp|].
    assert (0 <= r3 * (pred - curr))%Q by (apply Qmult_le_0_compat; lra).
    assert (0 <= r3 * (pred - curr) * al)%Q
      by (apply Qmult_le_0_compat; lra).
    lra. }
  destruct (params.alloc_total_net_bw p) eqn:Ep.
  - split; [apply (regular_offers p b); try reflexivity; try assumption;
            unfold no_net_offer; rewrite Ep; intros X; discriminate X|].
    simpl. repeat split; assumption.
  - pose proof Hr2 as (_ & _ & _ & _ & _ & _ & Nb). unfold no_net_offer in Nb.
    destruct (Nb Ep) as [N1 N2].
    split; [apply (regular_offers p b); try reflexivity; try assumption;
            intros _; split; [exact N1 | reflexivity]|].
    simpl. repeat split; try assumption. apply Qle_refl.
Qed.

(** [update_rcu_net_delta] of a regular tenant leaves a regular tenant
    with the same resources whose offers are in order. *)
Lemma update_rcu_net_delta_regular (p : params.t) (a a' : Tenant.t) :
  regular p a ->
  Tenant.update_rcu_net_delta p a = Ok a' ->
  regular p a' /\ offers_ok a' /\ Tenant.resrc a' = Tenant.resrc a.
Proof.
  intros Hr H. unfold Tenant.update_rcu_net_delta in H.
  destruct (Tenant.pred_rcu_net_delta_if_more_cache p a _) as [b|] eqn:E1;
    [|discriminate].
  simpl in H.
  destruct (pred_more_regular _ _ _ _ Hr E1) as (Hb & Eb & B1 & B2 & B3 & B4).
  destruct (pred_less_regular _ _ _ _ Hb H) as (Ha & Ea & C1 & C2 & C3 & C4).
  split; [exact Ha|]. split; [|congruence].
  unfold offers_ok, Tenant.stateless in *. rewrite C3, C4, Ea, Eb.
  repeat split; assumption.
Qed.

Lemma modify_ok (ts ts' : list Tenant.t) (i : nat)
    (g : Tenant.t -> Tenant.t) (a : Tenant.t) :
  ts !! i = Some a ->
  Tenant.modify ts i (fun a => Ok (g a)) = Ok ts' ->
  ts' !! i = Some (g a) /\ forall j, j <> i -> ts' !! j = ts !! j.
Proof.
  intros Ha H. apply modify_inv in H as (b & b' & Hb & Hg & ->).
  rewrite Ha in Hb. injection Hb as <-. injection Hg as <-.
  split.
  - apply list_lookup_insert_eq. apply lookup_lt_is_Some. eauto.
  - intros j Hj. apply list_lookup_insert_ne. congruence.
Qed.

Lemma regular_resrc (p : params.t) (a b : Tenant.t) :
  regular p a ->
  Tenant.demand_cacheless b = Tenant.demand_cacheless a ->
  Tenant.net_bw_alpha b = Tenant.net_bw_alpha a ->
  Tenant.mrc b = Tenant.mrc a ->
  Tenant.net_delta_relinq b = Tenant.net_delta_relinq a ->
  Tenant.net_delta_compen b = Tenant.net_delta_compen a ->
  is_u64 (Tenant.cache_size b) ->
  (forall k, (0 < amount k (Tenant.stateless b))%Q) ->
  regular p b.
Proof.
  intros (H1 & H2 & H3 & H4 & H5 & H6 & H7) E1 E3 E4 N1 N2 Hu Hs.
  unfold regular, no_net_offer in *. rewrite E1, E3, E4, N1, N2.
  exact (conj H1 (conj Hs (conj H3 (conj H4 (conj Hu (conj H6 H7)))))).
Qed.

(** A deal between two regular tenants whose offers are in order leaves
    every tenant regular, and the other tenants as they are. *)
Lemma relocate_resrc_regular (p : params.t) (ts ts' : list Tenant.t)
    (r c : nat) (xr xc : Tenant.t) :
  r <> c -> ts !! r = Some xr -> ts !! c = Some xc ->
  Forall (regular p) ts -> offers_ok xr -> offers_ok xc ->
  Tenant.relocate_resrc p ts r c
    (Tenant.rcu_delta_relinq xr) (Tenant.rcu_delta_compen xc)
    (Tenant.net_delta_relinq xr) (Tenant.net_delta_compen xc) = Ok ts' ->
  Forall (regular p) ts'
  /\ forall j, j <> r -> j <> c -> ts' !! j = ts !! j.
Proof.
  intros Hne Hr Hc F Or Oc H.
  pose proof (Forall_lookup_1 _ _ _ _ F Hr) as Rr.
  pose proof (Forall_lookup_1 _ _ _ _ F Hc) as Rc.
  destruct Or as (O1 & O2 & _ & O4 & O5 & _).
  destruct Oc as (_ & _ & O3 & _ & _ & O6).
  unfold Tenant.relocate_resrc in H.
  match type of H with
  | (Tenant.modify _ _ (fun a => Ok (@?g a)) ≫= _) = _ =>
      destruct (Tenant.modify ts c (fun a => Ok (g a))) as [t1|] eqn:E1;
      [|discriminate]; cbn [mbind res_bind] in H;
      destruct (modify_ok _ _ _ g _ Hc E1) as [C1 K1]
  end.
  assert (R1 : t1 !! r = Some xr) by (rewrite K1 by exact Hne; exact Hr).
  match type of H with
  | (Tenant.modify _ _ (fun a => Ok (@?g a)) ≫= _) = _ =>
      destruct (Tenant.modify t1 r (fun a => Ok (g a))) as [t2|] eqn:E2;
      [|discriminate]; cbn [mbind res_bind] in H;
      destruct (modify_ok _ _ _ g _ R1 E2) as [R2 K2]
  end.
  assert (C2 : t2 !! c = _) by (rewrite K2 by congruence; exact C1).
  match type of H with
  | (Tenant.modify _ _ ?f ≫= _) = _ =>
      destruct (Tenant.modify t2 c f) as [t3|] eqn:E3;
      [|discriminate]; cbn [mbind res_bind] in H;
      destruct (modify_ok _ _ _
                  (fun a =>
                     Tenant.set_stateless a
                       (StatelessResrcVec.mk
                          (StatelessResrcVec.db_rcu (Tenant.stateless a)
                           + Tenant.rcu_delta_compen xc)
                          (StatelessResrcVec.db_wcu (Tenant.stateless a))
                          (StatelessResrcVec.net_bw (Tenant.stateless a))))
                  _ C2 E3) as [C3 K3]
  end.
  assert (R3 : t3 !! r = _) by (rewrite K3 by exact Hne; exact R2).
  match type of H with
  | (Tenant.modify _ _ ?f ≫= _) = _ =>
      destruct (Tenant.modify t3 r f) as [t4|] eqn:E4;
      [|discriminate]; cbn [mbind res_bind] in H;
      destruct (modify_ok _ _ _
                  (fun a =>
                     Tenant.set_stateless a
                       (StatelessResrcVec.mk
                          (StatelessResrcVec.db_rcu (Tenant.stateless a)
                           - Tenant.rcu_delta_relinq xr)
                          (StatelessResrcVec.db_wcu (Tenant.stateless a))
                          (StatelessResrcVec.net_bw (Tenant.stateless a))))
                  _ R3 E4) as [R4 K4]
  end.
  assert (C4 : t4 !! c = _) by (rewrite K4 by congruence; exact C3).
  pose proof Rr as (_ & Sr & _ & _ & Ur & _).
  pose proof Rc as (_ & Sc & _ & _ & Uc & _).
  pose proof (Sr RCU) as Sr1. pose proof (Sr WCU) as Sr2.
  pose proof (Sr NET) as Sr3. pose proof (Sc RCU) as Sc1.
  pose proof (Sc WCU) as Sc2. pose proof (Sc NET) as Sc3.
  simpl in Sr1, Sr2, Sr3, Sc1, Sc2, Sc3, O2, O5.
  destruct (params.alloc_total_net_bw p) eqn:Ep.
  - match type of H with
    | (Tenant.modify _ _ ?f ≫= _) = _ =>
        destruct (Tenant.modify t4 c f) as [t5|] eqn:E5;
        [|discriminate]; cbn [mbind res_bind] in H;
        destruct (modify_ok _ _ _
                    (fun a =>
                       Tenant.set_stateless a
                         (StatelessResrcVec.mk
                            (StatelessResrcVec.db_rcu (Tenant.stateless a))
                            (StatelessResrcVec.db_wcu (Tenant.stateless a))
                            (StatelessResrcVec.net_bw (Tenant.stateless a)
                             + Tenant.net_delta_compen xc)))
                    _ C4 E5) as [C5 K5]
    end.
    assert (R5 : t5 !! r = _) by (rewrite K5 by exact Hne; exact R4).
    destruct (modify_ok _ _ _
                (fun a =>
                   Tenant.set_stateless a
                     (StatelessResrcVec.mk
                        (StatelessResrcVec.db_rcu (Tenant.stateless a))
                        (StatelessResrcVec.db_wcu (Tenant.stateless a))
                        (StatelessResrcVec.net_bw (Tenant.stateless a)
                         - Tenant.net_delta_relinq xr)))
                _ R5 H) as [R6 K6].
    assert (C6 : ts' !! c = _) by (rewrite K6 by congruence; exact C5).
    split.
    + apply Forall_lookup_2. intros j x Hx.
      destruct (decide (j = r)) as [->|Nr].
      { rewrite R6 in Hx. injection Hx as <-.
        apply (regular_resrc p xr); try reflexivity; try exact Rr.
        - apply u64_is_u64.
        - intros k. unfold Tenant.stateless in *.
          destruct k; simpl; lra. }
      destruct (decide (j = c)) as [->|Nc].
      { rewrite C6 in Hx. injection Hx as <-.
        apply (regular_resrc p xc); try reflexivity; try exact Rc.
        - apply u64_is_u64.
        - intros k. unfold Tenant.stateless in *.
          destruct k; simpl; lra. }
      rewrite K6, K5, K4, K3, K2, K1 in Hx by assumption.
      apply (Forall_lookup_1 _ _ _ _ F Hx).
    + intros j Nr Nc. rewrite K6, K5, K4, K3, K2, K1 by assumption.
      reflexivity.
  - injection H as <-.
    split.
    + apply Forall_lookup_2. intros j x Hx.
      destruct (decide (j = r)) as [->|Nr].
      { rewrite R4 in Hx. injection Hx as <-.
        apply (regular_resrc p xr); try reflexivity; try exact Rr.
        - apply u64_is_u64.
        - intros k. unfold Tenant.stateless in *.
          destruct k; simpl; lra. }
      destruct (decide (j = c)) as [->|Nc].
      { rewrite C4 in Hx. injection Hx as <-.
        apply (regular_resrc p xc); try reflexivity; try exact Rc.
        - apply u64_is_u64.
        - intros k. unfold Tenant.stateless in *.
          destruct k; simpl; lra. }
      rewrite K4, K3, K2, K1 in Hx by assumption.
      apply (Forall_lookup_1 _ _ _ _ F Hx).
    + intros j Nr Nc. rewrite K4, K3, K2, K1 by assumption. reflexivity.
Qed.

(** The two parties of a deal are different tenants, and the list of
    compensators goes on naming no tenant twice. *)
Lemma pick_deal_parties (ts : list Tenant.t)
    (relinq_list compen_list l : list nat)
    (less_relinq less_compen : Tenant.t -> Tenant.t -> bool)
    (t_relinq t_compen : nat) :
  NoDup compen_list ->
  Allocator.pick_deal ts relinq_list compen_list less_relinq less_compen
  = Ok (t_relinq, t_compen, l) ->
  t_relinq <> t_compen /\ NoDup l /\ length l = length compen_list.
Proof.
  intros Hn H. unfold Allocator.pick_deal in H.
  destruct (Allocator.deref ts relinq_list) as [rs|]; [|discriminate].
  simpl in H.
  destruct (Allocator.deref ts compen_list) as [cs|]; [|discriminate].
  simpl in H.
  destruct (at_index relinq_list _) as [r|]; [|discriminate]. simpl in H.
  destruct (at_index compen_list (min_element less_compen cs)) as [c|] eqn:Ec;
    [|discriminate].
  simpl in H.
  destruct (r =? c)%nat eqn:E.
  - apply Nat.eqb_eq in E. subst c.
    destruct (iter_swap compen_list _ O) as [l'|] eqn:Es; [|discriminate].
    simpl in H.
    destruct (Allocator.deref ts l') as [cs'|]; [|discriminate]. simpl in H.
    destruct (at_index l' _) as [c'|] eqn:Ec'; [|discriminate]. simpl in H.
    injection H as <- <- <-.
    pose proof (iter_swap_NoDup _ _ _ _ Es Hn) as Hn'.
    apply iter_swap_lookup in Es as [L K].
    apply at_index_lookup in Ec, Ec'.
    split; [|split; assumption].
    intros ->.
    assert (H0 : l' !! O = Some c').
    { rewrite K. destruct (0 =? min_element less_compen cs)%nat eqn:E0.
      - apply Nat.eqb_eq in E0. rewrite <- E0 in Ec. exact Ec.
      - simpl. exact Ec. }
    pose proof (proj1 (NoDup_alt l') Hn' _ _ _ H0 Ec'). lia.
  - injection H as <- <- <-. apply Nat.eqb_neq in E. done.
Qed.

(** A round of the trading loop that makes a deal. *)
Lemma harvest_round_deal (p : params.t) (a a' : Allocator.t)
    (h h' : Allocator.harvest) :
  Allocator.harvest_round p a h = Ok (Some (a', h')) ->
  NoDup (Allocator.rcu_compen_list h) ->
  NoDup (Allocator.net_compen_list h) ->
  exists r c xr xc ts1 ts2,
    r <> c
    /\ Allocator.tenants a !! r = Some xr
    /\ Allocator.tenants a !! c = Some xc
    /\ Tenant.relocate_resrc p (Allocator.tenants a) r c
         (Tenant.rcu_delta_relinq xr) (Tenant.rcu_delta_compen xc)
         (Tenant.net_delta_relinq xr) (Tenant.net_delta_compen xc) = Ok ts1
    /\ Tenant.modify ts1 r (Tenant.update_rcu_net_delta p) = Ok ts2
    /\ Tenant.modify ts2 c (Tenant.update_rcu_net_delta p)
       = Ok (Allocator.tenants a')
    /\ Allocator.prev_estimated_improve_ratio h'
       = StatelessResrcVec.ratio (Allocator.resrc_avail h')
           (StatelessResrcVec.sub
              (ResrcVec.stateless (Allocator.total_resrc a))
              (Allocator.resrc_avail h'))
    /\ (Allocator.prev_estimated_improve_ratio h
        + params.min_improve_ratio_delta
        <= Allocator.prev_estimated_improve_ratio h')%Q
    /\ NoDup (Allocator.rcu_compen_list h')
    /\ NoDup (Allocator.net_compen_list h').
Proof.
  unfold Allocator.harvest_round. intros H N1 N2.
  match type of H with
  | (?e ≫= _) = _ => destruct e as [deal|] eqn:Ed; [|discriminate]
  end.
  simpl in H.
  destruct deal as [[[[r c] l1] l2]|]; [|discriminate].
  assert (D : r <> c /\ NoDup l1 /\ NoDup l2).
  { destruct (Allocator.is_rcu_bottleneck h).
    - destruct (Allocator.pick_deal _ _ _ _ _) as [[[r0 c0] l0]|] eqn:Ep;
        [|discriminate].
      simpl in Ed. injection Ed as -> -> -> <-.
      apply (pick_deal_parties _ _ _ _ _ _ _ _ N1) in Ep as (X1 & X2 & _).
      done.
    - destruct (params.alloc_total_net_bw p && Allocator.is_net_bottleneck h);
        [|discriminate].
      destruct (Allocator.pick_deal _ _ _ _ _) as [[[r0 c0] l0]|] eqn:Ep;
        [|discriminate].
      simpl in Ed. injection Ed as -> -> <- ->.
      apply (pick_deal_parties _ _ _ _ _ _ _ _ N2) in Ep as (X1 & X2 & _).
      done. }
  clear Ed. destruct D as (D1 & D2 & D3).
  destruct (at_index (Allocator.tenants a) r) as [xr|] eqn:Er; [|discriminate].
  simpl in H.
  destruct (at_index (Allocator.tenants a) c) as [xc|] eqn:Ec; [|discriminate].
  simpl in H.
  match type of H with
  | context [Qltb ?x ?y] => destruct (Qltb x y) eqn:Eq; [discriminate|]
  end.
  apply Qltb_ge in Eq.
  match type of H with
  | (?e ≫= _) = _ => destruct e as [ts1|] eqn:E1; [|discriminate]
  end.
  simpl in H.
  match type of H with
  | (?e ≫= _) = _ => destruct e as [ts2|] eqn:E2; [|discriminate]
  end.
  simpl in H.
  match type of H with
  | (?e ≫= _) = _ => destruct e as [ts3|] eqn:E3; [|discriminate]
  end.
  simpl in H. injection H as <- <-. simpl.
  apply at_index_lookup in Er, Ec.
  exists r, c, xr, xc, ts1, ts2. repeat split; try assumption. lra.
Qed.

Lemma total_of_positive (k : resource) (ts : list Tenant.t) :
  ts <> [] ->
  Forall (fun x => forall j, (0 < amount j (Tenant.stateless x))%Q) ts ->
  (0 < total_of k ts)%Q.
Proof.
  intros Hne F. induction F as [|x ts Hx F IH]; [done|].
  simpl. specialize (Hx k). destruct ts as [|y ts].
  - simpl. lra.
  - assert (0 < total_of k (y :: ts))%Q by (apply IH; done). lra.
Qed.

Lemma regular_positive (p : params.t) (ts : list Tenant.t) :
  Forall (regular p) ts ->
  Forall (fun x => forall j, (0 < amount j (Tenant.stateless x))%Q) ts.
Proof.
  intros F. eapply Forall_impl; [exact F|]. intros x (_ & H & _). exact H.
Qed.

(** A deal keeps the state of the trading loop regular. *)
Lemma harvest_round_regular (p : params.t) (a a' : Allocator.t)
    (h h' : Allocator.harvest) :
  Allocator.harvest_round p a h = Ok (Some (a', h')) ->
  harvest_regular p a h ->
  harvest_regular p a' h'.
Proof.
  intros H (Hc & F & Ha & Hp & N1 & N2).
  destruct (harvest_round_conserves _ _ _ _ _ H Hc) as (Hc' & Sa & _).
  destruct (harvest_round_deal _ _ _ _ _ H N1 N2)
    as (r & c & xr & xc & ts1 & ts2 & Hne & Hr & Hx & E1 & E2 & E3 & P1 & P2
        & N1' & N2').
  assert (Fr : Forall (regular p) (Allocator.tenants a))
    by (eapply Forall_impl; [exact F|]; intros x [X _]; exact X).
  pose proof (Forall_lookup_1 _ _ _ _ F Hr) as [_ Or].
  pose proof (Forall_lookup_1 _ _ _ _ F Hx) as [_ Oc].
  destruct (relocate_resrc_regular _ _ _ _ _ _ _ Hne Hr Hx Fr Or Oc E1)
    as [F1 K1].
  apply modify_inv in E2 as (y & y' & Hy & Uy & ->).
  pose proof (Forall_lookup_1 _ _ _ _ F1 Hy) as Ry.
  destruct (update_rcu_net_delta_regular _ _ _ Ry Uy) as (Ry' & Oy' & _).
  apply modify_inv in E3 as (z & z' & Hz & Uz & E3).
  assert (Hz1 : ts1 !! c = Some z).
  { rewrite list_lookup_insert_ne in Hz by exact Hne. exact Hz. }
  pose proof (Forall_lookup_1 _ _ _ _ F1 Hz1) as Rz.
  destruct (update_rcu_net_delta_regular _ _ _ Rz Uz) as (Rz' & Oz' & _).
  assert (Lr : (r < length ts1)%nat) by (apply lookup_lt_is_Some; eauto).
  assert (Lc : (c < length (<[r:=y']> ts1))%nat)
    by (apply lookup_lt_is_Some; eauto).
  assert (F3 : Forall (fun x => regular p x /\ offers_ok x)
                 (Allocator.tenants a')).
  { rewrite E3. apply Forall_lookup_2. intros j x Hj.
    destruct (decide (j = c)) as [->|Nc].
    { rewrite list_lookup_insert_eq in Hj by exact Lc.
      injection Hj as <-. done. }
    rewrite list_lookup_insert_ne in Hj by congruence.
    destruct (decide (j = r)) as [->|Nr].
    { rewrite list_lookup_insert_eq in Hj by exact Lr.
      injection Hj as <-. done. }
    rewrite list_lookup_insert_ne in Hj by congruence.
    rewrite K1 in Hj by assumption.
    apply (Forall_lookup_1 _ _ _ _ F Hj). }
  assert (T : forall k, (0 < total_of k (Allocator.tenants a'))%Q).
  { intros k. apply total_of_positive.
    - rewrite E3. intros E. apply (f_equal length) in E.
      rewrite length_insert in E. simpl in E. lia.
    - eapply Forall_impl; [exact F3|]. intros x [(_ & X & _) _]. exact X. }
  assert (P0 : (0 < Allocator.prev_estimated_improve_ratio h')%Q).
  { unfold params.min_improve_ratio_delta in P2. lra. }
  split; [exact Hc'|]. split; [exact F3|].
  split; [|split; [lra | split; assumption]].
  intros k. destruct Hc' as [Hc' _]. specialize (Hc' k).
  rewrite P1, ratio_amount in P0.
  destruct (min3_resource
              (fun k =>
                 (amount k (Allocator.resrc_avail h')
                  / amount k
                      (StatelessResrcVec.sub
                         (ResrcVec.stateless (Allocator.total_resrc a))
                         (Allocator.resrc_avail h')))%Q))
    as [_ M].
  specialize (M k). simpl in M.
  set (m := StatelessResrcVec.min3 _ _ _) in *.
  rewrite sub_amount in M.
  destruct Sa as (_ & _ & _ & St & _). rewrite St in Hc'.
  specialize (T k).
  set (v := amount k (Allocator.resrc_avail h')) in *.
  set (tot := amount k (ResrcVec.stateless (Allocator.total_resrc a))) in *.
  assert (D : (0 < tot - v)%Q) by lra.
  assert (Q0 : (0 < v / (tot - v))%Q) by lra.
  assert (E : (v == v / (tot - v) * (tot - v))%Q) by (field; lra).
  assert (0 < v / (tot - v) * (tot - v))%Q
    by (apply Qmult_lt_0_compat; assumption).
  lra.
Qed.

Lemma harvest_loop_regular (p : params.t) (n : nat) :
  forall (a a' : Allocator.t) (h h' : Allocator.harvest),
    Allocator.harvest_loop p n a h = Ok (a', h') ->
    harvest_regular p a h ->
    harvest_regular p a' h'.
Proof.
  induction n as [|n IH]; intros a a' h h' H Hr; simpl in H.
  - injection H as <- <-. exact Hr.
  - destruct (Allocator.harvest_round p a h) as [[[a1 h1]|]|] eqn:E;
      [| |discriminate]; simpl in H.
    + apply (IH _ _ _ _ H). apply (harvest_round_regular _ _ _ _ _ E Hr).
    + injection H as <- <-. exact Hr.
Qed.

Lemma total_of_nonneg (k : resource) (ts : list Tenant.t) :
  Forall (fun x => forall j, (0 < amount j (Tenant.stateless x))%Q) ts ->
  (0 <= total_of k ts)%Q.
Proof.
  intros F. induction F as [|x ts Hx F IH]; simpl; [apply Qle_refl|].
  specialize (Hx k). fold (total_of k ts). lra.
Qed.

(** The ratio of resources that are not negative to resources that are
    not negative is not negative. *)
Lemma ratio_nonneg (a b : StatelessResrcVec.t) :
  (forall k, (0 <= amount k a)%Q) -> (forall k, (0 <= amount k b)%Q) ->
  (0 <= StatelessResrcVec.ratio a b)%Q.
Proof.
  intros Ha Hb. rewrite ratio_amount.
  destruct (min3_resource (fun k => (amount k a / amount k b)%Q))
    as [[j Hj] _].
  cbv beta in Hj. rewrite Hj. specialize (Ha j). specialize (Hb j).
  destruct (Qeq_dec (amount j b) 0) as [E|N].
  - destruct (amount j b) as [bn bd]. unfold Qeq in E. simpl in E.
    rewrite Z.mul_1_r in E. subst bn.
    unfold Qdiv, Qinv. simpl. rewrite Qmult_0_r. apply Qle_refl.
  - apply Qle_shift_div_l; lra.
Qed.

Lemma update_all_regular (p : params.t) (ts ts' : list Tenant.t) :
  Allocator.update_all (Tenant.update_rcu_net_delta p) ts = Ok ts' ->
  Forall (regular p) ts ->
  Forall (fun x => regular p x /\ offers_ok x) ts'
  /\ Forall2 (fun x x' => Tenant.stateless x' = Tenant.stateless x) ts ts'.
Proof.
  revert ts'. induction ts as [|x ts IH]; intros ts' H F; simpl in H.
  - injection H as <-. split; constructor.
  - destruct (Tenant.update_rcu_net_delta p x) as [x'|] eqn:Ex; [|discriminate].
    simpl in H.
    destruct (Allocator.update_all _ ts) as [ts1|] eqn:E; [|discriminate].
    simpl in H. injection H as <-.
    apply Forall_cons in F as [Hx F].
    destruct (IH _ eq_refl F) as [F1 F2].
    destruct (update_rcu_net_delta_regular _ _ _ Hx Ex) as (R & O & Er).
    split; constructor; try assumption; [done|].
    unfold Tenant.stateless. rewrite Er. reflexivity.
Qed.

(** [do_harvest] of regular tenants leaves the state of its loop
    regular. *)
Lemma do_harvest_regular (p : params.t) (a a' : Allocator.t)
    (avail : StatelessResrcVec.t) (h' : Allocator.harvest) :
  Allocator.do_harvest p a avail = Ok (a', h') ->
  conserved p a avail ->
  Forall (regular p) (Allocator.tenants a) ->
  (forall k, (0 <= amount k avail)%Q) ->
  harvest_regular p a' h'.
Proof.
  unfold Allocator.do_harvest. intros H [Hc Hn] F Ha.
  destruct (Allocator.estimate_bottleneck a avail) as [[prev is_rcu] is_net]
    eqn:Ee.
  destruct (Allocator.update_all _ _) as [ts|] eqn:E; [|discriminate].
  cbv beta iota delta [mbind res_bind] in H.
  destruct (update_all_regular _ _ _ E F) as [F1 F2].
  apply (harvest_loop_regular _ _ _ _ _ _ H).
  assert (T : forall k,
             (total_of k ts + amount k avail
              == amount k (ResrcVec.stateless (Allocator.total_resrc a)))%Q).
  { intros k. rewrite (total_of_pointwise k _ _ F2). apply Hc. }
  split; [|split; [exact F1|split; [exact Ha|split; [|split]]]].
  - split; [exact T|]. eapply Forall_impl; [exact F1|].
    intros x [(_ & _ & _ & _ & _ & _ & X) _]. exact X.
  - simpl. unfold Allocator.estimate_bottleneck in Ee.
    injection Ee as <- _ _. apply ratio_nonneg; [exact Ha|].
    intros k. rewrite sub_amount. specialize (T k).
    assert (0 <= total_of k ts)%Q; [|lra].
    apply total_of_nonneg. eapply Forall_impl; [exact F1|].
    intros x [(_ & X & _) _]. exact X.
  - simpl. apply NoDup_seq.
  - simpl. destruct (params.alloc_total_net_bw p);
      [apply NoDup_seq | apply NoDup_nil_2].
Qed.

Lemma collect_idle_all_regular (p : params.t) (ts : list Tenant.t) :
  forall (ts' : list Tenant.t) (avail0 avail : StatelessResrcVec.t),
    Allocator.collect_idle_all p ts avail0 = Ok (ts', avail) ->
    Forall (regular p) ts ->
    (forall k, (0 <= amount k avail0)%Q) ->
    Forall (regular p) ts' /\ forall k, (0 <= amount k avail)%Q.
Proof.
  induction ts as [|x ts IH]; intros ts' avail0 avail H F H0; simpl in H.
  - injection H as <- <-. split; [constructor | exact H0].
  - destruct (Tenant.collect_idle p x) as [[idle x']|] eqn:Ex; [|discriminate].
    simpl in H.
    destruct (Allocator.collect_idle_all p ts _) as [[rest av]|] eqn:E;
      [|discriminate].
    simpl in H. injection H as <- <-.
    apply Forall_cons in F as [Hx F].
    destruct (collect_idle_regular _ _ _ _ Hx Ex) as [Rx Ix].
    destruct (IH _ _ _ E F) as [F1 A1].
    + intros k. specialize (H0 k). specialize (Ix k).
      destruct k; simpl in *; lra.
    + split; [constructor; assumption | exact A1].
Qed.

Lemma update_mr_delta_regular (p : params.t) (a a' : Tenant.t) :
  regular p a -> Tenant.update_mr_delta p a = Ok a' -> regular p a'.
Proof.
  intros Hr H. unfold Tenant.update_mr_delta in H.
  pose proof Hr as (_ & _ & _ & _ & Hu & Hc & _).
  destruct (Tenant.miss_ratio a (Tenant.cache_size a)) as [[v1 b]|] eqn:E1;
    [|discriminate].
  cbn [mbind res_bind] in H. cbv beta iota in H.
  destruct (miss_ratio_regular _ _ _ _ Hc Hu E1) as (_ & m1 & -> & Hc1).
  pose proof (regular_set_mrc p a m1 Hr Hc1) as Hr1.
  match type of H with
  | context [Tenant.miss_ratio ?t ?x] =>
      destruct (Tenant.miss_ratio t x) as [[v2 b]|] eqn:E2; [|discriminate]
  end.
  cbn [mbind res_bind] in H. cbv beta iota in H.
  destruct (miss_ratio_regular (Tenant.set_mrc a m1) _ _ _ Hc1
              (u64_is_u64 _) E2) as (_ & m2 & -> & Hc2).
  pose proof (regular_set_mrc p _ m2 Hr1 Hc2) as Hr2.
  match type of H with
  | context [Tenant.miss_ratio ?t ?x] =>
      destruct (Tenant.miss_ratio t x) as [[v3 b]|] eqn:E3; [|discriminate]
  end.
  cbn [mbind res_bind] in H. cbv beta iota in H.
  destruct (miss_ratio_regular (Tenant.set_mrc (Tenant.set_mrc a m1) m2)
              _ _ _ Hc2 (u64_is_u64 _) E3) as (_ & m3 & -> & Hc3).
  pose proof (regular_set_mrc p _ m3 Hr2 Hc3) as Hr3.
  injection H as <-.
  apply (regular_offers p _ _ Hr3); try reflexivity.
  destruct Hr3 as (_ & _ & _ & _ & _ & _ & X). exact X.
Qed.

Lemma relocate_cache_regular (p : params.t) (ts ts' : list Tenant.t)
    (r d : nat) :
  Tenant.relocate_cache p ts r d = Ok ts' ->
  Forall (regular p) ts -> Forall (regular p) ts'.
Proof.
  unfold Tenant.relocate_cache. intros H F.
  destruct (Tenant.modify ts r _) as [ts1|] eqn:E1; [|discriminate].
  simpl in H.
  assert (G : forall (c : Z) (x x' : Tenant.t),
             Ok (Tenant.set_cache_size x (u64 c)) = Ok x' ->
             regular p x -> regular p x').
  { intros c x x' E Hx. injection E as <-.
    apply (regular_resrc p x); try reflexivity; try exact Hx.
    - apply u64_is_u64.
    - destruct Hx as (_ & X & _). exact X. }
  apply (modify_forall _ _ _ _ _ H); [|intros x x'; apply G].
  apply (modify_forall _ _ _ _ _ E1 F). intros x x'. apply G.
Qed.

Lemma memshare_loop_regular (p : params.t) (fuel : nat) :
  forall (a a' : Allocator.t) (l1 l2 : list nat) (n n' : nat),
    Allocator.memshare_loop p fuel a l1 l2 n = Ok (a', n') ->
    Forall (regular p) (Allocator.tenants a) ->
    Forall (regular p) (Allocator.tenants a').
Proof.
  induction fuel as [|fuel IH]; intros a a' l1 l2 n n' H F; simpl in H;
    [discriminate|].
  destruct (Allocator.memshare_round p a l1 l2) as [[[a1 l2'] again]|] eqn:E;
    [|discriminate].
  simpl in H. apply memshare_round_inv in E as (ts1 & Eu & _ & Hr).
  assert (F1 : Forall (regular p) ts1).
  { apply (update_all_forall _ _ _ _ Eu F). intros x x' Hx Rx.
    apply (update_mr_delta_regular _ _ _ Rx Hx). }
  assert (F2 : Forall (regular p) (Allocator.tenants a1)).
  { destruct Hr as [[_ ->] | (_ & r & d & x & _ & _ & _ & Hc)]; [exact F1|].
    apply (relocate_cache_regular _ _ _ _ _ Hc F1). }
  destruct again.
  - apply (IH _ _ _ _ _ _ H F2).
  - injection H as <- _. exact F2.
Qed.

(** The conserving redistribution of resources that are not negative
    keeps regular tenants regular. *)
Lemma do_redistribute_regular (p : params.t) (a a' : Allocator.t)
    (avail avail' : StatelessResrcVec.t) (r : Q) :
  Allocator.policy_conserving a = true ->
  conserved p a avail ->
  Forall (regular p) (Allocator.tenants a) ->
  Allocator.tenants a <> [] ->
  (forall k, (0 <= amount k avail)%Q) ->
  Allocator.do_redistribute a avail = (r, a', avail') ->
  Forall (regular p) (Allocator.tenants a').
Proof.
  intros Hp [Hc _] F Hne Ha H. unfold Allocator.do_redistribute in H.
  rewrite Hp in H. injection H as _ <- _. simpl.
  set (sum := StatelessResrcVec.sub _ avail).
  assert (Hs : forall k, (0 < amount k sum)%Q).
  { intros k. unfold sum. rewrite sub_amount. specialize (Hc k).
    pose proof (total_of_positive k _ Hne (regular_positive p _ F)). lra. }
  apply Forall_fmap. eapply Forall_impl; [exact F|].
  intros x Hx. simpl.
  apply (regular_resrc p x); try reflexivity; try exact Hx.
  - destruct Hx as (_ & _ & _ & _ & X & _). exact X.
  - intros k. rewrite scale_by_owned_amount.
    destruct Hx as (_ & X & _). specialize (X k). specialize (Hs k).
    specialize (Ha k).
    destruct (Qeqb (amount k sum) 0) eqn:E.
    { apply Qeqb_eq in E. lra. }
    simpl.
    assert (0 < amount k (Tenant.stateless x) / amount k sum)%Q
      by (apply Qlt_shift_div_l; lra).
    assert (0 <= amount k avail
                 * (amount k (Tenant.stateless x) / amount k sum))%Q
      by (apply Qmult_le_0_compat; lra).
    lra.
Qed.

(** [do_alloc] in conserving mode keeps regular tenants regular. *)
Lemma do_alloc_traced_regular (p : params.t) (fuel : nat)
    (a a' : Allocator.t) (r : Q) (m h : nat) :
  conserved p a StatelessResrcVec.zero ->
  Allocator.policy_conserving a = true ->
  Forall (regular p) (Allocator.tenants a) ->
  Allocator.do_alloc_traced p fuel a = Ok (r, a', m, h) ->
  Forall (regular p) (Allocator.tenants a').
Proof.
  intros Hc Hp F H. unfold Allocator.do_alloc_traced in H.
  destruct (length (Allocator.tenants a) <=? 1)%nat eqn:El.
  { injection H as _ <- _ _. exact F. }
  apply Nat.leb_gt in El.
  match type of H with
  | (?e ≫= _) = _ => destruct e as [[a1 m1]|] eqn:E1; [|discriminate]
  end.
  cbv beta iota delta [mbind res_bind] in H.
  assert (C1 : conserved p a1 StatelessResrcVec.zero /\ same_allocator a a1
               /\ Forall (regular p) (Allocator.tenants a1)).
  { destruct (Allocator.policy_memshare a).
    - unfold Allocator.do_memshare in E1.
      destruct (memshare_loop_conserves _ _ _ _ _ _ _ _ _ E1 Hc) as [C S].
      split; [exact C|]. split; [exact S|].
      apply (memshare_loop_regular _ _ _ _ _ _ _ _ E1 F).
    - injection E1 as <- <-. split; [exact Hc|].
      split; [apply same_allocator_refl | exact F]. }
  destruct C1 as (C1 & S1 & F1). clear E1.
  destruct (Allocator.collect_idle_all p _ _) as [[ts2 avail2]|] eqn:E2;
    [|discriminate].
  destruct (collect_idle_all_regular _ _ _ _ _ E2 F1) as [F2 A2].
  { intros k. destruct k; apply Qle_refl. }
  apply collect_idle_all_conserves in E2 as (T2 & N2 & P2).
  apply Forall2_length in P2.
  assert (C2 : conserved p (Allocator.set_tenants a1 ts2) avail2).
  { destruct C1 as [C1 N1]. split; [|apply N2, N1].
    intros k0. simpl. rewrite T2. apply C1. }
  match type of H with
  | match ?e with _ => _ end = _ =>
      destruct e as [[[a3 avail3] h3]|] eqn:E3; [|discriminate]
  end.
  assert (C3 : conserved p a3 avail3
               /\ same_allocator (Allocator.set_tenants a1 ts2) a3
               /\ Forall (regular p) (Allocator.tenants a3)
               /\ forall k, (0 <= amount k avail3)%Q).
  { change (Allocator.policy_harvest (Allocator.set_tenants a1 ts2))
      with (Allocator.policy_harvest a1) in E3.
    destruct (Allocator.policy_harvest a1).
    - destruct (Allocator.do_harvest p _ avail2) as [[a4 h4]|] eqn:E4;
        [|discriminate].
      injection E3 as <- <- _.
      destruct (do_harvest_conserves _ _ _ _ _ E4 C2) as [C S].
      destruct (do_harvest_regular _ _ _ _ _ E4 C2 F2 A2)
        as (_ & X & Y & _).
      split; [exact C|]. split; [exact S|]. split; [|exact Y].
      eapply Forall_impl; [exact X|]. intros x [Z _]. exact Z.
    - injection E3 as <- <- _. split; [exact C2|].
      split; [apply same_allocator_refl|]. split; [exact F2 | exact A2]. }
  destruct C3 as (C3 & S3 & F3 & A3). clear E3.
  destruct (StatelessResrcVec.is_almost_empty avail3) eqn:Ea.
  - injection H as _ <- _ _. exact F3.
  - destruct (Allocator.do_redistribute a3 avail3) as [[r4 a4] avail4] eqn:E4.
    injection H as _ <- _ _.
    assert (Hp3 : Allocator.policy_conserving a3 = true).
    { destruct S1 as (_ & S1 & _). destruct S3 as (_ & S3 & _).
      rewrite S3. simpl. rewrite S1. exact Hp. }
    assert (Hl3 : Allocator.tenants a3 <> []).
    { destruct S1 as (_ & _ & _ & _ & S1). destruct S3 as (_ & _ & _ & _ & S3).
      intros E. rewrite E in S3. simpl in S3. lia. }
    apply (do_redistribute_regular _ _ _ _ _ _ Hp3 C3 F3 Hl3 A3 E4).
Qed.

End Regular.

(** ** The claim on the conservation of the stateless resources *)

Section ConservationClaim.


Lemma conserved_totals (p : params.t) (a : Allocator.t) :
  (forall k,
     (amount k (Tenant.aggregate_resrc (Allocator.tenants a))
      == amount k (ResrcVec.stateless (Allocator.total_resrc a)))%Q) ->
  Forall (regular p) (Allocator.tenants a) ->
  conserved p a StatelessResrcVec.zero.
Proof.
  intros Hc Hr. split.
  - intros j. specialize (Hc j). rewrite aggregate_total in Hc.
    rewrite Hc. destruct j; simpl; ring.
  - eapply Forall_impl; [exact Hr|]. intros x Hx. apply Hx.
Qed.

Lemma drift_specs_regular :
  Forall (regular test_params)
    (Allocator.tenants (add_tenants Allocator.default drift_specs)).
Proof.
  repeat constructor; try (intros k; destruct k; reflexivity);
    try discriminate; try reflexivity;
    try (intros x v Hx; vm_compute in Hx; discriminate Hx);
    vm_compute; intros; discriminate.
Qed.

(** The tenants of [drifted_allocator] are regular, so that the run has
    no quotient by zero; they hold 1002 of network bandwidth, the
    allocator counts 1002.00009, and after [do_alloc] they hold
    1002 - 2997 / 100003. *)
Example drifted_allocator_loses :
  exists r a',
    Allocator.do_alloc test_params 0 drifted_allocator = Ok (r, a')
    /\ Forall (regular test_params) (Allocator.tenants drifted_allocator)
    /\ (amount NET
          (Tenant.aggregate_resrc (Allocator.tenants drifted_allocator))
        == 1002)%Q
    /\ (amount NET
          (ResrcVec.stateless (Allocator.total_resrc drifted_allocator))
        == 1002 + (9 # 100000))%Q
    /\ (amount NET (Tenant.aggregate_resrc (Allocator.tenants a'))
        == 1002 - (2997 # 100003))%Q.
Proof.
  destruct (Allocator.do_alloc test_params 0 drifted_allocator)
    as [[r a']|] eqn:E; [|vm_compute in E; discriminate E].
  exists r, a'. split; [reflexivity|]. split.
  - unfold drifted_allocator, Allocator.do_alloc.
    destruct (Allocator.do_alloc_traced test_params 0
                (add_tenants Allocator.default drift_specs))
      as [[[[r1 a1] m1] h1]|] eqn:E1; [|constructor].
    simpl. apply Forall_app. split.
    + apply (do_alloc_traced_regular test_params 0
               (add_tenants Allocator.default drift_specs) a1 r1 m1 h1);
        [|reflexivity|exact drift_specs_regular|exact E1].
      apply conserved_totals; [|exact drift_specs_regular].
      intros k. destruct k; vm_compute; reflexivity.
    + repeat constructor; try (intros k; destruct k; reflexivity);
        try discriminate; try reflexivity;
        try (intros x v Hx; vm_compute in Hx; discriminate Hx);
        vm_compute; intros; discriminate.
  - vm_compute in E. injection E as _ <-. repeat split.
Qed.



End ConservationClaim.

(** ** Equal tenants under the memshare policy *)

Section MemshareOfEqualTenants.

(** [do_memshare] moves a unit of cache between two tenants that were
    added with the same arguments, and the redistribution then gives them
    different resources. *)
Example memshare_between_equal_tenants :
  Allocator.do_alloc_traced test_params 8
    (add_tenants (Allocator.make false true true) (replicate 2 cliff_spec))
  = Ok cliff_memshare_result
  /\ map Tenant.cache_size (Allocator.tenants cliff_memshare_result.1.1.2)
     = [30; 10]
  /\ cliff_memshare_result.1.2 = 1%nat
  /\ ~ Forall (allocation_kept cliff_spec.1.1.2)
        (Allocator.tenants cliff_memshare_result.1.1.2).
Proof.
  split; [vm_compute; reflexivity|]. split; [reflexivity|].
  split; [reflexivity|]. intros H.
  apply Forall_inv in H as [H _]. vm_compute in H. discriminate H.
Qed.

End MemshareOfEqualTenants.

(** ** The tests of test_alloc.cpp *)

Section Tests.

Example test_trivial :
  check_tenants [ResrcVec.mk 20 (StatelessResrcVec.mk 2 (12 # 10) 6)]
    (Allocator.do_alloc test_params 0
       (add_tenants Allocator.default
          [(StatelessResrcVec.mk (1 # 2) (1 # 2) 4,
            ResrcVec.mk 20 (StatelessResrcVec.mk 2 (12 # 10) 6),
            test_alloc_curve, 0%Q)]))
  = true.
Proof. vm_compute. reflexivity. Qed.

Example test_symmetric :
  check_tenants (replicate 4 (ResrcVec.mk 20 (StatelessResrcVec.mk 2 2 16)))
    (Allocator.do_alloc test_params 0
       (add_tenants Allocator.default (replicate 4 symmetric_spec)))
  = true.
Proof. vm_compute. reflexivity. Qed.

Example test_rw_ratio :
  check_tenants
    [ResrcVec.mk 20 (StatelessResrcVec.mk (32 # 10) (8 # 10) 16);
     ResrcVec.mk 20 (StatelessResrcVec.mk (8 # 10) (32 # 10) 16)]
    (Allocator.do_alloc test_params 0 rw_ratio_allocator)
  = true.
Proof. vm_compute. reflexivity. Qed.

Example test_trade_basic :
  check_tenants
    [ResrcVec.mk 20
       (StatelessResrcVec.mk (275 # 100) (169 # 100) (1356 # 100));
     ResrcVec.mk 60
       (StatelessResrcVec.mk (125 # 100) (231 # 100) (1844 # 100))]
    (Allocator.do_alloc test_params 0
       (add_tenants Allocator.default trade_basic_specs))
  = true.
Proof. vm_compute. reflexivity. Qed.

End Tests.

(** ** More on the queries of a curve *)

Section CurveQueries.

Import MissRatioCurve.

Lemma get_miss_ratio_const_modes (c : t) (x hi : Z) :
  back (ticks c) = Ok hi -> x <= hi ->
  get_miss_ratio_const false c x = get_miss_ratio_const true c x.
Proof.
  intros Hb Hx. unfold get_miss_ratio_const. rewrite Hb. simpl.
  apply Z.ltb_ge in Hx. rewrite Hx. reflexivity.
Qed.

(** X1: a curve with at least one tick, as many miss ratios as ticks and
    its ticks in non-decreasing order (the range that [std::lower_bound]
    asks for) answers every size without reading outside its vectors: in
    conservative mode every query returns; in strict mode a query up to
    the last tick returns the same answer, and a query beyond the last
    tick throws "cache_size out of range". *)
Theorem get_miss_ratio_const_outcome (c : t) (x hi : Z) :
  sized c -> Sorted Z.le (ticks c) -> back (ticks c) = Ok hi ->
  (exists v, get_miss_ratio_const true c x = Ok v)
  /\ (x <= hi ->
      get_miss_ratio_const false c x = get_miss_ratio_const true c x)
  /\ (hi < x ->
      get_miss_ratio_const false c x
      = Err (RuntimeError "cache_size out of range")).
Proof.
  intros Hs _ Hb. split; [apply get_miss_ratio_const_total, Hs|].
  split; [apply get_miss_ratio_const_modes, Hb|].
  intros Hx. unfold get_miss_ratio_const. rewrite Hb. simpl.
  apply Z.ltb_lt in Hx. rewrite Hx. reflexivity.
Qed.

Lemma get_miss_ratio_const_outcome_witness :
  (exists v, get_miss_ratio_const true test_basic_curve 100 = Ok v)
  /\ (100 <= 80 ->
      get_miss_ratio_const false test_basic_curve 100
      = get_miss_ratio_const true test_basic_curve 100)
  /\ (80 < 100 ->
      get_miss_ratio_const false test_basic_curve 100
      = Err (RuntimeError "cache_size out of range")).
Proof.
  apply (get_miss_ratio_const_outcome test_basic_curve 100 80).
  - split; [discriminate | reflexivity].
  - repeat constructor; simpl; lia.
  - reflexivity.
Defined.

(** X2: below the first tick the answer is interpolated between the miss
    ratio 1 of an empty cache and the first anchor: a size [x] below the
    first tick [t0] yields [1 - (1 - m0) * x / t0], which is 1 at size 0. *)
Theorem below_first_tick (conservative : bool) (c : t) (x t0 hi : Z)
    (m0 : Q) :
  front (ticks c) = Ok t0 -> front (miss_ratios c) = Ok m0 ->
  back (ticks c) = Ok hi ->
  is_u64 t0 -> 0 <= x -> x < t0 -> x <= hi ->
  exists v,
    get_miss_ratio_const conservative c x = Ok v
    /\ (v == 1 - (1 - m0) * (inject_Z x / inject_Z t0))%Q
    /\ (x = 0 -> (v == 1)%Q).
Proof.
  intros Hf Hm Hb Hu Hx0 Hx Hh. unfold get_miss_ratio_const.
  rewrite Hb. simpl. apply Z.ltb_ge in Hh. rewrite Hh.
  rewrite Hf. simpl. apply Z.ltb_lt in Hx as Hx'. rewrite Hx'.
  rewrite Hm. simpl. eexists. split; [reflexivity|].
  assert (Hd : u64 (t0 - x) = t0 - x)
    by (apply u64_small; unfold is_u64 in *; lia).
  rewrite Hd, interpolate_eq by (replace (x + (t0 - x)) with t0 by lia; exact Hu).
  replace (x + (t0 - x)) with t0 by lia.
  assert (Ht : (0 < inject_Z t0)%Q) by (rewrite <- (Zlt_Qlt 0); lia).
  split.
  - unfold Zminus. rewrite inject_Z_plus, inject_Z_opp. field. lra.
  - intros ->. rewrite Z.sub_0_r. field. lra.
Qed.

Lemma below_first_tick_witness :
  exists v,
    get_miss_ratio_const true test_basic_curve 0 = Ok v
    /\ (v == 1 - (1 - (9 # 10)) * (inject_Z 0 / inject_Z 10))%Q
    /\ (0 = 0 -> (v == 1)%Q).
Proof.
  apply (below_first_tick true test_basic_curve 0 10 80 (9 # 10));
    try reflexivity; unfold is_u64; lia.
Defined.

Lemma get_miss_ratios_memo (sizes : list Z) :
  forall (c c' : t) (vs : list Q),
    memo_consistent c ->
    get_miss_ratios c sizes = Ok (vs, c') ->
    Forall2
      (fun x v =>
         get_miss_ratio_const params.conservative_estimation_if_out_of_range
           c x = Ok v
         /\ miss_ratio_map c' !! x = Some v)
      sizes vs
    /\ ticks c' = ticks c /\ miss_ratios c' = miss_ratios c
    /\ memo_consistent c'
    /\ miss_ratio_map c ⊆ miss_ratio_map c'.
Proof.
  induction sizes as [|x sizes IH]; intros c c' vs Hc H; simpl in H.
  - injection H as <- <-. repeat split; try done.
  - destruct (get_miss_ratio _ c x) as [[v c1]|] eqn:E1; [|discriminate].
    simpl in H.
    destruct (get_miss_ratios c1 sizes) as [[vs1 c2]|] eqn:E2; [|discriminate].
    simpl in H. injection H as <- <-.
    destruct (get_miss_ratio_consistent _ _ _ _ Hc E1) as [Hv Hc1].
    apply get_miss_ratio_inv in E1 as (T1 & T2 & Hm).
    destruct (IH _ _ _ Hc1 E2) as (F & T3 & T4 & Hc2 & Hsub).
    assert (Hx : miss_ratio_map c1 !! x = Some v).
    { destruct Hm as [[Hm ->] | (_ & _ & Hm)]; [exact Hm|].
      rewrite Hm. apply lookup_insert_eq. }
    assert (Hs1 : miss_ratio_map c ⊆ miss_ratio_map c1).
    { destruct Hm as [[_ ->] | (Hn & _ & Hm)]; [done|].
      rewrite Hm. apply insert_subseteq, Hn. }
    split; [|split; [congruence | split; [congruence | split; [exact Hc2|]]]].
    + constructor.
      * split; [exact Hv|]. eapply lookup_weaken; eassumption.
      * eapply Forall2_impl; [exact F|]. intros y w [Hy Hw]. split; [|exact Hw].
        rewrite <- (get_miss_ratio_const_ext _ c c1 y T1 T2). exact Hy.
    + etrans; eassumption.
Qed.

(** X3: the memo of a curve never changes an answer: in a sequence of
    [get_miss_ratio] calls on a curve from the constructor every answer is
    the answer of [get_miss_ratio_const] on that curve, the anchors stay,
    and asking the final curve again for any of the sizes returns the same
    answer and leaves the curve as it is. *)
Theorem get_miss_ratio_memo_transparent (tks : list Z) (mrs : list Q)
    (sizes : list Z) (vs : list Q) (c' : t) :
  get_miss_ratios (make tks mrs) sizes = Ok (vs, c') ->
  Forall2
    (fun x v =>
       get_miss_ratio_const params.conservative_estimation_if_out_of_range
         (make tks mrs) x = Ok v
       /\ get_miss_ratio params.conservative_estimation_if_out_of_range c' x
          = Ok (v, c'))
    sizes vs
  /\ ticks c' = tks /\ miss_ratios c' = mrs.
Proof.
  intros H.
  destruct (get_miss_ratios_memo _ _ _ _ (memo_consistent_make tks mrs) H)
    as (F & T1 & T2 & _ & _).
  split; [|split; assumption].
  eapply Forall2_impl; [exact F|]. intros x v [Hv Hm]. split; [exact Hv|].
  unfold get_miss_ratio. rewrite Hm. reflexivity.
Qed.

Lemma get_miss_ratio_memo_transparent_witness :
  Forall2
    (fun x v =>
       get_miss_ratio_const params.conservative_estimation_if_out_of_range
         test_basic_curve x = Ok v
       /\ get_miss_ratio params.conservative_estimation_if_out_of_range
            test_basic_queries.2 x
          = Ok (v, test_basic_queries.2))
    [15; 100; 15] test_basic_queries.1
  /\ ticks test_basic_queries.2 = [10; 20; 40; 80]
  /\ miss_ratios test_basic_queries.2
     = [9 # 10; 8 # 10; 7 # 10; 6 # 10]%Q.
Proof.
  apply (get_miss_ratio_memo_transparent [10; 20; 40; 80]
           [9 # 10; 8 # 10; 7 # 10; 6 # 10]%Q [15; 100; 15]).
  vm_compute. reflexivity.
Defined.

End CurveQueries.

(** ** What the allocator moves and what it keeps *)

Section Moves.

(** X4: [collect_idle] under a positive projected demand and positive
    resources takes nothing that the tenant does not have: every idle
    amount is non-negative, the tenant keeps a positive part of every
    resource, and the bottleneck resource has no idle amount. *)
Theorem collect_idle_bounds (p : params.t) (a a' : Tenant.t)
    (idle : StatelessResrcVec.t) (mr : Q) :
  memo_consistent (Tenant.mrc a) ->
  MissRatioCurve.get_miss_ratio_const
    params.conservative_estimation_if_out_of_range (Tenant.mrc a)
    (Tenant.cache_size a) = Ok mr ->
  (forall k, (0 < amount k (Tenant.projected_demand p a mr))%Q) ->
  (forall k, (0 < amount k (Tenant.stateless a))%Q) ->
  Tenant.collect_idle p a = Ok (idle, a') ->
  (forall k,
     (0 <= amount k idle)%Q
     /\ (0 < amount k (Tenant.stateless a'))%Q
     /\ (amount k (Tenant.stateless a') <= amount k (Tenant.stateless a))%Q)
  /\ exists j, (amount j idle == 0)%Q.
Proof.
  intros Hc Hv Hd Hr H. unfold Tenant.collect_idle in H.
  destruct (Tenant.miss_ratio a (Tenant.cache_size a)) as [[v b]|] eqn:E;
    [|discriminate].
  simpl in H.
  apply (miss_ratio_consistent _ _ _ _ Hc) in E as (V & m & -> & _).
  rewrite Hv in V. injection V as <-. injection H as <- <-.
  change (Tenant.projected_demand p (Tenant.set_mrc a m) mr)
    with (Tenant.projected_demand p a mr).
  change (Tenant.stateless (Tenant.set_mrc a m)) with (Tenant.stateless a).
  destruct (used_bounds _ _ Hd Hr) as [Ub [j Uj]].
  set (used := StatelessResrcVec.scale _ _) in *.
  change (Tenant.stateless (Tenant.set_stateless (Tenant.set_mrc a m) used))
    with used.
  split.
  - intros k. rewrite sub_amount. specialize (Ub k). lra.
  - exists j. rewrite sub_amount, Uj. ring.
Qed.

Lemma collect_idle_bounds_witness :
  exists idle a',
    Tenant.collect_idle test_params symmetric_tenant = Ok (idle, a')
    /\ (forall k,
          (0 <= amount k idle)%Q
          /\ (0 < amount k (Tenant.stateless a'))%Q
          /\ (amount k (Tenant.stateless a')
              <= amount k (Tenant.stateless symmetric_tenant))%Q)
    /\ exists j, (amount j idle == 0)%Q.
Proof.
  eexists _, _. split; [vm_compute; reflexivity|].
  apply (collect_idle_bounds test_params symmetric_tenant _ _ (8 # 10)).
  - apply memo_consistent_make.
  - reflexivity.
  - intros k. destruct k; vm_compute; reflexivity.
  - intros k. destruct k; vm_compute; reflexivity.
  - vm_compute. reflexivity.
Defined.



Lemma same_identity_refl (x : Tenant.t) : same_identity x x.
Proof. repeat split. Qed.

Lemma same_identity_trans (x y z : Tenant.t) :
  same_identity x y -> same_identity y z -> same_identity x z.
Proof.
  intros (A1 & A2 & A3 & A4 & A5 & A6) (B1 & B2 & B3 & B4 & B5 & B6).
  repeat split; congruence.
Qed.

Lemma same_core_identity (x x' : Tenant.t) :
  same_core x x' ->
  same_identity x x' /\ Tenant.cache_size x' = Tenant.cache_size x.
Proof.
  intros (H1 & H2 & H3 & H4 & H5 & H6 & H7).
  unfold Tenant.cache_size. rewrite H3. repeat split; assumption.
Qed.

Lemma shifted_trans (j k : Z) (l1 l2 l3 : list Tenant.t) :
  shifted j l1 l2 -> shifted k l2 l3 -> shifted (j + k) l1 l3.
Proof.
  intros [F1 T1] [F2 T2]. split.
  - refine (Forall2_trans _ _ _ _ _ _ _ F1 F2). apply same_identity_trans.
  - rewrite T2. unfold u64 in *.
    rewrite <- Zplus_mod_idemp_l, T1, Zplus_mod_idemp_l.
    f_equal. lia.
Qed.

Lemma moved_only_shifted (ts ts' : list Tenant.t) :
  moved_only ts ts' <-> shifted 0 ts ts'.
Proof. unfold moved_only, shifted. rewrite Z.add_0_r. reflexivity. Qed.

Lemma moved_only_refl (ts : list Tenant.t) : moved_only ts ts.
Proof.
  split; [|reflexivity].
  apply Forall_Forall2_diag, Forall_forall. intros x _.
  apply same_identity_refl.
Qed.

Lemma moved_only_trans (l1 l2 l3 : list Tenant.t) :
  moved_only l1 l2 -> moved_only l2 l3 -> moved_only l1 l3.
Proof.
  rewrite !moved_only_shifted. apply (shifted_trans 0 0).
Qed.

Lemma moved_only_pointwise (ts ts' : list Tenant.t) :
  Forall2
    (fun x x' =>
       same_identity x x' /\ Tenant.cache_size x' = Tenant.cache_size x)
    ts ts' ->
  moved_only ts ts'.
Proof.
  intros H. split.
  - eapply Forall2_impl; [exact H|]. intros x x' [Hx _]. exact Hx.
  - f_equal. apply total_cache_pointwise.
    eapply Forall2_impl; [exact H|]. intros x x' [_ Hx]. exact Hx.
Qed.

Lemma modify_shifted (k : Z) (ts ts' : list Tenant.t) (i : nat)
    (f : Tenant.t -> res Tenant.t) :
  Tenant.modify ts i f = Ok ts' ->
  (forall a a',
     f a = Ok a' ->
     same_identity a a'
     /\ u64 (Tenant.cache_size a') = u64 (Tenant.cache_size a + k)) ->
  shifted k ts ts'.
Proof.
  intros H Hf. pose proof H as H0.
  apply modify_inv in H as (a & a' & Hi & Ha & ->).
  destruct (Hf a a' Ha) as [Hs Hc]. split.
  - apply (modify_pointwise _ _ _ _ _ same_identity_refl H0).
    intros x x' Hx. apply (Hf x x' Hx).
  - rewrite (total_cache_insert _ _ _ _ Hi). unfold u64 in *.
    rewrite <- Zplus_mod_idemp_r, Hc, Zplus_mod_idemp_r. f_equal. lia.
Qed.

Lemma set_cache_size_shift (a : Tenant.t) (k : Z) :
  same_identity a (Tenant.set_cache_size a (u64 (Tenant.cache_size a + k)))
  /\ u64 (Tenant.cache_size
            (Tenant.set_cache_size a (u64 (Tenant.cache_size a + k))))
     = u64 (Tenant.cache_size a + k).
Proof.
  split; [repeat split|]. unfold Tenant.cache_size, Tenant.set_cache_size.
  simpl. unfold u64. apply Z.mod_mod. lia.
Qed.

Lemma set_stateless_shift (a : Tenant.t) (s : StatelessResrcVec.t) :
  same_identity a (Tenant.set_stateless a s)
  /\ u64 (Tenant.cache_size (Tenant.set_stateless a s))
     = u64 (Tenant.cache_size a + 0).
Proof. rewrite Z.add_0_r. split; [repeat split | reflexivity]. Qed.

Lemma relocate_cache_moved (p : params.t) (ts ts' : list Tenant.t)
    (r d : nat) :
  Tenant.relocate_cache p ts r d = Ok ts' -> moved_only ts ts'.
Proof.
  unfold Tenant.relocate_cache. intros H.
  destruct (Tenant.modify ts r _) as [ts1|] eqn:E1; [|discriminate].
  simpl in H. apply moved_only_shifted.
  replace 0 with (params.cache_delta p + - params.cache_delta p) by lia.
  eapply shifted_trans.
  - apply (modify_shifted _ _ _ _ _ E1). intros a a' Ha. injection Ha as <-.
    apply set_cache_size_shift.
  - apply (modify_shifted _ _ _ _ _ H). intros a a' Ha. injection Ha as <-.
    apply (set_cache_size_shift a (- params.cache_delta p)).
Qed.

Lemma relocate_resrc_moved (p : params.t) (ts ts' : list Tenant.t)
    (t_relinq t_compen : nat) (q1 q2 q3 q4 : Q) :
  Tenant.relocate_resrc p ts t_relinq t_compen q1 q2 q3 q4 = Ok ts' ->
  moved_only ts ts'.
Proof.
  unfold Tenant.relocate_resrc. intros H.
  destruct (Tenant.modify ts t_compen _) as [ts1|] eqn:E1; [|discriminate].
  simpl in H.
  destruct (Tenant.modify ts1 t_relinq _) as [ts2|] eqn:E2; [|discriminate].
  simpl in H.
  destruct (Tenant.modify ts2 t_compen _) as [ts3|] eqn:E3; [|discriminate].
  simpl in H.
  destruct (Tenant.modify ts3 t_relinq _) as [ts4|] eqn:E4; [|discriminate].
  simpl in H.
  assert (M2 : moved_only ts ts2).
  { apply moved_only_shifted.
    replace 0 with (- params.cache_delta p + params.cache_delta p) by lia.
    eapply shifted_trans.
    - apply (modify_shifted _ _ _ _ _ E1). intros a a' Ha. injection Ha as <-.
      apply (set_cache_size_shift a (- params.cache_delta p)).
    - apply (modify_shifted _ _ _ _ _ E2). intros a a' Ha. injection Ha as <-.
      apply set_cache_size_shift. }
  assert (S : forall l l' i g,
             Tenant.modify l i (fun a => Ok (Tenant.set_stateless a (g a)))
             = Ok l' -> moved_only l l').
  { intros l l' i g E. apply moved_only_shifted.
    apply (modify_shifted _ _ _ _ _ E). intros a a' Ha. injection Ha as <-.
    apply set_stateless_shift. }
  assert (M4 : moved_only ts ts4).
  { eapply moved_only_trans; [exact M2|].
    eapply moved_only_trans; [exact (S _ _ _ _ E3) | exact (S _ _ _ _ E4)]. }
  destruct (params.alloc_total_net_bw p); [|injection H as <-; exact M4].
  destruct (Tenant.modify ts4 t_compen _) as [ts5|] eqn:E5; [|discriminate].
  simpl in H.
  eapply moved_only_trans; [exact M4|].
  eapply moved_only_trans; [exact (S _ _ _ _ E5) | exact (S _ _ _ _ H)].
Qed.

Lemma update_all_moved (f : Tenant.t -> res Tenant.t)
    (ts ts' : list Tenant.t) :
  Allocator.update_all f ts = Ok ts' ->
  (forall a a', f a = Ok a' -> same_core a a') ->
  moved_only ts ts'.
Proof.
  intros H Hf. apply moved_only_pointwise.
  apply (update_all_pointwise _ _ _ _ H). intros a a' Ha.
  apply same_core_identity, Hf, Ha.
Qed.

Lemma modify_moved (f : Tenant.t -> res Tenant.t)
    (ts ts' : list Tenant.t) (i : nat) :
  Tenant.modify ts i f = Ok ts' ->
  (forall a a', f a = Ok a' -> same_core a a') ->
  moved_only ts ts'.
Proof.
  intros H Hf. apply moved_only_pointwise.
  apply (modify_pointwise _ _ _ _ _ (fun x => conj (same_identity_refl x) eq_refl) H).
  intros a a' Ha. apply same_core_identity, Hf, Ha.
Qed.

(** A round of the trading loop that closes a deal. *)
Lemma harvest_round_inv (p : params.t) (a a' : Allocator.t)
    (h h' : Allocator.harvest) :
  Allocator.harvest_round p a h = Ok (Some (a', h')) ->
  exists r c xr xc ts1 ts2,
    Allocator.tenants a !! r = Some xr
    /\ Allocator.tenants a !! c = Some xc
    /\ Tenant.relocate_resrc p (Allocator.tenants a) r c
         (Tenant.rcu_delta_relinq xr) (Tenant.rcu_delta_compen xc)
         (Tenant.net_delta_relinq xr) (Tenant.net_delta_compen xc) = Ok ts1
    /\ Tenant.modify ts1 r (Tenant.update_rcu_net_delta p) = Ok ts2
    /\ Tenant.modify ts2 c (Tenant.update_rcu_net_delta p)
       = Ok (Allocator.tenants a')
    /\ a' = Allocator.set_tenants a (Allocator.tenants a')
    /\ (Allocator.prev_estimated_improve_ratio h
        + params.min_improve_ratio_delta
        <= Allocator.prev_estimated_improve_ratio h')%Q
    /\ Allocator.trade_round h' = S (Allocator.trade_round h).
Proof.
  unfold Allocator.harvest_round. intros H.
  match type of H with
  | (?e ≫= _) = _ => destruct e as [deal|] eqn:Ed; [|discriminate]
  end.
  simpl in H. clear Ed.
  destruct deal as [[[[r c] l1] l2]|]; [|discriminate].
  destruct (at_index (Allocator.tenants a) r) as [xr|] eqn:Er; [|discriminate].
  simpl in H.
  destruct (at_index (Allocator.tenants a) c) as [xc|] eqn:Ec; [|discriminate].
  simpl in H.
  match type of H with
  | context [Qltb ?x ?y] => destruct (Qltb x y) eqn:Eq; [discriminate|]
  end.
  apply Qltb_ge in Eq.
  match type of H with
  | (?e ≫= _) = _ => destruct e as [ts1|] eqn:E1; [|discriminate]
  end.
  simpl in H.
  match type of H with
  | (?e ≫= _) = _ => destruct e as [ts2|] eqn:E2; [|discriminate]
  end.
  simpl in H.
  match type of H with
  | (?e ≫= _) = _ => destruct e as [ts3|] eqn:E3; [|discriminate]
  end.
  simpl in H. injection H as <- <-. simpl.
  apply at_index_lookup in Er, Ec.
  exists r, c, xr, xc, ts1, ts2. repeat split; try assumption. lra.
Qed.

Lemma harvest_round_moved (p : params.t) (a a' : Allocator.t)
    (h h' : Allocator.harvest) :
  Allocator.harvest_round p a h = Ok (Some (a', h')) ->
  moved_only (Allocator.tenants a) (Allocator.tenants a')
  /\ same_allocator a a'.
Proof.
  intros H.
  apply harvest_round_inv in H
    as (r & c & xr & xc & ts1 & ts2 & _ & _ & E1 & E2 & E3 & Ea & _).
  assert (M : moved_only (Allocator.tenants a) (Allocator.tenants a')).
  { eapply moved_only_trans; [exact (relocate_resrc_moved _ _ _ _ _ _ _ _ _ E1)|].
    eapply moved_only_trans.
    - apply (modify_moved _ _ _ _ E2). intros x x' Hx.
      apply update_rcu_net_delta_core in Hx. tauto.
    - apply (modify_moved _ _ _ _ E3). intros x x' Hx.
      apply update_rcu_net_delta_core in Hx. tauto. }
  split; [exact M|]. rewrite Ea. apply set_tenants_same.
  symmetry. apply (Forall2_length _ _ _ (proj1 M)).
Qed.

Lemma harvest_loop_moved (p : params.t) (n : nat) :
  forall (a a' : Allocator.t) (h h' : Allocator.harvest),
    Allocator.harvest_loop p n a h = Ok (a', h') ->
    moved_only (Allocator.tenants a) (Allocator.tenants a')
    /\ same_allocator a a'.
Proof.
  induction n as [|n IH]; intros a a' h h' H; simpl in H.
  - injection H as <- <-. split; [apply moved_only_refl | apply same_allocator_refl].
  - destruct (Allocator.harvest_round p a h) as [[[a1 h1]|]|] eqn:E;
      [| |discriminate]; simpl in H.
    + destruct (harvest_round_moved _ _ _ _ _ E) as [M1 S1].
      destruct (IH _ _ _ _ H) as [M2 S2].
      split; [eapply moved_only_trans | eapply same_allocator_trans]; eassumption.
    + injection H as <- <-.
      split; [apply moved_only_refl | apply same_allocator_refl].
Qed.

Lemma do_harvest_moved (p : params.t) (a a' : Allocator.t)
    (avail : StatelessResrcVec.t) (h' : Allocator.harvest) :
  Allocator.do_harvest p a avail = Ok (a', h') ->
  moved_only (Allocator.tenants a) (Allocator.tenants a')
  /\ same_allocator a a'.
Proof.
  unfold Allocator.do_harvest. intros H.
  destruct (Allocator.estimate_bottleneck a avail) as [[prev is_rcu] is_net].
  destruct (Allocator.update_all _ _) as [ts|] eqn:E; [|discriminate].
  cbv beta iota delta [mbind res_bind] in H.
  apply harvest_loop_moved in H as [M S]. simpl in M.
  assert (M0 : moved_only (Allocator.tenants a) ts).
  { apply (update_all_moved _ _ _ E). intros x x' Hx.
    apply update_rcu_net_delta_core in Hx. tauto. }
  split; [eapply moved_only_trans; eassumption|].
  eapply same_allocator_trans; [|exact S].
  apply set_tenants_same. apply (update_all_length _ _ _ E).
Qed.

Lemma memshare_loop_moved (p : params.t) (fuel : nat) :
  forall (a a' : Allocator.t) (l1 l2 : list nat) (n n' : nat),
    Allocator.memshare_loop p fuel a l1 l2 n = Ok (a', n') ->
    moved_only (Allocator.tenants a) (Allocator.tenants a')
    /\ same_allocator a a'.
Proof.
  induction fuel as [|fuel IH]; intros a a' l1 l2 n n' H; simpl in H;
    [discriminate|].
  destruct (Allocator.memshare_round p a l1 l2) as [[[a1 l2'] again]|] eqn:E;
    [|discriminate].
  simpl in H. apply memshare_round_inv in E as (ts1 & Eu & S1 & Hr).
  assert (M1 : moved_only (Allocator.tenants a) (Allocator.tenants a1)).
  { assert (M0 : moved_only (Allocator.tenants a) ts1).
    { apply (update_all_moved _ _ _ Eu). intros x x' Hx.
      apply update_mr_delta_core in Hx. tauto. }
    destruct Hr as [[_ ->] | [_ (r & d & x & _ & _ & _ & Hr)]]; [exact M0|].
    eapply moved_only_trans; [exact M0|].
    apply (relocate_cache_moved _ _ _ _ _ Hr). }
  destruct again.
  - destruct (IH _ _ _ _ _ _ H) as [M2 S2].
    split; [eapply moved_only_trans | eapply same_allocator_trans]; eassumption.
  - injection H as <- <-. done.
Qed.

Lemma collect_idle_all_moved (p : params.t) (ts : list Tenant.t) :
  forall (ts' : list Tenant.t) (avail0 avail : StatelessResrcVec.t),
    Allocator.collect_idle_all p ts avail0 = Ok (ts', avail) ->
    moved_only ts ts'.
Proof.
  intros ts' avail0 avail H. apply moved_only_pointwise.
  revert ts' avail0 avail H.
  induction ts as [|x ts IH]; intros ts' avail0 avail H; simpl in H.
  - injection H as <- <-. constructor.
  - destruct (Tenant.collect_idle p x) as [[idle x']|] eqn:E; [|discriminate].
    simpl in H.
    destruct (Allocator.collect_idle_all p ts _) as [[rest av]|] eqn:Er;
      [|discriminate].
    simpl in H. injection H as <- <-.
    constructor; [|apply (IH _ _ _ Er)].
    unfold Tenant.collect_idle in E.
    destruct (Tenant.miss_ratio x (Tenant.cache_size x)) as [[v b]|] eqn:Em;
      [|discriminate].
    simpl in E. apply miss_ratio_set_mrc in Em as (m & -> & T1 & T2).
    injection E as _ <-. repeat split; assumption.
Qed.

Lemma do_redistribute_moved (a a' : Allocator.t)
    (avail avail' : StatelessResrcVec.t) (r : Q) :
  Allocator.do_redistribute a avail = (r, a', avail') ->
  moved_only (Allocator.tenants a) (Allocator.tenants a')
  /\ same_allocator a a'.
Proof.
  unfold Allocator.do_redistribute. intros H.
  destruct (Allocator.policy_conserving a); injection H as _ <- _; simpl;
    (split; [|apply set_tenants_same, length_map]);
    apply moved_only_pointwise, Forall2_fmap_r, Forall_Forall2_diag,
      Forall_forall; intros x _; repeat split.
Qed.

Lemma do_alloc_traced_moved (p : params.t) (fuel : nat) (a a' : Allocator.t)
    (r : Q) (m h : nat) :
  Allocator.do_alloc_traced p fuel a = Ok (r, a', m, h) ->
  moved_only (Allocator.tenants a) (Allocator.tenants a')
  /\ same_allocator a a'.
Proof.
  intros H. unfold Allocator.do_alloc_traced in H.
  destruct (length (Allocator.tenants a) <=? 1)%nat.
  { injection H as _ <- _ _.
    split; [apply moved_only_refl | apply same_allocator_refl]. }
  match type of H with
  | (?e ≫= _) = _ => destruct e as [[a1 m1]|] eqn:E1; [|discriminate]
  end.
  cbv beta iota delta [mbind res_bind] in H.
  assert (M1 : moved_only (Allocator.tenants a) (Allocator.tenants a1)
               /\ same_allocator a a1).
  { destruct (Allocator.policy_memshare a).
    - apply (memshare_loop_moved _ _ _ _ _ _ _ _ E1).
    - injection E1 as <- _.
      split; [apply moved_only_refl | apply same_allocator_refl]. }
  destruct M1 as [M1 S1]. clear E1.
  destruct (Allocator.collect_idle_all p _ _) as [[ts2 avail2]|] eqn:E2;
    [|discriminate].
  apply collect_idle_all_moved in E2 as M2.
  assert (S2 : same_allocator a1 (Allocator.set_tenants a1 ts2)).
  { apply set_tenants_same. symmetry. apply (Forall2_length _ _ _ (proj1 M2)). }
  match type of H with
  | match ?e with _ => _ end = _ =>
      destruct e as [[[a3 avail3] h3]|] eqn:E3; [|discriminate]
  end.
  assert (M3 : moved_only ts2 (Allocator.tenants a3)
               /\ same_allocator (Allocator.set_tenants a1 ts2) a3).
  { change (Allocator.policy_harvest (Allocator.set_tenants a1 ts2))
      with (Allocator.policy_harvest a1) in E3.
    destruct (Allocator.policy_harvest a1).
    - destruct (Allocator.do_harvest p _ avail2) as [[a4 h4]|] eqn:E4;
        [|discriminate].
      injection E3 as <- _ _. apply (do_harvest_moved _ _ _ _ _ E4).
    - injection E3 as <- _ _.
      split; [apply moved_only_refl | apply same_allocator_refl]. }
  destruct M3 as [M3 S3]. clear E3.
  assert (M : moved_only (Allocator.tenants a) (Allocator.tenants a3)
              /\ same_allocator a a3).
  { split.
    - eapply moved_only_trans; [exact M1|].
      eapply moved_only_trans; eassumption.
    - eapply same_allocator_trans; [exact S1|].
      eapply same_allocator_trans; eassumption. }
  destruct (StatelessResrcVec.is_almost_empty avail3).
  - injection H as _ <- _ _. exact M.
  - destruct (Allocator.do_redistribute a3 avail3) as [[r4 a4] avail4] eqn:E4.
    injection H as _ <- _ _.
    destruct (do_redistribute_moved _ _ _ _ _ E4) as [M4 S4].
    destruct M as [M S].
    split; [eapply moved_only_trans | eapply same_allocator_trans]; eassumption.
Qed.

(** X5: [do_alloc] only moves resources: it keeps the policies and the
    total resources of the allocator, the number and the order of the
    tenants, and of every tenant the index, the demand vector, the share
    of the network bandwidth, the reserved cache size and the anchors of
    the curve; and the cache sizes of the tenants add up to the same total
    modulo 2^64. *)
Theorem do_alloc_moves_only (p : params.t) (fuel : nat) (a a' : Allocator.t)
    (r : Q) :
  Allocator.do_alloc p fuel a = Ok (r, a') ->
  same_allocator a a'
  /\ Forall2 same_identity (Allocator.tenants a) (Allocator.tenants a')
  /\ total_cache (Allocator.tenants a') mod 2 ^ 64
     = total_cache (Allocator.tenants a) mod 2 ^ 64.
Proof.
  unfold Allocator.do_alloc. intros H.
  destruct (Allocator.do_alloc_traced p fuel a) as [[[[r0 a0] m0] h0]|] eqn:E;
    [|discriminate].
  simpl in H. injection H as _ <-.
  destruct (do_alloc_traced_moved _ _ _ _ _ _ _ E) as [[F T] S].
  split; [exact S|]. split; [exact F | exact T].
Qed.

Lemma do_alloc_moves_only_witness :
  same_allocator harvest_allocator harvest_result.1.1.2
  /\ Forall2 same_identity (Allocator.tenants harvest_allocator)
       (Allocator.tenants harvest_result.1.1.2)
  /\ total_cache (Allocator.tenants harvest_result.1.1.2) mod 2 ^ 64
     = total_cache (Allocator.tenants harvest_allocator) mod 2 ^ 64.
Proof.
  apply (do_alloc_moves_only test_params 0 harvest_allocator
           harvest_result.1.1.2 harvest_result.1.1.1).
  vm_compute. reflexivity.
Defined.



Lemma total_of_scaled (k : resource) (f : Q) (ts : list Tenant.t) :
  (total_of k (map (fun x => Tenant.scale_stateless_resrc x f) ts)
   == total_of k ts * f)%Q.
Proof.
  induction ts as [|x ts IH]; simpl; [ring|].
  fold (total_of k (map (fun x => Tenant.scale_stateless_resrc x f) ts)).
  fold (total_of k ts). rewrite IH.
  change (Tenant.stateless (Tenant.scale_stateless_resrc x f))
    with (StatelessResrcVec.scale (Tenant.stateless x) f).
  rewrite scale_amount. ring.
Qed.

(** X6: without the conserving policy [do_redistribute] multiplies the
    stateless resources of every tenant by the same factor, one plus the
    improvement ratio; what it leaves available is non-negative for every
    resource and nothing for the bottleneck resource, so that it never
    hands out more than the total. *)
Theorem redistribute_nonconserving (a a' : Allocator.t)
    (avail avail' : StatelessResrcVec.t) (r : Q) :
  Allocator.policy_conserving a = false ->
  (forall k,
     (total_of k (Allocator.tenants a) + amount k avail
      == amount k (ResrcVec.stateless (Allocator.total_resrc a)))%Q) ->
  (forall k, (0 < total_of k (Allocator.tenants a))%Q) ->
  Allocator.do_redistribute a avail = (r, a', avail') ->
  Forall2
    (fun x x' =>
       Tenant.cache_size x' = Tenant.cache_size x
       /\ forall k,
            amount k (Tenant.stateless x')
            = (amount k (Tenant.stateless x) * (1 + r))%Q)
    (Allocator.tenants a) (Allocator.tenants a')
  /\ (forall k, (0 <= amount k avail')%Q)
  /\ (exists j, (amount j avail' == 0)%Q)
  /\ (forall k,
        (total_of k (Allocator.tenants a') + amount k avail'
         == amount k (ResrcVec.stateless (Allocator.total_resrc a)))%Q).
Proof.
  intros Hp Hc Hpos H. unfold Allocator.do_redistribute in H.
  rewrite Hp in H. injection H as <- <- <-.
  set (sum := StatelessResrcVec.sub _ avail).
  assert (Hs : forall k, (amount k sum == total_of k (Allocator.tenants a))%Q).
  { intros k. unfold sum. rewrite sub_amount, <- (Hc k). ring. }
  rewrite ratio_amount.
  destruct (min3_resource (fun k => (amount k avail / amount k sum)%Q))
    as [[j Hj] Hle].
  simpl in Hj, Hle.
  set (r := StatelessResrcVec.min3 _ _ _) in *.
  set (ts' := map _ (Allocator.tenants a)).
  assert (Ht : forall k,
             (total_of k ts' == total_of k (Allocator.tenants a) * (1 + r))%Q)
    by (intros k; apply total_of_scaled).
  assert (Ha : forall k,
             (amount k
                (StatelessResrcVec.sub
                   (ResrcVec.stateless (Allocator.total_resrc a))
                   (Tenant.aggregate_resrc ts'))
              == amount k avail - total_of k (Allocator.tenants a) * r)%Q).
  { intros k. rewrite sub_amount, aggregate_total, Ht, <- (Hc k). ring. }
  assert (Hm : forall k,
             (amount k avail / amount k sum * total_of k (Allocator.tenants a)
              == amount k avail)%Q).
  { intros k. rewrite (Hs k). field. specialize (Hpos k). lra. }
  split; [|split; [|split]].
  - simpl. apply Forall2_fmap_r, Forall_Forall2_diag, Forall_forall.
    intros x _. split; [reflexivity|]. intros k.
    change (Tenant.stateless (Tenant.scale_stateless_resrc x (1 + r)))
      with (StatelessResrcVec.scale (Tenant.stateless x) (1 + r)).
    apply scale_amount.
  - intros k. simpl. rewrite (Ha k). specialize (Hle k). specialize (Hpos k).
    specialize (Hm k).
    set (T := total_of k (Allocator.tenants a)) in *.
    set (q := (amount k avail / amount k sum)%Q) in *.
    assert (r * T <= q * T)%Q by (apply Qmult_le_compat_r; lra).
    lra.
  - exists j. simpl. rewrite (Ha j), Hj, <- (Hm j) at 1. ring.
  - intros k. simpl. rewrite (Ha k), Ht, <- (Hc k). ring.
Qed.

Lemma redistribute_nonconserving_witness :
  exists j,
    (amount j
       (Allocator.do_redistribute uneven_allocator uneven_avail).2 == 0)%Q.
Proof.
  destruct (Allocator.do_redistribute uneven_allocator uneven_avail)
    as [[r a'] avail'] eqn:E.
  apply (redistribute_nonconserving uneven_allocator a' uneven_avail avail' r).
  - reflexivity.
  - intros k. destruct k; vm_compute; reflexivity.
  - intros k. destruct k; vm_compute; reflexivity.
  - exact E.
Defined.

Lemma harvest_loop_improves (p : params.t) (n : nat) :
  forall (a a' : Allocator.t) (h h' : Allocator.harvest),
    Allocator.harvest_loop p n a h = Ok (a', h') ->
    Allocator.prev_estimated_improve_ratio h
    = (Allocator.estimate_bottleneck a (Allocator.resrc_avail h)).1.1 ->
    (Allocator.trade_round h <= Allocator.trade_round h')%nat
    /\ Allocator.total_resrc a' = Allocator.total_resrc a
    /\ Allocator.prev_estimated_improve_ratio h'
       = (Allocator.estimate_bottleneck a' (Allocator.resrc_avail h')).1.1
    /\ (Allocator.prev_estimated_improve_ratio h
        + inject_Z (Z.of_nat (Allocator.trade_round h'
                              - Allocator.trade_round h))
          * params.min_improve_ratio_delta
        <= Allocator.prev_estimated_improve_ratio h')%Q.
Proof.
  induction n as [|n IH]; intros a a' h h' H Hp; simpl in H.
  - injection H as <- <-. rewrite Nat.sub_diag.
    split; [lia|]. split; [reflexivity|]. split; [exact Hp|].
    change (inject_Z (Z.of_nat 0)) with 0%Q.
    rewrite Qmult_0_l, Qplus_0_r. apply Qle_refl.
  - destruct (Allocator.harvest_round p a h) as [[[a1 h1]|]|] eqn:E;
      [| |discriminate]; simpl in H.
    + assert (P1 : Allocator.prev_estimated_improve_ratio h1
                   = (Allocator.estimate_bottleneck a1
                        (Allocator.resrc_avail h1)).1.1
                   /\ Allocator.total_resrc a1 = Allocator.total_resrc a).
      { clear -E. unfold Allocator.harvest_round in E.
        match type of E with
        | (?e ≫= _) = _ => destruct e as [deal|]; [|discriminate]
        end.
        simpl in E. destruct deal as [[[[r c] l1] l2]|]; [|discriminate].
        destruct (at_index (Allocator.tenants a) r) as [xr|]; [|discriminate].
        simpl in E.
        destruct (at_index (Allocator.tenants a) c) as [xc|]; [|discriminate].
        simpl in E.
        unfold Allocator.estimate_bottleneck in *.
        match type of E with
        | context [Qltb ?x ?y] => destruct (Qltb x y); [discriminate|]
        end.
        repeat match type of E with
               | (?e ≫= _) = _ => destruct e; [|discriminate]; simpl in E
               end.
        injection E as <- <-. simpl. split; reflexivity. }
      destruct P1 as [P1 T1].
      apply harvest_round_inv in E as (_ & _ & _ & _ & _ & _ & _ & _ & _ & _ & _ & _ & Hi & Hr).
      destruct (IH _ _ _ _ H P1) as (L & T & P & I).
      split; [lia|]. split; [congruence|]. split; [exact P|].
      replace (Allocator.trade_round h' - Allocator.trade_round h)%nat
        with (S (Allocator.trade_round h' - Allocator.trade_round h1))
        by lia.
      rewrite Nat2Z.inj_succ, <- Z.add_1_r, inject_Z_plus.
      change (inject_Z 1) with 1%Q.
      set (d := params.min_improve_ratio_delta) in *.
      set (k := inject_Z (Z.of_nat (Allocator.trade_round h'
                                    - Allocator.trade_round h1))) in *.
      lra.
    + injection H as <- <-. rewrite Nat.sub_diag.
      split; [lia|]. split; [reflexivity|]. split; [exact Hp|].
      change (inject_Z (Z.of_nat 0)) with 0%Q.
      rewrite Qmult_0_l, Qplus_0_r. apply Qle_refl.
Qed.

(** X7: every round of [do_harvest] raises the estimated improvement
    ratio by [min_improve_ratio_delta] or more: the ratio of the available
    resources to the allocated ones after [do_harvest] is at least the
    ratio before it plus 0.0001 for every round. *)
Theorem do_harvest_improves (p : params.t) (a a' : Allocator.t)
    (avail : StatelessResrcVec.t) (h' : Allocator.harvest) :
  Allocator.do_harvest p a avail = Ok (a', h') ->
  let total := ResrcVec.stateless (Allocator.total_resrc a) in
  let avail' := Allocator.resrc_avail h' in
  (StatelessResrcVec.ratio avail (StatelessResrcVec.sub total avail)
   + inject_Z (Z.of_nat (Allocator.trade_round h')) * (1 # 10000)
   <= StatelessResrcVec.ratio avail' (StatelessResrcVec.sub total avail'))%Q.
Proof.
  unfold Allocator.do_harvest. intros H.
  destruct (Allocator.estimate_bottleneck a avail) as [[prev is_rcu] is_net]
    eqn:Ee.
  destruct (Allocator.update_all _ _) as [ts|] eqn:E; [|discriminate].
  cbv beta iota delta [mbind res_bind] in H.
  apply harvest_loop_improves in H as (_ & T & P & I).
  - simpl in *. rewrite Nat.sub_0_r in I. rewrite P in I.
    unfold Allocator.estimate_bottleneck in Ee, I. injection Ee as <- _ _.
    simpl in I. rewrite T in I. exact I.
  - simpl. unfold Allocator.estimate_bottleneck in *.
    injection Ee as <- _ _. reflexivity.
Qed.

Lemma do_harvest_improves_witness :
  exists avail a' h',
    Allocator.do_harvest test_params
      (Allocator.set_tenants harvest_allocator
         [Tenant.set_stateless
            (Tenant.make 0 (StatelessResrcVec.mk 1 1 1)
               (ResrcVec.mk 10 (StatelessResrcVec.mk 1 2 2))
               (MissRatioCurve.make [10; 20; 30] [1; 1 # 2; 1 # 4]%Q) 0)
            (StatelessResrcVec.mk 1 1 1);
          Tenant.set_stateless
            (Tenant.make 1 (StatelessResrcVec.mk 2 1 1)
               (ResrcVec.mk 30 (StatelessResrcVec.mk 1 2 2))
               (MissRatioCurve.make [10; 20; 30] [1 # 2; 1 # 2; 1 # 2]%Q) 0)
            (StatelessResrcVec.mk 1 1 1)])
      avail = Ok (a', h')
    /\ Allocator.trade_round h' = 2%nat
    /\ (StatelessResrcVec.ratio avail
          (StatelessResrcVec.sub
             (ResrcVec.stateless (Allocator.total_resrc harvest_allocator))
             avail)
        + inject_Z (Z.of_nat (Allocator.trade_round h')) * (1 # 10000)
        <= StatelessResrcVec.ratio (Allocator.resrc_avail h')
             (StatelessResrcVec.sub
                (ResrcVec.stateless (Allocator.total_resrc harvest_allocator))
                (Allocator.resrc_avail h')))%Q.
Proof.
  exists (StatelessResrcVec.mk 0 2 2).
  destruct (Allocator.do_harvest test_params _ (StatelessResrcVec.mk 0 2 2))
    as [[a' h']|] eqn:E; [|vm_compute in E; discriminate E].
  exists a', h'. split; [reflexivity|]. split.
  - vm_compute in E. injection E as _ <-. reflexivity.
  - apply (do_harvest_improves test_params _ a' _ h' E).
Defined.



(** X8: a deal of [do_harvest] is never a deal of a tenant with itself:
    when the tenant that offers the most is also the one that asks the
    least, the choice among the others is a different tenant, as long as
    the list of compensators names no tenant twice, which the choice
    keeps. *)
Theorem pick_deal_distinct (ts : list Tenant.t)
    (relinq_list compen_list l : list nat)
    (less_relinq less_compen : Tenant.t -> Tenant.t -> bool)
    (t_relinq t_compen : nat) :
  NoDup compen_list ->
  Allocator.pick_deal ts relinq_list compen_list less_relinq less_compen
  = Ok (t_relinq, t_compen, l) ->
  t_relinq <> t_compen /\ NoDup l /\ length l = length compen_list.
Proof.
  intros Hn H. exact (pick_deal_parties _ _ _ _ _ _ _ _ Hn H).
Qed.

Lemma pick_deal_distinct_witness :
  exists t_compen l,
    Allocator.pick_deal
      [symmetric_tenant; symmetric_tenant; symmetric_tenant]
      [0; 1; 2]%nat [0; 1; 2]%nat
      Allocator.less_rcu_relinq Allocator.less_rcu_compen
    = Ok (0%nat, t_compen, l)
    /\ 0%nat <> t_compen /\ NoDup l /\ length l = 3%nat.
Proof.
  eexists _, _. split; [vm_compute; reflexivity|].
  apply (pick_deal_distinct
           [symmetric_tenant; symmetric_tenant; symmetric_tenant]
           [0; 1; 2]%nat [0; 1; 2]%nat _
           Allocator.less_rcu_relinq Allocator.less_rcu_compen).
  - apply (NoDup_seq 0 3).
  - vm_compute. reflexivity.
Defined.



(** X10: without the memshare policy [do_alloc] returns: for tenants
    from [add_tenant] whose curves have at least one tick, as many miss
    ratios as ticks and the ticks in non-decreasing order, it neither
    throws nor reads outside a vector, whatever the harvest and conserving
    policies. *)
Theorem do_alloc_never_fails (p : params.t) (fuel : nat)
    (harvest conserving : bool) (specs : list tenant_spec) :
  Forall (fun s => sized s.1.2 /\ Sorted Z.le (MissRatioCurve.ticks s.1.2))
    specs ->
  exists r a',
    Allocator.do_alloc p fuel
      (add_tenants (Allocator.make harvest conserving false) specs)
    = Ok (r, a').
Proof.
  intros Hs.
  destruct (do_alloc_returns p fuel harvest conserving specs)
    as (r & a' & h & _ & E & _).
  - eapply Forall_impl; [exact Hs|]. intros s [H _]. exact H.
  - exists r, a'. exact E.
Qed.

Lemma do_alloc_never_fails_witness :
  exists r a',
    Allocator.do_alloc test_params 0
      (add_tenants (Allocator.make true true false) trade_basic_specs)
    = Ok (r, a').
Proof.
  apply (do_alloc_never_fails test_params 0 true true trade_basic_specs).
  repeat constructor; simpl; try discriminate; lia.
Defined.

End Moves.

(** ** The request path from a miss to the reply *)

Section Pipeline.

Import hopper.

Ltac run_state :=
  cbv beta iota delta
    [network.consume network.wait_until_can_send ghost.access_key
     ghost.update_kv_size storage.get_async storage.set_async
     inflight.begin_inflight inflight.invalidate_inflight block_client
     unblock_client reply_with set_keyspace set_inflight_map set_get_tasks
     set_set_tasks set_blocked set_next_handle set_task_get_queue
     set_task_set_queue set_ghost_calls set_resrc_stats set_net_calls
     set_unblocked set_replies config.enable_inflight_dedup
     config.alloc_total_net_bw negb];
  cbn [admit_write keyspace inflight_map get_tasks set_tasks blocked
       next_handle task_get_queue task_set_queue ghost_calls resrc_stats
       net_calls unblocked replies fst snd].

(** A GET of a key that the cache does not hold and that has no
    outstanding fetch blocks the client and submits a task. *)
Lemma get_miss_state (s : state) (client : nat) (cmd key : string) :
  keyspace s !! key = None ->
  inflight_map s !! key = None ->
  let bc := next_handle s in
  let t := S (next_handle s) in
  get.RedisModule_HopperGet s client [cmd; key]
  = Ok (mk_state (admit_write s) (keyspace s)
          (<[key := t]> (inflight_map s))
          (<[t := TaskGet.make bc key]> (get_tasks s)) (set_tasks s)
          (<[bc := mk_blocked client get_storage_callback [cmd; key]]>
             (blocked s))
          (S t) (task_get_queue s ++ [t]) (task_set_queue s)
          (ghost_calls s ++ [ghost_access_key key 0 true]) (resrc_stats s)
          (net_calls s) (unblocked s) (replies s)).
Proof.
  intros Hk Hi bc t.
  unfold get.RedisModule_HopperGet. simpl. rewrite Hk.
  unfold inflight.check_inflight. simpl. rewrite Hi.
  rewrite bool_decide_eq_false_2 by (intros [? ?]; discriminate).
  reflexivity.
Qed.

(** A GET of a key that the cache does not hold and that has an
    outstanding fetch blocks the client as a dependent of the task. *)
Lemma get_dependent_state (s : state) (client : nat) (cmd key : string)
    (t : nat) (a : TaskGet.t) :
  keyspace s !! key = None ->
  inflight_map s !! key = Some t ->
  get_tasks s !! t = Some a ->
  let bc := next_handle s in
  get.RedisModule_HopperGet s client [cmd; key]
  = Ok (mk_state (admit_write s) (keyspace s) (inflight_map s)
          (<[t := TaskGet.add_dependent a bc]> (get_tasks s)) (set_tasks s)
          (<[bc := mk_blocked client get_inflight_callback [cmd; key]]>
             (blocked s))
          (S bc) (task_get_queue s) (task_set_queue s)
          (ghost_calls s ++ [ghost_access_key key 0 true]) (resrc_stats s)
          (net_calls s) (unblocked s) (replies s)).
Proof.
  intros Hk Hi Ht bc.
  unfold get.RedisModule_HopperGet. simpl. rewrite Hk.
  unfold inflight.check_inflight. simpl. rewrite Hi.
  rewrite bool_decide_eq_true_2 by (eexists; reflexivity).
  unfold inflight.add_dependent. simpl. rewrite Hi, Ht. reflexivity.
Qed.

(** A GET of a key that the cache holds answers at once. *)
Lemma get_hit_state (s : state) (client : nat) (cmd key v : string) :
  keyspace s !! key = Some (RString v) ->
  get.RedisModule_HopperGet s client [cmd; key]
  = Ok (mk_state (admit_write s) (keyspace s) (inflight_map s)
          (get_tasks s) (set_tasks s) (blocked s) (next_handle s)
          (task_get_queue s) (task_set_queue s)
          (ghost_calls s ++ [ghost_access_key key (size v) true])
          (stats.record_get_done (resrc_stats s) (size key) (size v) false)
          (net_calls s
           ++ [net_wait_until_can_send;
               net_consume (utils.kv_to_net_get_client (size key) (size v))])
          (unblocked s) (replies s ++ [(client, ReplyStringBuffer v)])).
Proof.
  intros Hk. unfold get.RedisModule_HopperGet. simpl. rewrite Hk.
  unfold network.consume, network.wait_until_can_send. simpl.
  rewrite <- app_assoc. reflexivity.
Qed.

Lemma fold_unblock_state (pd : privdata) (l : list nat) (s : state) :
  fold_left (fun s bc => unblock_client s bc pd) l s
  = set_unblocked s (unblocked s ++ map (fun bc => (bc, pd)) l).
Proof.
  revert s. induction l as [|bc l IH]; intros s; simpl.
  - rewrite app_nil_r. destruct s. reflexivity.
  - rewrite IH. destruct s. unfold set_unblocked, unblock_client. simpl.
    rewrite <- app_assoc. reflexivity.
Qed.

Lemma state_eta (s : state) :
  s = mk_state (admit_write s) (keyspace s) (inflight_map s) (get_tasks s)
        (set_tasks s) (blocked s) (next_handle s) (task_get_queue s)
        (task_set_queue s) (ghost_calls s) (resrc_stats s) (net_calls s)
        (unblocked s) (replies s).
Proof. destruct s. reflexivity. Qed.

(** The completion callback of a fetch that has succeeded. *)
Lemma storage_callback_state (s : state) (client : nat) (cmd key : string)
    (t : nat) (a : TaskGet.t) :
  get_tasks s !! t = Some a ->
  TaskGet.status a = OK ->
  let fresh := bool_decide (inflight_map s !! TaskGet.key a = Some t) in
  let v := TaskGet.value a in
  get.storage_callback s client [cmd; key] (PrivTaskGet t)
  = Ok (mk_state (admit_write s)
          (if fresh then <[key := RString v]> (keyspace s) else keyspace s)
          (if fresh then delete (TaskGet.key a) (inflight_map s)
           else inflight_map s)
          (get_tasks s) (set_tasks s) (blocked s) (next_handle s)
          (task_get_queue s) (task_set_queue s)
          (if fresh
           then ghost_calls s ++ [ghost_update_kv_size (TaskGet.key a) (size v)]
           else ghost_calls s)
          (stats.record_get_done (resrc_stats s) (size (TaskGet.key a))
             (size v) true)
          (net_calls s
           ++ [net_wait_until_can_send;
               net_consume
                 (u64 (utils.kv_to_net_get_client (size (TaskGet.key a))
                         (size v)
                       + utils.kv_to_net_get_storage (size (TaskGet.key a))
                           (size v)))])
          (unblocked s
           ++ map (fun bc => (bc, PrivString v)) (TaskGet.dependents a))
          (replies s ++ [(client, ReplyStringBuffer v)])).
Proof.
  intros Ht Hs fresh v. unfold get.storage_callback. rewrite Ht. simpl.
  unfold inflight.end_inflight. simpl. subst fresh.
  destruct (inflight_map s !! TaskGet.key a) as [t'|] eqn:Ei;
    [destruct (t' =? t)%nat eqn:Et;
       [apply Nat.eqb_eq in Et; subst t';
        rewrite bool_decide_eq_true_2 by reflexivity
       |apply Nat.eqb_neq in Et;
        rewrite bool_decide_eq_false_2 by congruence]
    |rewrite bool_decide_eq_false_2 by congruence];
    rewrite Hs; simpl; rewrite fold_unblock_state;
    match goal with
    | |- Ok ?x = _ => rewrite (state_eta x)
    end;
    do 2 f_equal; try reflexivity; simpl; rewrite <- app_assoc; reflexivity.
Qed.

(** The callback of a dependent that is woken with the fetched value. *)
Lemma inflight_callback_state (s : state) (client : nat) (cmd key v : string) :
  get.inflight_callback s client [cmd; key] (PrivString v)
  = Ok (mk_state (admit_write s) (keyspace s) (inflight_map s)
          (get_tasks s) (set_tasks s) (blocked s) (next_handle s)
          (task_get_queue s) (task_set_queue s) (ghost_calls s)
          (stats.record_get_done (resrc_stats s) (size key) (size v) false)
          (net_calls s
           ++ [net_wait_until_can_send;
               net_consume (utils.kv_to_net_get_client (size key) (size v))])
          (unblocked s) (replies s ++ [(client, ReplyStringBuffer v)])).
Proof.
  unfold get.inflight_callback. simpl. run_state.
  rewrite <- app_assoc. reflexivity.
Qed.

(** A SET of a key that holds no value of another type. *)
Lemma set_state (s : state) (client : nat) (cmd key val : string) :
  keyspace s !! key <> Some ROther ->
  let bc := next_handle s in
  let t := S (next_handle s) in
  let stored :=
    match keyspace s !! key with Some _ => true | None => admit_write s end in
  set.RedisModule_HopperSet s client [cmd; key; val]
  = Ok (mk_state (admit_write s)
          (if stored then <[key := RString val]> (keyspace s)
           else keyspace s)
          (if stored then delete key (inflight_map s) else inflight_map s)
          (get_tasks s)
          (<[t := TaskSet.make bc key val]> (set_tasks s))
          (<[bc := mk_blocked client set_reply_callback [cmd; key; val]]>
             (blocked s))
          (S t) (task_get_queue s) (task_set_queue s ++ [t])
          (ghost_calls s ++ [ghost_access_key key (size val) false])
          (stats.record_set_done (admit_write s) (resrc_stats s) (size key)
             (size val))
          (net_calls s
           ++ [net_wait_until_can_send;
               net_consume
                 (u64 (utils.kv_to_net_set_client (size key) (size val)
                       + utils.kv_to_net_set_storage (size key) (size val)))])
          (unblocked s) (replies s)).
Proof.
  intros Hk bc t stored. subst stored.
  unfold set.RedisModule_HopperSet. simpl.
  destruct (keyspace s !! key) as [[v|]|] eqn:E; [|congruence|];
    [|destruct (admit_write s) eqn:Ea]; simpl;
    match goal with
    | |- Ok ?x = _ => rewrite (state_eta x)
    end;
    do 2 f_equal; try reflexivity; simpl; rewrite ?Ea; try reflexivity;
    rewrite <- app_assoc; reflexivity.
Qed.

(** A cache-only SET of a key that holds no value of another type. *)
Lemma setc_state (s : state) (client : nat) (cmd key val : string) :
  keyspace s !! key <> Some ROther ->
  set.RedisModule_HopperSetC s client [cmd; key; val]
  = Ok (mk_state (admit_write s) (<[key := RString val]> (keyspace s))
          (inflight_map s) (get_tasks s) (set_tasks s) (blocked s)
          (next_handle s) (task_get_queue s) (task_set_queue s)
          (ghost_calls s ++ [ghost_access_key key (size val) false])
          (resrc_stats s) (net_calls s) (unblocked s)
          (replies s ++ [(client, ReplySimpleString "OK")])).
Proof.
  intros Hk. unfold set.RedisModule_HopperSetC. simpl.
  destruct (keyspace s !! key) as [[v|]|] eqn:E; [|congruence|];
    reflexivity.
Qed.

(** X11: a GET of a cold key is answered from the storage and fills the
    cache: the client is blocked and one task is submitted; when the fetch
    succeeds the callback stores the fetched value under the key, clears
    the inflight registry and answers the client with the value; from then
    on a GET of the key is a hit, answered at once with that value, with
    no task and no blocked client. *)
Theorem get_fetch_fills_cache (s : state) (client : nat)
    (cmd key val : string) :
  keyspace s !! key = None ->
  inflight_map s !! key = None ->
  let bc := next_handle s in
  let t := S (next_handle s) in
  exists s1 s2 s3,
    get.RedisModule_HopperGet s client [cmd; key] = Ok s1
    /\ replies s1 = replies s
    /\ task_get_queue s1 = task_get_queue s ++ [t]
    /\ storage.get_succeeded s1 t val = Ok s2
    /\ unblocked s2 = unblocked s ++ [(bc, PrivTaskGet t)]
    /\ run_reply_callback s2 bc (PrivTaskGet t) = Ok s3
    /\ keyspace s3 = <[key := RString val]> (keyspace s)
    /\ inflight_map s3 = inflight_map s
    /\ replies s3 = replies s ++ [(client, ReplyStringBuffer val)]
    /\ forall (client' : nat) (cmd' : string),
         exists s4,
           get.RedisModule_HopperGet s3 client' [cmd'; key] = Ok s4
           /\ replies s4 = replies s3 ++ [(client', ReplyStringBuffer val)]
           /\ keyspace s4 = keyspace s3
           /\ task_get_queue s4 = task_get_queue s3
           /\ blocked s4 = blocked s3.
Proof.
  intros Hk Hi bc t.
  eexists _, _, _. split; [apply (get_miss_state _ _ _ _ Hk Hi)|].
  cbn [replies task_get_queue].
  split; [reflexivity|]. split; [reflexivity|].
  unfold storage.get_succeeded. cbn [get_tasks]. rewrite lookup_insert_eq.
  split; [reflexivity|]. run_state. cbn [TaskGet.client TaskGet.make].
  split; [reflexivity|].
  unfold run_reply_callback. cbn [blocked]. rewrite lookup_insert_eq.
  cbn [bc_callback bc_client bc_argv].
  split.
  { apply storage_callback_state.
    - cbn [get_tasks]. apply lookup_insert_eq.
    - reflexivity. }
  cbn [TaskGet.complete TaskGet.make TaskGet.key TaskGet.value keyspace
       inflight_map replies].
  rewrite lookup_insert_eq.
  rewrite bool_decide_eq_true_2 by reflexivity.
  split; [reflexivity|]. split; [apply delete_insert_id, Hi|].
  split; [reflexivity|].
  intros client' cmd'. eexists. split.
  { apply get_hit_state. cbn [keyspace]. apply lookup_insert_eq. }
  cbn [replies keyspace task_get_queue blocked]. done.
Qed.

Lemma get_fetch_fills_cache_witness :
  exists s1 s2 s3,
    get.RedisModule_HopperGet (fresh_state false) 7 ["GET"; "k"]%string
    = Ok s1
    /\ storage.get_succeeded s1 1 "v" = Ok s2
    /\ run_reply_callback s2 0 (PrivTaskGet 1) = Ok s3
    /\ keyspace s3 = {["k"%string := RString "v"]}
    /\ replies s3 = [(7%nat, ReplyStringBuffer "v")].
Proof.
  destruct (get_fetch_fills_cache (fresh_state false) 7 "GET" "k" "v"
              eq_refl eq_refl)
    as (s1 & s2 & s3 & H1 & _ & _ & H2 & _ & H3 & H4 & _ & H5 & _).
  exists s1, s2, s3. repeat split; assumption.
Defined.

(** X12: two GETs of a cold key make one fetch: the second client is
    blocked as a dependent of the task of the first, no second task is
    submitted, and when the fetch succeeds both clients are answered with
    the fetched value; the first is counted as a miss that consumed read
    capacity, the second as a hit. *)
Theorem get_deduplicated (s : state) (c1 c2 : nat)
    (cmd1 cmd2 key val : string) :
  keyspace s !! key = None ->
  inflight_map s !! key = None ->
  let bc1 := next_handle s in
  let t := S (next_handle s) in
  let bc2 := S (S (next_handle s)) in
  exists s1 s2 s3 s4 s5,
    get.RedisModule_HopperGet s c1 [cmd1; key] = Ok s1
    /\ get.RedisModule_HopperGet s1 c2 [cmd2; key] = Ok s2
    /\ task_get_queue s2 = task_get_queue s ++ [t]
    /\ replies s2 = replies s
    /\ storage.get_succeeded s2 t val = Ok s3
    /\ run_reply_callback s3 bc1 (PrivTaskGet t) = Ok s4
    /\ unblocked s4
       = unblocked s ++ [(bc1, PrivTaskGet t); (bc2, PrivString val)]
    /\ run_reply_callback s4 bc2 (PrivString val) = Ok s5
    /\ replies s5
       = replies s
         ++ [(c1, ReplyStringBuffer val); (c2, ReplyStringBuffer val)]
    /\ keyspace s5 = <[key := RString val]> (keyspace s)
    /\ inflight_map s5 = inflight_map s
    /\ stats.miss_cnt (resrc_stats s5)
       = u64 (stats.miss_cnt (resrc_stats s) + 1)
    /\ stats.hit_cnt (resrc_stats s5)
       = u64 (stats.hit_cnt (resrc_stats s) + 1)
    /\ stats.db_rcu_consump (resrc_stats s5)
       = u64 (stats.db_rcu_consump (resrc_stats s)
              + utils.kv_to_rcu (size key) (size val)).
Proof.
  intros Hk Hi bc1 t bc2.
  eexists _, _, _, _, _. split; [apply (get_miss_state _ _ _ _ Hk Hi)|].
  split.
  { apply get_dependent_state with (t := t).
    - exact Hk.
    - cbn [inflight_map]. apply lookup_insert_eq.
    - cbn [get_tasks]. apply lookup_insert_eq. }
  cbn [replies task_get_queue next_handle].
  split; [reflexivity|]. split; [reflexivity|].
  unfold storage.get_succeeded. cbn [get_tasks]. rewrite lookup_insert_eq.
  split; [reflexivity|]. run_state.
  cbn [TaskGet.client TaskGet.make TaskGet.add_dependent].
  unfold run_reply_callback at 1. cbn [blocked].
  rewrite lookup_insert_ne by (subst bc1 bc2; lia).
  rewrite lookup_insert_eq. cbn [bc_callback bc_client bc_argv].
  split.
  { apply storage_callback_state.
    - cbn [get_tasks]. apply lookup_insert_eq.
    - reflexivity. }
  cbn [TaskGet.complete TaskGet.make TaskGet.key TaskGet.value
       TaskGet.dependents TaskGet.add_dependent keyspace inflight_map
       replies unblocked].
  rewrite lookup_insert_eq.
  rewrite bool_decide_eq_true_2 by reflexivity.
  split; [simpl; rewrite <- app_assoc; reflexivity|].
  unfold run_reply_callback. cbn [blocked]. rewrite lookup_insert_eq.
  cbn [bc_callback bc_client bc_argv].
  split; [apply inflight_callback_state|].
  cbn [replies keyspace inflight_map resrc_stats].
  split; [rewrite <- app_assoc; reflexivity|].
  split; [reflexivity|]. split; [apply delete_insert_id, Hi|].
  done.
Qed.

Lemma get_deduplicated_witness :
  exists s1 s2 s3 s4 s5,
    get.RedisModule_HopperGet (fresh_state false) 7 ["GET"; "k"]%string
    = Ok s1
    /\ get.RedisModule_HopperGet s1 8 ["GET"; "k"]%string = Ok s2
    /\ task_get_queue s2 = [1%nat]
    /\ storage.get_succeeded s2 1 "v" = Ok s3
    /\ run_reply_callback s3 0 (PrivTaskGet 1) = Ok s4
    /\ run_reply_callback s4 2 (PrivString "v") = Ok s5
    /\ replies s5
       = [(7%nat, ReplyStringBuffer "v"); (8%nat, ReplyStringBuffer "v")].
Proof.
  destruct (get_deduplicated (fresh_state false) 7 8 "GET" "GET" "k" "v"
              eq_refl eq_refl)
    as (s1 & s2 & s3 & s4 & s5 & H1 & H2 & H3 & _ & H4 & H5 & _ & H6 & H7
        & _).
  exists s1, s2, s3, s4, s5. repeat split; assumption.
Defined.

(** X13: a SET that the cache admits between a GET miss of the key and
    the completion of its fetch wins: the SET removes the entry of the key
    from the inflight registry, and the callback of the fetch then answers
    the GET client with the fetched value but neither stores it nor
    updates the ghost cache, so that the cache keeps the value of the
    SET. *)
Theorem set_invalidates_fetch (s : state) (c1 c2 : nat)
    (cmd1 cmd2 key val val2 : string) :
  keyspace s !! key = None ->
  inflight_map s !! key = None ->
  admit_write s = true ->
  let bc := next_handle s in
  let t := S (next_handle s) in
  exists s1 s2 s3 s4,
    get.RedisModule_HopperGet s c1 [cmd1; key] = Ok s1
    /\ set.RedisModule_HopperSet s1 c2 [cmd2; key; val2] = Ok s2
    /\ keyspace s2 = <[key := RString val2]> (keyspace s)
    /\ inflight_map s2 = inflight_map s
    /\ storage.get_succeeded s2 t val = Ok s3
    /\ run_reply_callback s3 bc (PrivTaskGet t) = Ok s4
    /\ keyspace s4 = <[key := RString val2]> (keyspace s)
    /\ ghost_calls s4 = ghost_calls s2
    /\ replies s4 = replies s ++ [(c1, ReplyStringBuffer val)].
Proof.
  intros Hk Hi Ha bc t.
  eexists _, _, _, _. split; [apply (get_miss_state _ _ _ _ Hk Hi)|].
  split.
  { apply set_state. cbn [keyspace]. rewrite Hk. discriminate. }
  cbn [keyspace inflight_map admit_write next_handle]. rewrite Hk, Ha.
  split; [reflexivity|]. split; [apply delete_insert_id, Hi|].
  unfold storage.get_succeeded. cbn [get_tasks]. rewrite lookup_insert_eq.
  split; [reflexivity|]. run_state. cbn [TaskGet.client TaskGet.make].
  unfold run_reply_callback. cbn [blocked].
  rewrite lookup_insert_ne by (subst bc; lia).
  rewrite lookup_insert_eq. cbn [bc_callback bc_client bc_argv].
  split.
  { apply storage_callback_state.
    - cbn [get_tasks]. apply lookup_insert_eq.
    - reflexivity. }
  cbn [TaskGet.complete TaskGet.make TaskGet.key TaskGet.value keyspace
       inflight_map replies ghost_calls].
  rewrite lookup_delete_eq.
  rewrite bool_decide_eq_false_2 by discriminate.
  done.
Qed.

Lemma set_invalidates_fetch_witness :
  exists s1 s2 s3 s4,
    get.RedisModule_HopperGet (fresh_state true) 7 ["GET"; "k"]%string
    = Ok s1
    /\ set.RedisModule_HopperSet s1 8 ["SET"; "k"; "new"]%string = Ok s2
    /\ storage.get_succeeded s2 1 "old" = Ok s3
    /\ run_reply_callback s3 0 (PrivTaskGet 1) = Ok s4
    /\ keyspace s4 = {["k"%string := RString "new"]}
    /\ replies s4 = [(7%nat, ReplyStringBuffer "old")].
Proof.
  destruct (set_invalidates_fetch (fresh_state true) 7 8 "GET" "SET" "k"
              "old" "new" eq_refl eq_refl eq_refl)
    as (s1 & s2 & s3 & s4 & H1 & H2 & _ & _ & H3 & H4 & H5 & _ & H6).
  exists s1, s2, s3, s4. repeat split; assumption.
Defined.

(** X14: the cache-only SET stores the value and answers OK without a
    task, statistics or bandwidth, and it leaves the inflight registry as
    it is: the callback of a fetch of the key that was outstanding then
    replaces the value of the cache-only SET by the fetched value. *)
Theorem setc_keeps_fetch (s : state) (c1 c2 : nat)
    (cmd1 cmd2 key val val2 : string) :
  keyspace s !! key = None ->
  inflight_map s !! key = None ->
  let bc := next_handle s in
  let t := S (next_handle s) in
  exists s1 s2 s3 s4,
    get.RedisModule_HopperGet s c1 [cmd1; key] = Ok s1
    /\ set.RedisModule_HopperSetC s1 c2 [cmd2; key; val2] = Ok s2
    /\ keyspace s2 = <[key := RString val2]> (keyspace s)
    /\ replies s2 = replies s ++ [(c2, ReplySimpleString "OK")]
    /\ inflight_map s2 = inflight_map s1
    /\ resrc_stats s2 = resrc_stats s
    /\ net_calls s2 = net_calls s
    /\ task_set_queue s2 = task_set_queue s
    /\ blocked s2 = blocked s1
    /\ storage.get_succeeded s2 t val = Ok s3
    /\ run_reply_callback s3 bc (PrivTaskGet t) = Ok s4
    /\ keyspace s4 = <[key := RString val]> (keyspace s)
    /\ replies s4
       = replies s
         ++ [(c2, ReplySimpleString "OK"); (c1, ReplyStringBuffer val)].
Proof.
  intros Hk Hi bc t.
  eexists _, _, _, _. split; [apply (get_miss_state _ _ _ _ Hk Hi)|].
  split.
  { apply setc_state. cbn [keyspace]. rewrite Hk. discriminate. }
  cbn [keyspace inflight_map replies resrc_stats net_calls task_set_queue
       blocked].
  do 7 (split; [reflexivity|]).
  unfold storage.get_succeeded. cbn [get_tasks]. rewrite lookup_insert_eq.
  split; [reflexivity|]. run_state. cbn [TaskGet.client TaskGet.make].
  unfold run_reply_callback. cbn [blocked].
  rewrite lookup_insert_eq. cbn [bc_callback bc_client bc_argv].
  split.
  { apply storage_callback_state.
    - cbn [get_tasks]. apply lookup_insert_eq.
    - reflexivity. }
  cbn [TaskGet.complete TaskGet.make TaskGet.key TaskGet.value keyspace
       inflight_map replies].
  rewrite lookup_insert_eq.
  rewrite bool_decide_eq_true_2 by reflexivity.
  split; [apply insert_insert_eq|].
  rewrite <- app_assoc. reflexivity.
Qed.

Lemma setc_keeps_fetch_witness :
  exists s1 s2 s3 s4,
    get.RedisModule_HopperGet (fresh_state true) 7 ["GET"; "k"]%string
    = Ok s1
    /\ set.RedisModule_HopperSetC s1 8 ["SETC"; "k"; "new"]%string = Ok s2
    /\ keyspace s2 = {["k"%string := RString "new"]}
    /\ storage.get_succeeded s2 1 "old" = Ok s3
    /\ run_reply_callback s3 0 (PrivTaskGet 1) = Ok s4
    /\ keyspace s4 = {["k"%string := RString "old"]}.
Proof.
  destruct (setc_keeps_fetch (fresh_state true) 7 8 "GET" "SETC" "k"
              "old" "new" eq_refl eq_refl)
    as (s1 & s2 & s3 & s4 & H1 & H2 & H3 & _ & _ & _ & _ & _ & _ & H4 & H5
        & H6 & _).
  exists s1, s2, s3, s4. repeat split; assumption.
Defined.

(** X15: a SET whose write to the storage fails leaves no value of the
    key in the cache, neither the new one nor one that the key held
    before, and the client is answered with the error of the storage; a
    SET whose write succeeds is answered OK and its callback leaves the
    cache as the SET left it. *)
Theorem set_completion (s : state) (client : nat)
    (cmd key val err_msg : string) :
  keyspace s !! key <> Some ROther ->
  let bc := next_handle s in
  let t := S (next_handle s) in
  exists s1,
    set.RedisModule_HopperSet s client [cmd; key; val] = Ok s1
    /\ replies s1 = replies s
    /\ task_set_queue s1 = task_set_queue s ++ [t]
    /\ (exists s2 s3,
          storage.set_failed s1 t err_msg = Ok s2
          /\ unblocked s2 = unblocked s ++ [(bc, PrivTaskSet t)]
          /\ run_reply_callback s2 bc (PrivTaskSet t) = Ok s3
          /\ keyspace s3 = delete key (keyspace s)
          /\ replies s3
             = replies s
               ++ [(client,
                    ReplyError
                      ("ERR Fail to set to DynamoDB: "
                       ++ "Fail to write to DynamoDB: " ++ err_msg))])
    /\ (exists s2 s3,
          storage.set_succeeded s1 t = Ok s2
          /\ unblocked s2 = unblocked s ++ [(bc, PrivTaskSet t)]
          /\ run_reply_callback s2 bc (PrivTaskSet t) = Ok s3
          /\ keyspace s3 = keyspace s1
          /\ replies s3 = replies s ++ [(client, ReplySimpleString "OK")]).
Proof.
  intros Hk bc t.
  eexists. split; [apply (set_state _ _ _ _ _ Hk)|].
  cbn [replies task_set_queue keyspace].
  split; [reflexivity|]. split; [reflexivity|]. split.
  - eexists _, _.
    unfold storage.set_failed. cbn [set_tasks]. rewrite lookup_insert_eq.
    split; [reflexivity|]. run_state. cbn [TaskSet.client TaskSet.make].
    split; [reflexivity|].
    unfold run_reply_callback. cbn [blocked]. rewrite lookup_insert_eq.
    cbn [bc_callback bc_client bc_argv].
    unfold set.reply_callback. cbn [set_tasks]. rewrite lookup_insert_eq.
    simpl. split; [reflexivity|]. run_state.
    split; [|reflexivity].
    destruct (keyspace s !! key) as [x|] eqn:E.
    + apply delete_insert_eq.
    + destruct (admit_write s); [apply delete_insert_eq|reflexivity].
  - eexists _, _.
    unfold storage.set_succeeded. cbn [set_tasks]. rewrite lookup_insert_eq.
    split; [reflexivity|]. run_state. cbn [TaskSet.client TaskSet.make].
    split; [reflexivity|].
    unfold run_reply_callback. cbn [blocked]. rewrite lookup_insert_eq.
    cbn [bc_callback bc_client bc_argv].
    unfold set.reply_callback. cbn [set_tasks]. rewrite lookup_insert_eq.
    simpl. split; [reflexivity|]. done.
Qed.

Lemma set_completion_witness :
  exists s1 s2 s3,
    set.RedisModule_HopperSet (fresh_state true) 7 ["SET"; "k"; "v"]%string
    = Ok s1
    /\ storage.set_failed s1 1 "timeout" = Ok s2
    /\ run_reply_callback s2 0 (PrivTaskSet 1) = Ok s3
    /\ keyspace s3 = delete "k"%string ∅
    /\ replies s3
       = [(7%nat,
           ReplyError
             "ERR Fail to set to DynamoDB: Fail to write to DynamoDB: timeout")].
Proof.
  assert (H : keyspace (fresh_state true) !! "k"%string <> Some ROther)
    by (vm_compute; discriminate).
  destruct (set_completion (fresh_state true) 7 "SET" "k" "v" "timeout" H)
    as (s1 & H1 & _ & _ & (s2 & s3 & H2 & _ & H3 & H4 & H5) & _).
  exists s1, s2, s3. repeat split; assumption.
Defined.

End Pipeline.

(** ** The statistics of the requests *)

Section Stats.

Import hopper.

Ltac no_wrap :=
  repeat match goal with
         | |- context [u64 ?x] =>
             rewrite (u64_small x) by (unfold is_u64; lia)
         end.

Lemma record_within (aw : bool) (r : stats.t) (e : recorded)
    (b n g : Z) :
  within r b n g ->
  0 <= (sizes_of e).1 -> 0 <= (sizes_of e).2 ->
  b + volume [e] < 2 ^ 64 ->
  within (record aw r e) (b + volume [e]) (n + 1)
    (g + if is_get e then 1 else 0).
Proof.
  unfold within.
  intros (H1 & H2 & H3 & H4 & H5 & H6 & H7 & H8 & H9 & H10 & H11 & H12 & H13)
    Hk Hv Hb.
  destruct r as [req hit miss rim nim nih rcu wcu net avg].
  cbn [stats.req_cnt stats.hit_cnt stats.miss_cnt stats.db_rcu_consump
       stats.db_rcu_consump_if_miss stats.net_bw_consump_if_hit
       stats.net_bw_consump stats.net_bw_consump_if_miss] in *.
  destruct e as [k v is_miss | k v];
    cbn [sizes_of fst snd volume is_get record] in *;
    unfold stats.record_get_done, stats.record_set_done, utils.kv_to_rcu,
      utils.kv_to_wcu, utils.kv_to_net_get_client,
      utils.kv_to_net_get_storage, utils.kv_to_net_set_client,
      utils.kv_to_net_set_storage, config.alloc_total_net_bw;
    cbn [stats.req_cnt stats.hit_cnt stats.miss_cnt stats.db_rcu_consump
         stats.db_rcu_consump_if_miss stats.net_bw_consump_if_hit
         stats.net_bw_consump stats.net_bw_consump_if_miss andb];
    pose proof (Z.div_pos (k + v) 4096 ltac:(lia) ltac:(lia)) as D1;
    assert (D2 : (k + v) / 4096 <= k + v)
      by (apply Z.div_le_upper_bound; lia);
    rewrite (u64_small (k + v)) by (unfold is_u64; lia).
  - destruct is_miss; no_wrap; lia.
  - no_wrap; lia.
Qed.

Lemma record_all_within (aw : bool) (l : list recorded) :
  forall (r : stats.t) (b n g : Z),
    within r b n g ->
    Forall (fun e => 0 <= (sizes_of e).1 /\ 0 <= (sizes_of e).2) l ->
    b + volume l < 2 ^ 64 ->
    within (fold_left (record aw) l r) (b + volume l)
      (n + Z.of_nat (length l))
      (g + Z.of_nat (length (filter (fun e => is_get e = true) l))).
Proof.
  induction l as [|e l IH]; intros r b n g Hw Hs Hb.
  - simpl. rewrite !Z.add_0_r. exact Hw.
  - apply Forall_cons in Hs as [[Hk Hv] Hs].
    assert (V : 0 <= volume l).
    { clear -Hs. induction Hs as [|x l [Hx1 Hx2] _ IH]; simpl; lia. }
    change (volume (e :: l))
      with (2 * ((sizes_of e).1 + (sizes_of e).2) + 1 + volume l) in *.
    pose proof (record_within aw r e b n g Hw Hk Hv) as Hw1.
    change (volume [e])
      with (2 * ((sizes_of e).1 + (sizes_of e).2) + 1 + 0) in Hw1.
    specialize (Hw1 ltac:(lia)).
    specialize (IH _ _ _ _ Hw1 Hs ltac:(lia)).
    cbn [fold_left]. rewrite filter_cons.
    destruct (is_get e) eqn:Eg;
      [rewrite decide_True by reflexivity
      |rewrite decide_False by discriminate];
      unfold within in IH |- *; cbn [length]; lia.
Qed.

(** X16: as long as no counter wraps around, the statistics bracket the
    consumption: after any requests the number of requests is the number
    recorded, hits and misses add up to the number of GETs, the read
    capacity consumed is at most the one that would be consumed if every
    GET missed, and the bandwidth consumed lies between the one if every
    GET hit and the one if every GET missed. *)
Theorem stats_bracket_consumption (aw : bool) (l : list recorded) :
  Forall (fun e => 0 <= (sizes_of e).1 /\ 0 <= (sizes_of e).2) l ->
  volume l < 2 ^ 64 ->
  let r := record_all aw l in
  stats.req_cnt r = Z.of_nat (length l)
  /\ stats.hit_cnt r + stats.miss_cnt r
     = Z.of_nat (length (filter (fun e => is_get e = true) l))
  /\ 0 <= stats.db_rcu_consump r <= stats.db_rcu_consump_if_miss r
  /\ 0 <= stats.net_bw_consump_if_hit r <= stats.net_bw_consump r
  /\ stats.net_bw_consump r <= stats.net_bw_consump_if_miss r.
Proof.
  intros Hs Hb r.
  assert (W : within stats.zero 0 0 0) by (unfold within; simpl; lia).
  pose proof (record_all_within aw l _ _ _ _ W Hs ltac:(lia)) as H.
  unfold within in H. fold (record_all aw l) in H. fold r in H.
  rewrite !Z.add_0_l in H. lia.
Qed.

Lemma stats_bracket_consumption_witness :
  hopper.stats.req_cnt (record_all true example_requests) = 3
  /\ hopper.stats.hit_cnt (record_all true example_requests)
     + hopper.stats.miss_cnt (record_all true example_requests) = 2
  /\ 0 <= hopper.stats.db_rcu_consump (record_all true example_requests)
     <= hopper.stats.db_rcu_consump_if_miss
          (record_all true example_requests)
  /\ 0 <= hopper.stats.net_bw_consump_if_hit
            (record_all true example_requests)
     <= hopper.stats.net_bw_consump (record_all true example_requests)
  /\ hopper.stats.net_bw_consump (record_all true example_requests)
     <= hopper.stats.net_bw_consump_if_miss
          (record_all true example_requests).
Proof.
  apply (stats_bracket_consumption true example_requests).
  - repeat constructor; simpl; lia.
  - vm_compute. reflexivity.
Defined.

End Stats.

(** ** The memory estimate of the ghost cache *)

Section MemEstimate.

Import hopper.
Import ghost.mem_estimate.

Lemma u32_small (x : Z) : 0 <= x < 2 ^ 32 -> u32 x = x.
Proof. intros H. unfold u32. apply Z.mod_small. exact H. Qed.

Lemma pow2_bounds (q : Z) : 3 <= q <= 29 -> 8 <= 2 ^ q <= 2 ^ 29.
Proof.
  intros H. split.
  - change 8 with (2 ^ 3). apply Z.pow_le_mono_r; lia.
  - apply Z.pow_le_mono_r; lia.
Qed.

(** The arithmetic of one size class does not wrap around. *)
Lemma rounded_no_wrap (d s : Z) :
  8 <= d <= 2 ^ 29 -> 0 <= s <= 8 * d - 4 ->
  u32 (u32 (u32 (s + 3) / d * d) + u32 (d - 4)) = (s + 3) / d * d + d - 4
  /\ (s + 3) / d <= 7.
Proof.
  intros Hd Hs.
  assert (P : 2 ^ 29 * 8 = 2 ^ 32) by reflexivity.
  assert (M : (s + 3) / d <= 7).
  { apply Z.lt_succ_r. apply Z.div_lt_upper_bound; lia. }
  pose proof (Z.mul_div_le (s + 3) d ltac:(lia)) as L.
  pose proof (Z.div_pos (s + 3) d ltac:(lia) ltac:(lia)) as N.
  assert (N2 : 0 <= (s + 3) / d * d) by nia.
  split; [|exact M].
  rewrite (u32_small (s + 3)) by lia.
  rewrite (u32_small (d - 4)) by lia.
  rewrite (u32_small (_ * d)) by nia.
  rewrite u32_small by nia. lia.
Qed.

Lemma round_size_loop_class (n : nat) :
  forall power s : Z,
    3 <= power -> power + Z.of_nat n = 32 -> 0 <= s <= 2 ^ 32 - 4 ->
    (power = 3 \/ 4 * 2 ^ power - 4 < s) ->
    exists q, size_class q s /\ round_size_loop n power s = Ok (rounded q s).
Proof.
  induction n as [|n IH]; intros power s Hp Hn Hs Hlo.
  - exfalso. assert (power = 32) by lia. subst power.
    destruct Hlo as [Hlo|Hlo]; [lia|].
    change (2 ^ 32) with 4294967296 in *. lia.
  - assert (Hq : power <= 29).
    { destruct Hlo as [->|Hlo]; [lia|].
      destruct (Z_le_gt_dec power 29) as [L|G]; [exact L|exfalso].
      assert (2 ^ 30 <= 2 ^ power) by (apply Z.pow_le_mono_r; lia).
      change (2 ^ 30) with 1073741824 in *.
      change (2 ^ 32) with 4294967296 in *. lia. }
    pose proof (pow2_bounds power ltac:(lia)) as B.
    change (2 ^ 29) with 536870912 in B.
    cbn [round_size_loop]. rewrite Z.shiftl_1_l.
    rewrite (u32_small (2 ^ power))
      by (change (2 ^ 32) with 4294967296; lia).
    rewrite (u32_small (2 ^ power * 8 - 4))
      by (change (2 ^ 32) with 4294967296; lia).
    destruct (s <=? 2 ^ power * 8 - 4) eqn:E.
    + apply Z.leb_le in E. exists power. split.
      * unfold size_class. split; [lia|]. split; [exact Hlo|lia].
      * unfold rounded.
        destruct (rounded_no_wrap (2 ^ power) s) as [R _];
          [change (2 ^ 29) with 536870912; lia|lia|].
        rewrite R. reflexivity.
    + apply Z.leb_gt in E.
      rewrite (u32_small (power + 1))
        by (change (2 ^ 32) with 4294967296; lia).
      apply IH; [lia|lia|exact Hs|].
      right. rewrite Z.pow_add_r by lia. change (2 ^ 1) with 2. lia.
Qed.

Lemma round_size_class (s : Z) :
  0 <= s <= 2 ^ 32 - 4 ->
  exists q, size_class q s /\ round_size s = Ok (rounded q s).
Proof.
  intros Hs. unfold round_size.
  assert (C : forall q d,
            3 <= q <= 9 -> d = 2 ^ q -> (q = 3 \/ 4 * d - 4 < s) ->
            s <= 8 * d - 4 ->
            exists q, size_class q s
                      /\ Ok (u32 (u32 (u32 (s + 3) / d * d) + (d - 4)))
                         = Ok (rounded q s)).
  { intros q d Hq -> Hlo Hhi. exists q. split.
    - unfold size_class. split; [lia|]. split; [exact Hlo|exact Hhi].
    - pose proof (pow2_bounds q ltac:(lia)) as B.
      destruct (rounded_no_wrap (2 ^ q) s) as [R _]; [exact B|lia|].
      rewrite (u32_small (2 ^ q - 4)) in R
        by (change (2 ^ 29) with 536870912 in B;
            change (2 ^ 32) with 4294967296; lia).
      unfold rounded. rewrite R. reflexivity. }
  destruct (s <=? 4) eqn:E0.
  { apply Z.leb_le in E0. exists 3. split.
    - unfold size_class. lia.
    - unfold rounded. change (2 ^ 3) with 8.
      replace ((s + 3) / 8) with 0; [reflexivity|].
      symmetry. apply Z.div_small. lia. }
  apply Z.leb_gt in E0.
  destruct (s <=? 60) eqn:E1;
    [apply Z.leb_le in E1; apply (C 3 8); [lia|reflexivity|lia|lia]|].
  apply Z.leb_gt in E1.
  destruct (s <=? 124) eqn:E2;
    [apply Z.leb_le in E2; apply (C 4 16); [lia|reflexivity|lia|lia]|].
  apply Z.leb_gt in E2.
  destruct (s <=? 252) eqn:E3;
    [apply Z.leb_le in E3; apply (C 5 32); [lia|reflexivity|lia|lia]|].
  apply Z.leb_gt in E3.
  destruct (s <=? 508) eqn:E4;
    [apply Z.leb_le in E4; apply (C 6 64); [lia|reflexivity|lia|lia]|].
  apply Z.leb_gt in E4.
  destruct (s <=? 1020) eqn:E5;
    [apply Z.leb_le in E5; apply (C 7 128); [lia|reflexivity|lia|lia]|].
  apply Z.leb_gt in E5.
  destruct (s <=? 2044) eqn:E6;
    [apply Z.leb_le in E6; apply (C 8 256); [lia|reflexivity|lia|lia]|].
  apply Z.leb_gt in E6.
  destruct (s <=? 4092) eqn:E7;
    [apply Z.leb_le in E7; apply (C 9 512); [lia|reflexivity|lia|lia]|].
  apply Z.leb_gt in E7.
  apply round_size_loop_class; [lia|lia|exact Hs|left; reflexivity].
Qed.

Lemma rounded_facts (q s : Z) :
  0 <= s -> size_class q s ->
  s <= rounded q s <= 8 * 2 ^ q - 4
  /\ 4 * (rounded q s - s) < s + 32
  /\ rounded q s mod 8 = 4
  /\ size_class q (rounded q s)
  /\ rounded q (rounded q s) = rounded q s.
Proof.
  intros H0 (Hq & Hlo & Hhi). unfold rounded.
  pose proof (pow2_bounds q Hq) as B.
  change (2 ^ 29) with 536870912 in B.
  destruct (rounded_no_wrap (2 ^ q) s) as [_ M];
    [change (2 ^ 29) with 536870912; lia|lia|].
  set (d := 2 ^ q) in *. set (m := (s + 3) / d) in *.
  pose proof (Z.div_mod (s + 3) d ltac:(lia)) as E. fold m in E.
  pose proof (Z.mod_pos_bound (s + 3) d ltac:(lia)) as R.
  assert (N : 0 <= m) by (apply Z.div_pos; lia).
  assert (D8 : exists d', d = 8 * d').
  { exists (2 ^ (q - 3)). subst d.
    replace q with (3 + (q - 3)) at 1 by lia.
    rewrite Z.pow_add_r by lia. reflexivity. }
  destruct D8 as [d' D8].
  assert (A1 : s <= m * d + d - 4) by lia.
  assert (A2 : m * d + d - 4 <= 8 * d - 4) by nia.
  assert (A5 : (m * d + d - 4 + 3) / d = m).
  { symmetry. apply (Z.div_unique _ d m (d - 1)); lia. }
  split; [lia|]. split.
  { destruct Hlo as [->|Hlo]; [subst d; change (2 ^ 3) with 8 in *|]; lia. }
  split.
  { replace (m * d + d - 4) with (4 + (m * d' + d' - 1) * 8) by lia.
    rewrite Z.mod_add by lia. reflexivity. }
  split.
  { unfold size_class. fold d. split; [exact Hq|]. split; [|lia].
    destruct Hlo as [->|Hlo]; [left; reflexivity|right; lia]. }
  rewrite A5. reflexivity.
Qed.

Lemma size_class_unique (q q' s : Z) :
  size_class q s -> size_class q' s -> q = q'.
Proof.
  assert (A : forall a b x, size_class a x -> size_class b x -> ~ a < b).
  { intros a b x (Ha & _ & Hhi) (Hb & [->|Hlo] & _) L; [lia|].
    assert (2 ^ (a + 1) <= 2 ^ b) by (apply Z.pow_le_mono_r; lia).
    rewrite Z.pow_add_r in * by lia. change (2 ^ 1) with 2 in *. lia. }
  intros H H'. pose proof (A _ _ _ H H'). pose proof (A _ _ _ H' H). lia.
Qed.

Lemma round_size_loop_overflow (n : nat) :
  forall power s : Z,
    2 ^ 32 - 4 < s -> round_size_loop n power s = Err Undefined.
Proof.
  induction n as [|n IH]; intros power s Hs; [reflexivity|].
  cbn [round_size_loop].
  set (d := u32 (Z.shiftl 1 power)).
  assert (U : u32 (d * 8 - 4) <= 2 ^ 32 - 4).
  { unfold u32. generalize d. intros x.
    pose proof (Z.div_mod (x * 8 - 4) (2 ^ 32) ltac:(lia)) as E.
    pose proof (Z.mod_pos_bound (x * 8 - 4) (2 ^ 32) ltac:(lia)) as R.
    change (2 ^ 32) with 4294967296 in *. lia. }
  destruct (s <=? u32 (d * 8 - 4)) eqn:E; [apply Z.leb_le in E; lia|].
  apply IH, Hs.
Qed.

(** X17: [round_size] rounds a size up to a size class: for a size of at
    most [2^32 - 4] it returns a size that is not smaller, exceeds the
    size by less than a quarter of it plus 8, is 4 modulo 8, and is left
    as it is when rounded again; a larger size gives at least as large a
    result.  For the three sizes above [2^32 - 4] the loop runs until it
    shifts by the width of the integer, which has no defined result. *)
Theorem round_size_rounds_up (s : Z) :
  0 <= s < 2 ^ 32 ->
  (s <= 2 ^ 32 - 4 ->
   exists r,
     round_size s = Ok r
     /\ s <= r <= 2 ^ 32 - 4
     /\ 4 * (r - s) < s + 32
     /\ r mod 8 = 4
     /\ round_size r = Ok r
     /\ forall s' r',
          s <= s' -> round_size s' = Ok r' -> r <= r')
  /\ (2 ^ 32 - 4 < s -> round_size s = Err Undefined).
Proof.
  intros Hs. split.
  - intros Hle.
    destruct (round_size_class s ltac:(lia)) as (q & C & E).
    destruct (rounded_facts q s ltac:(lia) C) as (F1 & F2 & F3 & F4 & F5).
    pose proof C as (Hq & Hlo & Hhi).
    pose proof (pow2_bounds q Hq) as B.
    change (2 ^ 29) with 536870912 in B.
    change (2 ^ 32) with 4294967296 in *.
    exists (rounded q s). split; [exact E|].
    split; [lia|]. split; [exact F2|].
    split; [exact F3|]. split.
    + destruct (round_size_class (rounded q s)
                  ltac:(change (2 ^ 32) with 4294967296; lia))
        as (q2 & C2 & E2).
      rewrite (size_class_unique _ _ _ C2 F4) in E2.
      rewrite E2, F5. reflexivity.
    + intros s' r' Hss E'.
      destruct (Z_le_gt_dec s' (4294967296 - 4)) as [L|G].
      2:{ exfalso. assert (X : round_size s' = Err Undefined).
          { unfold round_size.
            repeat match goal with
                   | |- context [s' <=? ?c] =>
                       let L := fresh "L" in
                       destruct (s' <=? c) eqn:L;
                       [apply Z.leb_le in L; lia|clear L]
                   end.
            apply round_size_loop_overflow.
            change (2 ^ 32) with 4294967296. lia. }
          congruence. }
      destruct (round_size_class s'
                  ltac:(change (2 ^ 32) with 4294967296; lia))
        as (q' & C' & E2).
      assert (r' = rounded q' s') by congruence. subst r'.
      destruct (rounded_facts q' s' ltac:(lia) C')
        as (G1 & G2 & G3 & G4 & G5).
      destruct (Z.lt_trichotomy q q') as [Lt|[Eq|Gt]].
      * destruct C' as (Hq' & [->|Hlo'] & Hhi'); [lia|].
        assert (2 ^ (q + 1) <= 2 ^ q') by (apply Z.pow_le_mono_r; lia).
        rewrite Z.pow_add_r in * by lia. change (2 ^ 1) with 2 in *. lia.
      * subst q'. unfold rounded.
        assert ((s + 3) / 2 ^ q <= (s' + 3) / 2 ^ q)
          by (apply Z.div_le_mono; lia).
        nia.
      * exfalso. destruct C' as (Hq' & _ & Hhi').
        destruct Hlo as [->|Hlo]; [lia|].
        assert (2 ^ (q' + 1) <= 2 ^ q) by (apply Z.pow_le_mono_r; lia).
        rewrite Z.pow_add_r in * by lia. change (2 ^ 1) with 2 in *. lia.
  - intros Hgt. unfold round_size.
    change (2 ^ 32) with 4294967296 in *.
    repeat match goal with
           | |- context [s <=? ?c] =>
               let L := fresh "L" in
               destruct (s <=? c) eqn:L; [apply Z.leb_le in L; lia|clear L]
           end.
    apply round_size_loop_overflow. change (2 ^ 32) with 4294967296. lia.
Qed.

Lemma round_size_rounds_up_witness :
  exists r,
    round_size 100 = Ok r /\ 100 <= r <= 2 ^ 32 - 4 /\ r mod 8 = 4
    /\ round_size r = Ok r.
Proof.
  destruct (proj1 (round_size_rounds_up 100 ltac:(lia)) ltac:(lia))
    as (r & H1 & H2 & _ & H4 & H5 & _).
  exists r. repeat split; try assumption; lia.
Defined.

(** X18: [estimate] never underestimates a pair of sizes of at most
    [2^30] each: it returns the fixed cost 55 plus the two rounded sizes
    without wrapping around, which is at least [55 + key_size + val_size]
    and less than [71 + 5/4 (key_size + val_size)]. *)
Theorem estimate_covers (key_size val_size : Z) :
  0 <= key_size <= 2 ^ 30 -> 0 <= val_size <= 2 ^ 30 ->
  exists k v e,
    round_size key_size = Ok k /\ round_size val_size = Ok v
    /\ estimate key_size val_size = Ok e
    /\ e = 55 + k + v
    /\ 55 + key_size + val_size <= e
    /\ 4 * e < 5 * (key_size + val_size) + 284.
Proof.
  intros Hk Hv. change (2 ^ 30) with 1073741824 in *.
  destruct (round_size_class key_size
              ltac:(change (2 ^ 32) with 4294967296; lia))
    as (qk & Ck & Ek).
  destruct (round_size_class val_size
              ltac:(change (2 ^ 32) with 4294967296; lia))
    as (qv & Cv & Ev).
  destruct (rounded_facts qk key_size ltac:(lia) Ck) as (K1 & K2 & _).
  destruct (rounded_facts qv val_size ltac:(lia) Cv) as (V1 & V2 & _).
  exists (rounded qk key_size), (rounded qv val_size),
    (55 + rounded qk key_size + rounded qv val_size).
  split; [exact Ek|]. split; [exact Ev|]. split.
  { unfold estimate. rewrite Ek, Ev. simpl. unfold fixed_cost.
    rewrite (u32_small (55 + _))
      by (change (2 ^ 32) with 4294967296; lia).
    rewrite u32_small by (change (2 ^ 32) with 4294967296; lia).
    reflexivity. }
  split; [reflexivity|]. lia.
Qed.

Lemma estimate_covers_witness :
  exists e, estimate 16 500 = Ok e /\ 55 + 16 + 500 <= e.
Proof.
  destruct (estimate_covers 16 500 ltac:(lia) ltac:(lia))
    as (k & v & e & _ & _ & H & _ & H2 & _).
  exists e. split; assumption.
Defined.

End MemEstimate.

(** ** Comparison of a string of the runtime with a C string *)

Section Strcmp.

Import hopper.
Import utils.rstr.

Lemma compare_ascii (a b : Ascii.ascii) :
  (Ascii.nat_of_ascii a ?= Ascii.nat_of_ascii b)%nat = Eq <-> a = b.
Proof.
  rewrite Nat.compare_eq_iff. split; [|congruence].
  intros H. rewrite <- (Ascii.ascii_nat_embedding a), <- (Ascii.ascii_nat_embedding b).
  congruence.
Qed.

Lemma strncmp_prefix (rstr : string) :
  forall cstr : string,
    no_zero_byte rstr ->
    (strncmp rstr cstr (String.length rstr) = Eq
     <-> String.prefix rstr cstr = true).
Proof.
  induction rstr as [|c r IH]; intros cstr Hz.
  - simpl. destruct cstr; split; reflexivity.
  - destruct Hz as [Hc Hz]. cbn [String.length strncmp char_at_0 advance].
    destruct cstr as [|c' r'].
    + cbn [char_at_0 String.prefix].
      destruct (Ascii.nat_of_ascii c ?= Ascii.nat_of_ascii NUL)%nat eqn:E.
      * apply compare_ascii in E. contradiction.
      * split; discriminate.
      * split; discriminate.
    + cbn [char_at_0 advance String.prefix].
      destruct (Ascii.nat_of_ascii c ?= Ascii.nat_of_ascii c')%nat eqn:E.
      * apply compare_ascii in E. subst c'.
        rewrite (proj2 (Ascii.eqb_neq c NUL) Hc).
        destruct (Ascii.ascii_dec c c) as [_|N]; [|contradiction].
        apply IH, Hz.
      * assert (N : c <> c').
        { intros ->. rewrite Nat.compare_refl in E. discriminate. }
        destruct (Ascii.ascii_dec c c') as [Y|_]; [contradiction|].
        split; discriminate.
      * assert (N : c <> c').
        { intros ->. rewrite Nat.compare_refl in E. discriminate. }
        destruct (Ascii.ascii_dec c c') as [Y|_]; [contradiction|].
        split; discriminate.
Qed.

(** X19: [strcmp] of a string of the runtime with a C string compares
    only as many bytes as the former has: for a string without a zero
    byte it answers 0 exactly when the string is a prefix of the C string,
    so that the empty string and every abbreviation of the C string
    compare equal to it. *)
Theorem strcmp_accepts_prefixes (rstr cstr : string) :
  no_zero_byte rstr ->
  (strcmp rstr cstr = Eq <-> String.prefix rstr cstr = true)
  /\ strcmp "" cstr = Eq
  /\ strcmp cstr cstr = Eq.
Proof.
  intros Hz. split; [apply strncmp_prefix, Hz|]. split; [reflexivity|].
  unfold strcmp. induction cstr as [|c r IH]; [reflexivity|].
  cbn [String.length strncmp char_at_0 advance].
  rewrite Nat.compare_refl.
  destruct (Ascii.eqb c NUL); [reflexivity|exact IH].
Qed.

Lemma strcmp_accepts_prefixes_witness :
  strcmp "dyn" "dynamo.table" = Eq /\ strcmp "dynamo.tables" "dynamo.table" <> Eq.
Proof.
  assert (Z1 : no_zero_byte "dyn") by (simpl; repeat split; discriminate).
  assert (Z2 : no_zero_byte "dynamo.tables")
    by (simpl; repeat split; discriminate).
  split.
  - apply (proj1 (strcmp_accepts_prefixes "dyn" "dynamo.table" Z1)).
    reflexivity.
  - intros H.
    apply (proj1 (strcmp_accepts_prefixes "dynamo.tables" "dynamo.table" Z2))
      in H.
    discriminate H.
Defined.

End Strcmp.

(** ** The format of the synthesized key-value pairs *)

Section MockFormat.

Import hopper.

Lemma to_string_from_length (n : nat) :
  forall (x : Z) (acc : string),
    0 <= x ->
    exists d : Z,
      size (to_string_from n x acc) = size acc + d
      /\ 1 <= d <= Z.of_nat n + 1
      /\ forall k, 1 <= k <= Z.of_nat n + 1 -> x < 10 ^ k -> d <= k.
Proof.
  induction n as [|n IH]; intros x acc Hx.
  - exists 1. cbn [to_string_from]. unfold size. cbn [String.length].
    split; [lia|]. split; [lia|]. intros k Hk _. lia.
  - cbn [to_string_from]. destruct (x <? 10) eqn:E.
    + exists 1. unfold size. cbn [String.length].
      split; [lia|]. split; [lia|]. intros k Hk _. lia.
    + apply Z.ltb_ge in E.
      destruct (IH (x / 10) (String (digit x) acc)) as (d & L & B & K).
      { apply Z.div_pos; lia. }
      exists (d + 1). rewrite L. unfold size. cbn [String.length].
      split; [lia|]. split; [lia|].
      intros k Hk Hlt.
      assert (k <> 1) by (intros ->; change (10 ^ 1) with 10 in Hlt; lia).
      assert (d <= k - 1); [|lia].
      apply K; [lia|].
      apply Z.div_lt_upper_bound; [lia|].
      replace k with (1 + (k - 1)) in Hlt by lia.
      rewrite Z.pow_add_r in Hlt by lia. exact Hlt.
Qed.

Lemma to_string_length (x : Z) :
  0 <= x < 2 ^ 32 -> 1 <= size (to_string x) <= 10.
Proof.
  intros Hx. unfold to_string.
  destruct (to_string_from_length 19 x "" ltac:(lia)) as (d & L & B & K).
  rewrite L. change (size "") with 0.
  specialize (K 10 ltac:(lia)).
  change (10 ^ 10) with 10000000000 in K.
  change (2 ^ 32) with 4294967296 in Hx. lia.
Qed.

Lemma u32_i32_facts (x : Z) :
  (0 <= x < 2 ^ 31 -> i32 (u32 x) = x)
  /\ (- 2 ^ 31 <= x < 0 -> i32 (u32 x) = x)
  /\ (2 ^ 31 <= x < 2 ^ 32 -> i32 (u32 x) < 0).
Proof.
  unfold i32, u32.
  change (2 ^ 31) with 2147483648. change (2 ^ 32) with 4294967296.
  repeat split; intros H; Z.div_mod_to_equations; lia.
Qed.

(** X20: [update_mock_format] accepts a pair of sizes only with a
    consistent layout: the key and the value are the three marks, the
    size field, an offset field of 1 to 10 bytes and a padding that is not
    negative; the size field holds the decimal digits of both sizes.  It
    rejects sizes with no room for an offset byte, and accepts the other
    sizes below [2^31]. *)
Theorem update_mock_format_layout (k v : Z) :
  0 <= k < 2 ^ 32 -> 0 <= v < 2 ^ 32 ->
  let sl := Z.max (size (to_string k)) (size (to_string v)) in
  (forall f,
     storage.update_mock_format k v = Ok f ->
     storage.key_size f = k /\ storage.val_size f = v
     /\ storage.size_len f = sl
     /\ storage.offset_len f = Z.min (Z.min k v - 3 - sl) 10
     /\ 1 <= storage.offset_len f <= 10
     /\ 0 <= storage.k_pad_len f /\ 0 <= storage.v_pad_len f
     /\ 3 + sl + storage.offset_len f + storage.k_pad_len f = k
     /\ 3 + sl + storage.offset_len f + storage.v_pad_len f = v)
  /\ (Z.min k v <= 3 + sl ->
      storage.update_mock_format k v
      = Err (LogicError "Incorrect KV format: least_len_left <= 0"))
  /\ (3 + sl < Z.min k v -> Z.max k v < 2 ^ 31 ->
      exists f, storage.update_mock_format k v = Ok f).
Proof.
  intros Hk Hv sl.
  pose proof (to_string_length k Hk) as Lk.
  pose proof (to_string_length v Hv) as Lv.
  assert (Hsl : 1 <= sl <= 10) by (subst sl; lia).
  unfold storage.update_mock_format. fold sl.
  rewrite (u32_small sl) by (change (2 ^ 32) with 4294967296; lia).
  set (m := Z.min k v).
  assert (Hm : 0 <= m < 2 ^ 32) by (subst m; lia).
  set (least := i32 (u32 (u32 (m - 3) - sl))).
  assert (Hleast : (m <= 3 + sl -> least <= 0)
                   /\ (3 + sl < m -> m < 2 ^ 31 + 3 + sl ->
                       least = m - 3 - sl)
                   /\ (2 ^ 31 + 3 + sl <= m -> least < 0)).
  { subst least. unfold i32, u32.
    change (2 ^ 31) with 2147483648 in *.
    change (2 ^ 32) with 4294967296 in *.
    repeat split; intros; Z.div_mod_to_equations; lia. }
  destruct Hleast as (Hl1 & Hl2 & Hl3).
  assert (Hpad : forall x ol,
            m <= x < 2 ^ 32 -> 3 + sl < m -> 1 <= ol <= 10 ->
            ol <= m - 3 - sl ->
            let p := i32 (u32 (u32 (u32 (x - 3) - sl) - ol)) in
            (x - 3 - sl - ol < 2 ^ 31 -> p = x - 3 - sl - ol)
            /\ (2 ^ 31 <= x - 3 - sl - ol -> p < 0)).
  { intros x ol Hx H1 H2 H3 p. subst p. unfold i32, u32.
    change (2 ^ 31) with 2147483648 in *.
    change (2 ^ 32) with 4294967296 in *.
    split; intros; Z.div_mod_to_equations; lia. }
  change (2 ^ 31) with 2147483648 in *.
  change (2 ^ 32) with 4294967296 in *.
  split; [|split].
  - intros f. destruct (least <=? 0) eqn:E0; [discriminate|].
    apply Z.leb_gt in E0.
    assert (M1 : 3 + sl < m) by lia.
    assert (M2 : m < 2147483648 + 3 + sl) by lia.
    rewrite (Hl2 M1 M2) in *.
    set (ol := Z.min (m - 3 - sl) 10) in *.
    assert (Hol : 1 <= ol <= 10) by (subst ol; lia).
    rewrite (u32_small ol) by (change (2 ^ 32) with 4294967296; lia).
    destruct (Hpad k ol ltac:(subst m; lia) M1 Hol ltac:(subst ol; lia))
      as [Pk1 Pk2].
    destruct (Hpad v ol ltac:(subst m; lia) M1 Hol ltac:(subst ol; lia))
      as [Pv1 Pv2].
    destruct (i32 (u32 (u32 (u32 (k - 3) - sl) - ol)) <? 0) eqn:Ek;
      [discriminate|].
    destruct (i32 (u32 (u32 (u32 (v - 3) - sl) - ol)) <? 0) eqn:Ev;
      [discriminate|].
    apply Z.ltb_ge in Ek, Ev.
    rewrite Pk1 in * by lia. rewrite Pv1 in * by lia.
    intros F. injection F as <-. cbn.
    rewrite !u32_small by (change (2 ^ 32) with 4294967296; subst m; lia).
    subst m. lia.
  - intros Hmin. rewrite (proj2 (Z.leb_le _ _) (Hl1 Hmin)). reflexivity.
  - intros Hmin Hmax.
    assert (M2 : m < 2147483648 + 3 + sl) by (subst m; lia).
    rewrite (Hl2 Hmin M2).
    rewrite (proj2 (Z.leb_gt _ _)) by lia.
    set (ol := Z.min (m - 3 - sl) 10) in *.
    assert (Hol : 1 <= ol <= 10) by (subst ol; lia).
    rewrite (u32_small ol) by (change (2 ^ 32) with 4294967296; lia).
    destruct (Hpad k ol ltac:(subst m; lia) Hmin Hol ltac:(subst ol; lia))
      as [Pk1 _].
    destruct (Hpad v ol ltac:(subst m; lia) Hmin Hol ltac:(subst ol; lia))
      as [Pv1 _].
    rewrite Pk1 by lia. rewrite Pv1 by lia.
    rewrite (proj2 (Z.ltb_ge _ _)) by (subst m; lia).
    rewrite (proj2 (Z.ltb_ge _ _)) by (subst m; lia).
    eexists. reflexivity.
Qed.

Lemma update_mock_format_layout_witness :
  exists f,
    storage.update_mock_format 16 500 = Ok f
    /\ storage.size_len f = 3 /\ storage.offset_len f = 10
    /\ storage.k_pad_len f = 0 /\ storage.v_pad_len f = 484.
Proof.
  destruct (update_mock_format_layout 16 500 ltac:(lia) ltac:(lia))
    as (H1 & _ & H3).
  destruct (H3 ltac:(vm_compute; reflexivity) ltac:(vm_compute; reflexivity))
    as (f & E).
  exists f. split; [exact E|].
  destruct (H1 f E) as (K1 & K2 & K3 & K4 & K5 & K6 & K7 & K8 & K9).
  change (Z.max (size (to_string 16)) (size (to_string 500))) with 3 in *.
  change (Z.min (Z.min 16 500 - 3 - 3) 10) with 10 in *.
  repeat split; lia.
Defined.

End MockFormat.

(** ** The command that changes the settings *)

Section ConfigSet.

Import hopper.
Import config_set.

Lemma round_tick_floor (x : Z) :
  0 <= x < 2 ^ 32 -> ghost.round_tick x = 32 * (x / 32).
Proof.
  intros H. unfold ghost.round_tick, ghost.ghost_sample_shift.
  rewrite Z.shiftr_div_pow2, Z.shiftl_mul_pow2 by lia.
  change (2 ^ 5) with 32.
  rewrite u32_small; [lia|].
  change (2 ^ 32) with 4294967296 in *.
  Z.div_mod_to_equations. lia.
Qed.

(** X21: the option [ghost.range] rounds the tick and the minimum down
    to multiples of 32 and the maximum down to the minimum plus a multiple
    of the tick; a tick below 32 is rounded to 0, by which the command
    then divides. *)
Theorem config_set_ghost_range (e : env) (c : settings)
    (cmd a2 a3 a4 : string) (t lo hi : Z) :
  StringToULongLong e a2 = Some t ->
  StringToULongLong e a3 = Some lo ->
  StringToULongLong e a4 = Some hi ->
  0 <= t < 2 ^ 32 -> 0 <= lo < 2 ^ 32 -> 0 <= hi < 2 ^ 32 ->
  let run :=
    RedisModule_HopperConfigSet e c [cmd; "ghost.range"; a2; a3; a4]%string in
  (t < 32 -> run = Err Undefined)
  /\ (32 <= t -> 32 * (lo / 32) <= 32 * (hi / 32) -> ghost_load e <> -2 ->
      exists c' n,
        run = Ok (ReplySimpleString "OK", c')
        /\ tick c' = 32 * (t / 32) /\ t - 32 < tick c' <= t
        /\ min_tick c' = 32 * (lo / 32) /\ lo - 32 < min_tick c' <= lo
        /\ 0 <= n /\ max_tick c' = min_tick c' + n * tick c'
        /\ hi - 32 - tick c' < max_tick c' <= hi
        /\ table c' = table c /\ mock c' = mock c
        /\ admit_write c' = admit_write c
        /\ mock_format c' = mock_format c /\ mock_image c' = mock_image c).
Proof.
  intros E2 E3 E4 Ht Hlo Hhi run. subst run.
  unfold RedisModule_HopperConfigSet.
  cbn [length Nat.ltb Nat.leb Nat.eqb negb at_index lookup list_lookup mbind
       res_bind].
  change (utils.rstr.strcmp "ghost.range" "dynamo.table") with Gt.
  change (utils.rstr.strcmp "ghost.range" "dynamo.mock") with Gt.
  change (utils.rstr.strcmp "ghost.range" "cache.admit_write") with Gt.
  change (utils.rstr.strcmp "ghost.range" "ghost.range") with Eq.
  cbn [is_0]. rewrite E2, E3, E4.
  rewrite !(u32_small t), !(u32_small lo), !(u32_small hi) by lia.
  rewrite !round_tick_floor by lia.
  set (T := 32 * (t / 32)). set (L := 32 * (lo / 32)).
  set (H := 32 * (hi / 32)).
  assert (HT : t - 32 < T <= t) by (subst T; Z.div_mod_to_equations; lia).
  assert (HL : lo - 32 < L <= lo) by (subst L; Z.div_mod_to_equations; lia).
  assert (HH : hi - 32 < H <= hi) by (subst H; Z.div_mod_to_equations; lia).
  split.
  - intros Hs. replace T with 0; [reflexivity|].
    subst T. rewrite Z.div_small by lia. reflexivity.
  - intros Hs Hle Hg.
    assert (T0 : 32 <= T) by (subst T; Z.div_mod_to_equations; lia).
    rewrite (proj2 (Z.eqb_neq T 0)) by lia.
    unfold ghost_init. rewrite (proj2 (Z.eqb_neq _ _) Hg).
    cbn [mbind res_bind].
    set (n := (H - L) / T).
    assert (Hn : 0 <= n) by (apply Z.div_pos; lia).
    assert (Hn2 : H - L - T < n * T <= H - L).
    { pose proof (Z.div_mod (H - L) T ltac:(lia)) as D.
      pose proof (Z.mod_pos_bound (H - L) T ltac:(lia)) as R.
      fold n in D. nia. }
    change (2 ^ 32) with 4294967296 in *.
    rewrite (u64_small (H - L)) by (unfold is_u64; lia).
    fold n.
    rewrite (u64_small (n * T)) by (unfold is_u64; nia).
    rewrite (u64_small (L + n * T)) by (unfold is_u64; nia).
    rewrite !u32_small by (change (2 ^ 32) with 4294967296; nia).
    eexists _, n. split; [reflexivity|].
    cbn [tick min_tick max_tick table mock admit_write mock_format mock_image
         set_range].
    repeat split; try reflexivity; lia.
Qed.

Lemma config_set_ghost_range_witness :
  (exists c' n,
     RedisModule_HopperConfigSet example_env default_settings
       ["HOPPER.CONFIG.SET"; "ghost.range"; "96"; "40"; "1000"]%string
     = Ok (ReplySimpleString "OK", c')
     /\ tick c' = 96 /\ min_tick c' = 32
     /\ max_tick c' = min_tick c' + n * tick c')
  /\ RedisModule_HopperConfigSet example_env default_settings
       ["HOPPER.CONFIG.SET"; "ghost.range"; "20"; "40"; "1000"]%string
     = Err Undefined.
Proof.
  split.
  - destruct (proj2 (config_set_ghost_range example_env default_settings
                       "HOPPER.CONFIG.SET" "96" "40" "1000" 96 40 1000
                       eq_refl eq_refl eq_refl ltac:(lia) ltac:(lia)
                       ltac:(lia))
                ltac:(lia) ltac:(vm_compute; discriminate)
                ltac:(vm_compute; discriminate))
      as (c' & n & H1 & H2 & _ & H4 & _ & _ & H7 & _).
    exists c', n. repeat split; assumption.
  - apply (proj1 (config_set_ghost_range example_env default_settings
                    "HOPPER.CONFIG.SET" "20" "40" "1000" 20 40 1000
                    eq_refl eq_refl eq_refl ltac:(lia) ltac:(lia)
                    ltac:(lia))).
    lia.
Defined.






Lemma prefix_head (a : Ascii.ascii) (s : string) (b : Ascii.ascii)
    (t : string) :
  String.prefix (String a s) (String b t) = true -> a = b.
Proof.
  simpl. destruct (Ascii.ascii_dec a b); [auto|discriminate].
Qed.

Lemma prefix_head_ne (a : Ascii.ascii) (s : string) (b : Ascii.ascii)
    (t : string) :
  a <> b -> String.prefix (String a s) (String b t) = false.
Proof.
  intros H. simpl. destruct (Ascii.ascii_dec a b); [contradiction|reflexivity].
Qed.

(** X23: the name of an option is compared only as far as the argument
    reaches: every abbreviation of [dynamo.table], the empty name
    included, sets the table, and an abbreviated [true] or [false], the
    empty value included, sets [cache.admit_write]; a name that
    abbreviates none of the five options is answered with 'ERR
    unrecognized config'. *)
Theorem config_set_abbreviations (e : env) (c : settings)
    (cmd name value : string) :
  no_zero_byte name ->
  (String.prefix name "dynamo.table" = true ->
   RedisModule_HopperConfigSet e c [cmd; name; value]
   = Ok (ReplySimpleString "OK", set_table c value))
  /\ (name <> ""%string -> no_zero_byte value ->
      String.prefix name "cache.admit_write" = true ->
      String.prefix value "true" = true ->
      RedisModule_HopperConfigSet e c [cmd; name; value]
      = Ok (ReplySimpleString "OK", set_admit_write c true))
  /\ (String.prefix name "dynamo.table" = false ->
      String.prefix name "dynamo.mock" = false ->
      String.prefix name "cache.admit_write" = false ->
      String.prefix name "ghost.range" = false ->
      String.prefix name "policy.alloc_total_net_bw" = false ->
      RedisModule_HopperConfigSet e c [cmd; name; value]
      = Ok (ReplyError "ERR unrecognized config", c)).
Proof.
  intros Hz.
  assert (Y : forall a b, no_zero_byte a -> String.prefix a b = true ->
                          is_0 (utils.rstr.strcmp a b) = true).
  { intros a b Ha Hp. unfold utils.rstr.strcmp.
    rewrite (proj2 (strncmp_prefix a b Ha) Hp). reflexivity. }
  assert (N : forall a b, no_zero_byte a -> String.prefix a b = false ->
                          is_0 (utils.rstr.strcmp a b) = false).
  { intros a b Ha Hp. unfold utils.rstr.strcmp.
    destruct (utils.rstr.strncmp a b (String.length a)) eqn:E;
      [|reflexivity|reflexivity].
    apply (strncmp_prefix a b Ha) in E. congruence. }
  unfold RedisModule_HopperConfigSet.
  cbn [length Nat.ltb Nat.leb Nat.eqb negb at_index lookup list_lookup mbind
       res_bind].
  split; [|split].
  - intros Hp. rewrite (Y _ _ Hz Hp). reflexivity.
  - intros Hne Hv Hp Hpv.
    destruct name as [|a name]; [contradiction|].
    pose proof (prefix_head _ _ _ _ Hp) as ->.
    match type of Hp with
    | String.prefix ?n _ = _ =>
        assert (P1 : String.prefix n "dynamo.table" = false)
          by (apply prefix_head_ne; discriminate);
        assert (P2 : String.prefix n "dynamo.mock" = false)
          by (apply prefix_head_ne; discriminate)
    end.
    rewrite (N _ _ Hz P1), (N _ _ Hz P2), (Y _ _ Hz Hp), (Y _ _ Hv Hpv).
    reflexivity.
  - intros P1 P2 P3 P4 P5.
    rewrite (N _ _ Hz P1), (N _ _ Hz P2), (N _ _ Hz P3), (N _ _ Hz P4),
      (N _ _ Hz P5).
    reflexivity.
Qed.

Lemma config_set_abbreviations_witness :
  RedisModule_HopperConfigSet example_env default_settings
    ["HOPPER.CONFIG.SET"; ""; "t"]%string
  = Ok (ReplySimpleString "OK", set_table default_settings "t")
  /\ RedisModule_HopperConfigSet example_env default_settings
       ["HOPPER.CONFIG.SET"; "cache"; ""]%string
     = Ok (ReplySimpleString "OK", set_admit_write default_settings true).
Proof.
  split.
  - apply (proj1 (config_set_abbreviations example_env default_settings
                    "HOPPER.CONFIG.SET" "" "t" I)).
    reflexivity.
  - assert (Z1 : no_zero_byte "cache") by (simpl; repeat split; discriminate).
    apply (proj1 (proj2 (config_set_abbreviations example_env
                           default_settings "HOPPER.CONFIG.SET" "cache" ""
                           Z1))).
    + discriminate.
    + exact I.
    + reflexivity.
    + reflexivity.
Defined.

End ConfigSet.

(** ** The allocation of the instance *)

Section Resrc.

Import hopper.
Import resrc.

(** X25: [HOPPER.RESRC.SET] stores what [HOPPER.RESRC.GET] reports: a
    field that is not negative replaces the stored one, a negative field
    leaves it, and the cache size is stored modulo [2^32] while the memory
    limit of the runtime gets the whole number.  A new rate is proposed to
    its limiter, whose rate in force and progress stay.  A command that
    is not answered with OK changes nothing. *)
Theorem resrc_set_then_get (e : env) (s : state)
    (cmd cmd' a1 a2 a3 a4 : string) (c : Z) (r w n : Q) :
  StringToLongLong e a1 = Some c ->
  StringToDouble e a2 = Some r ->
  StringToDouble e a3 = Some w ->
  StringToDouble e a4 = Some n ->
  (0 <= c -> config_set_maxmemory e c = true) ->
  (exists s',
     RedisModule_HopperResrcSet e s [cmd; a1; a2; a3; a4]
     = Ok (ReplySimpleString "OK", s')
     /\ RedisModule_HopperResrcGet s' [cmd']
        = inr (if 0 <=? c then c mod 2 ^ 32
               else cache_size (allocated_resrc s),
               if Qle_bool 0 r then r else db_rcu (allocated_resrc s),
               if Qle_bool 0 w then w else db_wcu (allocated_resrc s),
               if Qle_bool 0 n then n else net_bw (allocated_resrc s))
     /\ maxmemory s' = (if 0 <=? c then c else maxmemory s)
     /\ rcu_rate_limiter s'
        = (if Qle_bool 0 r
           then rate.propose_new_rate (rcu_rate_limiter s) r
           else rcu_rate_limiter s)
     /\ wcu_rate_limiter s'
        = (if Qle_bool 0 w
           then rate.propose_new_rate (wcu_rate_limiter s) w
           else wcu_rate_limiter s)
     /\ net_rate_limiter s'
        = (if Qle_bool 0 n
           then rate.propose_new_rate (net_rate_limiter s) n
           else net_rate_limiter s)
     /\ rate.rate (rcu_rate_limiter s') = rate.rate (rcu_rate_limiter s)
     /\ rate.rate (wcu_rate_limiter s') = rate.rate (wcu_rate_limiter s)
     /\ rate.rate (net_rate_limiter s') = rate.rate (net_rate_limiter s))
  /\ (forall argv x s',
        RedisModule_HopperResrcSet e s argv = Ok (x, s') ->
        x <> ReplySimpleString "OK" -> s' = s).
Proof.
  intros E1 E2 E3 E4 Hc. split.
  - unfold RedisModule_HopperResrcSet.
    cbn [length Nat.eqb negb at_index lookup list_lookup mbind res_bind].
    rewrite E1, E2, E3, E4.
    assert (S1 : exists a mem,
              (if 0 <=? c
               then
                 if config_set_maxmemory e c
                 then
                   Ok (Some
                         (mk_allocated (u32 c) (db_rcu (allocated_resrc s))
                            (db_wcu (allocated_resrc s))
                            (net_bw (allocated_resrc s)), c))
                 else Ok None
               else Ok (Some (allocated_resrc s, maxmemory s)))
              = Ok (Some (a, mem))
              /\ cache_size a
                 = (if 0 <=? c then c mod 2 ^ 32
                    else cache_size (allocated_resrc s))
              /\ db_rcu a = db_rcu (allocated_resrc s)
              /\ db_wcu a = db_wcu (allocated_resrc s)
              /\ net_bw a = net_bw (allocated_resrc s)
              /\ mem = (if 0 <=? c then c else maxmemory s)).
    { destruct (0 <=? c) eqn:E0.
      - apply Z.leb_le in E0. rewrite (Hc E0).
        eexists _, _. split; [reflexivity|]. done.
      - eexists _, _. split; [reflexivity|]. done. }
    destruct S1 as (a & mem & -> & A1 & A2 & A3 & A4 & ->).
    cbn [mbind res_bind].
    destruct (Qle_bool 0 r), (Qle_bool 0 w), (Qle_bool 0 n);
      (eexists; split; [reflexivity|]);
      unfold RedisModule_HopperResrcGet;
      cbn [length Nat.eqb negb allocated_resrc cache_size db_rcu db_wcu
           net_bw maxmemory rcu_rate_limiter wcu_rate_limiter
           net_rate_limiter rate.propose_new_rate rate.rate];
      rewrite ?A1, ?A2, ?A3, ?A4; done.
  - intros argv x s' H Hx. unfold RedisModule_HopperResrcSet in H.
    repeat (cbn [mbind res_bind] in H;
            match type of H with
            | (match ?y with _ => _ end) = _ => destruct y eqn:?
            | (?y ≫= _) = _ => destruct y eqn:?
            | (let '(_, _) := ?y in _) = _ => destruct y eqn:?
            end);
      try discriminate H;
      injection H as <- <-; try contradiction; reflexivity.
Qed.

Lemma resrc_set_then_get_witness :
  exists s',
    RedisModule_HopperResrcSet example_resrc_env example_resrc
      ["HOPPER.RESRC.SET"; "4294967296"; "-1"; "250"; "-1"]%string
    = Ok (ReplySimpleString "OK", s')
    /\ RedisModule_HopperResrcGet s' ["HOPPER.RESRC.GET"]%string
       = inr (0, 100%Q, 250%Q, 1000%Q)
    /\ maxmemory s' = 4294967296.
Proof.
  destruct (proj1 (resrc_set_then_get example_resrc_env example_resrc
                     "HOPPER.RESRC.SET" "HOPPER.RESRC.GET" "4294967296"
                     "-1" "250" "-1" 4294967296 (-1) 250 (-1)
                     eq_refl eq_refl eq_refl eq_refl (fun _ => eq_refl)))
    as (s' & H1 & H2 & H3 & _).
  exists s'. split; [exact H1|]. split; [exact H2|exact H3].
Defined.

End Resrc.

(** ** The barrier *)

Section Barrier.

Import hopper.
Import barrier.

Lemma arrive_state (clients : list nat) :
  forall s : state,
    let s1 := arrive s clients in
    waiting_clients s1
    = waiting_clients s ++ seq (next_handle s) (length clients)
    /\ next_handle s1 = (next_handle s + length clients)%nat
    /\ unblocked s1 = unblocked s /\ replies s1 = replies s
    /\ (forall i c, clients !! i = Some c ->
                    blocked s1 !! (next_handle s + i)%nat = Some c)
    /\ (forall bc, (bc < next_handle s)%nat ->
                   blocked s1 !! bc = blocked s !! bc).
Proof.
  induction clients as [|c clients IH]; intros s.
  - simpl. rewrite app_nil_r, Nat.add_0_r. repeat split; try done.
  - cbn [arrive fold_left].
    change (fold_left _ clients ?x) with (arrive x clients).
    destruct (IH (RedisModule_HopperBarrierWait s c ["HOPPER.BARRIER.WAIT"]))
      as (I1 & I2 & I3 & I4 & I5 & I6).
    unfold RedisModule_HopperBarrierWait in *.
    cbn [length Nat.eqb negb waiting_clients next_handle unblocked replies
         blocked] in *.
    rewrite I1, I2, I3, I4. rewrite <- app_assoc.
    split; [reflexivity|]. split; [lia|]. split; [reflexivity|].
    split; [reflexivity|]. split.
    + intros i x Hi. destruct i as [|i].
      * injection Hi as ->. rewrite Nat.add_0_r.
        rewrite I6 by lia. apply lookup_insert_eq.
      * replace (next_handle s + S i)%nat with (S (next_handle s) + i)%nat
          by lia.
        apply I5. exact Hi.
    + intros bc Hb. rewrite I6 by lia. apply lookup_insert_ne. lia.
Qed.

Lemma run_callbacks_replies (clients : list nat) :
  forall (s : state) (n : nat),
    (forall i c, clients !! i = Some c -> blocked s !! (n + i)%nat = Some c) ->
    exists s',
      run_callbacks s (seq n (length clients)) = Ok s'
      /\ replies s'
         = replies s
           ++ map (fun c => (c, Reply (ReplySimpleString "OK"))) clients
      /\ waiting_clients s' = waiting_clients s
      /\ unblocked s' = unblocked s.
Proof.
  induction clients as [|c clients IH]; intros s n Hb.
  - exists s. simpl. rewrite app_nil_r. done.
  - cbn [length seq run_callbacks]. unfold run_reply_callback.
    pose proof (Hb 0%nat c eq_refl) as H0. rewrite Nat.add_0_r in H0.
    rewrite H0.
    cbn [mbind res_bind].
    destruct (IH (wait_callback s c) (S n)) as (s' & R & P & W & U).
    { intros i x Hi. cbn [wait_callback reply_with blocked].
      replace (S n + i)%nat with (n + S i)%nat by lia.
      apply Hb. exact Hi. }
    exists s'. split; [exact R|]. rewrite P, W, U.
    cbn [wait_callback reply_with replies waiting_clients unblocked map].
    rewrite <- app_assoc. done.
Qed.

(** X26: a signal releases every client that waits at the barrier,
    once and in the order of arrival: after the clients have arrived at
    an empty barrier the count is their number; the signal unblocks their
    handles, empties the barrier and is answered OK; the callbacks answer
    OK to the clients; and a second signal unblocks nobody. *)
Theorem barrier_releases_all (s : state) (clients : list nat)
    (c1 c2 c3 : nat) (cmd : string) :
  waiting_clients s = [] ->
  let handles := seq (next_handle s) (length clients) in
  let s1 := arrive s clients in
  let s2 := RedisModule_HopperBarrierSignal s1 c2 [cmd] in
  waiting_clients s1 = handles
  /\ replies (RedisModule_HopperBarrierCount s1 c1 [cmd])
     = replies s ++ [(c1, ReplyLongLong (Z.of_nat (length clients)))]
  /\ unblocked s2 = unblocked s ++ handles
  /\ waiting_clients s2 = []
  /\ replies s2 = replies s ++ [(c2, Reply (ReplySimpleString "OK"))]
  /\ (exists s3,
        run_callbacks s2 handles = Ok s3
        /\ replies s3
           = replies s2
             ++ map (fun c => (c, Reply (ReplySimpleString "OK"))) clients)
  /\ unblocked (RedisModule_HopperBarrierSignal s2 c3 [cmd]) = unblocked s2.
Proof.
  intros Hw handles s1 s2.
  destruct (arrive_state clients s) as (A1 & A2 & A3 & A4 & A5 & A6).
  fold s1 in A1, A2, A3, A4, A5, A6. rewrite Hw in A1. simpl in A1.
  subst s2 handles. clearbody s1. unfold RedisModule_HopperBarrierSignal,
    RedisModule_HopperBarrierCount.
  cbn [length Nat.eqb negb reply_with replies unblocked waiting_clients].
  rewrite A1, A3, A4, length_seq, app_nil_r.
  split; [reflexivity|]. split; [reflexivity|]. split; [reflexivity|].
  split; [reflexivity|]. split; [reflexivity|]. split; [|reflexivity].
  match goal with
  | |- context [run_callbacks ?x _] =>
      destruct (run_callbacks_replies clients x (next_handle s))
        as (s3 & R & P & _)
  end.
  { intros i c Hi. cbn [blocked]. apply A5, Hi. }
  exists s3. split; [exact R|]. rewrite P.
  cbn [reply_with replies]. reflexivity.
Qed.

Lemma barrier_releases_all_witness :
  unblocked
    (RedisModule_HopperBarrierSignal (arrive empty_barrier [7; 8; 9]%nat) 1
       ["HOPPER.BARRIER.SIGNAL"]%string)
  = [0; 1; 2]%nat.
Proof.
  apply (proj1 (proj2 (proj2 (barrier_releases_all empty_barrier
                                [7; 8; 9]%nat 0 1 2 "HOPPER.BARRIER.SIGNAL"
                                eq_refl)))).
Defined.

End Barrier.

(** ** The checkpoint of the ghost cache *)

Section GhostCheckpoint.

Import hopper.
Import ghost_ckpt.

Lemma read_write_u32 (x : Z) :
  0 <= x < 2 ^ 32 -> read_u32 (write_u32 x) = x.
Proof.
  intros H. unfold write_u32. cbn [read_u32].
  change (2 ^ 32) with 4294967296 in H.
  Z.div_mod_to_equations. lia.
Qed.

Lemma load_entries_saved (entries : list (Z * Z)) (rest : list Z) :
  Forall (fun h => 0 <= h.1 < 2 ^ 32 /\ 0 <= h.2 < 2 ^ 32) entries ->
  (length rest < 8)%nat ->
  load_entries
    (flat_map (fun h => write_u32 h.1 ++ write_u32 h.2) entries ++ rest)
  = entries.
Proof.
  intros He Hr. induction He as [|[k s] entries [Hk Hs] _ IH].
  - simpl. do 8 (destruct rest as [|? rest]; [reflexivity|]).
    simpl in Hr. lia.
  - cbn [flat_map fst snd].
    change (write_u32 k) with
      [k mod 256; k / 256 mod 256; k / 65536 mod 256; k / 16777216 mod 256].
    change (write_u32 s) with
      [s mod 256; s / 256 mod 256; s / 65536 mod 256; s / 16777216 mod 256].
    cbn [app load_entries].
    rewrite IH.
    pose proof (read_write_u32 k Hk) as Rk.
    pose proof (read_write_u32 s Hs) as Rs.
    unfold write_u32 in Rk, Rs. rewrite Rk, Rs. reflexivity.
Qed.

(** X27: a checkpoint that [save] has written loads again: [load] with
    the same hash of the header accesses the entries that were saved, in
    their order, also when the file ends with an incomplete entry; with
    another hash it answers -2 and accesses nothing; and without a file
    it answers -1. *)
Theorem checkpoint_round_trip (h : Z) (entries : list (Z * Z))
    (rest : list Z) (file : list Z) :
  0 <= h < 2 ^ 32 ->
  Forall (fun e => 0 <= e.1 < 2 ^ 32 /\ 0 <= e.2 < 2 ^ 32) entries ->
  (length rest < 8)%nat ->
  save true h entries = (0, Some file) ->
  load (Some (file ++ rest)) h = (0, entries)
  /\ (forall h', 0 <= h' < 2 ^ 32 -> h' <> h ->
                 load (Some (file ++ rest)) h' = (-2, []))
  /\ load None h = (-1, [])
  /\ save false h entries = (-1, None).
Proof.
  intros Hh He Hr Hs.
  assert (Hf : file
               = header_str ++ write_u32 h
                 ++ flat_map (fun e => write_u32 e.1 ++ write_u32 e.2)
                      entries).
  { unfold save in Hs. cbn [negb] in Hs. congruence. }
  subst file. clear Hs.
  assert (R : read_u32 (write_u32 h) = h) by apply read_write_u32, Hh.
  unfold load. rewrite <- !app_assoc.
  unfold header_str.
  change (write_u32 h) with
    [h mod 256; h / 256 mod 256; h / 65536 mod 256; h / 16777216 mod 256]
    in R |- *.
  cbn [app firstn skipn].
  rewrite bool_decide_eq_true_2 by reflexivity. cbn [negb].
  rewrite !take_0, !drop_0.
  rewrite R. split; [|split; [|split; reflexivity]].
  - rewrite Z.eqb_refl. cbn [negb].
    rewrite (load_entries_saved entries rest He Hr). reflexivity.
  - intros h' Hh' Hn. rewrite (proj2 (Z.eqb_neq h' h) Hn). reflexivity.
Qed.

Lemma checkpoint_round_trip_witness :
  exists file,
    save true 305419896 [(1, 119); (4294967295, 631)] = (0, Some file)
    /\ load (Some (file ++ [7; 7; 7])) 305419896
       = (0, [(1, 119); (4294967295, 631)])
    /\ load (Some (file ++ [7; 7; 7])) 305419897 = (-2, []).
Proof.
  eexists. split; [reflexivity|].
  assert (He : Forall (fun e : Z * Z =>
                         0 <= e.1 < 2 ^ 32 /\ 0 <= e.2 < 2 ^ 32)
                 [(1, 119); (4294967295, 631)])
    by (repeat constructor; simpl; lia).
  destruct (checkpoint_round_trip 305419896 [(1, 119); (4294967295, 631)]
              [7; 7; 7] _ ltac:(lia) He ltac:(simpl; lia) eq_refl)
    as (H1 & H2 & _).
  split; [exact H1|]. apply H2; lia.
Defined.

End GhostCheckpoint.

(** ** The synthesized value of a key *)

Section MockValue.

Import hopper.
Import mock.

Lemma size_append (a b : string) : size (a ++ b) = size a + size b.
Proof.
  unfold size. induction a as [|c a IH]; [reflexivity|].
  simpl. simpl in IH. lia.
Qed.

Lemma size_fill (n : nat) (c : Ascii.ascii) : size (fill n c) = Z.of_nat n.
Proof.
  unfold size. induction n as [|n IH]; [reflexivity|].
  cbn [fill String.length]. lia.
Qed.

Lemma size_setw (w : Z) (digits : string) :
  size (setw_setfill_0 w digits) = Z.max w (size digits).
Proof.
  unfold setw_setfill_0. rewrite size_append, size_fill.
  assert (0 <= size digits) by (unfold size; lia). lia.
Qed.

Lemma parse_offset_range (key : string) (s : string) :
  forall offset o : Z,
    0 <= offset <= 2 ^ 31 - 1 -> parse_offset key s offset = Ok o ->
    0 <= o <= 2 ^ 31 - 1.
Proof.
  induction s as [|c s IH]; intros offset o H0 H.
  - cbn in H. injection H as <-. exact H0.
  - cbn [parse_offset] in H.
    destruct (Ascii.eqb c _); [injection H as <-; exact H0|].
    destruct (is_digit c) eqn:D; [|discriminate].
    destruct (2 ^ 31 - 1 <? _) eqn:E; [discriminate|].
    apply Z.ltb_ge in E. unfold is_digit in D.
    apply andb_prop in D as [D1 D2].
    apply Nat.leb_le in D1, D2.
    refine (IH _ o _ H). split; [lia|exact E].
Qed.

Lemma update_mock_format_fields (k v : Z) (f : storage.mock_format_t) :
  0 <= k < 2 ^ 32 -> 0 <= v < 2 ^ 32 ->
  storage.update_mock_format k v = Ok f ->
  storage.key_size f = k /\ storage.val_size f = v
  /\ size (to_string v) <= storage.size_len f
  /\ 1 <= storage.offset_len f <= 10
  /\ 0 <= storage.v_pad_len f
  /\ 3 + storage.size_len f + storage.offset_len f + storage.v_pad_len f = v.
Proof.
  intros Hk Hv.
  pose proof (to_string_length k Hk) as Lk.
  pose proof (to_string_length v Hv) as Lv.
  set (sl := Z.max (size (to_string k)) (size (to_string v))).
  assert (Hsl : 1 <= sl <= 10) by (subst sl; lia).
  assert (Hsv : size (to_string v) <= sl) by (subst sl; lia).
  unfold storage.update_mock_format. fold sl.
  rewrite (u32_small sl) by (change (2 ^ 32) with 4294967296; lia).
  set (m := Z.min k v).
  assert (Hm : 0 <= m < 2 ^ 32) by (subst m; lia).
  set (least := i32 (u32 (u32 (m - 3) - sl))).
  assert (Hleast : (m <= 3 + sl -> least <= 0)
                   /\ (3 + sl < m -> m < 2 ^ 31 + 3 + sl ->
                       least = m - 3 - sl)
                   /\ (2 ^ 31 + 3 + sl <= m -> least < 0)).
  { subst least. unfold i32, u32.
    change (2 ^ 31) with 2147483648 in *.
    change (2 ^ 32) with 4294967296 in *.
    repeat split; intros; Z.div_mod_to_equations; lia. }
  destruct Hleast as (Hl1 & Hl2 & Hl3).
  assert (Hpad : forall x ol,
            m <= x < 2 ^ 32 -> 3 + sl < m -> 1 <= ol <= 10 ->
            ol <= m - 3 - sl ->
            let p := i32 (u32 (u32 (u32 (x - 3) - sl) - ol)) in
            (x - 3 - sl - ol < 2 ^ 31 -> p = x - 3 - sl - ol)
            /\ (2 ^ 31 <= x - 3 - sl - ol -> p < 0)).
  { intros x ol Hx H1 H2 H3 p. subst p. unfold i32, u32.
    change (2 ^ 31) with 2147483648 in *.
    change (2 ^ 32) with 4294967296 in *.
    split; intros; Z.div_mod_to_equations; lia. }
  change (2 ^ 31) with 2147483648 in *.
  change (2 ^ 32) with 4294967296 in *.
  destruct (least <=? 0) eqn:E0; [discriminate|].
  apply Z.leb_gt in E0.
  assert (M1 : 3 + sl < m) by lia.
  assert (M2 : m < 2147483648 + 3 + sl) by lia.
  rewrite (Hl2 M1 M2) in *.
  set (ol := Z.min (m - 3 - sl) 10) in *.
  assert (Hol : 1 <= ol <= 10) by (subst ol; lia).
  rewrite (u32_small ol) by (change (2 ^ 32) with 4294967296; lia).
  destruct (Hpad k ol ltac:(subst m; lia) M1 Hol ltac:(subst ol; lia))
    as [Pk1 Pk2].
  destruct (Hpad v ol ltac:(subst m; lia) M1 Hol ltac:(subst ol; lia))
    as [Pv1 Pv2].
  destruct (i32 (u32 (u32 (u32 (k - 3) - sl) - ol)) <? 0) eqn:Ek;
    [discriminate|].
  destruct (i32 (u32 (u32 (u32 (v - 3) - sl) - ol)) <? 0) eqn:Ev;
    [discriminate|].
  apply Z.ltb_ge in Ek, Ev.
  rewrite Pk1 in * by lia. rewrite Pv1 in * by lia.
  intros F. injection F as <-.
  cbn [storage.key_size storage.val_size storage.size_len
       storage.offset_len storage.k_pad_len storage.v_pad_len].
  rewrite !u32_small by (change (2 ^ 32) with 4294967296; subst m; lia).
  subst m. lia.
Qed.

Lemma size_String (c : Ascii.ascii) (s : string) :
  size (String c s) = 1 + size s.
Proof. unfold size. cbn [String.length]. lia. Qed.

(** X28: the value that [make_mock_val] synthesizes for a key has the
    layout of the format: the mark V, the offset of the key in the offset
    field, the mark s, the value size in the size field, the padding and
    the mark L.  It has exactly [val_size] bytes whenever the offset of
    the key fits its field, and more bytes otherwise.  A key of another
    length than [key_size] is refused. *)
Theorem make_mock_val_layout (k v : Z) (f : storage.mock_format_t)
    (key : string) :
  0 <= k < 2 ^ 32 -> 0 <= v < 2 ^ 32 ->
  storage.update_mock_format k v = Ok f ->
  (size key <> k ->
   make_mock_val f key
   = Err (LogicError ("Incorrect KV format: key length mismatch: " ++ key)))
  /\ (forall val,
        make_mock_val f key = Ok val ->
        exists o rest,
          parse_offset key (utils.rstr.advance key) 0 = Ok o
          /\ 0 <= o <= 2 ^ 31 - 1
          /\ size key = k
          /\ utils.rstr.char_at_0 key = Ascii.ascii_of_nat 75
          /\ val
             = String (Ascii.ascii_of_nat 86)
                 (setw_setfill_0 (storage.offset_len f) (to_string o)
                  ++ String (Ascii.ascii_of_nat 115) rest)
          /\ size val = v + (Z.max (storage.offset_len f) (size (to_string o))
                             - storage.offset_len f)
          /\ (o < 10 ^ storage.offset_len f -> size val = v)).
Proof.
  intros Hk Hv Hf.
  destruct (update_mock_format_fields k v f Hk Hv Hf)
    as (F1 & F2 & F3 & F4 & F5 & F6).
  split.
  - intros Hs. unfold make_mock_val. rewrite F1.
    rewrite (proj2 (Z.eqb_neq _ _) Hs). reflexivity.
  - intros val H. unfold make_mock_val in H. rewrite F1 in H.
    destruct (size key =? k) eqn:Es; [|discriminate].
    apply Z.eqb_eq in Es. cbn [negb] in H.
    destruct (Ascii.eqb (utils.rstr.char_at_0 key) _) eqn:Ec; [|discriminate].
    apply Ascii.eqb_eq in Ec. cbn [negb] in H.
    destruct (parse_offset key (utils.rstr.advance key) 0) as [o|] eqn:Ep;
      [|discriminate].
    cbn [mbind res_bind] in H. injection H as <-.
    assert (R0 : 0 <= 0 <= 2 ^ 31 - 1) by (split; [lia|discriminate]).
    pose proof (parse_offset_range _ _ _ _ R0 Ep) as R.
    eexists o, _. split; [reflexivity|]. split; [exact R|].
    split; [exact Es|]. split; [exact Ec|]. split; [reflexivity|].
    match goal with
    | |- size ?x = ?y /\ _ => assert (L : size x = y)
    end.
    { rewrite size_String, size_append, size_setw, size_String.
      rewrite !size_append, size_setw, size_fill, size_String.
      change (size EmptyString) with 0.
      rewrite F2. lia. }
    split; [exact L|].
    intros Ho. rewrite L.
    destruct (to_string_from_length 19 o "" ltac:(lia)) as (d & Ld & _ & K).
    change (size "") with 0 in Ld. fold (to_string o) in Ld.
    specialize (K (storage.offset_len f) ltac:(lia) Ho). lia.
Qed.

Lemma make_mock_val_layout_witness :
  exists val,
    make_mock_val default_mock_format "K0000000042s016L" = Ok val
    /\ size val = 500.
Proof.
  destruct (make_mock_val default_mock_format "K0000000042s016L")
    as [val|] eqn:E; [|vm_compute in E; discriminate E].
  exists val. split; [reflexivity|].
  destruct (proj2 (make_mock_val_layout 16 500 default_mock_format
                     "K0000000042s016L" ltac:(lia) ltac:(lia) eq_refl)
              val E)
    as (o & rest & P & _ & _ & _ & _ & _ & S).
  apply S. vm_compute in P. injection P as <-. reflexivity.
Defined.

End MockValue.

(** ** The mocked storage *)

Section MockDynamo.

Import hopper.
Import mock_dynamo.

Variable hash : string -> Z.

(** X29: the mocked storage with an image answers a GET with a value of
    the size that the last SET of the key has stored, modulo [2^32]: when
    the SET and then the GET are ready, [process_mock_dynamo] completes
    the SET with OK, stores the size under the hash of the key, and
    completes the GET with OK and as many bytes v; each wakes its client,
    and the GET consumes its read capacity less the prepaid unit.  A task
    that is not ready is left in the queue. *)
Theorem mock_image_round_trip (m : mstate) (image : gmap Z Z)
    (ts1 ts2 now1 now2 : Z) (t1 t2 : nat) (a1 : TaskSet.t) (a2 : TaskGet.t)
    (q : list (Z * task)) :
  mock_image m = Some image ->
  mock_dynamo_queue m = (ts1, SET t1) :: (ts2, GET t2) :: q ->
  set_tasks (runtime m) !! t1 = Some a1 ->
  get_tasks (runtime m) !! t2 = Some a2 ->
  TaskGet.key a2 = TaskSet.key a1 ->
  ts1 <= now1 -> ts2 <= now2 ->
  let n := u32 (size (TaskSet.value a1)) in
  let value := mock.fill (Z.to_nat n) (Ascii.ascii_of_nat 118) in
  (forall now, now < ts1 -> process_mock_dynamo hash now m = Ok (false, m))
  /\ exists m1 m2,
       process_mock_dynamo hash now1 m = Ok (true, m1)
       /\ process_mock_dynamo hash now2 m1 = Ok (true, m2)
       /\ mock_image m2
          = Some (<[u32 (hash (TaskSet.key a1)) := n]> image)
       /\ set_tasks (runtime m2) !! t1
          = Some (TaskSet.complete a1 OK (TaskSet.value a1))
       /\ get_tasks (runtime m2) !! t2 = Some (TaskGet.complete a2 OK value)
       /\ size value = n
       /\ unblocked (runtime m2)
          = unblocked (runtime m)
            ++ [(TaskSet.client a1, PrivTaskSet t1);
                (TaskGet.client a2, PrivTaskGet t2)]
       /\ mock_dynamo_queue m2 = q
       /\ keyspace (runtime m2) = keyspace (runtime m)
       /\ rate.time_frame_progress (rcu_rate_limiter m2)
          = u64 (rate.time_frame_progress (rcu_rate_limiter m)
                 + u32 (u32 (utils.kv_to_rcu (size (TaskGet.key a2)) n) - 1)).
Proof.
  intros Hi Hq H1 H2 Hk Hn1 Hn2 n value. split.
  - intros now Hnow. unfold process_mock_dynamo. rewrite Hq.
    rewrite (proj2 (Z.ltb_lt _ _) Hnow). reflexivity.
  - assert (Sv : size value = n).
    { subst value. rewrite size_fill. apply Z2Nat.id.
      subst n. unfold u32. apply Z.mod_pos_bound. lia. }
    eexists _, _. split.
    { unfold process_mock_dynamo. rewrite Hq.
      rewrite (proj2 (Z.ltb_ge _ _) Hn1). rewrite H1, Hi. reflexivity. }
    split.
    { unfold process_mock_dynamo.
      cbn [mock_dynamo_queue runtime mock_image].
      rewrite (proj2 (Z.ltb_ge _ _) Hn2).
      cbn [unblock_client set_unblocked set_set_tasks get_tasks].
      rewrite H2. cbn [mbind res_bind]. rewrite Hk.
      rewrite lookup_insert_eq. reflexivity. }
    cbn [get_done mock_image runtime mock_dynamo_queue rcu_rate_limiter
         rate.consume rate.time_frame_progress unblock_client set_unblocked
         set_set_tasks set_get_tasks get_tasks set_tasks unblocked keyspace
         TaskGet.complete TaskGet.client TaskGet.key TaskGet.value].
    split; [reflexivity|]. split; [apply lookup_insert_eq|].
    split; [apply lookup_insert_eq|]. split; [exact Sv|].
    split; [rewrite <- app_assoc; reflexivity|].
    split; [reflexivity|]. split; [reflexivity|].
    unfold rcu_cost. cbn [TaskGet.complete TaskGet.key TaskGet.value].
    fold n. fold value. rewrite Sv. reflexivity.
Qed.

End MockDynamo.

Lemma mock_image_round_trip_witness :
  exists m1 m2,
    hopper.mock_dynamo.process_mock_dynamo (fun _ => 77) 5 example_mock
    = Ok (true, m1)
    /\ hopper.mock_dynamo.process_mock_dynamo (fun _ => 77) 6 m1
       = Ok (true, m2)
    /\ hopper.get_tasks (hopper.mock_dynamo.runtime m2) !! 3%nat
       = Some (hopper.TaskGet.mk hopper.OK 2 "k" "vvv" []).
Proof.
  destruct (proj2 (mock_image_round_trip (fun _ => 77) example_mock ∅ 5 6 5 6
                     1 3 (hopper.TaskSet.make 0 "k" "abc")
                     (hopper.TaskGet.make 2 "k") []
                     eq_refl eq_refl eq_refl eq_refl eq_refl
                     ltac:(lia) ltac:(lia)))
    as (m1 & m2 & H1 & H2 & _ & _ & H5 & _).
  exists m1, m2. split; [exact H1|]. split; [exact H2|exact H5].
Defined.
